(* ===== verification/_CoqProject ===== *)
-Q . S2P
Prelude.v
Endian.v
Buffer.v
Framing.v
Interfaces.v
Session.v
ClientCodec.v
Text.v
RpcCodec.v
RpcChannel.v
StringMap.v
Http.v
Limiter.v
HttpServer.v
Net.v
Protobuf.v
Messages.v
Services.v
MapMessages.v
Gate.v
Redis.v
Keys.v
Json.v
JsonSpec.v
JsonLexer.v
JsonScan.v
JsonParser.v
JsonCorrect.v
Logic.v
Job.v
Pipeline.v
LogTime.v
LogFormat.v
LogFile.v
LogQueue.v
LogTerminal.v
Toml.v
TomlParser.v
TomlTables.v
TomlTotal.v
TomlConfig.v
Startup.v
Lifecycle.v
Fmt.v
LogCall.v
