(* ===== verification/Prelude.v ===== *)
(** * cppim: a verification development of the instant-messaging servers

    cppim is three processes.  A _gate_ holds the TCP connections of the
    clients; the _logic_ server knows, in Redis, which user is on which gate,
    and offers the HTTP interface for pushing messages; the _job_ server takes
    the pushes the logic server put into Kafka and hands them to the gate.
<<
      client --frames--> gate --RPC Connect/Heartbeat/Disconnect--> logic
        ^                 ^                                      |     |
        |                 | RPC PushMsg/Broadcast/BroadcastRoom  |   Redis
        +--- frames ------+------------ job <------ Kafka <------+
                                                                 ^
                                          HTTP /push/{keys,mids,room,all}
>>
    Every process is built on the same networking library: an asio event loop
    per thread, a [Session] per connection with a receive [Buffer] and a queue
    of unsent messages, and codecs that cut the received bytes into messages.

    ** Files

    Shared:
    - [Prelude] bytes, machine integers ([u64], [s32], ...), the error monad
      [res] with its notation [let*], [foldM], list lemmas, [zlia].
      [Err e] is how a call fails: a failed assertion, an exception that leaves
      the modelled code, a deadlock, or undefined behaviour ([UB]: a read
      outside a vector, a null pointer; [ReadPastEnd]: a read behind the end
      of a line).
    - [Endian], [Buffer]: src/common/EndianTransfer.h, src/common/Buffer.h.
      [represents b c] relates a buffer to the byte string it holds.
    - [Text], [StringMap]: src/common/util.hpp, and what the sources use of the
      C and C++ libraries on strings and ordered maps.
    - [Framing]: the specification of a length-prefixed stream, and the theorem
      that how the network cuts it does not matter.  Both codecs refine it.
    - [Interfaces]: [SessionOps]/[SessionLaws], what a codec or a server may
      assume of a session; [Session] proves it of the write queue.

    Networking, src/net:
    - [Session] (Session.cc): [Writer], a step relation that interleaves the
      threads that send with the loop thread; [Reader]; [Life].
    - [Net]: LoopMgr.cc, TcpServer.cc and Acceptor.cc as state machines.

    Protocols:
    - [ClientCodec] (src/gateserver/ClientCodec.h): the clients' protocol.
    - [RpcCodec], [RpcChannel] (src/rpc): frames, calls and responses.
    - [Protobuf], [Messages], [Services] (src/protocol): the generated message
      and service classes, over an abstract protobuf runtime; [MapMessages] the
      messages with a map field.
    - [Http], [HttpServer] (src/http), [Limiter] (src/rate): parser, printer,
      routing, and the adaptive limit on the requests in flight.

    Servers:
    - [Gate] (src/gateserver), [Redis] (src/redis), [Keys], [Logic]
      (src/logicserver), [Job] (src/jobserver).
    - The tokens of the clients are JSON texts, read with the vendored
      src/opt/nlohmann/json.hpp: [Json] the values and what the logic server
      does with them, [JsonSpec] the grammar of the texts, [JsonLexer] and
      [JsonParser] the classes [lexer] and [parser], [JsonScan] and
      [JsonCorrect] the proofs that they implement the grammar.
    - [Pipeline]: the three together, a login and a push from end to end.
    - The log the servers write (src/common/log.cpp, hourly_file_sink.h, over
      the vendored spdlog): [LogTime] the calendar, [LogFormat] the formatter of
      a line, [LogFile] the file of the hour, [LogQueue] the ring and the
      asynchronous logger, an interleaving of the threads that log with the
      workers, [LogTerminal] the terminal in front of the file.
    - The configuration files (src/bin/config, read with the vendored
      src/opt/cpptoml/include/cpptoml.h): [Toml] the values and tables,
      [TomlParser] the class [parser], [TomlTables] the tables it builds,
      [TomlTotal] that it ends on every text, [TomlConfig] that it reads the files of this kind as meant; [Startup] the
      three [main] functions up to the start of their servers.
    - The texts of the log (the vendored src/opt/spdlog/include/spdlog/fmt):
      [Fmt] the parser of format strings and the writing of arguments,
      [LogCall] the LOG macros and the error handler of the logger.
    - [Lifecycle]: the event loop (src/net/Loop.cc), starting and stopping on
      every level, and what becomes of the threads at the end of [main].

    A class is a record of its data members, with the members' names; a member
    function is a definition with the function's name, from the state to the
    result and the new state.  Objects that several owners share (responses,
    closures, user sessions) live in maps and are named by their key there, so
    an update through one owner is seen by the others.

    ** Theorems

    - End to end ([Pipeline]): a client that logs in is registered at its gate
      and in Redis; a push by user id, to a room or to all that the limiter
      admits is answered, and reaches each connection once for every key it has
      (one, if it authenticated once) and nobody else; over the limit it is
      refused and does nothing.
    - Transport: what is sent on a session is written to the wire in order,
      under every interleaving, provided writes are not short; the client and
      RPC decoders refine [Framing.drain] and invert their encoders, for every
      split of the stream.
    - RPC: a call reaches the service and its response completes it, once.
    - Refinement and equivalence: the buffer refines a byte queue; the network
      bytes do not depend on the host; the HTTP parser agrees with its
      specification on strings and inverts the printer of a request, as far as
      its Content-Length goes; the HTTP server answers a request in the way that
      its path, the limiter and its handler say, or waits for the rest of it.
    - Connections: a client session reconnects for ever; a session disconnects
      once.
    - Servers: the gate's channels and rooms are those of the live sessions;
      broadcasts reach exactly them; the job server forwards the records in
      order; connecting and disconnecting leaves Redis as it was; keys of one
      server never repeat.
    - Messages: serialization has the announced size and parses back, the
      serializers to arrays and to streams agree, and sorted maps serialize
      alike whatever their hash order.
    - JSON: on every text the parser returns or throws; it accepts exactly the
      texts of the grammar, with the grammar's value, which is well typed.
    - Logging: under every interleaving the messages that were posted are in
      the file, with a worker or in the queue; a logger at rest has written
      each to the file of its hour, in order; while files can be opened it never
      gets stuck or fails; the caches of the formatter do not show, and the ring is a bounded queue; the terminal
      shows the line that the file gets, with the level in color.
    - Formatting: every format string with every list of arguments gives a text or a
      format_error, integers are written as std::to_string writes them and
      read back in every base, and a LOG call posts its text with the arguments
      filled in, or nothing where there are too few or one is a null string.
    - Configuration: the parser ends on every text, and nothing worse happens
      than a read behind the end of a line; a file of tables and entries with
      strings, decimal integers and booleans is read as the tables its lines
      describe, and refused when a name comes twice; each program hands its
      server the settings of its file, in whatever order and company they are.
    - Lifecycle: gate and job server end with no thread left, under every
      interleaving and in whatever order a loop runs its handlers; the logic
      server does not.
    - Behaviour that is not what the code means to do, proved of the same
      definitions: short writes lose bytes, a short client frame stops the
      server, a late log message is filed wrongly, a failed Redis command leaves
      the mutex locked, a limiter slot leaks, and the others of the manifest's
      findings.

    ** Bounds and fuel

    The decoder loops take fuel: the codecs one unit per byte received and one
    more, the HTTP parser likewise; each round consumes a byte, and the
    refinement theorems show that the result is never [OutOfFuel].  The loops
    of the JSON lexer and parser have two units more than the text has bytes;
    each round reads a character, or a token, and [json_parse_total] shows that
    this is enough.  Likewise the parser of TOML: the loop over the lines has
    more units than the text can have lines, a value four for every byte that is
    left, and [toml_parse_total] shows that neither runs out.  The loop over a
    format string has one unit more than the string has bytes
    ([format_is_defined]), those over the digits of a number 20 decimal or 64
    binary digits.  The key
    generator reads the system clock in a loop: the readings to come are its
    input, and [keys_returned_when_clock_ticks] shows that it returns when they
    contain a later one.  Integers are reduced where the code stores or
    converts them; message sizes are bounded by the RPC frame limit, and
    buffers by [max_size].

    ** Parameters

    Code that is not in the repository is a parameter, with what it documents
    as the laws of a class: the protobuf runtime ([WireFormat]/[WireLaws],
    instance [Leb128]) and its descriptors ([Services.Descriptors]), hiredis
    and Redis ([Hiredis]/[RedisLaws], instance [Store]), librdkafka
    ([RdKafkaProducer]/[ProducerLaws], [RdKafkaConsumer]), clocks and random
    numbers (arguments).  Each has a concrete instance, used by the witnesses.

    ** Not modelled

    Handlers of the gate and of the logic server are atomic here: the code runs
    them on several threads, and takes no lock around the gate's maps.  Time
    does not pass in Redis: an entry with a time to live stays.
    The log's time zone has a fixed offset, and what is written to a file is on
    the disk; the calls of the LOG macros in the other components are left out
    of their models: [LogCall] is about any of them.
    Not modelled are the signal handlers of the [main] functions and their loops
    that give memory back; asio's operations on sockets and their options;
    of fmt the floating-point numbers, named arguments
    and wide characters; of spdlog, nlohmann/json and cpptoml what the program
    does not use (for the second callbacks, printing, the binary formats,
    pointers and patches, for the last the writer, qualified keys and cloning);
    HttpClient.h, which includes a file that does not exist; the sample clients
    and tests; of the generated code arenas, descriptors and reflection.

    ** Plan

    Next: the handlers of the gate interleaved on their threads; the delivery
    reports of a push from end to end. *)

From Stdlib Require Import ZArith Lia.
From stdpp Require Import base list gmap strings countable.
Local Open Scope Z_scope.

(** ** Bytes and byte strings

    A C++ [char] is a [Byte.byte], a [std::string] or a block of memory a
    list of them. *)

Abbreviation byte := Byte.byte.
Abbreviation bytes := (list Byte.byte).

#[export] Instance byte_eq_dec : EqDecision byte := Byte.byte_eq_dec.

#[export] Program Instance byte_countable : Countable byte :=
  inj_countable Byte.to_N Byte.of_N _.
Next Obligation. intros b. apply Byte.of_to_N. Qed.

(** The bytes of a string literal of the source. *)
Definition str (s : String.string) : bytes := String.list_byte_of_string s.

Definition byte_to_Z (b : byte) : Z := Z.of_N (Byte.to_N b).
Definition byte_of_Z (z : Z) : byte :=
  match Byte.of_N (Z.to_N (z mod 256)) with Some b => b | None => Byte.x00 end.

(** ** Machine integers: a w-bit integer is a [Z], reduced where the code
    stores or converts it. *)
Definition uwrap (w z : Z) : Z := z mod 2 ^ w.
Definition swrap (w z : Z) : Z := (z + 2 ^ (w - 1)) mod 2 ^ w - 2 ^ (w - 1).

Abbreviation u16 := (uwrap 16).
Abbreviation u32 := (uwrap 32).
Abbreviation u64 := (uwrap 64).
Abbreviation s8 := (swrap 8).
Abbreviation s16 := (swrap 16).
Abbreviation s32 := (swrap 32).
Abbreviation s64 := (swrap 64).

(** ** Outcomes

    A C++ call ends normally, or with an assertion failure (the Debug build
    that build/build.sh makes keeps [assert]), an exception, a deadlock, by
    [std::terminate], or it leaves the defined behaviour of the language ([UB]).  [OutOfFuel] is not
    an outcome of the code: every loop modelled with fuel has a theorem that
    it never shows, and in Keys.v it says that the readings of the clock given
    to a call are used up. *)
Inductive exn :=
  | AssertFailed
  | LengthError
  | InvalidArgument
  | OutOfRange
  | BadFunctionCall
  | SystemError                 (** [asio::system_error] *)
  | Deadlock
  | Terminate
  | UB
  | ReadPastEnd                 (** undefined too: a read behind the end of a string *)
  | OutOfFuel.

Inductive res (A : Type) :=
  | Ok (a : A)
  | Err (e : exn).
Arguments Ok {A} a.
Arguments Err {A} e.

Definition bind {A B} (c : res A) (k : A -> res B) : res B :=
  match c with Ok a => k a | Err e => Err e end.

Definition assert (c : bool) : res unit := if c then Ok tt else Err AssertFailed.

Declare Scope cpp_scope.
Delimit Scope cpp_scope with cpp.
Notation "'let*' p ':=' c 'in' k" := (bind c (fun p => k))
  (at level 10, p pattern, c at level 100, k at level 200,
   format "'[v' 'let*'  p  ':='  c  'in' '/' k ']'") : cpp_scope.
Notation "c1 '>>' c2" := (bind c1 (fun _ => c2))
  (at level 100, right associativity) : cpp_scope.
Open Scope cpp_scope.

#[export] Instance exn_eq_dec : EqDecision exn.
Proof. solve_decision. Defined.

Lemma bind_Ok {A B} (a : A) (k : A -> res B) : bind (Ok a) k = k a.
Proof. reflexivity. Qed.

Lemma bind_Ok_inv {A B} (c : res A) (k : A -> res B) (b : B) :
  bind c k = Ok b -> exists a, c = Ok a /\ k a = Ok b.
Proof. destruct c; simpl; [eauto | discriminate]. Qed.

Lemma bind_assoc {A B C} (c : res A) (f : A -> res B) (g : B -> res C) :
  bind (bind c f) g = bind c (fun a => bind (f a) g).
Proof. by destruct c. Qed.

Lemma assert_true c : c = true -> assert c = Ok tt.
Proof. by intros ->. Qed.

(** Runs [f] over a list, left to right, threading a state. *)
Fixpoint foldM {A S} (f : A -> S -> res S) (l : list A) (s : S) : res S :=
  match l with
  | [] => Ok s
  | a :: l => let* s' := f a s in foldM f l s'
  end.

Lemma foldM_app {A S} (f : A -> S -> res S) l1 l2 s :
  foldM f (l1 ++ l2) s = (let* s' := foldM f l1 s in foldM f l2 s').
Proof.
  revert s. induction l1 as [|a l1 IH]; intros s; simpl; [done|].
  destruct (f a s); simpl; auto.
Qed.

(** Two outcomes agree: related values, or the same failure. *)
Definition res_rel {A B} (R : A -> B -> Prop) (x : res A) (y : res B) : Prop :=
  match x, y with
  | Ok a, Ok b => R a b
  | Err e, Err e' => e = e'
  | _, _ => False
  end.

(** Pairs whose first components are related and whose second are equal. *)
Definition fst_rel {A B W} (R : A -> B -> Prop) (x : A * W) (y : B * W) : Prop :=
  R x.1 y.1 /\ x.2 = y.2.

Lemma res_rel_bind {A B A' B'} (R : A -> B -> Prop) (R' : A' -> B' -> Prop) x y f g :
  res_rel R x y -> (forall a b, R a b -> res_rel R' (f a) (g b)) ->
  res_rel R' (bind x f) (bind y g).
Proof. destruct x, y; simpl; naive_solver. Qed.

Lemma res_rel_Ok_r {A B} (R : A -> B -> Prop) x b :
  res_rel R x (Ok b) -> exists a, x = Ok a /\ R a b.
Proof. destruct x; simpl; naive_solver. Qed.

Lemma res_rel_eq {A} (x y : res A) : res_rel eq x y <-> x = y.
Proof. destruct x, y; simpl; naive_solver. Qed.

(** ** Lists indexed by [Z], as the code's [size_t] offsets index memory. *)
Definition zlen {A} (l : list A) : Z := Z.of_nat (length l).
Definition ztake {A} (n : Z) (l : list A) : list A := take (Z.to_nat n) l.
Definition zdrop {A} (n : Z) (l : list A) : list A := drop (Z.to_nat n) l.

(** [n] elements from offset [i]. *)
Definition slice {A} (l : list A) (i n : Z) : list A := ztake n (zdrop i l).

(** The block [d] copied over [l] at offset [i]. *)
Definition overwrite {A} (l : list A) (i : Z) (d : list A) : list A :=
  ztake i l ++ d ++ zdrop (i + zlen d) l.

#[global] Arguments zlen : simpl never.
#[global] Arguments ztake : simpl never.
#[global] Arguments zdrop : simpl never.
#[global] Arguments slice : simpl never.
#[global] Arguments overwrite : simpl never.
#[global] Arguments uwrap : simpl never.
#[global] Arguments swrap : simpl never.
#[global] Arguments byte_to_Z : simpl never.
#[global] Arguments byte_of_Z : simpl never.

Section zlist.
Context {A : Type}.
Implicit Types l : list A.

Lemma zlen_nonneg l : 0 <= zlen l.
Proof. unfold zlen. lia. Qed.

Lemma zlen_nil : zlen (@nil A) = 0.
Proof. done. Qed.

Lemma zlen_cons x l : zlen (x :: l) = 1 + zlen l.
Proof. unfold zlen. simpl. lia. Qed.

Lemma zlen_app l1 l2 : zlen (l1 ++ l2) = zlen l1 + zlen l2.
Proof. unfold zlen. rewrite length_app. lia. Qed.

Lemma zlen_replicate n (x : A) : zlen (replicate n x) = Z.of_nat n.
Proof. unfold zlen. by rewrite length_replicate. Qed.

Lemma zlen_rev l : zlen (rev l) = zlen l.
Proof. unfold zlen. by rewrite length_rev. Qed.

Lemma zlen_ztake n l : 0 <= n <= zlen l -> zlen (ztake n l) = n.
Proof. unfold zlen, ztake. rewrite length_take. lia. Qed.

Lemma zlen_zdrop n l : 0 <= n <= zlen l -> zlen (zdrop n l) = zlen l - n.
Proof. unfold zlen, zdrop. rewrite length_drop. lia. Qed.

Lemma ztake_zdrop n l : ztake n l ++ zdrop n l = l.
Proof. apply take_drop. Qed.

Lemma ztake_app_exact l1 l2 n : n = zlen l1 -> ztake n (l1 ++ l2) = l1.
Proof. intros ->. unfold ztake, zlen. rewrite Nat2Z.id. by rewrite take_app_length. Qed.

Lemma zdrop_app_exact l1 l2 n : n = zlen l1 -> zdrop n (l1 ++ l2) = l2.
Proof. intros ->. unfold zdrop, zlen. rewrite Nat2Z.id. by rewrite drop_app_length. Qed.

Lemma ztake_app_le l1 l2 n : n <= zlen l1 -> ztake n (l1 ++ l2) = ztake n l1.
Proof. unfold ztake, zlen. intros. apply take_app_le. lia. Qed.

Lemma zdrop_app_le l1 l2 n : n <= zlen l1 -> zdrop n (l1 ++ l2) = zdrop n l1 ++ l2.
Proof. unfold zdrop, zlen. intros. apply drop_app_le. lia. Qed.

Lemma zdrop_app_ge l1 l2 n : zlen l1 <= n -> zdrop n (l1 ++ l2) = zdrop (n - zlen l1) l2.
Proof.
  unfold zdrop, zlen. intros. rewrite drop_app_ge by lia. f_equal. lia.
Qed.

Lemma ztake_all l n : zlen l <= n -> ztake n l = l.
Proof. unfold ztake, zlen. intros. apply take_ge. lia. Qed.

Lemma zdrop_all l n : zlen l <= n -> zdrop n l = [].
Proof. unfold zdrop, zlen. intros. apply drop_ge. lia. Qed.

Lemma ztake_0 l n : n <= 0 -> ztake n l = [].
Proof. unfold ztake. intros. replace (Z.to_nat n) with 0%nat by lia. done. Qed.

Lemma zdrop_0 l n : n <= 0 -> zdrop n l = l.
Proof. unfold zdrop. intros. replace (Z.to_nat n) with 0%nat by lia. done. Qed.

Lemma zdrop_zdrop l n m : 0 <= n -> 0 <= m -> zdrop n (zdrop m l) = zdrop (m + n) l.
Proof. intros. unfold zdrop. rewrite drop_drop. f_equal. lia. Qed.

Lemma slice_app_mid (pre l post : list A) i n :
  i = zlen pre -> n = zlen l -> slice (pre ++ l ++ post) i n = l.
Proof. intros -> ->. unfold slice. by rewrite zdrop_app_exact, ztake_app_exact. Qed.

Lemma slice_app_r (l1 l2 : list A) i n :
  zlen l1 <= i -> slice (l1 ++ l2) i n = slice l2 (i - zlen l1) n.
Proof. intros. unfold slice. by rewrite zdrop_app_ge. Qed.

Lemma slice_app_l (l1 l2 : list A) i n :
  0 <= i -> 0 <= n -> i + n <= zlen l1 -> slice (l1 ++ l2) i n = slice l1 i n.
Proof.
  intros. unfold slice. rewrite zdrop_app_le by lia.
  apply ztake_app_le. rewrite zlen_zdrop; lia.
Qed.

Lemma zlen_slice l i n : 0 <= i -> 0 <= n -> i + n <= zlen l -> zlen (slice l i n) = n.
Proof. intros. unfold slice. rewrite zlen_ztake; [done|]. rewrite zlen_zdrop; lia. Qed.

Lemma overwrite_app (pre old d post : list A) i :
  i = zlen pre -> zlen old = zlen d ->
  overwrite (pre ++ old ++ post) i d = pre ++ d ++ post.
Proof.
  intros -> Hd. unfold overwrite.
  rewrite ztake_app_exact by done. do 2 f_equal.
  rewrite zdrop_app_ge by (pose proof (zlen_nonneg d); lia).
  apply zdrop_app_exact. lia.
Qed.
End zlist.

Lemma zlen_map {A B} (f : A -> B) l : zlen (map f l) = zlen l.
Proof. unfold zlen. by rewrite length_map. Qed.

Create Rewrite HintDb zlist.
#[export] Hint Rewrite @zlen_app @zlen_cons @zlen_nil @zlen_rev @zlen_replicate @zlen_map : zlist.

(** Linear arithmetic over list lengths: pushes [zlen] through the list
    constructors, adds that lengths are not negative, and calls [lia]. *)
Ltac zlen_pos :=
  repeat match goal with
  | H : context [ @zlen ?A ?l ] |- _ =>
      lazymatch goal with
      | _ : 0 <= zlen l |- _ => fail
      | _ => pose proof (@zlen_nonneg A l)
      end
  | |- context [ @zlen ?A ?l ] =>
      lazymatch goal with
      | _ : 0 <= zlen l |- _ => fail
      | _ => pose proof (@zlen_nonneg A l)
      end
  end.
Ltac zlia := autorewrite with zlist in *; zlen_pos; lia.

(** Runs the next bind of a monadic goal, and nothing else. *)
Ltac mstep := cbn [bind].

(** Splits the boolean guards of the code met in a goal or a hypothesis. *)
Ltac split_guards :=
  repeat match goal with
  | |- context [ Z.ltb ?a ?b ] => destruct (Z.ltb_spec a b)
  | |- context [ Z.leb ?a ?b ] => destruct (Z.leb_spec a b)
  | |- context [ Z.eqb ?a ?b ] => destruct (Z.eqb_spec a b)
  end.

(** ** Wrapping is the identity in range. *)
Lemma uwrap_small w z : 0 <= z < 2 ^ w -> uwrap w z = z.
Proof. apply Z.mod_small. Qed.

Lemma uwrap_range w z : 0 <= w -> 0 <= uwrap w z < 2 ^ w.
Proof. intros. apply Z.mod_pos_bound, Z.pow_pos_nonneg; lia. Qed.

Lemma swrap_small w z : 0 < w -> - 2 ^ (w - 1) <= z < 2 ^ (w - 1) -> swrap w z = z.
Proof.
  intros Hw Hz. unfold swrap. rewrite Z.mod_small; [lia|].
  replace (2 ^ w) with (2 * 2 ^ (w - 1)); [lia|].
  rewrite <- Z.pow_succ_r by lia. f_equal. lia.
Qed.

Lemma swrap_range w z : 0 < w -> - 2 ^ (w - 1) <= swrap w z < 2 ^ (w - 1).
Proof.
  intros Hw. unfold swrap.
  pose proof (Z.mod_pos_bound (z + 2 ^ (w - 1)) (2 ^ w)) as H.
  assert (2 ^ w = 2 * 2 ^ (w - 1)) as E.
  { rewrite <- Z.pow_succ_r by lia. f_equal. lia. }
  pose proof (Z.pow_pos_nonneg 2 (w - 1)). lia.
Qed.

Lemma swrap_uwrap w z : 0 < w -> swrap w (uwrap w z) = swrap w z.
Proof.
  intros. unfold swrap, uwrap. f_equal.
  rewrite Zplus_mod_idemp_l. done.
Qed.

Lemma uwrap_swrap w z : 0 < w -> uwrap w (swrap w z) = uwrap w z.
Proof.
  intros. unfold swrap, uwrap.
  rewrite Zminus_mod_idemp_l. f_equal. lia.
Qed.

(** ** Bytes as numbers *)
Lemma byte_to_Z_range b : 0 <= byte_to_Z b < 256.
Proof. unfold byte_to_Z. pose proof (Byte.to_N_bounded b). lia. Qed.

Lemma byte_of_to_Z b : byte_of_Z (byte_to_Z b) = b.
Proof.
  unfold byte_of_Z. rewrite Z.mod_small by apply byte_to_Z_range.
  unfold byte_to_Z. by rewrite N2Z.id, Byte.of_to_N.
Qed.

Lemma byte_to_of_Z z : byte_to_Z (byte_of_Z z) = z mod 256.
Proof.
  unfold byte_of_Z. pose proof (Z.mod_pos_bound z 256 ltac:(lia)).
  destruct (Byte.of_N (Z.to_N (z mod 256))) as [b|] eqn:E.
  - apply Byte.to_of_N in E. unfold byte_to_Z. rewrite E. lia.
  - apply Byte.of_N_None_iff in E. lia.
Qed.

Lemma byte_to_Z_inj b1 b2 : byte_to_Z b1 = byte_to_Z b2 -> b1 = b2.
Proof. intros H. rewrite <- (byte_of_to_Z b1), <- (byte_of_to_Z b2). by rewrite H. Qed.

(** Insertions of distinct keys, in any order. *)
Lemma insert_all {V} (l : list (bytes * V)) (m : gmap bytes V) :
  NoDup l.*1 -> foldl (fun m (e : bytes * V) => <[e.1 := e.2]> m) m l = list_to_map l ∪ m.
Proof.
  revert m. induction l as [|[k v] l IH]; intros m Hnd; simpl; [by rewrite (left_id_L ∅ (∪))|].
  apply list.NoDup_cons in Hnd as [Hk Hnd]. rewrite IH by done. rewrite <- insert_union_r, <- insert_union_l; [done|].
  by apply not_elem_of_list_to_map_1.
Qed.

(** Bits that do not overlap. *)
Lemma lor_low a b k : 0 <= k -> 0 <= b < 2 ^ k -> Z.lor (a * 2 ^ k) b = a * 2 ^ k + b.
Proof.
  intros Hk Hb. symmetry. apply Z.add_nocarry_lor, Z.bits_inj'. intros n Hn.
  rewrite Z.land_spec, Z.bits_0. destruct (Z_lt_dec n k) as [Hlt|Hge].
  - by rewrite Z.mul_pow2_bits_low.
  - rewrite <- (Z.mod_small b (2 ^ k)) by lia. by rewrite Z.mod_pow2_bits_high, andb_false_r by lia.
Qed.
