(* ===== verification/Endian.v ===== *)
(** * Byte order: src/common/EndianTransfer.h

    The [hostToNetwork]/[networkToHost] helpers over glibc's [htobe] and
    [betoh] macros, and what they do to the bytes in memory.  The model is
    parametric in the byte order of the host; the wire bytes do not depend on
    it ([wire_bytes_host_independent]). *)

From Stdlib Require Import ZArith Lia.
From stdpp Require Import base list.
From S2P Require Import Prelude.
Local Open Scope Z_scope.

Inductive endian := LittleEndian | BigEndian.

(** The x86-64 host of the build scripts. *)
Definition host : endian := LittleEndian.

(** The [n] bytes of [z], least significant first, and back. *)
Fixpoint le_bytes (n : nat) (z : Z) : bytes :=
  match n with
  | O => []
  | S n => byte_of_Z z :: le_bytes n (z / 256)
  end.

Fixpoint le_value (l : bytes) : Z :=
  match l with
  | [] => 0
  | b :: l => byte_to_Z b + 256 * le_value l
  end.

(** Network order: most significant byte first. *)
Definition be_bytes (n : nat) (z : Z) : bytes := rev (le_bytes n z).
Definition be_value (l : bytes) : Z := le_value (rev l).

(** The memory image of an [n]-byte object, and the object in a memory block. *)
Definition object_bytes (e : endian) (n : nat) (z : Z) : bytes :=
  match e with LittleEndian => le_bytes n z | BigEndian => be_bytes n z end.
Definition object_value (e : endian) (l : bytes) : Z :=
  match e with LittleEndian => le_value l | BigEndian => be_value l end.

(** glibc: [htobe]/[betoh] swap the bytes on a little-endian host and are the
    identity on a big-endian one. *)
Definition bswap (n : nat) (z : Z) : Z := be_value (le_bytes n z).
Definition htobe (e : endian) (n : nat) (z : Z) : Z :=
  match e with LittleEndian => bswap n z | BigEndian => uwrap (8 * Z.of_nat n) z end.
Definition betoh (e : endian) (n : nat) (z : Z) : Z := htobe e n z.

Definition hostToNetwork64 (host64 : Z) : Z := htobe host 8 (u64 host64).
Definition hostToNetwork32 (host32 : Z) : Z := htobe host 4 (u32 host32).
Definition hostToNetwork16 (host16 : Z) : Z := htobe host 2 (u16 host16).
Definition networkToHost64 (net64 : Z) : Z := betoh host 8 (u64 net64).
Definition networkToHost32 (net32 : Z) : Z := betoh host 4 (u32 net32).
Definition networkToHost16 (net16 : Z) : Z := betoh host 2 (u16 net16).

#[global] Arguments be_bytes : simpl never.
#[global] Arguments be_value : simpl never.

(** ** Lemmas *)
Lemma le_value_cons b l : le_value (b :: l) = byte_to_Z b + 256 * le_value l.
Proof. done. Qed.

Lemma length_le_bytes n z : length (le_bytes n z) = n.
Proof. revert z. induction n; simpl; auto. Qed.

Lemma zlen_be_bytes n z : zlen (be_bytes n z) = Z.of_nat n.
Proof. unfold be_bytes, zlen. by rewrite length_rev, length_le_bytes. Qed.

#[export] Hint Rewrite zlen_be_bytes : zlist.

Lemma le_value_bytes n z : le_value (le_bytes n z) = uwrap (8 * Z.of_nat n) z.
Proof.
  revert z. induction n as [|n IH]; intros z; [by rewrite Z.mul_0_r; unfold uwrap; rewrite Z.mod_1_r|].
  cbn [le_bytes]. rewrite le_value_cons, IH, byte_to_of_Z. unfold uwrap.
  replace (8 * Z.of_nat (S n)) with (8 + 8 * Z.of_nat n) by lia.
  rewrite Z.pow_add_r by lia. change (2 ^ 8) with 256.
  rewrite Z.rem_mul_r by (pose proof (Z.pow_pos_nonneg 2 (8 * Z.of_nat n)); lia). lia.
Qed.

Lemma le_value_range l : 0 <= le_value l < 2 ^ (8 * zlen l).
Proof.
  induction l as [|b l IH]; [done|].
  rewrite le_value_cons. pose proof (byte_to_Z_range b).
  rewrite zlen_cons. replace (8 * (1 + zlen l)) with (8 + 8 * zlen l) by lia.
  pose proof (zlen_nonneg l).
  rewrite Z.pow_add_r by lia. change (2 ^ 8) with 256. lia.
Qed.

Lemma le_bytes_value l : le_bytes (length l) (le_value l) = l.
Proof.
  induction l as [|b l IH]; [done|]. cbn [length le_bytes].
  rewrite le_value_cons. pose proof (byte_to_Z_range b) as Hb. f_equal.
  - apply byte_to_Z_inj. rewrite byte_to_of_Z.
    replace (byte_to_Z b + 256 * le_value l) with (byte_to_Z b + le_value l * 256) by lia.
    rewrite Z.mod_add, Z.mod_small; lia.
  - replace (byte_to_Z b + 256 * le_value l) with (byte_to_Z b + le_value l * 256) by lia.
    rewrite Z.div_add, Z.div_small, Z.add_0_l by lia. done.
Qed.

Lemma be_value_bytes n z : be_value (be_bytes n z) = uwrap (8 * Z.of_nat n) z.
Proof. unfold be_value, be_bytes. rewrite rev_involutive. apply le_value_bytes. Qed.

Lemma be_bytes_value l : be_bytes (length l) (be_value l) = l.
Proof.
  unfold be_value, be_bytes. rewrite <- (length_rev l), le_bytes_value.
  apply rev_involutive.
Qed.

Lemma le_bytes_wrap n z : le_bytes n (uwrap (8 * Z.of_nat n) z) = le_bytes n z.
Proof.
  rewrite <- (le_value_bytes n z).
  rewrite <- (length_le_bytes n z) at 1. apply le_bytes_value.
Qed.

Lemma object_bytes_swrap e n z :
  (0 < n)%nat -> object_bytes e n (swrap (8 * Z.of_nat n) z) = object_bytes e n z.
Proof.
  intros. assert (le_bytes n (swrap (8 * Z.of_nat n) z) = le_bytes n z) as E.
  { rewrite <- le_bytes_wrap, uwrap_swrap by lia. apply le_bytes_wrap. }
  destruct e; simpl; unfold be_bytes; by rewrite E.
Qed.

Lemma object_bytes_htobe e n z : object_bytes e n (htobe e n z) = be_bytes n z.
Proof.
  destruct e; simpl.
  - unfold bswap, be_value.
    rewrite <- (length_le_bytes n z) at 1. rewrite <- length_rev.
    by rewrite le_bytes_value.
  - unfold be_bytes. by rewrite le_bytes_wrap.
Qed.

Lemma betoh_object_value e l :
  betoh e (length l) (object_value e l) = be_value l.
Proof.
  unfold betoh. destruct e; simpl.
  - unfold bswap. by rewrite le_bytes_value.
  - unfold be_value. apply uwrap_small.
    change (Z.of_nat (length l)) with (zlen l).
    rewrite <- (zlen_rev l). apply le_value_range.
Qed.

(** ** The properties of EndianTransfer.h *)

(** On a host of either byte order the conversions put the big-endian
    bytes of the number in memory, and read it back reduced to its width. *)
Theorem wire_bytes_host_independent e n z :
  object_bytes e n (htobe e n z) = be_bytes n z /\
  betoh e n (object_value e (be_bytes n z)) = uwrap (8 * Z.of_nat n) z.
Proof.
  split; [apply object_bytes_htobe|].
  rewrite <- (be_value_bytes n z), <- betoh_object_value with (e := e).
  f_equal. unfold be_bytes. by rewrite length_rev, length_le_bytes.
Qed.
