(* ===== verification/Buffer.v ===== *)
(** * The byte buffer: src/common/Buffer.h

    [class Buffer], a vector with a read and a write index, as a record.  A
    [const char*] into the vector is an offset from [begin()], [NULL] is
    [None].  [size_t] results are reduced modulo 2^64 as the code computes
    them.  [represents b c] is the abstraction: [b] satisfies the class
    invariant drawn in Buffer.h (readerIndex <= writerIndex <= size) and its
    readable bytes are [c]; every operation is specified against it. *)

From Stdlib Require Import ZArith Lia.
From stdpp Require Import base list strings.
From S2P Require Import Prelude Endian.
Local Open Scope Z_scope.

Definition kCheapPrepend : Z := 8.
Definition kInitialSize : Z := 1024.
Definition kCRLF : bytes := [Byte.x0d; Byte.x0a].

(** [std::vector<char>::max_size()]; growing past it throws. *)
Definition max_size : Z := 2 ^ 63 - 1.

Record Buffer := mkBuffer {
  buffer_ : bytes;
  readerIndex_ : Z;
  writerIndex_ : Z;
}.

Definition readableBytes (b : Buffer) : Z := u64 (writerIndex_ b - readerIndex_ b).
Definition writableBytes (b : Buffer) : Z := u64 (zlen (buffer_ b) - writerIndex_ b).
Definition prependableBytes (b : Buffer) : Z := readerIndex_ b.
Definition peek (b : Buffer) : Z := readerIndex_ b.
Definition beginWrite (b : Buffer) : Z := writerIndex_ b.

(** Memory accesses relative to [begin()]; outside the vector they are
    undefined. *)
Definition mem_read (b : Buffer) (off n : Z) : res bytes :=
  if (0 <=? off) && (0 <=? n) && (off + n <=? zlen (buffer_ b))
  then Ok (slice (buffer_ b) off n) else Err UB.
Definition mem_write (b : Buffer) (off : Z) (d : bytes) : res Buffer :=
  if (0 <=? off) && (off + zlen d <=? zlen (buffer_ b))
  then Ok (mkBuffer (overwrite (buffer_ b) off d) (readerIndex_ b) (writerIndex_ b))
  else Err UB.

(** [std::vector::resize]: new elements are zero. *)
Definition resize (b : Buffer) (n : Z) : res Buffer :=
  if max_size <? n then Err LengthError
  else Ok (mkBuffer (ztake n (buffer_ b) ++
                     replicate (Z.to_nat (n - zlen (buffer_ b))) Byte.x00)
                    (readerIndex_ b) (writerIndex_ b)).

(** The constructor. *)
Definition Buffer_new (initialSize : Z) : res Buffer :=
  let n := u64 (kCheapPrepend + initialSize) in
  if max_size <? n then Err LengthError else
  let b := mkBuffer (replicate (Z.to_nat n) Byte.x00) kCheapPrepend kCheapPrepend in
  let* _ := assert (readableBytes b =? 0) in
  let* _ := assert (writableBytes b =? initialSize) in
  let* _ := assert (prependableBytes b =? kCheapPrepend) in
  Ok b.

Definition swap (b rhs : Buffer) : Buffer * Buffer := (rhs, b).

(** *** Searching *)

(** [std::search] of [pat] in [l]: the first offset where it occurs. *)
Fixpoint search (pat l : bytes) : option Z :=
  if decide (pat `prefix_of` l) then Some 0 else
  match l with
  | [] => None
  | _ :: l => Z.succ <$> search pat l
  end.

(** [memchr]/[std::find] of one byte. *)
Fixpoint find_byte (x : byte) (l : bytes) : option Z :=
  match l with
  | [] => None
  | y :: l => if decide (x = y) then Some 0 else Z.succ <$> find_byte x l
  end.

Definition findCRLF (b : Buffer) : res (option Z) :=
  let* l := mem_read b (peek b) (beginWrite b - peek b) in
  Ok (Z.add (peek b) <$> search kCRLF l).

Definition findCRLF_from (b : Buffer) (start : Z) : res (option Z) :=
  let* _ := assert (peek b <=? start) in
  let* _ := assert (start <=? beginWrite b) in
  let* l := mem_read b start (beginWrite b - start) in
  Ok (Z.add start <$> search kCRLF l).

Definition findEOL (b : Buffer) : res (option Z) :=
  let* l := mem_read b (peek b) (readableBytes b) in
  Ok (Z.add (peek b) <$> find_byte Byte.x0a l).

Definition findEOL_from (b : Buffer) (start : Z) : res (option Z) :=
  let* _ := assert (peek b <=? start) in
  let* _ := assert (start <=? beginWrite b) in
  let* l := mem_read b start (beginWrite b - start) in
  Ok (Z.add start <$> find_byte Byte.x0a l).

(** *** Consuming *)
Definition retrieveAll (b : Buffer) : Buffer :=
  mkBuffer (buffer_ b) kCheapPrepend kCheapPrepend.

Definition retrieve (len : Z) (b : Buffer) : res Buffer :=
  let* _ := assert (len <=? readableBytes b) in
  if len <? readableBytes b
  then Ok (mkBuffer (buffer_ b) (u64 (readerIndex_ b + len)) (writerIndex_ b))
  else Ok (retrieveAll b).

Definition retrieveUntil (end_ : Z) (b : Buffer) : res Buffer :=
  let* _ := assert (peek b <=? end_) in
  let* _ := assert (end_ <=? beginWrite b) in
  retrieve (u64 (end_ - peek b)) b.

Definition retrieveInt64 (b : Buffer) : res Buffer := retrieve 8 b.
Definition retrieveInt32 (b : Buffer) : res Buffer := retrieve 4 b.
Definition retrieveInt16 (b : Buffer) : res Buffer := retrieve 2 b.
Definition retrieveInt8 (b : Buffer) : res Buffer := retrieve 1 b.

Definition retrieveAsString (len : Z) (b : Buffer) : res (bytes * Buffer) :=
  let* _ := assert (len <=? readableBytes b) in
  let* result := mem_read b (peek b) len in
  let* b := retrieve len b in
  Ok (result, b).

Definition retrieveAllAsString (b : Buffer) : res (bytes * Buffer) :=
  retrieveAsString (readableBytes b) b.

(** *** Appending *)
Definition makeSpace (len : Z) (b : Buffer) : res Buffer :=
  if u64 (writableBytes b + prependableBytes b) <? u64 (len + kCheapPrepend)
  then resize b (u64 (writerIndex_ b + len))
  else
    let* _ := assert (kCheapPrepend <? readerIndex_ b) in
    let readable := readableBytes b in
    let* d := mem_read b (readerIndex_ b) (writerIndex_ b - readerIndex_ b) in
    let* b := mem_write b kCheapPrepend d in
    let b := mkBuffer (buffer_ b) kCheapPrepend (u64 (kCheapPrepend + readable)) in
    let* _ := assert (readable =? readableBytes b) in
    Ok b.

Definition ensureWritableBytes (len : Z) (b : Buffer) : res Buffer :=
  let* b := (if writableBytes b <? len then makeSpace len b else Ok b) in
  let* _ := assert (len <=? writableBytes b) in
  Ok b.

Definition hasWritten (len : Z) (b : Buffer) : res Buffer :=
  let* _ := assert (len <=? writableBytes b) in
  Ok (mkBuffer (buffer_ b) (readerIndex_ b) (u64 (writerIndex_ b + len))).

Definition unwrite (len : Z) (b : Buffer) : res Buffer :=
  let* _ := assert (len <=? readableBytes b) in
  Ok (mkBuffer (buffer_ b) (readerIndex_ b) (u64 (writerIndex_ b - len))).

(** [append(data, len)]: [data] is the memory the pointer addresses; reading
    past it is undefined. *)
Definition append (data : bytes) (len : Z) (b : Buffer) : res Buffer :=
  let* b := ensureWritableBytes len b in
  if zlen data <? len then Err UB else
  let* b := mem_write b (beginWrite b) (ztake len data) in
  hasWritten len b.

(** The overload of [append] for a C string stops at the first NUL of the C string. *)
Definition strlen (data : bytes) : Z :=
  match find_byte Byte.x00 data with Some n => n | None => zlen data end.
Definition append_cstr (data : bytes) (b : Buffer) : res Buffer :=
  append (data ++ [Byte.x00]) (strlen data) b.
Definition append_string (data : bytes) (b : Buffer) : res Buffer :=
  append (data ++ [Byte.x00]) (zlen data) b.

Definition appendInt64 (x : Z) (b : Buffer) : res Buffer :=
  append (object_bytes host 8 (hostToNetwork64 x)) 8 b.
Definition appendInt32 (x : Z) (b : Buffer) : res Buffer :=
  append (object_bytes host 4 (hostToNetwork32 x)) 4 b.
Definition appendInt16 (x : Z) (b : Buffer) : res Buffer :=
  append (object_bytes host 2 (hostToNetwork16 x)) 2 b.
Definition appendInt8 (x : Z) (b : Buffer) : res Buffer :=
  append (object_bytes host 1 x) 1 b.

(** *** Peeking and reading integers *)
Definition peekInt64 (b : Buffer) : res Z :=
  let* _ := assert (8 <=? readableBytes b) in
  let* d := mem_read b (peek b) 8 in
  Ok (s64 (networkToHost64 (object_value host d))).
Definition peekInt32 (b : Buffer) : res Z :=
  let* _ := assert (4 <=? readableBytes b) in
  let* d := mem_read b (peek b) 4 in
  Ok (s32 (networkToHost32 (object_value host d))).
Definition peekInt16 (b : Buffer) : res Z :=
  let* _ := assert (2 <=? readableBytes b) in
  let* d := mem_read b (peek b) 2 in
  Ok (s16 (networkToHost16 (object_value host d))).
Definition peekInt8 (b : Buffer) : res Z :=
  let* _ := assert (1 <=? readableBytes b) in
  let* d := mem_read b (peek b) 1 in
  Ok (s8 (object_value host d)).

Definition readInt64 (b : Buffer) : res (Z * Buffer) :=
  let* result := peekInt64 b in let* b := retrieveInt64 b in Ok (result, b).
Definition readInt32 (b : Buffer) : res (Z * Buffer) :=
  let* result := peekInt32 b in let* b := retrieveInt32 b in Ok (result, b).
Definition readInt16 (b : Buffer) : res (Z * Buffer) :=
  let* result := peekInt16 b in let* b := retrieveInt16 b in Ok (result, b).
Definition readInt8 (b : Buffer) : res (Z * Buffer) :=
  let* result := peekInt8 b in let* b := retrieveInt8 b in Ok (result, b).

(** *** Prepending *)
Definition prepend (data : bytes) (b : Buffer) : res Buffer :=
  let* _ := assert (zlen data <=? prependableBytes b) in
  let b := mkBuffer (buffer_ b) (u64 (readerIndex_ b - zlen data)) (writerIndex_ b) in
  mem_write b (readerIndex_ b) data.

Definition prependInt64 (x : Z) (b : Buffer) : res Buffer :=
  prepend (object_bytes host 8 (hostToNetwork64 x)) b.
Definition prependInt32 (x : Z) (b : Buffer) : res Buffer :=
  prepend (object_bytes host 4 (hostToNetwork32 x)) b.
Definition prependInt16 (x : Z) (b : Buffer) : res Buffer :=
  prepend (object_bytes host 2 (hostToNetwork16 x)) b.
Definition prependInt8 (x : Z) (b : Buffer) : res Buffer :=
  prepend (object_bytes host 1 x) b.

(** ** The abstraction *)

(** [b] holds the readable bytes [c] between its two indices. *)
Definition represents (b : Buffer) (c : bytes) : Prop :=
  exists pre post,
    b = mkBuffer (pre ++ c ++ post) (zlen pre) (zlen pre + zlen c) /\
    kCheapPrepend <= zlen (pre ++ c ++ post) <= max_size.

(** The readable bytes, as a function. *)
Definition content (b : Buffer) : bytes :=
  slice (buffer_ b) (readerIndex_ b) (writerIndex_ b - readerIndex_ b).

(** The class invariant of the diagram in Buffer.h. *)
Definition buffer_inv (b : Buffer) : Prop :=
  0 <= readerIndex_ b <= writerIndex_ b /\ writerIndex_ b <= zlen (buffer_ b) /\
  kCheapPrepend <= zlen (buffer_ b) <= max_size.

Lemma represents_iff b c : represents b c <-> buffer_inv b /\ content b = c.
Proof.
  unfold represents, buffer_inv, content. split.
  - intros (pre & post & -> & Hb). simpl. split; [zlia|].
    apply slice_app_mid; lia.
  - destruct b as [v r w]; simpl. intros [Hi <-].
    exists (ztake r v), (zdrop w v).
    assert (ztake r v ++ slice v r (w - r) ++ zdrop w v = v) as E.
    { replace w with (r + (w - r)) at 2 by lia.
      rewrite <- zdrop_zdrop by lia. unfold slice. by rewrite !ztake_zdrop. }
    rewrite E, zlen_ztake, zlen_slice by lia. split; [|lia]. f_equal. lia.
Qed.

Lemma represents_content b : buffer_inv b -> represents b (content b).
Proof. intros. by apply represents_iff. Qed.

Lemma represents_inv b c : represents b c -> buffer_inv b.
Proof. intros H. by apply represents_iff in H as [? _]. Qed.

Ltac open_repr H :=
  let pre := fresh "pre" in let post := fresh "post" in
  let Hb := fresh "Hb" in
  destruct H as (pre & post & -> & Hb); unfold max_size, kCheapPrepend in *; simpl in *.

(** Goals [represents _ _] with the explicit prefix and suffix. *)
Ltac give_repr p q :=
  exists p, q; unfold max_size, kCheapPrepend; split; [f_equal; zlia | zlia].

Section ops.
Context (b : Buffer) (c : bytes) (HR : represents b c).

Lemma repr_readableBytes : readableBytes b = zlen c.
Proof using HR. open_repr HR. unfold readableBytes. simpl. rewrite uwrap_small; zlia. Qed.

Lemma repr_prependableBytes : 0 <= prependableBytes b.
Proof using HR. open_repr HR. unfold prependableBytes. simpl. zlia. Qed.

Lemma repr_len_bound : 0 <= zlen c <= max_size.
Proof using HR. open_repr HR. zlia. Qed.

Lemma repr_mem_read i n :
  0 <= i -> 0 <= n -> i + n <= zlen c ->
  mem_read b (peek b + i) n = Ok (slice c i n).
Proof using HR.
  intros. open_repr HR. unfold mem_read, peek. simpl.
  rewrite (proj2 (Z.leb_le _ _)), (proj2 (Z.leb_le 0 n)), (proj2 (Z.leb_le _ _)) by zlia.
  simpl. rewrite slice_app_r by zlia. rewrite slice_app_l by zlia.
  do 2 f_equal. lia.
Qed.

Lemma repr_mem_read_prefix n : 0 <= n <= zlen c -> mem_read b (peek b) n = Ok (ztake n c).
Proof using HR.
  intros. replace (peek b) with (peek b + 0) by lia.
  rewrite repr_mem_read by lia. unfold slice. by rewrite zdrop_0.
Qed.

Lemma repr_findCRLF : findCRLF b = Ok (Z.add (peek b) <$> search kCRLF c).
Proof using HR.
  unfold findCRLF. replace (beginWrite b - peek b) with (zlen c).
  - rewrite repr_mem_read_prefix by zlia. simpl. by rewrite ztake_all.
  - open_repr HR. unfold beginWrite, peek. simpl. lia.
Qed.

Lemma repr_retrieve n :
  0 <= n <= zlen c -> exists b', retrieve n b = Ok b' /\ represents b' (zdrop n c).
Proof using HR.
  intros Hn. unfold retrieve. rewrite repr_readableBytes.
  rewrite assert_true by (apply Z.leb_le; lia). simpl.
  open_repr HR. destruct (Z.ltb_spec n (zlen c)); eexists; (split; [reflexivity|]).
  - exists (pre ++ ztake n c), post.
    rewrite uwrap_small by zlia.
    rewrite <- (ztake_zdrop n c) at 1.
    rewrite zlen_app, zlen_ztake, zlen_zdrop by lia.
    rewrite <- !app_assoc. split; [f_equal; lia|].
    rewrite (app_assoc (ztake n c)), ztake_zdrop. done.
  - rewrite zdrop_all by lia. unfold retrieveAll. simpl.
    exists (ztake 8 (pre ++ c ++ post)), (zdrop 8 (pre ++ c ++ post)).
    simpl. rewrite ztake_zdrop, zlen_ztake by lia. split; [done|done].
Qed.

Lemma repr_retrieve_too_many n : zlen c < n -> retrieve n b = Err AssertFailed.
Proof using HR.
  intros. unfold retrieve. rewrite repr_readableBytes.
  destruct (Z.leb_spec n (zlen c)); [lia|done].
Qed.

Lemma repr_retrieveUntil n :
  0 <= n <= zlen c ->
  exists b', retrieveUntil (peek b + n) b = Ok b' /\ represents b' (zdrop n c).
Proof using HR.
  intros Hn. unfold retrieveUntil.
  assert (beginWrite b = peek b + zlen c) as E by (open_repr HR; done).
  rewrite E, !assert_true by (apply Z.leb_le; lia). simpl.
  replace (peek b + n - peek b) with n by lia.
  rewrite uwrap_small by (pose proof repr_len_bound; unfold max_size in *; lia).
  by apply repr_retrieve.
Qed.

Lemma repr_retrieveAsString n :
  0 <= n <= zlen c ->
  exists b', retrieveAsString n b = Ok (ztake n c, b') /\ represents b' (zdrop n c).
Proof using HR.
  intros Hn. unfold retrieveAsString.
  rewrite repr_readableBytes, assert_true by (apply Z.leb_le; lia). simpl.
  rewrite repr_mem_read_prefix by done. simpl.
  destruct (repr_retrieve n Hn) as (b' & -> & ?). simpl. eauto.
Qed.
End ops.

(** [n] more bytes after [c] cannot exhaust the address space: a vector that
    has to grow grows to less than this. *)
Definition fits (c : bytes) (n : Z) : Prop := zlen c + 2 * n + kCheapPrepend <= max_size.

Ltac fits_lia := unfold fits, kCheapPrepend, max_size; zlia.

(** What an operation that adds [d] at the write end leaves behind. *)
Definition appended (b : Buffer) (c d : bytes) (b' : Buffer) : Prop :=
  represents b' (c ++ d) /\
  (kCheapPrepend <= readerIndex_ b -> kCheapPrepend <= readerIndex_ b').

Lemma repr_writableBytes pre c post :
  zlen (pre ++ c ++ post) <= max_size ->
  writableBytes (mkBuffer (pre ++ c ++ post) (zlen pre) (zlen pre + zlen c)) = zlen post.
Proof.
  unfold max_size. intros. unfold writableBytes. simpl.
  rewrite uwrap_small; zlia.
Qed.

(** [makeSpace], called when fewer than [len] bytes are writable, leaves at
    least [len] writable bytes and the readable bytes as they were, or throws
    because the vector cannot grow; neither of its assertions can fire. *)
Definition made_space (b : Buffer) (c : bytes) (len : Z) (r : res Buffer) : Prop :=
  (r = Err LengthError /\ ~ fits c len) \/
  exists b', r = Ok b' /\ represents b' c /\ len <= writableBytes b' /\
    (kCheapPrepend <= readerIndex_ b -> kCheapPrepend <= readerIndex_ b').

Lemma repr_makeSpace b c len :
  represents b c -> writableBytes b < len <= max_size ->
  made_space b c len (makeSpace len b).
Proof.
  intros HR [Hw Hlen]. unfold max_size in Hlen. open_repr HR.
  rewrite repr_writableBytes in Hw by (unfold max_size; lia).
  unfold makeSpace. rewrite repr_writableBytes by (unfold max_size; lia).
  unfold prependableBytes, kCheapPrepend. simpl.
  rewrite !uwrap_small by zlia.
  destruct (Z.ltb_spec (zlen post + zlen pre) (len + 8)).
  - unfold resize, max_size. simpl.
    destruct (Z.ltb_spec (2 ^ 63 - 1) (zlen pre + zlen c + len));
      [left; split; [done|unfold fits, max_size, kCheapPrepend; zlia]|right].
    eexists; split; [reflexivity|]. simpl.
    rewrite ztake_all by zlia.
    set (z := replicate _ _).
    assert (zlen z = len - zlen post) as Hz.
    { unfold z. autorewrite with zlist. rewrite Z2Nat.id; zlia. }
    split; [|split; [|done]].
    + rewrite <- !app_assoc. give_repr pre (post ++ z).
    + unfold writableBytes. simpl. rewrite uwrap_small; zlia.
  - rewrite assert_true by (apply Z.ltb_lt; zlia). simpl.
    replace (zlen pre + zlen c - zlen pre) with (zlen c) by lia.
    assert (mem_read (mkBuffer (pre ++ c ++ post) (zlen pre) (zlen pre + zlen c))
              (zlen pre) (zlen c) = Ok c) as ->.
    { unfold mem_read. simpl.
      rewrite !(proj2 (Z.leb_le _ _)) by zlia. simpl. by rewrite slice_app_mid. }
    simpl. unfold mem_write. simpl.
    destruct (Z.leb_spec (8 + zlen c) (zlen (pre ++ c ++ post))); [|zlia]. simpl.
    replace (readableBytes _) with (zlen c)
      by (unfold readableBytes; simpl; rewrite uwrap_small; zlia).
    rewrite uwrap_small by zlia. unfold readableBytes at 1. simpl.
    rewrite uwrap_small by zlia.
    rewrite assert_true by (apply Z.eqb_eq; lia). simpl.
    right. eexists; split; [reflexivity|].
    set (v := pre ++ c ++ post) in *.
    assert (zlen v = zlen pre + zlen c + zlen post) as Hv by (unfold v; zlia).
    assert (zlen (overwrite v 8 c) = zlen v) as Ho.
    { unfold overwrite. rewrite !zlen_app, zlen_ztake, zlen_zdrop by zlia. zlia. }
    split; [|split; [|done]].
    + exists (ztake 8 v), (zdrop (8 + zlen c) v). fold (overwrite v 8 c).
      unfold kCheapPrepend, max_size. rewrite Ho, zlen_ztake by lia. split; [done|lia].
    + unfold writableBytes. simpl. rewrite Ho, uwrap_small; zlia.
Qed.

Lemma repr_ensureWritableBytes b c len :
  represents b c -> 0 <= len <= max_size ->
  made_space b c len (ensureWritableBytes len b).
Proof.
  intros HR Hlen. unfold ensureWritableBytes.
  destruct (Z.ltb_spec (writableBytes b) len).
  - destruct (repr_makeSpace b c len) as [[-> ?]|(b' & -> & HR' & Hw & ?)]; [done|lia|by left|].
    mstep. rewrite assert_true by (apply Z.leb_le; lia). right. eauto.
  - mstep. rewrite assert_true by (apply Z.leb_le; lia). right.
    exists b. eauto with lia.
Qed.

Lemma repr_mem_write_hasWritten b c d :
  represents b c -> zlen d <= writableBytes b ->
  exists b', (let* b1 := mem_write b (beginWrite b) d in hasWritten (zlen d) b1) = Ok b' /\
    represents b' (c ++ d) /\ readerIndex_ b' = readerIndex_ b /\
    writerIndex_ b' = writerIndex_ b + zlen d.
Proof.
  intros HR Hd. open_repr HR.
  rewrite repr_writableBytes in Hd by (unfold max_size; lia).
  unfold mem_write, beginWrite. simpl.
  rewrite !(proj2 (Z.leb_le _ _)) by zlia. simpl.
  rewrite <- (ztake_zdrop (zlen d) post), !app_assoc, <- (app_assoc (pre ++ c)).
  rewrite overwrite_app; [|zlia | rewrite zlen_ztake; zlia].
  unfold hasWritten, writableBytes. simpl.
  assert (zlen post = zlen d + zlen (zdrop (zlen d) post)) by (rewrite zlen_zdrop; zlia).
  rewrite uwrap_small by zlia.
  rewrite assert_true by (apply Z.leb_le; zlia). simpl.
  rewrite uwrap_small by zlia.
  eexists; split; [reflexivity|]. split; [|simpl; lia].
  rewrite <- (app_assoc pre), (app_assoc c).
  give_repr pre (zdrop (zlen d) post).
Qed.

Lemma repr_append_or b c d tl :
  represents b c -> zlen d <= max_size ->
  (append (d ++ tl) (zlen d) b = Err LengthError /\ ~ fits c (zlen d)) \/
  exists b', append (d ++ tl) (zlen d) b = Ok b' /\ appended b c d b'.
Proof.
  intros HR Hd. unfold append.
  destruct (repr_ensureWritableBytes b c (zlen d)) as [[-> ?]|(b1 & -> & HR1 & Hw & Hr)];
    [done|zlia|by left|right]. mstep.
  rewrite zlen_app. destruct (Z.ltb_spec (zlen d + zlen tl) (zlen d)); [zlia|].
  rewrite ztake_app_exact by done.
  destruct (repr_mem_write_hasWritten b1 c d HR1 Hw) as (b2 & -> & HR2 & E1 & E2).
  exists b2. split; [done|]. split; [done|]. rewrite E1. done.
Qed.

Lemma repr_append b c d tl :
  represents b c -> fits c (zlen d) ->
  exists b', append (d ++ tl) (zlen d) b = Ok b' /\ appended b c d b'.
Proof.
  intros HR Hd.
  destruct (repr_append_or b c d tl HR) as [[_ ?]|?]; [|done|done].
  unfold fits, kCheapPrepend in Hd. zlia.
Qed.

(** Whatever the sizes, an append that returns has appended. *)
Lemma repr_append_Ok b c d tl b' :
  represents b c -> zlen d <= max_size -> append (d ++ tl) (zlen d) b = Ok b' ->
  appended b c d b'.
Proof.
  intros HR Hd E. destruct (repr_append_or b c d tl HR Hd) as [[? _]|(b2 & ? & ?)]; congruence.
Qed.

Lemma repr_append_all b c d len :
  represents b c -> len = zlen d -> fits c (zlen d) ->
  exists b', append d len b = Ok b' /\ appended b c d b'.
Proof.
  intros HR -> ?. destruct (repr_append b c d [] HR) as (b' & E & ?); [done|].
  rewrite app_nil_r in E. eauto.
Qed.

Lemma repr_prepend b c d :
  represents b c -> zlen d <= readerIndex_ b ->
  exists b', prepend d b = Ok b' /\ represents b' (d ++ c).
Proof.
  intros HR Hd. open_repr HR. unfold prepend, prependableBytes. simpl.
  rewrite assert_true by (apply Z.leb_le; lia). simpl.
  rewrite uwrap_small by zlia. unfold mem_write. simpl.
  rewrite !(proj2 (Z.leb_le _ _)) by zlia. simpl.
  eexists; split; [reflexivity|].
  rewrite <- (ztake_zdrop (zlen pre - zlen d) pre) at 1.
  rewrite <- app_assoc.
  rewrite overwrite_app; [|rewrite zlen_ztake; zlia | rewrite zlen_zdrop; zlia].
  rewrite (app_assoc d).
  exists (ztake (zlen pre - zlen d) pre), post.
  rewrite !zlen_app, zlen_ztake by zlia. unfold max_size, kCheapPrepend.
  split; [f_equal; zlia | zlia].
Qed.

(** ** Integers in network order *)
Lemma object_value_range e l : 0 <= object_value e l < 2 ^ (8 * zlen l).
Proof.
  destruct e; simpl; [apply le_value_range|].
  unfold be_value. rewrite <- (zlen_rev l). apply le_value_range.
Qed.

Lemma betoh_wrap_object_value n l :
  length l = n ->
  betoh host n (uwrap (8 * Z.of_nat n) (object_value host l)) = be_value l.
Proof.
  intros <-. rewrite uwrap_small; [apply betoh_object_value|].
  apply (object_value_range host l).
Qed.

Lemma length_ztake (n : nat) (c : bytes) :
  Z.of_nat n <= zlen c -> length (ztake (Z.of_nat n) c) = n.
Proof. unfold ztake, zlen. rewrite length_take. lia. Qed.

Section ints.
Context (b : Buffer) (c : bytes) (HR : represents b c).

Lemma repr_peekInt64 : 8 <= zlen c -> peekInt64 b = Ok (s64 (be_value (ztake 8 c))).
Proof using HR.
  intros. unfold peekInt64. rewrite (repr_readableBytes _ _ HR).
  rewrite assert_true by (apply Z.leb_le; lia). simpl.
  rewrite (repr_mem_read_prefix _ _ HR) by lia. simpl. unfold networkToHost64.
  do 2 f_equal. exact (betoh_wrap_object_value 8 _ (length_ztake 8 c ltac:(done))).
Qed.

Lemma repr_peekInt32 : 4 <= zlen c -> peekInt32 b = Ok (s32 (be_value (ztake 4 c))).
Proof using HR.
  intros. unfold peekInt32. rewrite (repr_readableBytes _ _ HR).
  rewrite assert_true by (apply Z.leb_le; lia). simpl.
  rewrite (repr_mem_read_prefix _ _ HR) by lia. simpl. unfold networkToHost32.
  do 2 f_equal. exact (betoh_wrap_object_value 4 _ (length_ztake 4 c ltac:(done))).
Qed.

Lemma repr_peekInt16 : 2 <= zlen c -> peekInt16 b = Ok (s16 (be_value (ztake 2 c))).
Proof using HR.
  intros. unfold peekInt16. rewrite (repr_readableBytes _ _ HR).
  rewrite assert_true by (apply Z.leb_le; lia). simpl.
  rewrite (repr_mem_read_prefix _ _ HR) by lia. simpl. unfold networkToHost16.
  do 2 f_equal. exact (betoh_wrap_object_value 2 _ (length_ztake 2 c ltac:(done))).
Qed.

Lemma repr_peekInt32_short : zlen c < 4 -> peekInt32 b = Err AssertFailed.
Proof using HR.
  intros. unfold peekInt32. rewrite (repr_readableBytes _ _ HR).
  by destruct (Z.leb_spec 4 (zlen c)); [lia|].
Qed.
End ints.

Lemma hostToNetwork64_bytes x : object_bytes host 8 (hostToNetwork64 x) = be_bytes 8 x.
Proof.
  unfold hostToNetwork64. rewrite object_bytes_htobe. unfold be_bytes.
  f_equal. apply (le_bytes_wrap 8).
Qed.
Lemma hostToNetwork32_bytes x : object_bytes host 4 (hostToNetwork32 x) = be_bytes 4 x.
Proof.
  unfold hostToNetwork32. rewrite object_bytes_htobe. unfold be_bytes.
  f_equal. apply (le_bytes_wrap 4).
Qed.
Lemma hostToNetwork16_bytes x : object_bytes host 2 (hostToNetwork16 x) = be_bytes 2 x.
Proof.
  unfold hostToNetwork16. rewrite object_bytes_htobe. unfold be_bytes.
  f_equal. apply (le_bytes_wrap 2).
Qed.

Lemma repr_appendInt64 b c x :
  represents b c -> fits c 8 ->
  exists b', appendInt64 x b = Ok b' /\ appended b c (be_bytes 8 x) b'.
Proof.
  intros. unfold appendInt64. rewrite hostToNetwork64_bytes.
  apply repr_append_all; rewrite ?zlen_be_bytes; done.
Qed.
Lemma repr_appendInt32 b c x :
  represents b c -> fits c 4 ->
  exists b', appendInt32 x b = Ok b' /\ appended b c (be_bytes 4 x) b'.
Proof.
  intros. unfold appendInt32. rewrite hostToNetwork32_bytes.
  apply repr_append_all; rewrite ?zlen_be_bytes; done.
Qed.
Lemma repr_appendInt16 b c x :
  represents b c -> fits c 2 ->
  exists b', appendInt16 x b = Ok b' /\ appended b c (be_bytes 2 x) b'.
Proof.
  intros. unfold appendInt16. rewrite hostToNetwork16_bytes.
  apply repr_append_all; rewrite ?zlen_be_bytes; done.
Qed.

(** The big-endian reading of a big-endian image, signed and unsigned. *)
Lemma swrap_be_value_bytes n x :
  (0 < n)%nat -> swrap (8 * Z.of_nat n) (be_value (be_bytes n x)) = swrap (8 * Z.of_nat n) x.
Proof. intros. rewrite be_value_bytes. apply swrap_uwrap. lia. Qed.

Lemma s64_be x : s64 (be_value (be_bytes 8 x)) = s64 x.
Proof. apply (swrap_be_value_bytes 8). lia. Qed.
Lemma s32_be x : s32 (be_value (be_bytes 4 x)) = s32 x.
Proof. apply (swrap_be_value_bytes 4). lia. Qed.
Lemma s16_be x : s16 (be_value (be_bytes 2 x)) = s16 x.
Proof. apply (swrap_be_value_bytes 2). lia. Qed.
Lemma u64_be x : be_value (be_bytes 8 x) = u64 x.
Proof. apply (be_value_bytes 8). Qed.

(** The constructor's asserts hold, and the buffer is empty with the cheap
    prepend area in front. *)
Definition newBuffer : Buffer :=
  mkBuffer (replicate (Z.to_nat (kCheapPrepend + kInitialSize)) Byte.x00)
    kCheapPrepend kCheapPrepend.

Lemma Buffer_new_default : Buffer_new kInitialSize = Ok newBuffer.
Proof. reflexivity. Qed.

Lemma newBuffer_represents : represents newBuffer [].
Proof.
  exists (replicate 8 Byte.x00), (replicate 1024 Byte.x00).
  split; [reflexivity | vm_compute; split; discriminate].
Qed.

(** A buffer with the bytes [c], for examples. *)
Definition buffer_of (c : bytes) : Buffer :=
  mkBuffer (replicate 8 Byte.x00 ++ c ++ replicate 200 Byte.x00) 8 (8 + zlen c).
Lemma buffer_of_represents c : zlen c < 2 ^ 60 -> represents (buffer_of c) c.
Proof.
  intros Hc. exists (replicate 8 Byte.x00), (replicate 200 Byte.x00).
  split; [done|]. unfold max_size, kCheapPrepend. zlia.
Qed.

(** ** Properties of the class *)

(** The operations of the class on one buffer that can only fail by an
    assertion, as commands. *)
Inductive op :=
  | OAppend (d : bytes)
  | OPrepend (d : bytes)
  | ORetrieve (n : Z)
  | ORetrieveAll
  | OUnwrite (n : Z)
  | OEnsure (n : Z).

Definition run_op (o : op) (b : Buffer) : res Buffer :=
  match o with
  | OAppend d => append d (zlen d) b
  | OPrepend d => prepend d b
  | ORetrieve n => retrieve n b
  | ORetrieveAll => Ok (retrieveAll b)
  | OUnwrite n => unwrite n b
  | OEnsure n => ensureWritableBytes n b
  end.

(** The byte queue the buffer implements. *)
Definition spec_op (o : op) (c : bytes) : bytes :=
  match o with
  | OAppend d => c ++ d
  | OPrepend d => d ++ c
  | ORetrieve n => zdrop n c
  | ORetrieveAll => []
  | OUnwrite n => ztake (zlen c - n) c
  | OEnsure n => c
  end.

(** What the caller owes: what the code asserts, and room in the address
    space when the vector has to grow. *)
Definition op_pre (o : op) (b : Buffer) (c : bytes) : Prop :=
  match o with
  | OAppend d => fits c (zlen d)
  | OPrepend d => zlen d <= prependableBytes b
  | ORetrieve n | OUnwrite n => 0 <= n <= zlen c
  | ORetrieveAll => True
  | OEnsure n => 0 <= n /\ fits c n
  end.

Lemma repr_retrieveAll b c : represents b c -> represents (retrieveAll b) [].
Proof.
  intros HR. open_repr HR. unfold retrieveAll. simpl.
  exists (ztake 8 (pre ++ c ++ post)), (zdrop 8 (pre ++ c ++ post)).
  simpl. by rewrite ztake_zdrop, zlen_ztake by lia.
Qed.

Lemma repr_unwrite b c n :
  represents b c -> 0 <= n <= zlen c ->
  exists b', unwrite n b = Ok b' /\ represents b' (ztake (zlen c - n) c).
Proof.
  intros HR Hn. unfold unwrite. rewrite (repr_readableBytes _ _ HR).
  rewrite assert_true by (apply Z.leb_le; lia). simpl.
  eexists; split; [reflexivity|]. open_repr HR.
  rewrite uwrap_small by zlia.
  exists pre, (zdrop (zlen c - n) c ++ post).
  rewrite (app_assoc (ztake _ c)), ztake_zdrop, zlen_ztake by lia.
  split; [f_equal; lia | done].
Qed.

(** C9: Buffer implements a byte queue: append, prepend, retrieve,
    retrieveAll, unwrite and ensureWritableBytes, on a buffer that represents
    the byte string c and under their preconditions, succeed and leave a
    buffer that represents the string the queue operation gives, growing or
    compacting the vector as needed. *)
Theorem buffer_refines_byte_queue o b c :
  represents b c -> op_pre o b c ->
  exists b', run_op o b = Ok b' /\ represents b' (spec_op o c).
Proof.
  intros HR Hpre. destruct o; simpl in *.
  - destruct (repr_append_all b c d (zlen d)) as (b' & E & H & _); eauto.
  - by apply repr_prepend.
  - by apply repr_retrieve.
  - eauto using repr_retrieveAll.
  - by apply repr_unwrite.
  - destruct Hpre as [H0 Hf].
    destruct (repr_ensureWritableBytes b c n) as [[_ ?]|(b' & E & ? & _)]; [done| |done|eauto].
    unfold fits, kCheapPrepend in Hf. zlia.
Qed.

Lemma buffer_refines_byte_queue_witness :
  exists b', run_op (OAppend (str "ping")) newBuffer = Ok b' /\
             represents b' (spec_op (OAppend (str "ping")) []).
Proof.
  apply (buffer_refines_byte_queue (OAppend (str "ping")) newBuffer []).
  - apply newBuffer_represents.
  - vm_compute. discriminate.
Defined.

(** A call that breaks an asserted precondition stops the Debug build. *)
Definition op_misuse (o : op) (b : Buffer) (c : bytes) : Prop :=
  match o with
  | OPrepend d => prependableBytes b < zlen d
  | ORetrieve n | OUnwrite n => zlen c < n
  | _ => False
  end.

(** Retrieving or unwriting more than the readable bytes, or prepending
    more than the prependable bytes, fails the assertion. *)
Theorem buffer_misuse_asserts o b c :
  represents b c -> op_misuse o b c -> run_op o b = Err AssertFailed.
Proof.
  intros HR Hm. destruct o as [d|d|n| |n|n]; simpl in *; try done.
  - unfold prepend. by destruct (Z.leb_spec (zlen d) (prependableBytes b)); [lia|].
  - by apply (repr_retrieve_too_many b c).
  - unfold unwrite. rewrite (repr_readableBytes _ _ HR).
    by destruct (Z.leb_spec n (zlen c)); [lia|].
Qed.

Lemma buffer_misuse_asserts_witness :
  op_misuse (ORetrieve 1) newBuffer [] /\ run_op (ORetrieve 1) newBuffer = Err AssertFailed.
Proof.
  split; [vm_compute; reflexivity|].
  apply (buffer_misuse_asserts (ORetrieve 1) newBuffer []).
  - apply newBuffer_represents.
  - vm_compute; reflexivity.
Defined.

(** Reading back what was appended, with any bytes after it. *)
Lemma repr_readInt64 b x c :
  represents b (be_bytes 8 x ++ c) -> exists b', readInt64 b = Ok (s64 x, b') /\ represents b' c.
Proof.
  intros HR. pose proof (zlen_be_bytes 8 x) as L. unfold readInt64.
  rewrite (repr_peekInt64 _ _ HR) by zlia. mstep.
  destruct (repr_retrieve _ _ HR 8) as (b' & E & HR'); [zlia|].
  unfold retrieveInt64. rewrite E. mstep.
  rewrite ztake_app_exact by (rewrite L; done).
  rewrite s64_be. exists b'. split; [done|].
  by rewrite zdrop_app_exact in HR' by (rewrite L; done).
Qed.
Lemma repr_readInt32 b x c :
  represents b (be_bytes 4 x ++ c) -> exists b', readInt32 b = Ok (s32 x, b') /\ represents b' c.
Proof.
  intros HR. pose proof (zlen_be_bytes 4 x) as L. unfold readInt32.
  rewrite (repr_peekInt32 _ _ HR) by zlia. mstep.
  destruct (repr_retrieve _ _ HR 4) as (b' & E & HR'); [zlia|].
  unfold retrieveInt32. rewrite E. mstep.
  rewrite ztake_app_exact by (rewrite L; done).
  rewrite s32_be. exists b'. split; [done|].
  by rewrite zdrop_app_exact in HR' by (rewrite L; done).
Qed.
Lemma repr_readInt16 b x c :
  represents b (be_bytes 2 x ++ c) -> exists b', readInt16 b = Ok (s16 x, b') /\ represents b' c.
Proof.
  intros HR. pose proof (zlen_be_bytes 2 x) as L. unfold readInt16.
  rewrite (repr_peekInt16 _ _ HR) by zlia. mstep.
  destruct (repr_retrieve _ _ HR 2) as (b' & E & HR'); [zlia|].
  unfold retrieveInt16. rewrite E. mstep.
  rewrite ztake_app_exact by (rewrite L; done).
  rewrite s16_be. exists b'. split; [done|].
  by rewrite zdrop_app_exact in HR' by (rewrite L; done).
Qed.

(** An integer appended to a buffer is read back, at its width and with
    its sign, by the matching read, which leaves the bytes behind it. *)
Theorem buffer_int_roundtrip b x y z :
  represents b [] ->
  exists b1 b2 b3 b4 b5 b6,
    appendInt64 x b = Ok b1 /\ appendInt32 y b1 = Ok b2 /\ appendInt16 z b2 = Ok b3 /\
    readInt64 b3 = Ok (s64 x, b4) /\ readInt32 b4 = Ok (s32 y, b5) /\
    readInt16 b5 = Ok (s16 z, b6) /\ represents b6 [].
Proof.
  intros HR. pose proof (zlen_be_bytes 8 x). pose proof (zlen_be_bytes 4 y).
  destruct (repr_appendInt64 b [] x) as (b1 & E1 & R1 & _); [done|done|].
  destruct (repr_appendInt32 b1 _ y R1) as (b2 & E2 & R2 & _);
    [fits_lia|].
  destruct (repr_appendInt16 b2 _ z R2) as (b3 & E3 & R3 & _);
    [fits_lia|].
  rewrite app_nil_l, <- app_assoc in R3.
  destruct (repr_readInt64 _ _ _ R3) as (b4 & E4 & R4).
  destruct (repr_readInt32 _ _ _ R4) as (b5 & E5 & R5).
  rewrite <- (app_nil_r (be_bytes 2 z)) in R5.
  destruct (repr_readInt16 _ _ _ R5) as (b6 & E6 & R6).
  exists b1, b2, b3, b4, b5, b6. auto 10.
Qed.

Lemma buffer_int_roundtrip_witness :
  exists b1 b2 b3 b4 b5 b6,
    appendInt64 (-2) newBuffer = Ok b1 /\ appendInt32 7 b1 = Ok b2 /\ appendInt16 1 b2 = Ok b3 /\
    readInt64 b3 = Ok (s64 (-2), b4) /\ readInt32 b4 = Ok (s32 7, b5) /\
    readInt16 b5 = Ok (s16 1, b6) /\ represents b6 [].
Proof.
  apply (buffer_int_roundtrip newBuffer (-2) 7 1).
  apply newBuffer_represents.
Defined.
