(* ===== verification/Framing.v ===== *)
(** * Framed byte streams

    What the two length-prefixed protocols of the program (ClientCodec.h and
    RpcCodec.cc) have in common: a parser of one frame at the head of the
    bytes received so far, run until it wants more.  The class [Framer] is
    what a codec must provide; the section proves that the messages drained do not
    depend on how the network cuts the stream into reads. *)

From Stdlib Require Import ZArith Lia.
From stdpp Require Import base list.
From S2P Require Import Prelude.
Local Open Scope Z_scope.

(** What the head of a stream is: an incomplete frame, one the codec refuses
    (and why, and how many bytes it discards), one on which the code fails, or
    a message of [n] bytes. *)
Inductive parse (A Y : Type) :=
  | Need
  | Bad (why : Y) (n : Z)
  | Crash (e : exn)
  | Got (a : A) (n : Z).
Arguments Need {A Y}.
Arguments Bad {A Y} why n.
Arguments Crash {A Y} e.
Arguments Got {A Y} a n.

(** How draining a stream ended. *)
Inductive stop (Y : Type) := Idle | Refused (why : Y) | Crashed (e : exn).
Arguments Idle {Y}.
Arguments Refused {Y} why.
Arguments Crashed {Y} e.

Class Framer {A Y : Type} (parse1 : bytes -> parse A Y) : Prop := {
  got_bounds c a n : parse1 c = Got a n -> 0 < n <= zlen c;
  got_app c a n x : parse1 c = Got a n -> parse1 (c ++ x) = Got a n;
  bad_bounds c e n : parse1 c = Bad e n -> 0 <= n <= zlen c;
  bad_app c e n x : parse1 c = Bad e n -> parse1 (c ++ x) = Bad e n;
  crash_app c e x : parse1 c = Crash e -> exists e', parse1 (c ++ x) = Crash e';
}.

Section drain.
Context {A Y : Type} (parse1 : bytes -> parse A Y).

Fixpoint drain_fuel (k : nat) (c : bytes) : list A * bytes * stop Y :=
  match k with
  | O => ([], c, Crashed OutOfFuel)
  | S k =>
      match parse1 c with
      | Need => ([], c, Idle)
      | Bad why n => ([], zdrop n c, Refused why)
      | Crash e => ([], c, Crashed e)
      | Got a n => let '(l, r, s) := drain_fuel k (zdrop n c) in (a :: l, r, s)
      end
  end.

Definition drain (c : bytes) : list A * bytes * stop Y := drain_fuel (S (length c)) c.

(** The stream received in chunks, drained after each. *)
Fixpoint feed (r : bytes) (chunks : list bytes) : list A * bytes * stop Y :=
  match chunks with
  | [] => ([], r, Idle)
  | d :: ds =>
      match drain (r ++ d) with
      | (l, r', Idle) => let '(l', r'', s) := feed r' ds in (l ++ l', r'', s)
      | other => other
      end
  end.

Context {F : Framer parse1}.


Lemma drain_fuel_irrel k1 k2 c :
  (length c < k1)%nat -> (length c < k2)%nat -> drain_fuel k1 c = drain_fuel k2 c.
Proof using F.
  revert k2 c. induction k1 as [|k1 IH]; intros [|k2] c H1 H2; [lia..|].
  simpl. destruct (parse1 c) as [|why m|e|a n] eqn:E; try done.
  apply got_bounds in E. unfold zlen in E.
  rewrite (IH k2); [done| |]; unfold zdrop; rewrite length_drop; lia.
Qed.

Lemma drain_eq c :
  drain c = match parse1 c with
            | Need => ([], c, Idle)
            | Bad why n => ([], zdrop n c, Refused why)
            | Crash e => ([], c, Crashed e)
            | Got a n => let '(l, r, s) := drain (zdrop n c) in (a :: l, r, s)
            end.
Proof using F.
  unfold drain at 1. cbn [drain_fuel].
  destruct (parse1 c) as [|why m|e|a n] eqn:E; try done.
  apply got_bounds in E. unfold zlen in E.
  unfold drain. rewrite (drain_fuel_irrel _ (S (length (zdrop n c)))); [done| |lia].
  unfold zdrop. rewrite length_drop. lia.
Qed.

(** Induction along the frames of a stream. *)
Lemma drain_ind (P : bytes -> Prop) :
  (forall c, (forall a n, parse1 c = Got a n -> P (zdrop n c)) -> P c) -> forall c, P c.
Proof using F.
  intros H c. remember (length c) as m eqn:Hm.
  revert c Hm. induction (lt_wf m) as [m _ IH]. intros c ->.
  apply H. intros a n E. eapply IH; [|done].
  apply got_bounds in E. unfold zdrop. rewrite length_drop. unfold zlen in E. lia.
Qed.

Lemma drain_no_fuel_out c l r : drain c <> (l, r, Crashed OutOfFuel) \/
  exists c', parse1 c' = Crash OutOfFuel.
Proof using F.
  revert l r. induction c as [c IH] using drain_ind. intros l r.
  rewrite drain_eq. destruct (parse1 c) as [|why m|e|a n] eqn:E.
  - by left.
  - by left.
  - destruct (decide (e = OutOfFuel)) as [->|]; [eauto|left; congruence].
  - destruct (drain (zdrop n c)) as [[l' r'] s'] eqn:E'.
    destruct (IH a n eq_refl l' r') as [H|H]; [left|auto].
    rewrite E' in H. congruence.
Qed.

Lemma drain_app c1 c2 l1 r1 :
  drain c1 = (l1, r1, Idle) ->
  drain (c1 ++ c2) = let '(l2, r2, s) := drain (r1 ++ c2) in (l1 ++ l2, r2, s).
Proof using F.
  revert l1 r1. induction c1 as [c IH] using drain_ind. intros l1 r1.
  rewrite drain_eq. destruct (parse1 c) as [|why m|e|a n] eqn:E; try done.
  - intros [= <- <-]. by destruct (drain (c ++ c2)) as [[??]?].
  - destruct (drain (zdrop n c)) as [[l r] s] eqn:Ed. intros [= <- <- ->].
    rewrite drain_eq, (got_app _ _ _ c2 E).
    pose proof (got_bounds _ _ _ E). rewrite zdrop_app_le by lia.
    rewrite (IH a n eq_refl l r Ed).
    by destruct (drain (r ++ c2)) as [[??]?].
Qed.

Lemma drain_prefix_idle c1 c2 l r :
  drain (c1 ++ c2) = (l, r, Idle) -> exists l1 r1, drain c1 = (l1, r1, Idle).
Proof using F.
  revert l r. induction c1 as [c IH] using drain_ind. intros l r.
  rewrite (drain_eq c), (drain_eq (c ++ c2)).
  destruct (parse1 c) as [|why m|e|a n] eqn:E; [eauto| | |].
  - by rewrite (bad_app _ _ _ c2 E).
  - by destruct (crash_app _ _ c2 E) as [e' ->].
  - rewrite (got_app _ _ _ c2 E).
    pose proof (got_bounds _ _ _ E). rewrite zdrop_app_le by lia.
    destruct (drain (zdrop n c ++ c2)) as [[l2 r2] s2] eqn:Ed. intros [= <- <- ->].
    destruct (IH a n eq_refl _ _ Ed) as (l1 & r1 & ->). eauto.
Qed.

(** What is left over holds no complete frame. *)
Lemma drain_rest_idle c l r : drain c = (l, r, Idle) -> drain r = ([], r, Idle).
Proof using F.
  intros E1. pose proof (drain_app _ [] _ _ E1) as H1. rewrite !app_nil_r, E1 in H1.
  destruct (drain r) as [[l3 r3] s3]. injection H1 as E3 -> ->.
  assert (l3 = []) as ->; [|done].
  apply (f_equal length) in E3. rewrite length_app in E3.
  destruct l3; [done | simpl in E3; lia].
Qed.

Lemma drain_rest_len c l r s : drain c = (l, r, s) -> zlen r <= zlen c.
Proof using F.
  revert l r s. induction c as [c IH] using drain_ind. intros l r s.
  rewrite drain_eq. destruct (parse1 c) as [|why m|e|a n] eqn:E1; [naive_solver lia| |naive_solver lia|].
  - intros [= <- <- <-]. apply bad_bounds in E1. rewrite zlen_zdrop; lia.
  - destruct (drain (zdrop n c)) as [[l' r'] s'] eqn:E'. intros [= <- <- <-].
    apply (IH a n eq_refl) in E'. apply got_bounds in E1. rewrite zlen_zdrop in E'; lia.
Qed.

(** A stream that drains without incident gives the same messages and the
    same left-over however it is cut into chunks. *)
Lemma feed_chunks ds r l r' :
  drain r = ([], r, Idle) -> drain (r ++ concat ds) = (l, r', Idle) ->
  feed r ds = (l, r', Idle).
Proof using F.
  revert r l r'. induction ds as [|d ds IH]; intros r l r' H0 H; simpl in *.
  - rewrite app_nil_r in H. congruence.
  - rewrite app_assoc in H.
    destruct (drain_prefix_idle _ _ _ _ H) as (l1 & r1 & E1). rewrite E1.
    rewrite (drain_app _ (concat ds) _ _ E1) in H.
    destruct (drain (r1 ++ concat ds)) as [[l2 r2] s2] eqn:E2. simplify_eq.
    by rewrite (IH r1 l2 r' (drain_rest_idle _ _ _ E1) E2).
Qed.

(** A stream of encoded messages drains to exactly those messages. *)
Lemma drain_encoded (encode : A -> bytes) l r :
  (forall a x, In a l -> parse1 (encode a ++ x) = Got a (zlen (encode a))) ->
  drain r = ([], r, Idle) ->
  drain (concat (map encode l) ++ r) = (l, r, Idle).
Proof using F.
  intros He Hr. induction l as [|a l IH]; [done|]. simpl.
  rewrite <- app_assoc, drain_eq, He by (by left).
  rewrite zdrop_app_exact by done. rewrite IH; [done|].
  intros a' x Ha. apply He. by right.
Qed.

(** [drain] meets no frame the code fails on. *)
Definition calm (c : bytes) : Prop :=
  match drain c with (_, _, Crashed _) => False | _ => True end.

Lemma calm_eq c :
  calm c ->
  match parse1 c with
  | Crash _ => False
  | Got _ n => calm (zdrop n c)
  | _ => True
  end.
Proof using F.
  unfold calm. rewrite drain_eq. destruct (parse1 c) as [| | |a n]; try done.
  by destruct (drain (zdrop n c)) as [[??][]].
Qed.

Lemma calm_idle c l r : drain c = (l, r, Idle) -> calm c.
Proof using. intros E. unfold calm. by rewrite E. Qed.

(** ** What a decoder loop does with the stream *)
Context {W : Type} (on_frame : A -> W -> res W) (on_refused : Y -> W -> res W).

(** The callback on each message in order; a refusal is reported and ends
    the loop.  Returns the bytes left in the buffer. *)
Definition decode (c : bytes) (w : W) : res (bytes * W) :=
  let '(l, r, st) := drain c in
  let* w := foldM on_frame l w in
  match st with
  | Idle => Ok (r, w)
  | Refused why => let* w := on_refused why w in Ok (r, w)
  | Crashed e => Err e
  end.

Lemma decode_eq c w :
  decode c w =
  match parse1 c with
  | Need => Ok (c, w)
  | Bad why n => let* w := on_refused why w in Ok (zdrop n c, w)
  | Crash e => Err e
  | Got f n => let* w := on_frame f w in decode (zdrop n c) w
  end.
Proof using F.
  unfold decode at 1. rewrite drain_eq.
  destruct (parse1 c) as [| | |f n]; [done|done|done|].
  unfold decode. destruct (drain (zdrop n c)) as [[l r] st].
  simpl. by rewrite bind_assoc.
Qed.

Lemma decode_idle c w l r w' :
  drain c = (l, r, Idle) -> foldM on_frame l w = Ok w' -> decode c w = Ok (r, w').
Proof using. intros E1 E2. unfold decode. by rewrite E1, E2. Qed.
End drain.
