(* ===== verification/Interfaces.v ===== *)
(** * What the components promise each other

    [SessionOps] is the part of [class Session] (src/net/Session.h) its clients
    call: [send] and [close].  [sent] is the specification's view of it, the
    bytes a session has accepted for its peer, in order.  The codecs and the
    servers are proved against [SessionLaws]; Session.v discharges the laws
    for the write queue of Session.cc. *)

From Stdlib Require Import ZArith Lia.
From stdpp Require Import base list gmap.
From S2P Require Import Prelude Endian Buffer.
Local Open Scope Z_scope.

(** [S]: a [SessionPtr]; [W]: the state of the process the calls run in. *)
Class SessionOps (S W : Type) := {
  session_send : S -> Buffer -> W -> res W;
  session_close : S -> W -> res W;
  sent : W -> S -> bytes;
}.

Class SessionLaws (S W : Type) `{SessionOps S W} : Prop := {
  session_send_spec s b c w :
    represents b c ->
    exists w', session_send s b w = Ok w' /\ sent w' s = sent w s ++ c /\
      forall s', s' <> s -> sent w' s' = sent w s';
  session_close_spec s w :
    exists w', session_close s w = Ok w' /\ forall s', sent w' s' = sent w s';
}.

(** The simplest process that keeps the promise: per session, the bytes sent
    and whether it was closed. *)
Module Log.
Record net := mkNet { out : gmap nat bytes; closed : list nat }.
Definition lsend (s : nat) (b : Buffer) (w : net) : res net :=
  Ok (mkNet (<[s := default [] (out w !! s) ++ content b]> (out w)) (closed w)).
Definition lclose (s : nat) (w : net) : res net := Ok (mkNet (out w) (s :: closed w)).
Definition empty : net := mkNet ∅ [].

#[global] Instance ops : SessionOps nat net := {|
  session_send := lsend;
  session_close := lclose;
  sent w s := default [] (out w !! s);
|}.

#[global] Instance laws : SessionLaws nat net.
Proof.
  split.
  - intros s b c w HR. apply represents_iff in HR as [_ Hc].
    eexists; split; [reflexivity|]. simpl. rewrite Hc. split.
    + by rewrite lookup_insert_eq.
    + intros s' Hs. by rewrite lookup_insert_ne.
  - intros s w. eexists; split; [reflexivity|]. done.
Qed.
End Log.
