(* ===== verification/Session.v ===== *)
(** * TCP sessions: src/net/Session.h, src/net/Session.cc

    [Module Writer] is the sending half, where threads meet: [send] may run on
    any thread and shares [unsend_queue_] with the event loop under [mutex_];
    everything else runs on the loop thread.  It is a step relation whose
    steps are the code between two points where another thread can act, with
    the program counter of the loop in [pc].  [Module Reader] is the receive
    handler, [Module Life] connecting, reconnecting and closing. *)

From Stdlib Require Import ZArith Lia.
From stdpp Require Import base list gmap strings.
From S2P Require Import Prelude Endian Buffer Framing Interfaces.
Local Open Scope Z_scope.

Module Writer.

(** Where the loop thread is: outside [write()] and its completion handler, at
    the start of [write()], after the swap of the queues and before the bytes
    are handed to the socket, after the completion handler emptied
    [write_buf_] and before it looks at [unsend_queue_]. *)
Inductive loop_pc := LIdle | LWrite | LFill | LCheck.

#[export] Instance loop_pc_eq_dec : EqDecision loop_pc.
Proof. solve_decision. Defined.

Record Writer := mkWriter {
  write_buf_ : Buffer;
  unsend_queue_ : list Buffer;
  tmp_queue_ : list Buffer;
  pc : loop_pc;
  posting : nat;             (** calls of [send] between the lock and the post *)
  posted : nat;              (** lambdas of [send] queued in the loop *)
  inflight : option bytes;   (** the outstanding [async_write_some] *)
  wire : bytes;              (** bytes the socket has taken, in order *)
}.

Definition init : Writer := mkWriter newBuffer [] [] LIdle 0 0 None [].

(** [send], the block under the lock: the early return leaves nothing to do,
    else the call goes on to post its lambda. *)
Definition send_push (b : Buffer) (w : Writer) : Writer :=
  mkWriter (write_buf_ w) (unsend_queue_ w ++ [b]) (tmp_queue_ w) (pc w)
    (if readableBytes (write_buf_ w) =? 0 then S (posting w) else posting w)
    (posted w) (inflight w) (wire w).

(** [send], the call of [runInLoop]. *)
Definition send_post (w : Writer) : Writer :=
  mkWriter (write_buf_ w) (unsend_queue_ w) (tmp_queue_ w) (pc w)
    (pred (posting w)) (S (posted w)) (inflight w) (wire w).

(** The posted lambda. *)
Definition run_posted (w : Writer) : Writer :=
  mkWriter (write_buf_ w) (unsend_queue_ w) (tmp_queue_ w)
    (if readableBytes (write_buf_ w) =? 0 then LWrite else LIdle)
    (posting w) (pred (posted w)) (inflight w) (wire w).

(** [write], the block under the lock. *)
Definition write_swap (w : Writer) : Writer :=
  mkWriter (write_buf_ w) [] (unsend_queue_ w)
    (match unsend_queue_ w with [] => LIdle | _ => LFill end)
    (posting w) (posted w) (inflight w) (wire w).

(** [write], the rest: append the queued buffers, start the write. *)
Definition write_fill (w : Writer) : res Writer :=
  let* b := foldM (fun buf b => append (content buf) (readableBytes buf) b)
              (tmp_queue_ w) (write_buf_ w) in
  Ok (mkWriter b (unsend_queue_ w) (tmp_queue_ w) LIdle (posting w) (posted w)
        (Some (content b)) (wire w)).

(** Completion without error after [n] bytes, up to the lock: the code empties
    [write_buf_] whatever [n] is. *)
Definition write_done (n : Z) (d : bytes) (w : Writer) : res Writer :=
  let* b := retrieve (readableBytes (write_buf_ w)) (write_buf_ w) in
  Ok (mkWriter b (unsend_queue_ w) (tmp_queue_ w) LCheck (posting w) (posted w)
        None (wire w ++ ztake n d)).

(** Completion, the block under the lock. *)
Definition check_queue (w : Writer) : Writer :=
  mkWriter (write_buf_ w) (unsend_queue_ w) (tmp_queue_ w)
    (match unsend_queue_ w with [] => LIdle | _ => LWrite end)
    (posting w) (posted w) (inflight w) (wire w).

(** The steps that take no new data: those of the loop thread, and the end of
    a call of [send].  [full]: [async_write_some] always takes all the bytes it
    is given (it need not). *)
Inductive loop_step (full : bool) : Writer -> Writer -> Prop :=
  | step_post w :
      (0 < posting w)%nat -> loop_step full w (send_post w)
  | step_run w :
      pc w = LIdle -> (0 < posted w)%nat -> loop_step full w (run_posted w)
  | step_swap w :
      pc w = LWrite -> loop_step full w (write_swap w)
  | step_fill w w' :
      pc w = LFill -> write_fill w = Ok w' -> loop_step full w w'
  | step_done w w' d n :
      pc w = LIdle -> inflight w = Some d -> 0 < n <= zlen d ->
      (full = true -> n = zlen d) -> write_done n d w = Ok w' -> loop_step full w w'
  | step_check w :
      pc w = LCheck -> loop_step full w (check_queue w).

(** The runs of a session: [run full acc w] when the calls of [send] so far
    were given the bytes [acc] and the session is now in state [w]. *)
Inductive run (full : bool) : bytes -> Writer -> Prop :=
  | run_init : run full [] init
  | run_send acc w b c :
      run full acc w -> represents b c -> c <> [] -> run full (acc ++ c) (send_push b w)
  | run_loop acc w w' :
      run full acc w -> loop_step full w w' -> run full acc w'.

(** The bytes [send] has accepted and the socket has not taken, in order. *)
Definition pending (w : Writer) : bytes :=
  content (write_buf_ w) ++
  (if decide (pc w = LFill) then concat (map content (tmp_queue_ w)) else []) ++
  concat (map content (unsend_queue_ w)).

(** Nothing left to do: the loop is outside the code, nothing is posted and no
    write is outstanding. *)
Definition at_rest (w : Writer) : Prop :=
  pc w = LIdle /\ posting w = 0%nat /\ posted w = 0%nat /\ inflight w = None.

(** ** The invariant *)
Definition queued (b : Buffer) : Prop := exists d, represents b d /\ d <> [].

Definition write_idle (w : Writer) (c : bytes) : Prop :=
  match pc w with
  | LIdle => inflight w = if decide (c = []) then None else Some c
  | _ => c = [] /\ inflight w = None
  end.

(** A queued buffer has a thread that will see it. *)
Definition awake (w : Writer) : Prop :=
  unsend_queue_ w <> [] ->
  (0 < posting w)%nat \/ (0 < posted w)%nat \/ inflight w <> None \/ pc w <> LIdle.

Record inv (w : Writer) : Prop := {
  inv_buf : exists c, represents (write_buf_ w) c /\ write_idle w c;
  inv_unsend : Forall queued (unsend_queue_ w);
  inv_tmp : pc w = LFill -> Forall queued (tmp_queue_ w) /\ tmp_queue_ w <> [];
  inv_awake : awake w;
}.

Lemma content_repr b c : represents b c -> content b = c.
Proof. intros H. by apply represents_iff in H as [_ ?]. Qed.

Lemma fill_spec l b c b' :
  represents b c -> Forall queued l ->
  foldM (fun buf b => append (content buf) (readableBytes buf) b) l b = Ok b' ->
  represents b' (c ++ concat (map content l)).
Proof.
  revert b c. induction l as [|x l IH]; intros b c HR Hl E; simpl in *.
  - simplify_eq. by rewrite app_nil_r.
  - apply Forall_cons in Hl as [(d & Hd & _) Hl].
    apply bind_Ok_inv in E as (b1 & E1 & E).
    rewrite (repr_readableBytes _ _ Hd), (content_repr _ _ Hd) in E1.
    rewrite (content_repr _ _ Hd), app_assoc.
    apply (IH b1); [|done..].
    rewrite <- (app_nil_r d) in E1 at 1.
    eapply repr_append_Ok in E1 as [? _]; [done|done|].
    apply (repr_len_bound _ _ Hd).
Qed.

Lemma concat_queued_nonnil l :
  Forall queued l -> l <> [] -> concat (map content l) <> [].
Proof.
  intros Hl Hn. destruct l as [|x l]; [done|].
  apply Forall_cons in Hl as [(d & Hd & Hd0) _]. simpl.
  rewrite (content_repr _ _ Hd). destruct d; [done|]. done.
Qed.

Lemma readable_zero b c : represents b c -> (readableBytes b =? 0) = bool_decide (c = []).
Proof.
  intros HR. rewrite (repr_readableBytes _ _ HR).
  destruct c; [done|]. rewrite zlen_cons.
  destruct (Z.eqb_spec (1 + zlen c) 0); [zlia|]. by rewrite bool_decide_false.
Qed.

Lemma inv_push b c w : inv w -> represents b c -> c <> [] -> inv (send_push b w).
Proof.
  intros [(x & HR & Hi) Hu Ht Ha] Hb Hc. split; simpl; [eauto| |done|].
  - apply Forall_app. split; [done|]. apply Forall_singleton. by exists c.
  - intros _. unfold awake in *. simpl. rewrite (readable_zero _ _ HR).
    case_bool_decide; [left; lia|]. unfold write_idle in Hi.
    destruct (pc w); try (right; right; right; done).
    rewrite decide_False in Hi by done. rewrite Hi. right; right; by left.
Qed.

Lemma inv_loop_step full w w' : loop_step full w w' -> inv w -> inv w'.
Proof.
  intros Hs [(c & HR & Hi) Hu Ht Ha]. unfold write_idle, awake in *.
  destruct Hs as [w Hp|w Hpc Hp|w Hpc|w w' Hpc E|w w' d n Hpc Hd Hn Hf E|w Hpc].
  - split; unfold awake; simpl; eauto. intros ?. right; left; lia.
  - rewrite Hpc in Hi. split; unfold write_idle, awake; simpl; [exists c; split; [done|]|done| |];
      rewrite (readable_zero _ _ HR); case_bool_decide; subst; auto; try done.
    intros _. rewrite Hi, decide_False by done. auto.
  - rewrite Hpc in Hi. destruct Hi as [-> Hi].
    split; unfold write_idle, awake; simpl; [|done| |done]; destruct (unsend_queue_ w); eauto.
  - rewrite Hpc in Hi. destruct Hi as [-> Hi]. destruct (Ht Hpc) as [Hq Hn].
    unfold write_fill in E. apply bind_Ok_inv in E as (b' & E & [= <-]).
    apply (fill_spec _ _ _ _ HR Hq) in E. rewrite app_nil_l in E.
    split; unfold write_idle, awake; simpl; [|done..|by auto].
    exists (concat (map content (tmp_queue_ w))). split; [done|].
    rewrite decide_False by (by apply concat_queued_nonnil). by rewrite (content_repr _ _ E).
  - unfold write_done in E. rewrite (repr_readableBytes _ _ HR) in E.
    destruct (repr_retrieve _ _ HR (zlen c)) as (b' & E' & HR'); [zlia|].
    rewrite E' in E. injection E as <-. rewrite zdrop_all in HR' by lia.
    split; unfold write_idle, awake; simpl; eauto. done.
  - rewrite Hpc in Hi. destruct Hi as [-> Hi].
    split; unfold write_idle, awake; simpl.
    + exists []. by destruct (unsend_queue_ w).
    + done.
    + by destruct (unsend_queue_ w).
    + destruct (unsend_queue_ w); [done|]. auto.
Qed.

Lemma inv_init : inv init.
Proof.
  split; simpl; [exists []; split; [apply newBuffer_represents|done] | by apply Forall_nil | done | by intros []].
Qed.

Lemma run_inv full acc w : run full acc w -> inv w.
Proof. induction 1; eauto using inv_init, inv_push, inv_loop_step. Qed.

(** ** What the writer guarantees *)
Lemma pending_push b c w :
  represents b c -> pending (send_push b w) = pending w ++ c.
Proof.
  intros HR. unfold pending. simpl.
  rewrite map_app, concat_app. simpl. rewrite (content_repr _ _ HR), app_nil_r.
  by rewrite !app_assoc.
Qed.

Lemma loop_step_bytes w w' :
  inv w -> loop_step true w w' -> wire w' ++ pending w' = wire w ++ pending w.
Proof.
  intros [(c & HR & Hi) Hu Ht Ha] Hs. unfold write_idle, pending in *.
  destruct Hs as [w Hp|w Hpc Hp|w Hpc|w w' Hpc E|w w' d n Hpc Hd Hn Hf E|w Hpc]; simpl.
  - done.
  - rewrite Hpc. by destruct (readableBytes _ =? 0).
  - rewrite Hpc. destruct (unsend_queue_ w); simpl; by rewrite ?app_nil_r.
  - rewrite Hpc in Hi |- *. destruct Hi as [-> _]. destruct (Ht Hpc) as [Hq _].
    unfold write_fill in E. apply bind_Ok_inv in E as (b' & E & [= <-]). simpl.
    apply (fill_spec _ _ _ _ HR Hq) in E.
    by rewrite (content_repr _ _ E), (content_repr _ _ HR).
  - rewrite Hpc in Hi. rewrite Hd in Hi. destruct (decide (c = [])); [done|].
    injection Hi as ->. rewrite (Hf eq_refl) in E.
    unfold write_done in E. rewrite (repr_readableBytes _ _ HR) in E.
    destruct (repr_retrieve _ _ HR (zlen c)) as (b' & E' & HR'); [zlia|].
    rewrite E' in E. injection E as <-. simpl. rewrite zdrop_all in HR' by lia.
    rewrite (content_repr _ _ HR), (content_repr _ _ HR'), Hpc, ztake_all by lia.
    simpl. by rewrite <- !app_assoc.
  - rewrite Hpc. by destruct (unsend_queue_ w).
Qed.

Lemma run_bytes acc w : run true acc w -> wire w ++ pending w = acc.
Proof.
  induction 1 as [|acc w b c Hr IH HR Hc|acc w w' Hr IH Hs].
  - done.
  - rewrite (pending_push _ _ _ HR). simpl. by rewrite app_assoc, IH.
  - rewrite <- IH. apply loop_step_bytes; eauto using run_inv.
Qed.

(** C4: In every interleaving of sending threads with the loop thread in which
    the socket takes all the bytes it is offered, the bytes the socket has
    taken followed by the pending ones are exactly the bytes given to send, in
    order, and when nothing is left to run nothing is pending. *)
Theorem session_sends_in_order acc w :
  run true acc w ->
  wire w ++ pending w = acc /\ (at_rest w -> wire w = acc).
Proof.
  intros Hr. pose proof (run_bytes _ _ Hr) as E. split; [done|].
  intros (Hpc & Hp & Hq & Hin). destruct (run_inv _ _ _ Hr) as [(c & HR & Hi) _ _ Ha].
  unfold write_idle in Hi. rewrite Hpc, Hin in Hi.
  destruct (decide (c = [])) as [->|]; [|done].
  assert (unsend_queue_ w = []) as Hu.
  { destruct (unsend_queue_ w) eqn:Eu; [done|].
    destruct Ha as [?|[?|[?|?]]]; [by rewrite Eu|lia|lia|done|done]. }
  rewrite <- E. unfold pending.
  by rewrite (content_repr _ _ HR), Hpc, Hu, !app_nil_r.
Qed.

(** A run in which one message is queued, written and taken whole. *)
Definition ping : Buffer := mkBuffer (replicate 8 Byte.x00 ++ str "ping") 8 12.
Lemma ping_represents : represents ping (str "ping").
Proof. exists (replicate 8 Byte.x00), []. by vm_compute. Qed.

(** The states of that run; [n] is what the socket takes. *)
Definition get (r : res Writer) : Writer := match r with Ok w => w | Err _ => init end.
Definition ping_filled : Writer :=
  get (write_fill (write_swap (run_posted (send_post (send_push ping init))))).
Definition ping_final (n : Z) : Writer :=
  check_queue (get (write_done n (str "ping") ping_filled)).

Lemma ping_filled_run full : run full (str "ping") ping_filled.
Proof.
  apply run_loop with (w := write_swap (run_posted (send_post (send_push ping init))));
    [|apply step_fill; vm_compute; reflexivity].
  apply run_loop with (w := run_posted (send_post (send_push ping init)));
    [|apply step_swap; vm_compute; reflexivity].
  apply run_loop with (w := send_post (send_push ping init));
    [|apply step_run; vm_compute; [reflexivity|lia]].
  apply run_loop with (w := send_push ping init); [|apply step_post; vm_compute; lia].
  apply (run_send full [] init ping (str "ping"));
    [apply run_init | apply ping_represents | done].
Qed.

Lemma ping_run full n :
  0 < n <= 4 -> (full = true -> n = 4) -> run full (str "ping") (ping_final n).
Proof.
  intros Hn Hf. unfold ping_final.
  apply run_loop with (w := get (write_done n (str "ping") ping_filled)); [|by apply step_check].
  apply run_loop with (w := ping_filled); [apply ping_filled_run|].
  apply step_done with (d := str "ping") (n := n);
    [vm_compute; reflexivity | vm_compute; reflexivity | exact Hn | exact Hf | reflexivity].
Qed.

Lemma session_sends_in_order_witness :
  run true (str "ping") (ping_final 4) /\ at_rest (ping_final 4) /\
  wire (ping_final 4) = str "ping".
Proof.
  assert (run true (str "ping") (ping_final 4)) as H by (apply ping_run; [lia|done]).
  assert (at_rest (ping_final 4)) as H' by (vm_compute; auto).
  split; [exact H|]. split; [exact H'|].
  apply (proj2 (session_sends_in_order _ _ H)). exact H'.
Defined.

(** When async_write_some takes fewer bytes than it is offered, the
    completion handler drops the rest: a run that accepts four bytes ends at
    rest with two of them on the wire. *)
Theorem session_short_write_loses_bytes :
  exists acc w, run false acc w /\ at_rest w /\ wire w = str "pin" /\ acc = str "ping".
Proof.
  exists (str "ping"), (ping_final 3). split; [apply ping_run; [lia|done]|].
  by vm_compute.
Qed.
End Writer.

(** The sessions of a process, by number, each with its writer: this is the
    promise of Interfaces.v kept by the write queue. *)
Module WriterNet.
Import Writer.
Record net := mkNet { sessions : gmap nat Writer; closes : list nat }.
Definition writer (n : net) (s : nat) : Writer := default init (sessions n !! s).

(** [Session::send], both blocks. *)
Definition send (s : nat) (b : Buffer) (n : net) : res net :=
  let w := writer n s in
  let w' := send_push b w in
  let w'' := if readableBytes (write_buf_ w) =? 0 then send_post w' else w' in
  Ok (mkNet (<[s := w'']> (sessions n)) (closes n)).
Definition close (s : nat) (n : net) : res net := Ok (mkNet (sessions n) (s :: closes n)).

#[global] Instance ops : SessionOps nat net := {|
  session_send := send;
  session_close := close;
  sent n s := wire (writer n s) ++ pending (writer n s);
|}.

#[global] Instance laws : SessionLaws nat net.
Proof.
  split.
  - intros s b c n HR. eexists; split; [reflexivity|]. unfold sent, ops, writer. simpl.
    split.
    + rewrite lookup_insert_eq. simpl.
      rewrite <- app_assoc, <- (pending_push _ _ _ HR).
      by destruct (readableBytes _ =? 0).
    + intros s' Hs. by rewrite lookup_insert_ne.
  - intros s n. eexists; split; [reflexivity|]. done.
Qed.
End WriterNet.

Module Reader.
Section reader.
Context {W : Type} (messagecallback_ : Buffer -> W -> res (Buffer * W)).

(** The handler of [async_read_some] after a read of [d] into the writable
    bytes of [read_buf_]; it ends by starting the next read. *)
Definition on_read (d : bytes) (read_buf_ : Buffer) (w : W) : res (Buffer * W) :=
  let* read_buf_ := mem_write read_buf_ (beginWrite read_buf_) d in
  let* read_buf_ := hasWritten (zlen d) read_buf_ in
  let* (read_buf_, w) := messagecallback_ read_buf_ w in
  let* read_buf_ := ensureWritableBytes (zlen d) read_buf_ in
  Ok (read_buf_, w).

(** The reads of a session on a connection whose peer has sent [stream]:
    the socket fills each read with some bytes, [n] at most, and no more
    than fit the writable bytes it was offered. *)
Fixpoint receive (sizes : list Z) (stream : bytes) (read_buf_ : Buffer) (w : W)
    : res (bytes * Buffer * W) :=
  match sizes, stream with
  | [], _ | _, [] => Ok (stream, read_buf_, w)
  | n :: sizes, _ =>
      let k := Z.min n (Z.min (writableBytes read_buf_) (zlen stream)) in
      let* (read_buf_, w) := on_read (ztake k stream) read_buf_ w in
      receive sizes (zdrop k stream) read_buf_ w
  end.
End reader.

Section stream.
Context {A Y W : Type} (parse1 : bytes -> parse A Y) {F : Framer parse1}.
Context (on_frame : A -> W -> res W) (on_refused : Y -> W -> res W).
Context (mcb : Buffer -> W -> res (Buffer * W)).
Context (mcb_decodes : forall b c w, represents b c -> calm parse1 c ->
  res_rel (fst_rel represents) (mcb b w) (decode parse1 on_frame on_refused c w)).

Lemma on_read_idle d rb r w l r' w' :
  represents rb r -> 0 < zlen d <= writableBytes rb -> zlen (r ++ d) <= 2 ^ 60 ->
  drain parse1 (r ++ d) = (l, r', Idle) -> foldM on_frame l w = Ok w' ->
  exists rb', on_read mcb d rb w = Ok (rb', w') /\ represents rb' r' /\
    0 < writableBytes rb'.
Proof using F mcb_decodes.
  intros HR Hd Hlen Hdr Hf. unfold on_read.
  destruct (repr_mem_write_hasWritten rb r d HR) as (rb1 & E & HR1 & _); [lia|].
  apply bind_Ok_inv in E as (rb0 & -> & E). mstep. rewrite E. mstep. pose proof (mcb_decodes rb1 _ w HR1 (calm_idle _ _ _ _ Hdr)) as Hm.
  rewrite (decode_idle _ _ _ _ _ _ _ _ Hdr Hf) in Hm.
  apply res_rel_Ok_r in Hm as ([rb2 w2] & -> & [HR2 Ew]). simpl in *. subst w2.
  pose proof (drain_rest_len _ _ _ _ _ Hdr) as Hr.
  rewrite zlen_app in Hr, Hlen. zlen_pos.
  destruct (repr_ensureWritableBytes rb2 r' (zlen d)) as [[_ Hn]|(rb3 & -> & HR3 & Hw & _)];
    [done|unfold max_size; lia| |].
  - exfalso. apply Hn. unfold fits, kCheapPrepend, max_size. lia.
  - exists rb3. mstep. repeat split; [done|lia].
Qed.

(** Whatever the sizes of the reads, once the stream is consumed the
    callback has run on its messages, in order, and the incomplete tail is
    in the buffer. *)
Lemma receive_idle sizes stream rb r w l r' w' :
  represents rb r -> 0 < writableBytes rb -> zlen (r ++ stream) <= 2 ^ 60 ->
  drain parse1 r = ([], r, Idle) -> drain parse1 (r ++ stream) = (l, r', Idle) ->
  foldM on_frame l w = Ok w' ->
  Forall (fun n => 0 < n) sizes -> (length stream <= length sizes)%nat ->
  exists rb', receive mcb sizes stream rb w = Ok ([], rb', w') /\ represents rb' r'.
Proof using F mcb_decodes.
  revert stream rb r w l. induction sizes as [|n sizes IH];
    intros stream rb r w l HR Hw Hlen H0 Hdr Hf Hs Hl; destruct stream as [|x stream].
  - rewrite app_nil_r, H0 in Hdr. simplify_eq/=. eauto.
  - simpl in Hl. lia.
  - rewrite app_nil_r, H0 in Hdr. simplify_eq/=. eauto.
  - apply Forall_cons in Hs as [Hn Hs]. cbn [receive].
    set (k := Z.min n _). set (st := x :: stream) in *.
    assert (0 < zlen st) by (unfold st; zlia). assert (0 < k <= zlen st) by lia.
    assert (zlen (ztake k st) = k) as Ek by (apply zlen_ztake; lia).
    rewrite <- (ztake_zdrop k st), app_assoc in Hdr.
    destruct (drain_prefix_idle _ _ _ _ _ Hdr) as (l1 & r1 & E1).
    rewrite (drain_app _ _ _ _ _ E1) in Hdr.
    destruct (drain parse1 (r1 ++ zdrop k st)) as [[l2 r2] s2] eqn:E2. injection Hdr as <- <- ->.
    rewrite foldM_app in Hf. apply bind_Ok_inv in Hf as (w1 & Hf1 & Hf2).
    pose proof (drain_rest_len _ _ _ _ _ E1) as Hr1.
    rewrite zlen_app in Hlen, Hr1.
    destruct (on_read_idle (ztake k st) rb r w l1 r1 w1) as (rb1 & -> & HR1 & Hw1);
      [done|lia|rewrite zlen_app; lia|done|done|]. mstep.
    apply (IH _ rb1 r1 w1 l2); [done|done| |by eapply drain_rest_idle|done|done|done|].
    + rewrite zlen_app, zlen_zdrop by lia. lia.
    + unfold zdrop. rewrite length_drop. unfold zlen in *. simpl in *. lia.
Qed.
End stream.
End Reader.

(** Connecting, reconnecting and closing.  The outstanding asynchronous
    operations of a session are part of its state; a completion is an event,
    with the error its handler gets.  Of asio the model has what it documents:
    [address::from_string] throws where the text is no address, and
    [expires_from_now] aborts the waits of the timer, whose handlers are then
    called with an error.  The callbacks of the session return, and the options
    of a connected socket can be set. *)
Module Life.

Record Life := mkLife {
  id_ : Z;
  reconnect_ : bool;
  ip_ : bytes;
  port_ : Z;
  disconnectcallback_ : bool;   (** whether one was set *)
  connecting : bool;            (** an [async_connect] is outstanding *)
  timer : bool;                 (** the 5 s reconnect timer is awaited *)
  aborted : nat;                (** waits of the timer that were aborted *)
  reading : bool;               (** an [async_read_some] is outstanding *)
  disconnects : list Z;         (** the calls of [disconnectcallback_] *)
  close_posted : nat;           (** closes of the socket queued in the loop *)
}.

(** A session made by [TcpServer::newSession], with a disconnect callback, or
    by a client class, with none. *)
Definition fresh (id : Z) (has_cb : bool) : Life :=
  mkLife id false [] 0 has_cb false false 0 false [] 0.

Definition read (s : Life) : Life :=
  mkLife (id_ s) (reconnect_ s) (ip_ s) (port_ s) (disconnectcallback_ s)
    (connecting s) (timer s) (aborted s) true (disconnects s) (close_posted s).

(** [start]: socket options, the connection callback, the first read. *)
Definition start (s : Life) : Life := read s.

Section life.
(** Whether [address::from_string] takes the text. *)
Context (from_string : bytes -> bool).

Definition connect (ip : bytes) (port : Z) (s : Life) : res Life :=
  if from_string ip then
    Ok (mkLife (id_ s) true ip port (disconnectcallback_ s)
          true (timer s) (aborted s) (reading s) (disconnects s) (close_posted s))
  else Err SystemError.

Definition expires_from_now (s : Life) : Life :=
  mkLife (id_ s) (reconnect_ s) (ip_ s) (port_ s) (disconnectcallback_ s)
    (connecting s) false (if timer s then S (aborted s) else aborted s) (reading s) (disconnects s) (close_posted s).
Definition async_wait (s : Life) : Life :=
  mkLife (id_ s) (reconnect_ s) (ip_ s) (port_ s) (disconnectcallback_ s)
    (connecting s) true (aborted s) (reading s) (disconnects s) (close_posted s).
Definition reconnect (s : Life) : Life := async_wait (expires_from_now s).

(** [close] calls [disconnectcallback_]; calling an empty [std::function]
    throws. *)
Definition close (s : Life) : res Life :=
  if disconnectcallback_ s then
    Ok (mkLife (id_ s) (reconnect_ s) (ip_ s) (port_ s) true (connecting s) (timer s) (aborted s)
          (reading s) (disconnects s ++ [s32 (id_ s)]) (S (close_posted s)))
  else Err BadFunctionCall.

(** The completions. *)
Inductive event :=
  | EConnect (err : bool)
  | ETimer (err : bool)
  | ERead
  | EReadError
  | EWriteError.

(** A wait ends with an error where it was aborted, without one otherwise. *)
Definition enabled (e : event) (s : Life) : bool :=
  match e with
  | EConnect _ => connecting s
  | ETimer false => timer s
  | ETimer true => (0 <? aborted s)%nat
  | ERead | EReadError => reading s
  | EWriteError => true
  end.

Definition clear_connecting (s : Life) : Life :=
  mkLife (id_ s) (reconnect_ s) (ip_ s) (port_ s) (disconnectcallback_ s)
    false (timer s) (aborted s) (reading s) (disconnects s) (close_posted s).
Definition clear_timer (err : bool) (s : Life) : Life :=
  mkLife (id_ s) (reconnect_ s) (ip_ s) (port_ s) (disconnectcallback_ s)
    (connecting s) (if err then timer s else false) (if err then pred (aborted s) else aborted s)
    (reading s) (disconnects s) (close_posted s).
Definition clear_reading (s : Life) : Life :=
  mkLife (id_ s) (reconnect_ s) (ip_ s) (port_ s) (disconnectcallback_ s)
    (connecting s) (timer s) (aborted s) false (disconnects s) (close_posted s).

Definition handle (e : event) (s : Life) : res Life :=
  match e with
  | EConnect err =>
      let s := clear_connecting s in
      if negb err then Ok (start s) else Ok (reconnect s)
  | ETimer err =>
      let s := clear_timer err s in
      if negb err then connect (ip_ s) (port_ s) s else Ok s
  | ERead => Ok (read (clear_reading s))
  | EReadError =>
      let s := clear_reading s in
      if reconnect_ s then Ok (reconnect s) else close s
  | EWriteError => close s
  end.

(** The states a session goes through after [connect(ip, port)]. *)
Inductive reachable (ip : bytes) (port : Z) (s0 : Life) : Life -> Prop :=
  | reach_connect s : connect ip port s0 = Ok s -> reachable ip port s0 s
  | reach_event s s' e :
      reachable ip port s0 s -> enabled e s = true -> e <> EWriteError ->
      handle e s = Ok s' -> reachable ip port s0 s'.

(** Exactly one operation is outstanding, and no wait was aborted. *)
Definition one_pending (s : Life) : Prop :=
  match connecting s, timer s, reading s with
  | true, false, false | false, true, false | false, false, true => aborted s = O
  | _, _, _ => False
  end.

Lemma client_inv ip port id has_cb s :
  reachable ip port (fresh id has_cb) s ->
  one_pending s /\ reconnect_ s = true /\ ip_ s = ip /\ port_ s = port /\
  disconnectcallback_ s = has_cb /\ disconnects s = [] /\ from_string ip = true.
Proof.
  induction 1 as [s E|s s' e Hr IH He Hw E].
  { unfold connect in E. destruct (from_string ip) eqn:Ef; [|done]. by injection E as <-. }
  destruct s as [i rc ip' p cb c t a r ds n]. destruct IH as (Hp & H1 & H2 & H3 & H4 & H5 & H6).
  unfold one_pending in *. simpl in *. subst.
  destruct c, t, r; try done; subst a;
    destruct e as [[]|[]| | |]; simpl in *; unfold connect in *; simpl in *; rewrite ?H6 in E; try done; by injection E as <-.
Qed.

(** C34: connect throws for an ip that is not an address and succeeds else; a
    session that was connected so always has exactly one operation outstanding
    (a connect, a read or the wait of the timer, which nothing cancels), keeps
    its address, and handles every completion that can come, errors included,
    without failing; errors of writes are apart, the callbacks return and the
    socket options can be set. *)
Theorem client_session_keeps_reconnecting ip port id has_cb :
  (from_string ip = false -> connect ip port (fresh id has_cb) = Err SystemError) /\
  (from_string ip = true -> exists s, connect ip port (fresh id has_cb) = Ok s) /\
  forall s, reachable ip port (fresh id has_cb) s ->
    one_pending s /\ ip_ s = ip /\ port_ s = port /\
    forall e, enabled e s = true -> e <> EWriteError -> e <> ETimer true /\ exists s', handle e s = Ok s'.
Proof.
  split; [intros E; unfold connect; by rewrite E|]. split; [intros E; unfold connect; rewrite E; by eexists|].
  intros s Hr. destruct (client_inv _ _ _ _ _ Hr) as (Hp & Hrc & Hi & Hpo & _ & _ & Hf).
  repeat split; [done..| |].
  - intros ->. unfold one_pending in Hp. simpl in *. destruct (connecting s), (timer s), (reading s); try done; by rewrite Hp in *.
  - destruct e as [[]|[]| | |]; simpl; unfold connect; simpl; rewrite ?Hi, ?Hf, ?Hrc; eauto. done.
Qed.

(** A write error on a session without a disconnect callback calls an
    empty std::function, which throws bad_function_call. *)
Theorem client_session_write_error_throws ip port id s :
  reachable ip port (fresh id false) s -> handle EWriteError s = Err BadFunctionCall.
Proof.
  intros Hr. destruct (client_inv _ _ _ _ _ Hr) as (_ & _ & _ & _ & Hcb & _).
  simpl. unfold close. by rewrite Hcb.
Qed.
End life.

(** The session of the gate at the logic server; the server is not there yet. *)
Definition an_address (ip : bytes) : bool := bool_decide (ip = str "127.0.0.1").
Definition connected : Life := mkLife 0 true (str "127.0.0.1") 8083 false true false 0 false [] 0.
Lemma client_session_keeps_reconnecting_witness :
  exists s, reachable an_address (str "127.0.0.1") 8083 (fresh 0 false) s /\ timer s = true /\ one_pending s.
Proof.
  destruct (client_session_keeps_reconnecting an_address (str "127.0.0.1") 8083 0 false) as (_ & _ & H).
  assert (reachable an_address (str "127.0.0.1") 8083 (fresh 0 false) (reconnect (clear_connecting connected))) as Hr.
  { eapply reach_event with (e := EConnect true); [by apply reach_connect with (s := connected)|done..]. }
  eexists; split; [exact Hr|]. split; [reflexivity|]. apply (H _ Hr).
Defined.

Lemma client_session_write_error_throws_witness : handle an_address EWriteError connected = Err BadFunctionCall.
Proof.
  apply (client_session_write_error_throws an_address (str "127.0.0.1") 8083 0). by apply reach_connect.
Defined.
End Life.
