(* ===== verification/ClientCodec.v ===== *)
(** * The client protocol: src/gateserver/ClientCodec.h

    A frame is a 4-byte length of the whole frame, a 2-byte header length, a
    2-byte version, a 4-byte operation, a 4-byte sequence number and the body
    (README.md).  [onMessage] is the decoder loop that [Session::read] runs on
    the receive buffer, [fillEmptyBuffer] the encoder. *)

From Stdlib Require Import ZArith Lia.
From stdpp Require Import base list gmap strings.
From S2P Require Import Prelude Endian Buffer Framing Interfaces Session.
Local Open Scope Z_scope.

Module ClientCodec.

Definition kHeaderLen : Z := 4.

(** What the callback receives: operation, sequence number, body. *)
Record frame := mkFrame { f_op : Z; f_id : Z; f_body : bytes }.

(** [std::string(ptr, n)] with [ptr] in the buffer: too long a string throws,
    else the bytes are read. *)
Definition make_string (b : Buffer) (off n : Z) : res bytes :=
  if max_size <? n then Err LengthError else mem_read b off n.

Section codec.
Context {S W : Type} `{SessionOps S W}.
Context (messageCallback_ : S -> Z -> Z -> bytes -> W -> res W).

Fixpoint onMessage_loop (fuel : nat) (conn : S) (buf : Buffer) (w : W) : res (Buffer * W) :=
  match fuel with
  | O => Err OutOfFuel
  | Datatypes.S fuel =>
      if kHeaderLen <=? readableBytes buf then
        let* len32 := peekInt32 buf in
        let len := u64 len32 in
        if 65536 <? len then
          let* w := session_close conn w in
          Ok (buf, w)
        else if len <=? readableBytes buf then
          let* buf := retrieve (kHeaderLen + 4) buf in
          let* op := peekInt32 buf in
          let* buf := retrieve 4 buf in
          let* id := peekInt32 buf in
          let* buf := retrieve 4 buf in
          let* body := make_string buf (peek buf) (u64 (len - 16)) in
          let* w := messageCallback_ conn op id body w in
          let* buf := retrieve (u64 (len - 16)) buf in
          onMessage_loop fuel conn buf w
        else Ok (buf, w)
      else Ok (buf, w)
  end.

(** Each round of the loop consumes at least one byte, so the number of
    readable bytes bounds the rounds. *)
Definition onMessage (conn : S) (buf : Buffer) (w : W) : res (Buffer * W) :=
  onMessage_loop (Datatypes.S (Z.to_nat (readableBytes buf))) conn buf w.

Definition fillEmptyBuffer (buf : Buffer) (op id : Z) (body : bytes) : res Buffer :=
  let* buf := appendInt16 16 buf in
  let* buf := appendInt16 1 buf in
  let* buf := appendInt32 op buf in
  let* buf := appendInt32 id buf in
  let* buf := append (body ++ [Byte.x00]) (zlen body) buf in
  let len := s32 (hostToNetwork32 (s32 (readableBytes buf) + 4)) in
  prepend (object_bytes host 4 len) buf.

Definition send (conn : S) (op id : Z) (body : bytes) (w : W) : res W :=
  let* buf := Buffer_new kInitialSize in
  let* buf := fillEmptyBuffer buf op id body in
  session_send conn buf w.
End codec.

(** ** The protocol, on byte strings *)

(** The head of a stream of client frames, as the decoder reads it. *)
Definition parse1 (c : bytes) : parse frame unit :=
  if zlen c <? 4 then Need else
  let len := u64 (s32 (be_value (ztake 4 c))) in
  if 65536 <? len then Bad tt 0 else
  if zlen c <? len then Need else
  if zlen c <? 16 then Crash AssertFailed else
  if len <? 16 then Crash LengthError else
  Got (mkFrame (s32 (be_value (slice c 8 4))) (s32 (be_value (slice c 12 4)))
         (slice c 16 (len - 16))) len.

Definition encode (f : frame) : bytes :=
  be_bytes 4 (zlen (f_body f) + 16) ++ be_bytes 2 16 ++ be_bytes 2 1 ++
  be_bytes 4 (f_op f) ++ be_bytes 4 (f_id f) ++ f_body f.

(** The frames the protocol can carry. *)
Definition frame_ok (f : frame) : Prop :=
  - 2 ^ 31 <= f_op f < 2 ^ 31 /\ - 2 ^ 31 <= f_id f < 2 ^ 31 /\
  zlen (f_body f) + 16 <= 65536.

#[global] Instance framer : Framer parse1.
Proof.
  assert (forall c x : bytes, 4 <= zlen c -> ztake 4 (c ++ x) = ztake 4 c) as T
    by (intros; apply ztake_app_le; lia).
  split; unfold parse1.
  - intros c a n. split_guards; try done. intros [= _ <-]. lia.
  - intros c a n x. split_guards; try done; rewrite ?zlen_app in *; zlen_pos; try lia;
      rewrite ?T in * by lia; try lia; try done.
    intros [= <- <-]. f_equal. f_equal; [f_equal; f_equal| |]; rewrite slice_app_l by lia; done.
  - intros c e n. split_guards; try done. intros [= _ <-]. lia.
  - intros c e n x. split_guards; try done; rewrite ?zlen_app in *; zlen_pos; try lia;
      rewrite ?T in * by lia; try lia; done.
  - intros c e x. split_guards; try done; rewrite ?zlen_app in *; zlen_pos; try lia;
      rewrite ?T in * by lia; try lia; eauto.
Qed.

(** ** Refinement: the loop runs the callback on the frames of the stream *)
Section refine.
Context {S W : Type} `{SessionOps S W}.
Context (cb : S -> Z -> Z -> bytes -> W -> res W) (conn : S).

Definition on_frame (f : frame) (w : W) : res W := cb conn (f_op f) (f_id f) (f_body f) w.

Definition codec_spec (c : bytes) (w : W) : res (bytes * W) :=
  decode parse1 on_frame (fun _ => session_close conn) c w.

(** The body of one round on a frame whose bytes are all there. *)
Lemma round_fields b c :
  represents b c -> 16 <= zlen c ->
  exists b1 b2 b3,
    retrieve (kHeaderLen + 4) b = Ok b1 /\ peekInt32 b1 = Ok (s32 (be_value (slice c 8 4))) /\
    retrieve 4 b1 = Ok b2 /\ peekInt32 b2 = Ok (s32 (be_value (slice c 12 4))) /\
    retrieve 4 b2 = Ok b3 /\ represents b3 (zdrop 16 c).
Proof using.
  intros HR Hc. unfold kHeaderLen. change (4 + 4) with 8.
  destruct (repr_retrieve b c HR 8) as (b1 & E1 & R1); [lia|].
  destruct (repr_retrieve b1 _ R1 4) as (b2 & E2 & R2); [rewrite zlen_zdrop; lia|].
  rewrite zdrop_zdrop in R2 by lia. change (8 + 4) with 12 in R2.
  destruct (repr_retrieve b2 _ R2 4) as (b3 & E3 & R3); [rewrite zlen_zdrop; lia|].
  rewrite zdrop_zdrop in R3 by lia. change (12 + 4) with 16 in R3.
  exists b1, b2, b3.
  rewrite (repr_peekInt32 _ _ R1), (repr_peekInt32 _ _ R2) by (rewrite zlen_zdrop; lia).
  auto 10.
Qed.

(** The same code on fewer than 16 bytes stops at an assertion. *)
Lemma round_short b c (k : Z -> Z -> Buffer -> res (Buffer * W)) :
  represents b c -> zlen c < 16 ->
  (let* b1 := retrieve (kHeaderLen + 4) b in
   let* op := peekInt32 b1 in
   let* b2 := retrieve 4 b1 in
   let* id := peekInt32 b2 in
   let* b3 := retrieve 4 b2 in k op id b3) = Err AssertFailed.
Proof using.
  intros HR Hc. unfold kHeaderLen. change (4 + 4) with 8. zlen_pos.
  destruct (Z.ltb_spec (zlen c) 8).
  { by rewrite (repr_retrieve_too_many b c HR). }
  destruct (repr_retrieve b c HR 8) as (b1 & -> & R1); [lia|]. mstep.
  destruct (Z.ltb_spec (zlen c) 12).
  { rewrite (repr_peekInt32_short _ _ R1); [done|]. rewrite zlen_zdrop; lia. }
  rewrite (repr_peekInt32 _ _ R1) by (rewrite zlen_zdrop; lia). mstep.
  destruct (repr_retrieve b1 _ R1 4) as (b2 & -> & R2); [rewrite zlen_zdrop; lia|]. mstep.
  rewrite zdrop_zdrop in R2 by lia.
  rewrite (repr_peekInt32_short _ _ R2); [done|]. rewrite zlen_zdrop; lia.
Qed.

Lemma client_loop_refines fuel b c w :
  represents b c -> zlen c < Z.of_nat fuel ->
  res_rel (fst_rel represents) (onMessage_loop cb fuel conn b w) (codec_spec c w).
Proof using.
  revert b c w. induction fuel as [|fuel IH]; intros b c w HR Hf; [zlia|].
  cbn [onMessage_loop]. rewrite (repr_readableBytes _ _ HR). unfold codec_spec.
  rewrite (decode_eq parse1). fold codec_spec.
  unfold parse1, kHeaderLen.
  destruct (Z.leb_spec 4 (zlen c)), (Z.ltb_spec (zlen c) 4); try lia; [|done].
  rewrite (repr_peekInt32 _ _ HR) by lia. mstep.
  set (len := u64 _). assert (0 <= len) by (apply uwrap_range; lia).
  destruct (Z.ltb_spec 65536 len).
  { destruct (session_close conn w); simpl; [|done]. done. }
  destruct (Z.leb_spec len (zlen c)), (Z.ltb_spec (zlen c) len); try lia; [|done].
  destruct (Z.ltb_spec (zlen c) 16).
  { by rewrite round_short with (c := c). }
  destruct (round_fields b c HR) as (b1 & b2 & b3 & E1 & P1 & E2 & P2 & E3 & R3); [lia|].
  unfold kHeaderLen in E1. rewrite E1. mstep. rewrite P1. mstep. rewrite E2. mstep.
  rewrite P2. mstep. rewrite E3. mstep.
  destruct (Z.ltb_spec len 16).
  { unfold make_string, max_size.
    rewrite (proj2 (Z.ltb_lt _ _)); [done|].
    unfold uwrap. replace (len - 16) with ((len - 16 + 2 ^ 64) + (-1) * 2 ^ 64) by lia.
    rewrite Z.mod_add, Z.mod_small by lia. lia. }
  rewrite uwrap_small by lia. unfold make_string, max_size.
  rewrite (proj2 (Z.ltb_ge _ _)) by lia.
  rewrite (repr_mem_read_prefix _ _ R3) by (rewrite zlen_zdrop; lia). mstep.
  unfold on_frame. simpl.
  fold (slice c 16 (len - 16)).
  destruct (cb conn _ _ _ w) as [w'|e]; [mstep|done].
  destruct (repr_retrieve _ _ R3 (len - 16)) as (b4 & -> & R4); [rewrite zlen_zdrop; lia|].
  mstep. rewrite zdrop_zdrop in R4 by lia. replace (16 + (len - 16)) with len in R4 by lia.
  apply IH; [done|]. rewrite zlen_zdrop; lia.
Qed.

Lemma onMessage_codec_spec b c w :
  represents b c -> res_rel (fst_rel represents) (onMessage cb conn b w) (codec_spec c w).
Proof using.
  intros HR. unfold onMessage. apply client_loop_refines; [done|].
  rewrite (repr_readableBytes _ _ HR). zlia.
Qed.
End refine.

(** ** The properties of the client protocol *)

(** The client decoder loop, run on a buffer that holds any bytes,
    behaves as the specification on byte strings: the callback on each frame
    of the stream in order, a close on a refused length, the failure of the
    specification on a malformed frame, and the unread bytes left in the
    buffer; it always terminates. *)
Theorem client_onMessage_refines {S W : Type} `{SessionOps S W}
    (cb : S -> Z -> Z -> bytes -> W -> res W) (conn : S) b c w :
  represents b c ->
  res_rel (fst_rel represents) (onMessage cb conn b w)
    (decode parse1 (on_frame cb conn) (fun _ => session_close conn) c w).
Proof. apply onMessage_codec_spec. Qed.

Lemma client_zlen_encode f : zlen (encode f) = zlen (f_body f) + 16.
Proof. unfold encode. rewrite !zlen_app, !zlen_be_bytes. lia. Qed.

Lemma client_parse1_encode f x : frame_ok f -> parse1 (encode f ++ x) = Got f (zlen (encode f)).
Proof.
  intros (Hop & Hid & Hlen). pose proof (client_zlen_encode f) as HE.
  pose proof (zlen_nonneg (f_body f)) as H0. pose proof (zlen_nonneg x).
  unfold parse1. rewrite zlen_app, HE.
  assert (ztake 4 (encode f ++ x) = be_bytes 4 (zlen (f_body f) + 16)) as ->.
  { unfold encode. rewrite <- app_assoc. apply ztake_app_exact. by rewrite zlen_be_bytes. }
  rewrite s32_be, swrap_small by lia. rewrite uwrap_small by lia.
  split_guards; try lia.
  assert (forall pre n l post i k, zlen pre = i -> zlen l = k ->
    encode f ++ x = pre ++ l ++ post -> (n : Z) = 0 -> slice (encode f ++ x) i k = l) as Hs.
  { intros pre n l post i k Hi Hk -> _. by apply slice_app_mid. }
  pose (p8 := be_bytes 4 (zlen (f_body f) + 16) ++ be_bytes 2 16 ++ be_bytes 2 1).
  rewrite (Hs p8 0 (be_bytes 4 (f_op f)) (be_bytes 4 (f_id f) ++ f_body f ++ x));
    [|unfold p8; rewrite !zlen_app, !zlen_be_bytes; done|by rewrite zlen_be_bytes
     |unfold encode, p8; by rewrite <- !app_assoc|done].
  rewrite (Hs (p8 ++ be_bytes 4 (f_op f)) 0 (be_bytes 4 (f_id f)) (f_body f ++ x));
    [|unfold p8; rewrite !zlen_app, !zlen_be_bytes; done|by rewrite zlen_be_bytes
     |unfold encode, p8; by rewrite <- !app_assoc|done].
  rewrite (Hs (p8 ++ be_bytes 4 (f_op f) ++ be_bytes 4 (f_id f)) 0 (f_body f) x);
    [|unfold p8; rewrite !zlen_app, !zlen_be_bytes; done|lia
     |unfold encode, p8; by rewrite <- !app_assoc|done].
  rewrite !s32_be, !swrap_small by lia. by destruct f.
Qed.

(** One whole frame in the buffer. *)
Lemma client_onMessage_frame {S W : Type} `{SessionOps S W}
    (cb : S -> Z -> Z -> bytes -> W -> res W) (conn : S) b f w w' :
  represents b (encode f) -> frame_ok f -> cb conn (f_op f) (f_id f) (f_body f) w = Ok w' ->
  exists b', onMessage cb conn b w = Ok (b', w') /\ represents b' [].
Proof.
  intros HR Hok E. pose proof (onMessage_codec_spec cb conn b _ w HR) as R. unfold codec_spec in R.
  rewrite (decode_eq parse1) in R.
  rewrite <- (app_nil_r (encode f)) in R at 1. rewrite client_parse1_encode in R by done.
  unfold on_frame in R at 1. rewrite E in R. cbn [bind] in R. rewrite zdrop_all in R by lia.
  apply res_rel_Ok_r in R as ([b' x] & E' & HR' & Hx). simpl in Hx. subst x. by exists b'.
Qed.

(** C3: A stream of encoded client frames, delivered by the socket in chunks
    of any sizes, makes the session run the callback on exactly those frames
    in order and leaves the receive buffer empty. *)
Theorem client_stream_roundtrip {S W : Type} `{SessionOps S W}
    (cb : S -> Z -> Z -> bytes -> W -> res W) (conn : S) fs sizes rb w w' :
  Forall frame_ok fs ->
  zlen (concat (map encode fs)) <= 2 ^ 60 ->
  foldM (on_frame cb conn) fs w = Ok w' ->
  represents rb [] -> 0 < writableBytes rb ->
  Forall (fun n => 0 < n) sizes ->
  (length (concat (map encode fs)) <= length sizes)%nat ->
  exists rb', Reader.receive (onMessage cb conn) sizes (concat (map encode fs)) rb w
                = Ok ([], rb', w') /\ represents rb' [].
Proof.
  intros Hok Hlen Hf HR Hw Hs Hl.
  assert (drain parse1 [] = ([], [], Idle)) as H0 by done.
  eapply (Reader.receive_idle parse1 _ _ _
    (fun b c w HR _ => onMessage_codec_spec cb conn b c w HR)); eauto.
  rewrite app_nil_l. rewrite <- (app_nil_r (concat _)).
  apply (drain_encoded parse1); [|done]. intros a x Ha. apply client_parse1_encode.
  rewrite Forall_forall in Hok. apply Hok. by apply list_elem_of_In.
Qed.

(** Two frames of 16 and 20 bytes, read one byte at a time. *)
Definition two_frames : list frame := [mkFrame 2 7 []; mkFrame 7 (-1) (str "abcd")].
Definition log_cb (conn : nat) (op id : Z) (body : bytes) (w : list frame) : res (list frame) :=
  Ok (w ++ [mkFrame op id body]).
#[local] Instance trivial_ops : SessionOps nat (list frame) := {|
  session_send _ _ w := Ok w; session_close _ w := Ok w; sent _ _ := [] |}.

Lemma client_stream_roundtrip_witness :
  exists rb', Reader.receive (onMessage log_cb 0%nat) (replicate 36 1)
                (concat (map encode two_frames)) newBuffer []
              = Ok ([], rb', two_frames) /\ represents rb' [].
Proof.
  apply (client_stream_roundtrip log_cb 0%nat two_frames).
  - repeat (apply Forall_cons; split; [vm_compute; intuition discriminate|]). by apply Forall_nil.
  - vm_compute. discriminate.
  - reflexivity.
  - apply newBuffer_represents.
  - reflexivity.
  - apply Forall_replicate. lia.
  - vm_compute. lia.
Defined.

(** The same two frames and the first bytes of a third, in one buffer. *)
Definition two_frames_bytes : bytes := concat (map encode two_frames) ++ be_bytes 4 20.
Definition two_frames_buffer : Buffer :=
  mkBuffer (replicate 8 Byte.x00 ++ two_frames_bytes ++ []) 8 (8 + zlen two_frames_bytes).

Lemma client_onMessage_refines_witness :
  res_rel (fst_rel represents) (onMessage log_cb 0%nat two_frames_buffer [])
    (decode parse1 (on_frame log_cb 0%nat) (fun _ => session_close 0%nat) two_frames_bytes []).
Proof.
  apply (client_onMessage_refines log_cb 0%nat two_frames_buffer two_frames_bytes []).
  exists (replicate 8 Byte.x00), []. vm_compute. intuition discriminate.
Defined.

(** The encoder: what a fresh buffer holds after [fillEmptyBuffer]. *)
Lemma client_fillEmptyBuffer_encode b op id body :
  represents b [] -> kCheapPrepend <= readerIndex_ b -> zlen body + 16 < 2 ^ 31 ->
  exists b', fillEmptyBuffer b op id body = Ok b' /\
    represents b' (encode (mkFrame op id body)).
Proof.
  intros HR Hr Hb. unfold fillEmptyBuffer. unfold kCheapPrepend in Hr.
  destruct (repr_appendInt16 b [] 16 HR) as (b1 & -> & R1 & P1); [fits_lia|]. mstep.
  destruct (repr_appendInt16 b1 _ 1 R1) as (b2 & -> & R2 & P2); [fits_lia|]. mstep.
  destruct (repr_appendInt32 b2 _ op R2) as (b3 & -> & R3 & P3); [fits_lia|]. mstep.
  destruct (repr_appendInt32 b3 _ id R3) as (b4 & -> & R4 & P4); [fits_lia|]. mstep.
  destruct (repr_append b4 _ body [Byte.x00] R4) as (b5 & -> & R5 & P5).
  { fits_lia. }
  mstep. rewrite app_nil_l, <- !app_assoc in R5.
  rewrite (repr_readableBytes _ _ R5).
  assert (zlen (be_bytes 2 16 ++ be_bytes 2 1 ++ be_bytes 4 op ++ be_bytes 4 id ++ body)
          = zlen body + 12) as -> by (rewrite !zlen_app, !zlen_be_bytes; lia).
  rewrite (swrap_small 32 (zlen body + 12)) by zlia.
  replace (zlen body + 12 + 4) with (zlen body + 16) by lia.
  assert (object_bytes host 4 (s32 (hostToNetwork32 (zlen body + 16)))
          = be_bytes 4 (zlen body + 16)) as ->.
  { rewrite <- hostToNetwork32_bytes. apply (object_bytes_swrap host 4). lia. }
  unfold kCheapPrepend in *.
  destruct (repr_prepend b5 _ (be_bytes 4 (zlen body + 16)) R5) as (b6 & -> & R6).
  { rewrite zlen_be_bytes. lia. }
  exists b6. split; [done|exact R6].
Qed.

(** ClientCodec::send hands the session exactly the bytes of the frame
    and touches no other session. *)
Theorem client_send_encodes {S W : Type} `{SessionLaws S W} conn op id body (w : W) :
  zlen body + 16 < 2 ^ 31 ->
  exists w', send conn op id body w = Ok w' /\
    sent w' conn = sent w conn ++ encode (mkFrame op id body) /\
    forall s, s <> conn -> sent w' s = sent w s.
Proof.
  intros Hb. unfold send. rewrite Buffer_new_default. mstep.
  destruct (client_fillEmptyBuffer_encode newBuffer op id body) as (b & -> & HR);
    [apply newBuffer_represents|done|done|]. mstep.
  by apply session_send_spec.
Qed.

Lemma client_send_encodes_witness :
  exists w', send 3%nat 8 0 (str "success") (WriterNet.mkNet ∅ []) = Ok w' /\
    sent w' 3%nat = encode (mkFrame 8 0 (str "success")).
Proof.
  destruct (client_send_encodes 3%nat 8 0 (str "success") (WriterNet.mkNet ∅ []))
    as (w' & E & Hs & _); [vm_compute; reflexivity|].
  exists w'. split; [exact E|]. exact Hs.
Defined.

(** A frame whose length field is below 16 makes the decoder fail an
    assertion or throw, whatever the callback. *)
Theorem client_short_frame_stops_server {S W : Type} `{SessionOps S W}
    (cb : S -> Z -> Z -> bytes -> W -> res W) (conn : S) b c w n :
  represents b (be_bytes 4 n ++ c) -> 0 <= n < 16 -> n <= zlen c + 4 ->
  onMessage cb conn b w = Err (if zlen c <? 12 then AssertFailed else LengthError).
Proof.
  intros HR Hn Hc. pose proof (onMessage_codec_spec cb conn b _ w HR) as Hs.
  unfold codec_spec in Hs. rewrite (decode_eq parse1) in Hs. unfold parse1 in Hs.
  rewrite ztake_app_exact in Hs by (by rewrite zlen_be_bytes).
  rewrite s32_be, swrap_small, uwrap_small, zlen_app, zlen_be_bytes in Hs by lia.
  revert Hs. zlen_pos. split_guards; try lia; simpl; destruct (onMessage _ _ _ _); naive_solver.
Qed.

Lemma client_short_frame_stops_server_witness :
  onMessage log_cb 0%nat
    (mkBuffer (replicate 8 Byte.x00 ++ be_bytes 4 4 ++ []) 8 12) [] = Err AssertFailed.
Proof.
  apply (client_short_frame_stops_server log_cb 0%nat _ [] [] 4).
  - exists (replicate 8 Byte.x00), []. by vm_compute.
  - lia.
  - vm_compute. discriminate.
Defined.
End ClientCodec.
