(* ===== verification/Text.v ===== *)
(** * Text: src/common/util.hpp and the C library routines the program calls

    [common::split], and the parts of [<cstdlib>] and [std::string] the sources
    use on strings: [atoi], [std::stoi], [strtoull] with base 0,
    [std::to_string], [find], [find_last_of], [substr], [isspace]. *)

From Stdlib Require Import ZArith Lia.
From stdpp Require Import base list strings.
From S2P Require Import Prelude Endian Buffer.
Local Open Scope Z_scope.

(** ** [common::split]: the loop over the characters of [src] *)
Fixpoint split_loop (src sep s : bytes) (tokens : list bytes) : list bytes :=
  match src with
  | [] => if negb (bool_decide (s = [])) || negb (bool_decide (tokens = []))
          then tokens ++ [s] else tokens
  | ch :: src =>
      if bool_decide (ch ∈ sep)
      then split_loop src sep [] (tokens ++ [s])
      else split_loop src sep (s ++ [ch]) tokens
  end.
Definition split (src sep : bytes) : list bytes := split_loop src sep [] [].

(** ** Strings *)
Definition find_last_of (x : byte) (l : bytes) : option Z :=
  (fun i => zlen l - 1 - i) <$> find_byte x (rev l).

(** [substr(pos)] and [substr(0, pos)] with [pos <= size()]. *)
Definition substr_from (l : bytes) (pos : Z) : bytes := zdrop pos l.
Definition substr_to (l : bytes) (pos : Z) : bytes := ztake pos l.

Definition isspace (b : byte) : bool :=
  let z := byte_to_Z b in (z =? 32) || ((9 <=? z) && (z <=? 13)).

(** ** Numbers *)
Definition digit (n : Z) : byte := byte_of_Z (48 + n).

(** The decimal digits of a number below 10^k. *)
Fixpoint digits (k : nat) (n : Z) : bytes :=
  match k with
  | O => []
  | S k => if n <? 10 then [digit n] else digits k (n / 10) ++ [digit (n mod 10)]
  end.

(** [std::to_string] of a 64-bit integer: at most 20 digits. *)
Definition to_string (n : Z) : bytes :=
  if n <? 0 then str "-" ++ digits 20 (- n) else digits 20 n.

(** The value of a digit in a base up to 16. *)
Definition digit_value (base : Z) (b : byte) : option Z :=
  let z := byte_to_Z b in
  let v := if (48 <=? z) && (z <=? 57) then z - 48
           else if (97 <=? z) && (z <=? 102) then z - 87
           else if (65 <=? z) && (z <=? 70) then z - 55 else 99 in
  if v <? base then Some v else None.

Fixpoint scan (base acc : Z) (l : bytes) : Z :=
  match l with
  | [] => acc
  | b :: l => match digit_value base b with
              | Some v => scan base (acc * base + v) l
              | None => acc
              end
  end.

Fixpoint skip_spaces (l : bytes) : bytes :=
  match l with
  | b :: l' => if isspace b then skip_spaces l' else l
  | [] => []
  end.

(** The optional sign. *)
Definition scan_sign (l : bytes) : bool * bytes :=
  match l with
  | b :: l' => if decide (b = Byte.x2d) then (true, l')
               else if decide (b = Byte.x2b) then (false, l') else (false, l)
  | [] => (false, [])
  end.

(** [strtol(s, &end, 10)]: the value saturated to [long], and whether there
    was a digit. *)
Definition strtol (s : bytes) : Z * bool :=
  let '(neg, l) := scan_sign (skip_spaces s) in
  match l with
  | b :: _ => match digit_value 10 b with
              | Some _ =>
                  let v := scan 10 0 l in
                  (Z.max (- 2 ^ 63) (Z.min (2 ^ 63 - 1) (if neg then - v else v)), true)
              | None => (0, false)
              end
  | [] => (0, false)
  end.

(** glibc: [atoi(s)] is [(int) strtol(s, NULL, 10)]. *)
Definition atoi (s : bytes) : Z := s32 (strtol s).1.

(** [std::stoi] throws when there is no number or it is not an [int]. *)
Definition stoi (s : bytes) : res Z :=
  let '(v, found) := strtol s in
  if negb found then Err InvalidArgument
  else if (v <? - 2 ^ 31) || (2 ^ 31 - 1 <? v) then Err OutOfRange else Ok v.

(** [strtoull(s, nullptr, 0)]: base 16 after 0x, 8 after 0, else 10; a value
    out of range saturates, a minus sign negates modulo 2^64. *)
Definition base_of (l : bytes) : Z * bytes :=
  match l with
  | Byte.x30 :: Byte.x78 :: l' | Byte.x30 :: Byte.x58 :: l' =>
      match l' with
      | b :: _ => match digit_value 16 b with Some _ => (16, l') | None => (8, l) end
      | [] => (8, l)
      end
  | Byte.x30 :: _ => (8, l)
  | _ => (10, l)
  end.
Definition strtoull0 (s : bytes) : Z :=
  let '(neg, l) := scan_sign (skip_spaces s) in
  let '(base, l) := base_of l in
  let v := scan base 0 l in
  if 2 ^ 64 <=? v then 2 ^ 64 - 1 else if neg then u64 (- v) else v.

(** ** Lemmas on numbers *)
Lemma digit_val n : 0 <= n < 10 -> byte_to_Z (digit n) = 48 + n.
Proof. intros. unfold digit. rewrite byte_to_of_Z, Z.mod_small; lia. Qed.

Lemma digit_value_digit n : 0 <= n < 10 -> digit_value 10 (digit n) = Some n.
Proof.
  intros H. replace n with (Z.of_nat (Z.to_nat n)) by lia.
  assert (Z.to_nat n < 10)%nat as Hn by lia. clear H. revert Hn.
  generalize (Z.to_nat n). intros k Hk. by do 10 (destruct k as [|k]; [done|]); lia.
Qed.

Lemma scan_app base acc l1 l2 :
  Forall (fun b => is_Some (digit_value base b)) l1 ->
  scan base acc (l1 ++ l2) = scan base (scan base acc l1) l2.
Proof.
  revert acc. induction l1 as [|b l1 IH]; intros acc H; [done|].
  apply Forall_cons in H as [[v Hv] H]. simpl. rewrite Hv. auto.
Qed.

Lemma digits_spec k n :
  0 <= n < 10 ^ Z.of_nat k ->
  Forall (fun b => exists d, 0 <= d < 10 /\ b = digit d) (digits k n) /\
  scan 10 0 (digits k n) = n.
Proof.
  revert n. induction k as [|k IH]; intros n Hn.
  - simpl in *. split; [by apply Forall_nil|lia].
  - cbn [digits]. destruct (Z.ltb_spec n 10).
    + split; [apply Forall_singleton; exists n; split; [lia|done]|].
      cbn [scan]. rewrite digit_value_digit by lia. lia.
    + assert (0 <= n / 10 < 10 ^ Z.of_nat k) as Hq.
      { rewrite Nat2Z.inj_succ, Z.pow_succ_r in Hn by lia.
        split; [apply Z.div_pos; lia|apply Z.div_lt_upper_bound; lia]. }
      destruct (IH _ Hq) as [HF Hs].
      pose proof (Z.mod_pos_bound n 10 ltac:(lia)) as Hm. split.
      * apply Forall_app. split; [done|]. apply Forall_singleton. eauto.
      * rewrite scan_app.
        -- rewrite Hs. cbn [scan]. rewrite digit_value_digit by done.
           pose proof (Z.div_mod n 10). lia.
        -- eapply Forall_impl; [exact HF|]. intros b (d & Hd & ->).
           rewrite digit_value_digit by done. eauto.
Qed.

(** The first digit is not 0 unless the number is. *)
Lemma digits_head k n :
  0 <= n < 10 ^ Z.of_nat k -> (0 < k)%nat ->
  exists d l, digits k n = digit d :: l /\ 0 <= d < 10 /\ (d = 0 -> n = 0 /\ l = []).
Proof.
  revert n. induction k as [|k IH]; intros n Hn Hk; [lia|].
  cbn [digits]. destruct (Z.ltb_spec n 10).
  - exists n, []. repeat split; [lia|lia|done].
  - assert (0 <= n / 10 < 10 ^ Z.of_nat k) as Hq.
    { rewrite Nat2Z.inj_succ, Z.pow_succ_r in Hn by lia.
      split; [apply Z.div_pos; lia|apply Z.div_lt_upper_bound; lia]. }
    assert (0 < k)%nat as Hk'. { destruct k; [simpl in Hq|lia]. 
      pose proof (Z.div_le_lower_bound n 10 1). lia. }
    destruct (IH _ Hq Hk') as (d & l & -> & Hd & H0).
    exists d, (l ++ [digit (n mod 10)]). split; [done|]. split; [done|].
    intros ->. destruct (H0 eq_refl) as [E _].
    pose proof (Z.div_le_lower_bound n 10 1). lia.
Qed.

Lemma digits_len k j n :
  0 <= n < 10 ^ j -> 1 <= j -> zlen (digits k n) <= j.
Proof.
  revert n j. induction k as [|k IH]; intros n j Hn Hj; cbn [digits]; [unfold zlen; simpl; lia|].
  destruct (Z.ltb_spec n 10); [unfold zlen; simpl; lia|].
  rewrite zlen_app. change (zlen [digit (n mod 10)]) with 1.
  assert (2 <= j). { destruct (Z.eq_dec j 1) as [->|]; [change (10 ^ 1) with 10 in Hn; lia|lia]. }
  specialize (IH (n / 10) (j - 1)). replace (10 ^ j) with (10 * 10 ^ (j - 1)) in Hn.
  - pose proof (Z.div_pos n 10). pose proof (Z.div_lt_upper_bound n 10 (10 ^ (j - 1))). lia.
  - rewrite <- Z.pow_succ_r by lia. f_equal. lia.
Qed.

Lemma digit_not_space d : 0 <= d < 10 -> isspace (digit d) = false.
Proof. intros. unfold isspace. rewrite digit_val by done. split_guards; simpl; try lia; done. Qed.

Lemma digit_neq d b : 0 <= d < 10 -> ~ (48 <= byte_to_Z b <= 57) -> digit d <> b.
Proof. intros Hd Hb <-. rewrite digit_val in Hb by done. lia. Qed.

Lemma to_string_pos n : 0 <= n -> to_string n = digits 20 n.
Proof. intros. unfold to_string. by destruct (Z.ltb_spec n 0); [lia|]. Qed.

Lemma scan_sign_digit d l : 0 <= d < 10 -> scan_sign (digit d :: l) = (false, digit d :: l).
Proof.
  intros. unfold scan_sign.
  by rewrite !decide_False by (apply digit_neq; [done|vm_compute; intuition discriminate]).
Qed.

Lemma skip_spaces_digit d l : 0 <= d < 10 -> skip_spaces (digit d :: l) = digit d :: l.
Proof. intros. simpl. by rewrite digit_not_space. Qed.

Lemma base_of_digit d l : 0 < d < 10 -> base_of (digit d :: l) = (10, digit d :: l).
Proof.
  intros. assert (d = 1 \/ d = 2 \/ d = 3 \/ d = 4 \/ d = 5 \/ d = 6 \/ d = 7 \/
    d = 8 \/ d = 9) as Hd by lia. by destruct_or! Hd; subst d.
Qed.

Lemma strtoull0_to_string n : 0 <= n < 2 ^ 64 -> strtoull0 (to_string n) = n.
Proof.
  intros Hn. rewrite to_string_pos by lia.
  assert (0 <= n < 10 ^ Z.of_nat 20) as Hr by (change (10 ^ Z.of_nat 20) with (10 ^ 20); lia).
  destruct (digits_spec 20 n Hr) as [_ Hs].
  destruct (digits_head 20 n Hr) as (d & l & E & Hd & H0); [lia|].
  rewrite E in Hs |- *. unfold strtoull0.
  rewrite skip_spaces_digit, scan_sign_digit by done.
  destruct (Z.eq_dec d 0) as [->|].
  - destruct (H0 eq_refl) as [-> ->]. reflexivity.
  - rewrite base_of_digit, Hs by lia. destruct (Z.leb_spec (2 ^ 64) n); [lia|done].
Qed.

Lemma strtol_to_string n : 0 <= n < 2 ^ 63 -> strtol (to_string n) = (n, true).
Proof.
  intros Hn. rewrite to_string_pos by lia.
  assert (0 <= n < 10 ^ Z.of_nat 20) as Hr by (change (10 ^ Z.of_nat 20) with (10 ^ 20); lia).
  destruct (digits_spec 20 n Hr) as [_ Hs].
  destruct (digits_head 20 n Hr) as (d & l & E & Hd & H0); [lia|].
  rewrite E in Hs |- *. unfold strtol.
  rewrite skip_spaces_digit, scan_sign_digit by done.
  rewrite digit_value_digit, Hs by done. f_equal. lia.
Qed.

Lemma atoi_to_string n : 0 <= n < 2 ^ 31 -> atoi (to_string n) = n.
Proof. intros. unfold atoi. rewrite strtol_to_string by lia. apply swrap_small; simpl; lia. Qed.

Lemma atoi_range s : - 2 ^ 31 <= atoi s < 2 ^ 31.
Proof. unfold atoi. apply (swrap_range 32). lia. Qed.

Lemma stoi_to_string n : 0 <= n < 2 ^ 31 -> stoi (to_string n) = Ok n.
Proof.
  intros. unfold stoi. rewrite strtol_to_string by lia. simpl.
  destruct (Z.ltb_spec n (- 2 ^ 31)); [lia|]. simpl.
  by destruct (Z.ltb_spec (2 ^ 31 - 1) n); [lia|].
Qed.

Lemma to_string_inj n m :
  0 <= n < 2 ^ 64 -> 0 <= m < 2 ^ 64 -> to_string n = to_string m -> n = m.
Proof.
  intros Hn Hm E. rewrite <- (strtoull0_to_string n Hn), <- (strtoull0_to_string m Hm).
  by rewrite E.
Qed.

(** The digits of a number contain no other character. *)
Lemma to_string_no b n :
  0 <= n < 2 ^ 64 -> ~ (48 <= byte_to_Z b <= 57) -> b ∉ to_string n.
Proof.
  intros Hn Hb. rewrite to_string_pos by lia.
  assert (0 <= n < 10 ^ Z.of_nat 20) as Hr by (change (10 ^ Z.of_nat 20) with (10 ^ 20); lia).
  destruct (digits_spec 20 n Hr) as [HF _]. intros Hin.
  rewrite Forall_forall in HF. destruct (HF _ Hin) as (d & Hd & ->).
  rewrite digit_val in Hb by done. lia.
Qed.

(** ** Searching strings *)
Lemma find_byte_app_not_in x l1 l2 :
  x ∉ l1 -> find_byte x (l1 ++ (x :: l2)) = Some (zlen l1).
Proof.
  induction l1 as [|y l1 IH]; intros H; simpl.
  - by rewrite decide_True.
  - apply not_elem_of_cons in H as [H1 H2]. rewrite decide_False by done.
    rewrite IH by done. simpl. f_equal. zlia.
Qed.

Lemma find_byte_None x l : find_byte x l = None <-> x ∉ l.
Proof.
  induction l as [|y l IH]; simpl.
  - split; [intros _; apply not_elem_of_nil|done].
  - rewrite not_elem_of_cons. destruct (decide (x = y)) as [->|]; [naive_solver|].
    destruct (find_byte x l); simpl; naive_solver.
Qed.

(** A hit splits the list. *)
Lemma find_byte_Some x l i :
  find_byte x l = Some i -> exists l1 l2, l = (l1 ++ (x :: l2)) /\ (x ∉ l1) /\ i = zlen l1.
Proof.
  revert i. induction l as [|y l IH]; intros i; simpl; [done|].
  destruct (decide (x = y)) as [->|Hne].
  - intros [= <-]. exists [], l. split; [done|]. split; [apply not_elem_of_nil|done].
  - destruct (find_byte x l) as [j|]; simpl; intros [= <-].
    destruct (IH j eq_refl) as (l1 & l2 & -> & Hn & ->).
    exists (y :: l1), l2. split; [done|]. split; [|zlia].
    apply not_elem_of_cons. done.
Qed.

Lemma find_last_of_app x l1 l2 :
  x ∉ l2 -> find_last_of x (l1 ++ (x :: l2)) = Some (zlen l1).
Proof.
  intros H. unfold find_last_of. rewrite rev_app_distr. simpl.
  rewrite <- app_assoc. simpl. rewrite find_byte_app_not_in by (by rewrite list_elem_of_In, <- in_rev, <- list_elem_of_In).
  simpl. f_equal. zlia.
Qed.

(** ** [split] on one separator *)
Fixpoint fields (c : byte) (src : bytes) : list bytes :=
  match src with
  | [] => [[]]
  | x :: src =>
      if decide (x = c) then [] :: fields c src
      else match fields c src with
           | [] => [[x]]
           | f :: fs => (x :: f) :: fs
           end
  end.

Fixpoint join (c : byte) (l : list bytes) : bytes :=
  match l with
  | [] => []
  | [s] => s
  | s :: l => s ++ c :: join c l
  end.

Definition on_head (s : bytes) (l : list bytes) : list bytes :=
  match l with [] => [s] | f :: fs => (s ++ f) :: fs end.

Lemma fields_nonnil c src : fields c src <> [].
Proof. destruct src; simpl; [done|]. case_decide; [done|]. by destruct (fields c src). Qed.

Lemma split_loop_fields c src s tokens :
  src <> [] \/ s <> [] \/ tokens <> [] ->
  split_loop src [c] s tokens = tokens ++ on_head s (fields c src).
Proof.
  revert s tokens. induction src as [|x src IH]; intros s tokens H; simpl.
  - rewrite app_nil_r. destruct H as [H|[H|H]]; [done| |].
    + by rewrite (bool_decide_false (s = [])).
    + by rewrite (bool_decide_false (tokens = [])), orb_true_r.
  - destruct (decide (x = c)) as [->|Hne].
    + rewrite bool_decide_true by (by apply list_elem_of_singleton).
      rewrite IH by (right; right; by destruct tokens). rewrite <- app_assoc. simpl.
      rewrite app_nil_r. destruct (fields c src) eqn:E; [|done].
      by destruct (fields_nonnil c src).
    + rewrite bool_decide_false by (by rewrite list_elem_of_singleton).
      rewrite IH by (right; left; by destruct s).
      destruct (fields c src) as [|f fs]; simpl; [done|]. by rewrite <- app_assoc.
Qed.

Lemma split_fields c src : split src [c] = if decide (src = []) then [] else fields c src.
Proof.
  unfold split. destruct (decide (src = [])) as [->|]; [done|].
  rewrite split_loop_fields by auto. simpl.
  destruct (fields c src) eqn:E; [|done]. by destruct (fields_nonnil c src).
Qed.

Lemma join_fields c src : join c (fields c src) = src.
Proof.
  induction src as [|x src IH]; [done|]. simpl.
  pose proof (fields_nonnil c src) as Hn. case_decide as Hx.
  - subst x. destruct (fields c src); [done|]. simpl in *. by rewrite IH.
  - destruct (fields c src) as [|f [|g fs]]; [done| |]; simpl in *; by rewrite IH.
Qed.

Lemma fields_no_sep c src : Forall (fun f => c ∉ f) (fields c src).
Proof.
  induction src as [|x src IH]; simpl.
  - apply Forall_singleton, not_elem_of_nil.
  - case_decide as Hx; [apply Forall_cons; split; [apply not_elem_of_nil|done]|].
    destruct (fields c src) as [|f fs]; [apply Forall_singleton|].
    + by rewrite list_elem_of_singleton.
    + apply Forall_cons in IH as [H1 H2]. apply Forall_cons. split; [|done].
      apply not_elem_of_cons. auto.
Qed.

Lemma fields_app c a l : c ∉ a -> fields c (a ++ (c :: l)) = a :: fields c l.
Proof.
  induction a as [|x a IH]; intros H; simpl.
  - by rewrite decide_True.
  - apply not_elem_of_cons in H as [H1 H2]. rewrite decide_False by done. by rewrite IH.
Qed.

Lemma fields_last c a : c ∉ a -> fields c a = [a].
Proof.
  induction a as [|x a IH]; intros H; simpl; [done|].
  apply not_elem_of_cons in H as [H1 H2]. rewrite decide_False by done. by rewrite IH.
Qed.

Lemma fields_join c l :
  l <> [] -> Forall (fun f => c ∉ f) l -> fields c (join c l) = l.
Proof.
  induction l as [|f [|g l] IH]; intros Hn HF; [done| |].
  - apply Forall_cons in HF as [H _]. by apply fields_last.
  - apply Forall_cons in HF as [H HF].
    change (join c (f :: g :: l)) with (f ++ (c :: join c (g :: l))).
    rewrite fields_app by done. by rewrite IH.
Qed.

(** split on one separator returns the fields that were joined with it,
    when no field contains it and the joined text is not empty. *)
Theorem split_inverts_join c l :
  l <> [] -> l <> [[]] -> Forall (fun f => c ∉ f) l -> split (join c l) [c] = l.
Proof.
  intros Hn Hn' HF. rewrite split_fields. rewrite decide_False; [by apply fields_join|].
  intros E. destruct l as [|f [|g l]]; simpl in E; [done|subst; done|].
  by destruct f.
Qed.

Lemma split_inverts_join_witness :
  split (join Byte.x2c [str "1001"; []; str "1002"]) (str ",") = [str "1001"; []; str "1002"].
Proof.
  apply (split_inverts_join Byte.x2c [str "1001"; []; str "1002"]); [done|done|].
  apply (bool_decide_unpack _). vm_compute. exact I.
Defined.

(** Split on one separator character returns no field on the empty text,
    else fields without the separator whose join is the text. *)
Theorem split_spec c src :
  join c (split src [c]) = src /\ Forall (fun f => c ∉ f) (split src [c]) /\
  (split src [c] = [] <-> src = []).
Proof.
  rewrite split_fields. destruct (decide (src = [])) as [->|Hs].
  - repeat split; [by apply Forall_nil|done..].
  - split; [apply join_fields|]. split; [apply fields_no_sep|].
    pose proof (fields_nonnil c src). naive_solver.
Qed.
