(* ===== verification/RpcCodec.v ===== *)
(** * The RPC protocol: src/rpc/RpcCodec.h, src/rpc/RpcCodec.cc

    A frame is a 4-byte length of what follows, an 8-byte call id whose top bit
    marks a response, a 4-byte name length, the NUL-terminated name
    [service:method] and the serialized message.  Messages are protobuf
    objects: the generated code behind them enters through the class [Message]
    and its documented law. *)

From Stdlib Require Import ZArith Lia.
From stdpp Require Import base list strings.
From S2P Require Import Prelude Endian Buffer Framing Interfaces Text Session.
Local Open Scope Z_scope.

(** What RpcCodec.cc uses of [google::protobuf::Message]. *)
Class Message (M : Type) := {
  ByteSize : M -> Z;
  SerializeWithCachedSizesToArray : M -> bytes;
  (** The messages protobuf can serialize: sizes and integers in range. *)
  message_ok : M -> Prop;
}.
(** protobuf: the array is filled with exactly [ByteSize()] bytes. *)
Class MessageLaws (M : Type) `{Message M} : Prop := {
  serialize_size m : message_ok m -> zlen (SerializeWithCachedSizesToArray m) = ByteSize m;
}.

Module RpcCodec.

Inductive ErrorCode :=
  | kNoError
  | kInvalidLength
  | kCheckSumError
  | kInvalidNameLen
  | kUnknownMessageType
  | kParseError.

Definition errorCodeToString (e : ErrorCode) : bytes :=
  match e with
  | kNoError => str "NoError"
  | kInvalidLength => str "InvalidLength"
  | kCheckSumError => str "CheckSumError"
  | kInvalidNameLen => str "InvalidNameLen"
  | kUnknownMessageType => str "UnknownMessageType"
  | kParseError => str "ParseError"
  end.

Definition kHeaderLen : Z := 4.
Definition kIdLen : Z := 8.
Definition kMinMessageLen : Z := kIdLen + kHeaderLen + 3.
Definition kMaxMessageLen : Z := 64 * 1024 * 1024.

Definition fillEmptyBuffer {M} `{Message M} (buf : Buffer) (message : M) (id : Z) (name : bytes)
    : res Buffer :=
  let* _ := assert (readableBytes buf =? 0) in
  let* buf := appendInt64 id buf in
  let nameLen := s32 (zlen name + 1) in
  let* buf := appendInt32 nameLen buf in
  let* buf := append (name ++ [Byte.x00]) (u64 nameLen) buf in
  let byte_size := ByteSize message in
  let* buf := ensureWritableBytes (u64 byte_size) buf in
  let* buf := mem_write buf (beginWrite buf) (SerializeWithCachedSizesToArray message) in
  let* buf := hasWritten (u64 byte_size) buf in
  let len := s32 (hostToNetwork32 (s32 (readableBytes buf))) in
  prepend (object_bytes host 4 len) buf.

(** A big-endian integer at an address. *)
Definition asInt32 (buf : Buffer) (p : Z) : res Z :=
  let* d := mem_read buf p 4 in
  Ok (s32 (networkToHost32 (object_value host d))).
Definition asUInt64 (buf : Buffer) (p : Z) : res Z :=
  let* d := mem_read buf p 8 in
  Ok (networkToHost64 (object_value host d)).

Section codec.
Context {S W : Type} `{SessionOps S W}.
(** The message callback gets [data] and [datalen]; the bytes it may read
    are [data[0 .. datalen)], none when [datalen] is negative. *)
Context (messageCallback_ : bool -> Z -> bytes -> bytes -> S -> bytes -> Z -> W -> res W).
Context (errorCallback_ : S -> ErrorCode -> W -> res W).

Definition send {M} `{Message M} (id : Z) (name : bytes) (conn : S) (message : M) (w : W)
    : res W :=
  let* buf := Buffer_new kInitialSize in
  let* buf := fillEmptyBuffer buf message id name in
  session_send conn buf w.

Fixpoint onMessage_loop (fuel : nat) (conn : S) (buf : Buffer) (w : W) : res (Buffer * W) :=
  match fuel with
  | O => Err OutOfFuel
  | Datatypes.S fuel =>
      if kMinMessageLen + kHeaderLen <=? readableBytes buf then
        let* len := peekInt32 buf in
        if (kMaxMessageLen <? len) || (len <? kMinMessageLen) then
          let* w := errorCallback_ conn kInvalidLength w in
          Ok (buf, w)
        else if u64 (len + kHeaderLen) <=? readableBytes buf then
          let idstart := peek buf + kHeaderLen in
          let* id := asUInt64 buf idstart in
          let isresponse := negb (Z.shiftr id 63 =? 0) in
          let id := Z.land id 0x7fffffffffffffff in
          let* nameLen := asInt32 buf (idstart + kIdLen) in
          if (3 <=? nameLen) && (nameLen <=? len - 2 * kHeaderLen) then
            let* typeName := mem_read buf (idstart + kHeaderLen + kIdLen) nameLen in
            match find_byte Byte.x3a typeName with
            | Some pos =>
                let service := substr_to typeName pos in
                let method := substr_from typeName (pos + 1) in
                let datap := idstart + kHeaderLen + kIdLen + nameLen in
                let datalen := len - nameLen - kHeaderLen - kIdLen in
                let* data := (if datalen <? 0 then Ok [] else mem_read buf datap datalen) in
                let* w := messageCallback_ isresponse id service method conn data datalen w in
                let* buf := retrieve (u64 (kHeaderLen + len)) buf in
                onMessage_loop fuel conn buf w
            | None =>
                let* w := errorCallback_ conn kInvalidNameLen w in
                let* buf := retrieve (u64 (kHeaderLen + len)) buf in
                Ok (buf, w)
            end
          else
            let* w := errorCallback_ conn kInvalidNameLen w in
            let* buf := retrieve (u64 (kHeaderLen + len)) buf in
            Ok (buf, w)
        else Ok (buf, w)
      else Ok (buf, w)
  end.

Definition onMessage (conn : S) (buf : Buffer) (w : W) : res (Buffer * W) :=
  onMessage_loop (Datatypes.S (Z.to_nat (readableBytes buf))) conn buf w.
End codec.

(** The error callback of the one-argument constructor only logs. *)
Definition defaultErrorCallback {S W : Type} (conn : S) (errorCode : ErrorCode) (w : W) : res W :=
  Ok w.

(** ** The protocol, on byte strings *)
Record rpc_msg := mkMsg {
  m_isresponse : bool;
  m_id : Z;
  m_service : bytes;
  m_method : bytes;
  m_data : bytes;
}.

(** The head of a stream, as the decoder reads it.  [Crash UB]: the name runs
    past the frame, which the code's bound [len - 2 * kHeaderLen] lets through
    for up to four bytes; what it then reads is not in the frame. *)
Definition parse1 (c : bytes) : parse rpc_msg ErrorCode :=
  if zlen c <? 19 then Need else
  let len := s32 (be_value (ztake 4 c)) in
  if (kMaxMessageLen <? len) || (len <? 15) then Bad kInvalidLength 0 else
  if zlen c <? len + 4 then Need else
  let id := be_value (slice c 4 8) in
  let nameLen := s32 (be_value (slice c 12 4)) in
  if (3 <=? nameLen) && (nameLen <=? len - 8) then
    if len - 12 <? nameLen then Crash UB else
    let typeName := slice c 16 nameLen in
    match find_byte Byte.x3a typeName with
    | Some pos =>
        Got (mkMsg (negb (Z.shiftr id 63 =? 0)) (Z.land id 0x7fffffffffffffff)
               (ztake pos typeName) (zdrop (pos + 1) typeName)
               (slice c (16 + nameLen) (len - nameLen - 12))) (len + 4)
    | None => Bad kInvalidNameLen (len + 4)
    end
  else Bad kInvalidNameLen (len + 4).

(** Once the decoder decides, more bytes do not change its mind. *)
Lemma parse1_app c x : parse1 c <> Need -> parse1 (c ++ x) = parse1 c.
Proof.
  unfold parse1. rewrite zlen_app. pose proof (zlen_nonneg x).
  destruct (Z.ltb_spec (zlen c) 19); [done|].
  destruct (Z.ltb_spec (zlen c + zlen x) 19); [lia|].
  rewrite ztake_app_le by lia. set (len := s32 _).
  destruct ((kMaxMessageLen <? len) || (len <? 15)) eqn:Hl; [done|].
  apply orb_false_iff in Hl as [_ Hl%Z.ltb_ge].
  destruct (Z.ltb_spec (zlen c) (len + 4)); [done|].
  destruct (Z.ltb_spec (zlen c + zlen x) (len + 4)); [lia|].
  rewrite (slice_app_l c x 4), (slice_app_l c x 12) by lia. set (nl := s32 _). intros _.
  destruct ((3 <=? nl) && (nl <=? len - 8)) eqn:Hn; [|done].
  apply andb_true_iff in Hn as [Hn%Z.leb_le _].
  destruct (Z.ltb_spec (len - 12) nl); [done|].
  by rewrite !slice_app_l by lia.
Qed.

Lemma parse1_bounds c :
  match parse1 c with Got _ n => 0 < n <= zlen c | Bad _ n => 0 <= n <= zlen c | _ => True end.
Proof.
  unfold parse1. destruct (Z.ltb_spec (zlen c) 19); [done|].
  set (len := s32 _).
  destruct ((kMaxMessageLen <? len) || (len <? 15)) eqn:Hl; [lia|].
  apply orb_false_iff in Hl as [_ Hl%Z.ltb_ge].
  destruct (Z.ltb_spec (zlen c) (len + 4)); [done|].
  set (nl := s32 _). destruct ((3 <=? nl) && (nl <=? len - 8)); [|lia].
  destruct (len - 12 <? nl); [done|]. destruct (find_byte _ _); lia.
Qed.

#[global] Instance framer : Framer parse1.
Proof.
  split.
  - intros c a n E. pose proof (parse1_bounds c) as H. by rewrite E in H.
  - intros c a n x E. by rewrite parse1_app; rewrite E.
  - intros c e n E. pose proof (parse1_bounds c) as H. by rewrite E in H.
  - intros c e n x E. by rewrite parse1_app; rewrite E.
  - intros c e x E. exists e. by rewrite parse1_app; rewrite E.
Qed.

Lemma asInt32_repr b c p :
  represents b c -> 0 <= p -> p + 4 <= zlen c ->
  asInt32 b (peek b + p) = Ok (s32 (be_value (slice c p 4))).
Proof.
  intros HR Hp Hc. unfold asInt32. rewrite (repr_mem_read _ _ HR) by lia. mstep.
  do 2 f_equal. apply (betoh_wrap_object_value 4).
  pose proof (zlen_slice c p 4 ltac:(lia) ltac:(lia) Hc) as H. unfold zlen in H. lia.
Qed.
Lemma asUInt64_repr b c p :
  represents b c -> 0 <= p -> p + 8 <= zlen c ->
  asUInt64 b (peek b + p) = Ok (be_value (slice c p 8)).
Proof.
  intros HR Hp Hc. unfold asUInt64. rewrite (repr_mem_read _ _ HR) by lia. mstep.
  f_equal. apply (betoh_wrap_object_value 8).
  pose proof (zlen_slice c p 8 ltac:(lia) ltac:(lia) Hc) as H. unfold zlen in H. lia.
Qed.

(** ** Refinement *)
Section refine.
Context {S W : Type} `{SessionOps S W}.
Context (cb : bool -> Z -> bytes -> bytes -> S -> bytes -> Z -> W -> res W).
Context (ecb : S -> ErrorCode -> W -> res W) (conn : S).

Definition on_msg (m : rpc_msg) (w : W) : res W :=
  cb (m_isresponse m) (m_id m) (m_service m) (m_method m) conn (m_data m) (zlen (m_data m)) w.

Lemma onMessage_loop_refines fuel b c w :
  represents b c -> zlen c < Z.of_nat fuel -> calm parse1 c ->
  res_rel (fst_rel represents) (onMessage_loop cb ecb fuel conn b w)
    (decode parse1 on_msg (ecb conn) c w).
Proof using.
  revert b c w. induction fuel as [|fuel IH]; intros b c w HR Hf Hn; [zlia|].
  apply (calm_eq parse1) in Hn. revert Hn.
  cbn [onMessage_loop]. rewrite (repr_readableBytes _ _ HR), (decode_eq parse1).
  set (P := parse1 c). unfold parse1 in (value of P). subst P.
  unfold kMinMessageLen, kHeaderLen, kIdLen. change (8 + 4 + 3 + 4) with 19.
  change (8 + 4 + 3) with 15. change (2 * 4) with 8.
  destruct (Z.leb_spec 19 (zlen c)), (Z.ltb_spec (zlen c) 19); try lia; [|done].
  rewrite (repr_peekInt32 _ _ HR) by lia. mstep. set (len := s32 _).
  destruct ((kMaxMessageLen <? len) || (len <? 15)) eqn:Hl.
  { intros _. destruct (ecb conn _ w); simpl; done. }
  apply orb_false_iff in Hl as [Hl1%Z.ltb_ge Hl%Z.ltb_ge]. unfold kMaxMessageLen in Hl1.
  rewrite (uwrap_small 64 (len + 4)) by lia.
  destruct (Z.leb_spec (len + 4) (zlen c)), (Z.ltb_spec (zlen c) (len + 4)); try lia; [|done].
  rewrite (asUInt64_repr _ _ _ HR) by lia. mstep.
  rewrite <- (Z.add_assoc (peek b) 4 8). change (4 + 8) with 12.
  rewrite (asInt32_repr _ _ _ HR) by lia. mstep.
  set (nl := s32 (be_value (slice c 12 4))).
  rewrite (uwrap_small 64 (4 + len)) by lia. rewrite (Z.add_comm 4 len).
  destruct (repr_retrieve _ _ HR (len + 4)) as (b' & Er & HR'); [lia|].
  assert (forall e, res_rel (fst_rel represents)
    (let* w0 := ecb conn e w in let* b0 := retrieve (len + 4) b in Ok (b0, w0))
    (let* w0 := ecb conn e w in Ok (zdrop (len + 4) c, w0))) as Herr.
  { intros e. destruct (ecb conn e w); [mstep|done]. rewrite Er. by split. }
  destruct ((3 <=? nl) && (nl <=? len - 8)) eqn:Hnl; [|intros _; apply Herr].
  apply andb_true_iff in Hnl as [Hnl1%Z.leb_le Hnl2%Z.leb_le].
  destruct (Z.ltb_spec (len - 12) nl); [done|].
  replace (peek b + 4 + 4 + 8) with (peek b + 16) by lia.
  rewrite (repr_mem_read _ _ HR) by lia. mstep.
  destruct (find_byte Byte.x3a (slice c 16 nl)) as [pos|]; [|intros _; apply Herr].
  intros Hn. cbv zeta.
  destruct (Z.ltb_spec (len - nl - 4 - 8) 0); [lia|].
  rewrite <- (Z.add_assoc (peek b) 16), (repr_mem_read _ _ HR) by lia. mstep.
  replace (len - nl - 4 - 8) with (len - nl - 12) by lia.
  unfold on_msg. cbn [m_isresponse m_id m_service m_method m_data]. rewrite zlen_slice by lia.
  destruct (cb _ _ _ _ _ _ _ w) as [w'|e]; [mstep|done].
  rewrite Er. mstep. apply IH; [done|rewrite zlen_zdrop; lia|done].
Qed.

Lemma onMessage_decodes b c w :
  represents b c -> calm parse1 c ->
  res_rel (fst_rel represents) (onMessage cb ecb conn b w)
    (decode parse1 on_msg (ecb conn) c w).
Proof using.
  intros HR Hn. unfold onMessage. apply onMessage_loop_refines; [done| |done].
  rewrite (repr_readableBytes _ _ HR). zlia.
Qed.
End refine.

(** ** The encoder *)
Definition encode (id : Z) (name data : bytes) : bytes :=
  be_bytes 4 (zlen name + 13 + zlen data) ++ be_bytes 8 id ++ be_bytes 4 (zlen name + 1) ++
  name ++ [Byte.x00] ++ data.

Lemma zlen_encode id name data : zlen (encode id name data) = zlen name + 17 + zlen data.
Proof. unfold encode. zlia. Qed.

Lemma fillEmptyBuffer_encode {M} `{MessageLaws M} b (m : M) id name :
  represents b [] -> kCheapPrepend <= readerIndex_ b -> message_ok m ->
  zlen name + 13 + ByteSize m < 2 ^ 31 ->
  exists b', fillEmptyBuffer b m id name = Ok b' /\
    represents b' (encode id name (SerializeWithCachedSizesToArray m)).
Proof.
  intros HR Hr Hok Hlen. unfold fillEmptyBuffer. unfold kCheapPrepend in Hr.
  pose proof (serialize_size m Hok) as Hm. set (d := SerializeWithCachedSizesToArray m) in *.
  rewrite <- Hm in *. zlen_pos.
  rewrite (repr_readableBytes _ _ HR). mstep.
  destruct (repr_appendInt64 b [] id HR) as (b1 & -> & R1 & P1); [fits_lia|]. mstep.
  rewrite (swrap_small 32 (zlen name + 1)) by lia.
  destruct (repr_appendInt32 b1 _ (zlen name + 1) R1) as (b2 & -> & R2 & P2); [fits_lia|]. mstep.
  rewrite uwrap_small by lia.
  destruct (repr_append_all b2 _ (name ++ [Byte.x00]) (zlen name + 1) R2)
    as (b3 & -> & R3 & P3); [zlia|fits_lia|]. mstep.
  rewrite uwrap_small by lia.
  destruct (repr_ensureWritableBytes b3 _ (zlen d) R3) as [[_ Hf]|(b4 & -> & R4 & Hw & P4)].
  { unfold max_size. lia. }
  { exfalso. apply Hf. fits_lia. }
  mstep.
  destruct (repr_mem_write_hasWritten b4 _ d R4 Hw) as (b5 & E & R5 & P5 & _).
  apply bind_Ok_inv in E as (b5' & -> & E). mstep. rewrite E. mstep.
  rewrite app_nil_l, <- !app_assoc in R5.
  rewrite (repr_readableBytes _ _ R5).
  assert (zlen (be_bytes 8 id ++ be_bytes 4 (zlen name + 1) ++ name ++ [Byte.x00] ++ d)
          = zlen name + 13 + zlen d) as -> by zlia.
  rewrite (swrap_small 32 (zlen name + 13 + zlen d)) by lia.
  rewrite (object_bytes_swrap host 4) by lia. rewrite hostToNetwork32_bytes.
  unfold kCheapPrepend in *.
  destruct (repr_prepend b5 _ (be_bytes 4 (zlen name + 13 + zlen d)) R5) as (b6 & -> & R6).
  { rewrite zlen_be_bytes, P5. lia. }
  exists b6. split; [done|exact R6].
Qed.

(** A name the protocol can carry: [service:method], at least two characters,
    no colon in the service. *)
Definition name_ok (service method : bytes) : Prop :=
  (Byte.x3a ∉ service) /\ 1 <= zlen service + zlen method.

Definition full_name (service method : bytes) : bytes := service ++ Byte.x3a :: method.

(** The decoder's view of a frame: the name keeps its terminating NUL. *)
Definition received (id : Z) (service method data : bytes) : rpc_msg :=
  mkMsg (2 ^ 63 <=? id) (id mod 2 ^ 63) service (method ++ [Byte.x00]) data.

Lemma id_top_bit id :
  0 <= id < 2 ^ 64 -> negb (Z.shiftr id 63 =? 0) = (2 ^ 63 <=? id).
Proof.
  intros. rewrite Z.shiftr_div_pow2 by lia.
  destruct (Z.leb_spec (2 ^ 63) id).
  - assert (1 <= id / 2 ^ 63) by (apply Z.div_le_lower_bound; lia).
    by destruct (Z.eqb_spec (id / 2 ^ 63) 0); [lia|].
  - by rewrite Z.div_small by lia.
Qed.

Lemma parse1_encode id service method data x :
  0 <= id < 2 ^ 64 -> name_ok service method ->
  zlen (full_name service method) + 13 + zlen data <= kMaxMessageLen ->
  parse1 (encode id (full_name service method) data ++ x) =
    Got (received id service method data) (zlen (encode id (full_name service method) data)).
Proof.
  intros Hid [Hs Hnm] Hlen. unfold kMaxMessageLen in Hlen.
  assert (zlen (full_name service method) = zlen service + zlen method + 1) as Hfn
    by (unfold full_name; zlia).
  pose proof (zlen_encode id (full_name service method) data) as HE.
  set (name := full_name service method) in *. pose proof (zlen_nonneg x). zlen_pos.
  unfold parse1. rewrite zlen_app, HE.
  assert (forall pre l post i k, zlen pre = i -> zlen l = k ->
    encode id name data ++ x = pre ++ l ++ post -> slice (encode id name data ++ x) i k = l) as Hsl.
  { intros pre l post i k Hi Hk ->. by apply slice_app_mid. }
  assert (ztake 4 (encode id name data ++ x) = be_bytes 4 (zlen name + 13 + zlen data)) as ->.
  { unfold encode. rewrite <- app_assoc. apply ztake_app_exact. by rewrite zlen_be_bytes. }
  rewrite s32_be, swrap_small by lia. set (len := zlen name + 13 + zlen data) in *.
  destruct (Z.ltb_spec (zlen name + 17 + zlen data + zlen x) 19); [lia|].
  rewrite (proj2 (Z.ltb_ge kMaxMessageLen len)), (proj2 (Z.ltb_ge len 15))
    by (unfold kMaxMessageLen; lia).
  cbn [orb]. rewrite (proj2 (Z.ltb_ge _ (len + 4))) by lia.
  rewrite (Hsl (be_bytes 4 len) (be_bytes 8 id)
             (be_bytes 4 (zlen name + 1) ++ name ++ [Byte.x00] ++ data ++ x) 4 8);
    [|zlia|zlia|unfold encode; by rewrite <- !app_assoc].
  rewrite (Hsl (be_bytes 4 len ++ be_bytes 8 id) (be_bytes 4 (zlen name + 1))
             (name ++ [Byte.x00] ++ data ++ x) 12 4);
    [|zlia|zlia|unfold encode; by rewrite <- !app_assoc].
  rewrite u64_be, uwrap_small by lia. rewrite s32_be, swrap_small by lia.
  rewrite (proj2 (Z.leb_le 3 _)), (proj2 (Z.leb_le _ (len - 8))) by lia. cbn [andb].
  rewrite (proj2 (Z.ltb_ge (len - 12) _)) by lia.
  rewrite (Hsl (be_bytes 4 len ++ be_bytes 8 id ++ be_bytes 4 (zlen name + 1))
             (name ++ [Byte.x00]) (data ++ x) 16 (zlen name + 1));
    [|zlia|zlia|unfold encode; by rewrite <- !app_assoc].
  rewrite (Hsl (be_bytes 4 len ++ be_bytes 8 id ++ be_bytes 4 (zlen name + 1) ++
                name ++ [Byte.x00]) data x (16 + (zlen name + 1)) (len - (zlen name + 1) - 12));
    [|zlia|unfold len; lia|unfold encode; by rewrite <- !app_assoc].
  unfold name, full_name. rewrite <- app_assoc. cbn [app].
  rewrite find_byte_app_not_in by done.
  rewrite ztake_app_exact by done.
  replace (zlen service + 1) with (zlen (service ++ [Byte.x3a])) by zlia.
  change (service ++ Byte.x3a :: method ++ [Byte.x00])
    with (service ++ [Byte.x3a] ++ (method ++ [Byte.x00])).
  rewrite (app_assoc service), zdrop_app_exact by done.
  rewrite id_top_bit by done.
  change 0x7fffffffffffffff with (Z.ones 63). rewrite Z.land_ones by lia.
  unfold received. f_equal.
  change (zlen (service ++ Byte.x3a :: method)) with (zlen name). lia.
Qed.

Lemma send_encodes {S W M : Type} `{SessionLaws S W} `{MessageLaws M}
    id name (conn : S) (m : M) (w : W) :
  message_ok m -> zlen name + 13 + ByteSize m < 2 ^ 31 ->
  exists w', send id name conn m w = Ok w' /\
    sent w' conn = sent w conn ++ encode id name (SerializeWithCachedSizesToArray m) /\
    forall s, s <> conn -> sent w' s = sent w s.
Proof.
  intros Hok Hb. unfold send. rewrite Buffer_new_default. mstep.
  destruct (fillEmptyBuffer_encode newBuffer m id name) as (b & -> & HR);
    [apply newBuffer_represents|done|done|done|]. mstep.
  by apply session_send_spec.
Qed.

(** ** The properties of the RPC protocol *)

(** The RPC decoder loop, on a buffer whose bytes contain no frame with
    an overlong name, behaves as the specification on byte strings: the
    message callback on each call in order, the error callback with the code
    of the first bad frame, and the unread bytes left in the buffer; it always
    terminates. *)
Theorem rpc_onMessage_refines {S W : Type} `{SessionOps S W}
    (cb : bool -> Z -> bytes -> bytes -> S -> bytes -> Z -> W -> res W)
    (ecb : S -> ErrorCode -> W -> res W) (conn : S) b c w :
  represents b c -> calm parse1 c ->
  res_rel (fst_rel represents) (onMessage cb ecb conn b w)
    (decode parse1 (on_msg cb conn) (ecb conn) c w).
Proof. apply onMessage_decodes. Qed.

(** A callback that records the messages, and one call's frame. *)
Definition log_cb (isresponse : bool) (id : Z) (service method : bytes) (conn : nat)
    (data : bytes) (datalen : Z) (w : list rpc_msg) : res (list rpc_msg) :=
  Ok (w ++ [mkMsg isresponse id service method data]).
#[local] Instance trivial_ops : SessionOps nat (list rpc_msg) := {|
  session_send _ _ w := Ok w; session_close _ w := Ok w; sent _ _ := [] |}.
Definition one_call : bytes := encode 1 (full_name (str "logic.Logic") (str "Connect")) (str "xyz").
Definition one_call_buffer : Buffer :=
  mkBuffer (replicate 8 Byte.x00 ++ one_call ++ []) 8 (8 + zlen one_call).

Lemma rpc_onMessage_refines_witness :
  res_rel (fst_rel represents)
    (onMessage log_cb defaultErrorCallback 0%nat one_call_buffer [])
    (decode parse1 (on_msg log_cb 0%nat) (defaultErrorCallback 0%nat) one_call []).
Proof.
  apply (rpc_onMessage_refines log_cb defaultErrorCallback 0%nat one_call_buffer one_call []).
  - exists (replicate 8 Byte.x00), []. vm_compute. intuition discriminate.
  - vm_compute. exact I.
Defined.

(** A call or reply given to [send]: id with its top bit, name, payload. *)
Record call := mkCall { c_id : Z; c_service : bytes; c_method : bytes; c_data : bytes }.
Definition call_ok (c : call) : Prop :=
  0 <= c_id c < 2 ^ 64 /\ name_ok (c_service c) (c_method c) /\
  zlen (full_name (c_service c) (c_method c)) + 13 + zlen (c_data c) <= kMaxMessageLen.
Definition call_bytes (c : call) : bytes :=
  encode (c_id c) (full_name (c_service c) (c_method c)) (c_data c).
Definition call_msg (c : call) : rpc_msg :=
  received (c_id c) (c_service c) (c_method c) (c_data c).

Lemma drain_calls cs :
  Forall call_ok cs -> drain parse1 (concat (map call_bytes cs)) = (map call_msg cs, [], Idle).
Proof.
  induction cs as [|c cs IH]; intros Hok; [done|].
  apply Forall_cons in Hok as [(H1 & H2 & H3) Hok].
  change (concat (map call_bytes (c :: cs))) with (call_bytes c ++ concat (map call_bytes cs)).
  pose proof (parse1_encode _ _ _ _ (concat (map call_bytes cs)) H1 H2 H3) as E.
  fold (call_bytes c) (call_msg c) in E.
  rewrite (drain_eq parse1), E, zdrop_app_exact by done. by rewrite IH.
Qed.

(** C32: A stream of RPC frames, delivered in chunks of any sizes, makes the
    session run the message callback on exactly the calls that were encoded,
    in order, with id, direction bit, service, method and payload. *)
Theorem rpc_stream_roundtrip {S W : Type} `{SessionOps S W}
    (cb : bool -> Z -> bytes -> bytes -> S -> bytes -> Z -> W -> res W)
    (ecb : S -> ErrorCode -> W -> res W) (conn : S) cs sizes rb w w' :
  Forall call_ok cs ->
  zlen (concat (map call_bytes cs)) <= 2 ^ 60 ->
  foldM (on_msg cb conn) (map call_msg cs) w = Ok w' ->
  represents rb [] -> 0 < writableBytes rb ->
  Forall (fun n => 0 < n) sizes ->
  (length (concat (map call_bytes cs)) <= length sizes)%nat ->
  exists rb', Reader.receive (onMessage cb ecb conn) sizes (concat (map call_bytes cs)) rb w
                = Ok ([], rb', w') /\ represents rb' [].
Proof.
  intros Hok Hlen Hf HR Hw Hs Hl.
  eapply (Reader.receive_idle parse1 _ _ _
    (fun b c w HR Hc => onMessage_decodes cb ecb conn b c w HR Hc)); eauto.
  rewrite app_nil_l. by apply drain_calls.
Qed.

Definition two_calls : list call :=
  [mkCall 1 (str "logic.Logic") (str "Connect") (str "xyz");
   mkCall (2 ^ 63 + 1) (str "logic.Logic") (str "Connect") []].

Lemma rpc_stream_roundtrip_witness :
  exists rb', Reader.receive (onMessage log_cb defaultErrorCallback 0%nat) (replicate 80 1)
                (concat (map call_bytes two_calls)) newBuffer []
              = Ok ([], rb', map call_msg two_calls) /\ represents rb' [].
Proof.
  apply (rpc_stream_roundtrip log_cb defaultErrorCallback 0%nat two_calls).
  - apply Forall_forall. intros c Hc. apply list_elem_of_In in Hc.
    assert (forall sv mt, bool_decide (Byte.x3a ∉ sv) = true -> 1 <= zlen sv + zlen mt ->
      name_ok sv mt) as Hn.
    { intros sv mt Hb ?. split; [by apply bool_decide_eq_true in Hb|done]. }
    destruct Hc as [<-|[<-|[]]]; (split; [vm_compute; intuition discriminate|]);
      (split; [apply Hn; vm_compute; intuition discriminate|vm_compute; discriminate]).
  - vm_compute. discriminate.
  - reflexivity.
  - apply newBuffer_represents.
  - reflexivity.
  - apply Forall_replicate. lia.
  - vm_compute. lia.
Defined.

(** RpcCodec::send hands the session exactly the bytes of the frame:
    length, id, name length, NUL-terminated name and serialized message, and
    touches no other session. *)
Theorem rpc_send_encodes {S W M : Type} `{SessionLaws S W} `{MessageLaws M}
    id name (conn : S) (m : M) (w : W) :
  message_ok m -> zlen name + 13 + ByteSize m < 2 ^ 31 ->
  exists w', send id name conn m w = Ok w' /\
    sent w' conn = sent w conn ++ encode id name (SerializeWithCachedSizesToArray m) /\
    forall s, s <> conn -> sent w' s = sent w s.
Proof. apply send_encodes. Qed.

(** A message type that is its own serialization. *)
#[local] Instance bytes_message : Message bytes := {|
  ByteSize m := zlen m; SerializeWithCachedSizesToArray m := m; message_ok _ := True |}.
#[local] Instance bytes_message_laws : MessageLaws bytes.
Proof. split. done. Defined.

Lemma rpc_send_encodes_witness :
  exists w', send 1 (str "a:b") 3%nat (str "xyz") Log.empty = Ok w' /\
    sent w' 3%nat = encode 1 (str "a:b") (str "xyz").
Proof.
  destruct (rpc_send_encodes 1 (str "a:b") 3%nat (str "xyz") Log.empty)
    as (w' & E & Hs & _); [exact I|vm_compute; reflexivity|].
  exists w'. split; [exact E|exact Hs].
Defined.

(** A frame of 19 bytes whose name length says 7 where only 3 bytes of name
    are left, in a buffer whose vector still holds older bytes behind it. *)
Definition overrun_frame : bytes :=
  be_bytes 4 15 ++ be_bytes 8 1 ++ be_bytes 4 7 ++ str "a:b".
Definition overrun_buffer : Buffer :=
  mkBuffer (replicate 8 Byte.x00 ++ overrun_frame ++ str "leak") 8 27.
Definition datalen_cb (isresponse : bool) (id : Z) (service method : bytes) (conn : nat)
    (data : bytes) (datalen : Z) (w : list (bytes * Z)) : res (list (bytes * Z)) :=
  Ok (w ++ [(method, datalen)]).

(** A frame whose name length is up to four bytes longer than what
    follows passes the check: the method name is read from memory behind the
    frame and the payload length is negative. *)
Theorem rpc_name_overruns_frame :
  represents overrun_buffer overrun_frame /\
  exists b', onMessage datalen_cb defaultErrorCallback 0%nat overrun_buffer []
             = Ok (b', [(str "bleak", -4)]).
Proof.
  split.
  - exists (replicate 8 Byte.x00), (str "leak"). vm_compute. intuition discriminate.
  - eexists. vm_compute. reflexivity.
Qed.
End RpcCodec.
