(* ===== verification/RpcChannel.v ===== *)
(** * RPC channels: src/rpc/RpcChannel.h, src/rpc/RpcChannel.cc

    One end of an RPC connection: [CallMethod] numbers a call, remembers the
    caller's response object and closure and sends the request; [onRpcMessage]
    matches a response with its call, or hands a request to the registered
    service, whose closure is [doneCallback].  Protobuf's reflection (message
    types, service and method descriptors, the generated [CallMethod] of a
    service) is not part of the sources: it enters as the parameters of the
    section. *)

From Stdlib Require Import ZArith Lia.
From stdpp Require Import base list gmap strings.
From S2P Require Import Prelude Endian Buffer Framing Interfaces Text Session RpcCodec.
Local Open Scope Z_scope.

Module RpcChannel.

Inductive ErrorCode :=
  | NO_ERROR
  | WRONG_PROTO
  | INVALID_REQUEST
  | NO_METHOD
  | NO_SERVICE
  | PARSE_ERROR.

Section channel.
Context {S W : Type} `{EqDecision S} `{SessionOps S W}.
(** Messages; [T] is the type of a message object. *)
Context {M T : Type} `{Message M}.
Context (ParseFromArray : T -> bytes -> option M).
(** Closures over a response object: [Run] on the parsed response. *)
Context {C : Type} (Run : C -> M -> W -> res W).
(** Services and their descriptors.  [ServiceCall svc m req k]: the generated
    [svc->CallMethod]; [k] is the closure made by [NewCallback], which the
    service runs on its response. *)
Context {Svc Meth : Type}.
Context (FindMethodByName : Svc -> bytes -> option Meth).
Context (GetRequestPrototype : Svc -> Meth -> res T).
Context (ServiceCall : Svc -> Meth -> M -> (M -> W -> res W) -> W -> res W).

(** [OutstandingCall]: the response object, or NULL, and the closure, or
    NULL. *)
Record OutstandingCall := mkOut { response : option T; done : option C }.

Record Channel := mkChannel {
  conn_ : option S;
  id_ : Z;
  outstandings_ : gmap Z OutstandingCall;
  services_ : option (gmap bytes Svc);
}.

(** The constructors, and [setConnection], [setServices]. *)
Definition RpcChannel_new (conn : option S) : Channel := mkChannel conn 0 ∅ None.
Definition setConnection (conn : S) (ch : Channel) : Channel :=
  mkChannel (Some conn) (id_ ch) (outstandings_ ch) (services_ ch).
Definition setServices (services : gmap bytes Svc) (ch : Channel) : Channel :=
  mkChannel (conn_ ch) (id_ ch) (outstandings_ ch) (Some services).

(** [codec_.send(id, name, conn_.lock(), message)]: a NULL session is
    dereferenced. *)
Definition codec_send (ch : Channel) (id : Z) (name : bytes) (message : M) (w : W) : res W :=
  match conn_ ch with
  | Some conn => RpcCodec.send id name conn message w
  | None => Err UB
  end.

Definition CallMethod (service_name method_name : bytes) (request : M)
    (resp : option T) (dn : option C) (ch : Channel) (w : W) : res (Channel * W) :=
  let id := u64 (id_ ch) in
  let name := service_name ++ str ":" ++ method_name in
  let ch := mkChannel (conn_ ch) (s64 (id_ ch + 1))
              (<[id := mkOut resp dn]> (outstandings_ ch)) (services_ ch) in
  let* w := codec_send ch id name request w in
  Ok (ch, w).

(** [doneCallback]: the id travels in the name. *)
Definition doneCallback (ch : Channel) (resp : M) (name : bytes) (w : W) : res W :=
  match find_last_of Byte.x3a name with
  | Some pos =>
      let id := strtoull0 (substr_from name (pos + 1)) in
      let name := substr_to name pos in
      codec_send ch (Z.lor id 0x8000000000000000) name resp w
  | None => Ok w
  end.

(** [onRpcMessage], a response. *)
Definition onResponse (id : Z) (data : bytes) (ch : Channel) (w : W) : res (Channel * W) :=
  match outstandings_ ch !! id with
  | Some out =>
      let ch := mkChannel (conn_ ch) (id_ ch) (delete id (outstandings_ ch)) (services_ ch) in
      match response out with
      | Some t =>
          match ParseFromArray t data with
          | Some m =>
              match done out with
              | Some d => let* w := Run d m w in Ok (ch, w)
              | None => Ok (ch, w)
              end
          | None => Ok (ch, w)
          end
      | None => Ok (ch, w)
      end
  | None => Ok (ch, w)
  end.

(** [onRpcMessage], a request; the error code it computes goes nowhere. *)
Definition onRequest (id : Z) (servicename methodname data : bytes) (ch : Channel) (w : W)
    : res (ErrorCode * W) :=
  match services_ ch with
  | Some services =>
      match services !! servicename with
      | Some service =>
          match FindMethodByName service methodname with
          | Some method =>
              let* t := GetRequestPrototype service method in
              match ParseFromArray t data with
              | Some request =>
                  let name := servicename ++ str ":" ++ methodname ++ str ":" ++ to_string id in
                  let* w := ServiceCall service method request
                              (fun resp => doneCallback ch resp name) w in
                  Ok (NO_ERROR, w)
              | None => Ok (PARSE_ERROR, w)
              end
          | None => Ok (NO_METHOD, w)
          end
      | None => Ok (NO_SERVICE, w)
      end
  | None => Ok (NO_SERVICE, w)
  end.

Definition onRpcMessage (isresponse : bool) (id : Z) (servicename methodname : bytes)
    (conn : S) (data : bytes) (datalen : Z) (chw : Channel * W) : res (Channel * W) :=
  let '(ch, w) := chw in
  let* _ := assert (bool_decide (conn_ ch = Some conn)) in
  if isresponse then onResponse id data ch w
  else let* (_, w) := onRequest id servicename methodname data ch w in Ok (ch, w).

(** [onMessage]: the codec, with [onRpcMessage] as its callback. *)
Definition onMessage (conn : S) (buf : Buffer) (chw : Channel * W) : res (Buffer * (Channel * W)) :=
  RpcCodec.onMessage onRpcMessage RpcCodec.defaultErrorCallback conn buf chw.

(** ** The invariant: the outstanding calls carry ids already given out. *)
Record chan_inv (ch : Channel) : Prop := {
  inv_id : 0 <= id_ ch < 2 ^ 63;
  inv_out i out : outstandings_ ch !! i = Some out -> 0 <= i < id_ ch;
}.

Lemma chan_inv_new conn : chan_inv (RpcChannel_new conn).
Proof. split; simpl; [lia|]. intros i out. by rewrite lookup_empty. Qed.

(** What one operation may do to a channel. *)
Inductive chan_step : Channel -> Channel -> Prop :=
  | step_connection conn ch : chan_step ch (setConnection conn ch)
  | step_services services ch : chan_step ch (setServices services ch)
  | step_call sn mn req resp dn ch w ch' w' :
      id_ ch < 2 ^ 63 - 1 ->
      CallMethod sn mn req resp dn ch w = Ok (ch', w') -> chan_step ch ch'
  | step_message isresponse id sn mn conn data datalen ch w ch' w' :
      onRpcMessage isresponse id sn mn conn data datalen (ch, w) = Ok (ch', w') ->
      chan_step ch ch'.

(** A channel's calls after one step: the ids of the old calls or of the
    new one. *)
Definition grows (ch ch' : Channel) : Prop :=
  id_ ch <= id_ ch' < 2 ^ 63 /\
  forall i out, outstandings_ ch' !! i = Some out ->
    outstandings_ ch !! i = Some out \/ id_ ch <= i < id_ ch'.

Lemma CallMethod_Ok sn mn req resp dn ch w ch' w' :
  chan_inv ch -> id_ ch < 2 ^ 63 - 1 ->
  CallMethod sn mn req resp dn ch w = Ok (ch', w') ->
  ch' = mkChannel (conn_ ch) (id_ ch + 1)
          (<[id_ ch := mkOut resp dn]> (outstandings_ ch)) (services_ ch).
Proof.
  intros [Hi _] Hlt H1. unfold CallMethod in H1.
  apply bind_Ok_inv in H1 as (w1 & _ & [= <- _]).
  by rewrite uwrap_small, swrap_small by lia.
Qed.

Lemma onResponse_Ok id data ch w ch' w' :
  onResponse id data ch w = Ok (ch', w') ->
  ch' = mkChannel (conn_ ch) (id_ ch) (delete id (outstandings_ ch)) (services_ ch).
Proof.
  unfold onResponse. destruct (outstandings_ ch !! id) as [[[t|] dn]|] eqn:E; simpl.
  - destruct (ParseFromArray t data); [destruct dn|]; try (by intros [= <- _]).
    intros H1. by apply bind_Ok_inv in H1 as (w1 & _ & [= <- _]).
  - by intros [= <- _].
  - intros [= <- _]. rewrite delete_id by done. by destruct ch.
Qed.

Lemma onRpcMessage_Ok b id sn mn conn data n ch w ch' w' :
  onRpcMessage b id sn mn conn data n (ch, w) = Ok (ch', w') ->
  ch' = ch \/ ch' = mkChannel (conn_ ch) (id_ ch) (delete id (outstandings_ ch)) (services_ ch).
Proof.
  unfold onRpcMessage. intros (_ & _ & H1)%bind_Ok_inv. destruct b.
  - right. by eapply onResponse_Ok.
  - left. by apply bind_Ok_inv in H1 as ([e w1] & _ & [= -> _]).
Qed.

Lemma chan_step_grows ch ch' : chan_inv ch -> chan_step ch ch' -> grows ch ch'.
Proof.
  intros Hinv Hs. pose proof (inv_id _ Hinv) as Hi.
  destruct Hs as [conn ch|sv ch|sn mn req resp dn ch w ch' w' Hlt E|b id sn mn conn d n ch w ch' w' E].
  1,2: split; simpl; [lia|naive_solver].
  - apply CallMethod_Ok in E as ->; [|done..]. split; simpl; [lia|].
    intros i out [[<- _]|[_ ?]]%lookup_insert_Some; [right; lia|by left].
  - apply onRpcMessage_Ok in E as [->| ->]; split; simpl; try lia; [naive_solver|].
    intros i out [_ ?]%lookup_delete_Some. by left.
Qed.

Lemma chan_step_inv ch ch' : chan_inv ch -> chan_step ch ch' -> chan_inv ch'.
Proof.
  intros Hinv Hs. pose proof (inv_id _ Hinv). destruct (chan_step_grows _ _ Hinv Hs) as [? Hg].
  split; [lia|]. intros i out [Hi|Hi]%Hg; [|lia]. apply (inv_out _ Hinv) in Hi. lia.
Qed.

Lemma chan_steps_absent ch ch' i :
  chan_inv ch -> 0 <= i < id_ ch -> outstandings_ ch !! i = None ->
  rtc chan_step ch ch' -> outstandings_ ch' !! i = None.
Proof.
  intros Hinv Hi Hn Hs. induction Hs as [|ch ch1 ch' Hs _ IH]; [done|].
  destruct (chan_step_grows _ _ Hinv Hs) as [? Hg].
  apply IH; [by eapply chan_step_inv|lia|].
  destruct (outstandings_ ch1 !! i) eqn:E; [|done].
  apply Hg in E as [?|?]; [congruence|lia].
Qed.

Lemma onResponse_absent id data ch w :
  outstandings_ ch !! id = None -> onResponse id data ch w = Ok (ch, w).
Proof. intros Hn. unfold onResponse. by rewrite Hn. Qed.

(** ** One frame through [onMessage] *)
Lemma onMessage_frame conn b c chw chw' :
  represents b (RpcCodec.call_bytes c) -> RpcCodec.call_ok c ->
  RpcCodec.on_msg onRpcMessage conn (RpcCodec.call_msg c) chw = Ok chw' ->
  exists b', onMessage conn b chw = Ok (b', chw') /\ represents b' [].
Proof.
  intros HR Hok E.
  pose proof (RpcCodec.drain_calls [c] ltac:(by constructor)) as D. simpl in D.
  rewrite app_nil_r in D.
  pose proof (RpcCodec.onMessage_decodes onRpcMessage RpcCodec.defaultErrorCallback conn
    b _ chw HR (calm_idle _ _ _ _ D)) as R.
  rewrite (decode_idle _ _ _ _ _ _ _ chw' D) in R by (simpl; by rewrite E).
  apply res_rel_Ok_r in R as ([b' x] & E' & HR' & Hx). simpl in Hx. subst x. by exists b'.
Qed.

Lemma onMessage_frame_err conn b c chw e :
  represents b (RpcCodec.call_bytes c) -> RpcCodec.call_ok c ->
  RpcCodec.on_msg onRpcMessage conn (RpcCodec.call_msg c) chw = Err e ->
  onMessage conn b chw = Err e.
Proof.
  intros HR Hok E.
  pose proof (RpcCodec.drain_calls [c] ltac:(by constructor)) as D.
  cbn [map concat] in D. rewrite app_nil_r in D.
  pose proof (RpcCodec.onMessage_decodes onRpcMessage RpcCodec.defaultErrorCallback conn
    b _ chw HR (calm_idle _ _ _ _ D)) as R.
  unfold decode in R. rewrite D in R. simpl in R. rewrite E in R. simpl in R.
  unfold onMessage. destruct (RpcCodec.onMessage _ _ _ _ _) as [|e']; [done|]. simpl in R. by subst.
Qed.

(** [doneCallback] recovers the id from the name it was given. *)
Lemma doneCallback_sends ch resp sn mn id w :
  0 <= id < 2 ^ 63 ->
  doneCallback ch resp (sn ++ str ":" ++ mn ++ str ":" ++ to_string id) w =
    codec_send ch (id + 2 ^ 63) (RpcCodec.full_name sn mn) resp w.
Proof.
  intros Hid. unfold doneCallback.
  replace (sn ++ str ":" ++ mn ++ str ":" ++ to_string id)
    with (RpcCodec.full_name sn mn ++ Byte.x3a :: to_string id)
    by (unfold RpcCodec.full_name; by rewrite <- app_assoc).
  rewrite find_last_of_app by (apply to_string_no; [lia|vm_compute; intuition discriminate]).
  unfold substr_from, substr_to.
  rewrite ztake_app_exact by done.
  change (Byte.x3a :: to_string id) with ([Byte.x3a] ++ to_string id).
  rewrite app_assoc, zdrop_app_exact by zlia.
  rewrite strtoull0_to_string by lia. f_equal.
  change 0x8000000000000000 with (2 ^ 63).
  assert (Z.land id (2 ^ 63) = 0) as Hl.
  { rewrite <- (Z.mod_small id (2 ^ 63)), <- Z.land_ones, <- Z.land_assoc by lia.
    apply Z.land_0_r. }
  by rewrite Z.add_nocarry_lxor, Z.lxor_lor.
Qed.
End channel.
Arguments OutstandingCall : clear implicits.
Arguments Channel : clear implicits.

Lemma call_fresh_and_sent {S W M T C Svc : Type} `{SessionLaws S W} `{MessageLaws M}
    (conn : S) sn mn (req : M) (resp : option T) (dn : option C) (ch : Channel S T C Svc) (w : W) :
  chan_inv ch -> id_ ch < 2 ^ 63 - 1 -> conn_ ch = Some conn -> message_ok req ->
  zlen sn + zlen mn + 14 + ByteSize req < 2 ^ 31 ->
  outstandings_ ch !! id_ ch = None /\
  exists w', CallMethod sn mn req resp dn ch w =
      Ok (mkChannel (Some conn) (id_ ch + 1)
            (<[id_ ch := mkOut resp dn]> (outstandings_ ch)) (services_ ch), w') /\
    RpcCodec.send (id_ ch) (RpcCodec.full_name sn mn) conn req w = Ok w' /\
    sent w' conn = sent w conn ++
      RpcCodec.encode (id_ ch) (RpcCodec.full_name sn mn) (SerializeWithCachedSizesToArray req).
Proof.
  intros Hinv Hlt Hc Hok Hlen. pose proof (inv_id _ Hinv) as Hi. split.
  { destruct (outstandings_ ch !! id_ ch) eqn:E; [|done]. apply (inv_out _ Hinv) in E. lia. }
  unfold CallMethod, codec_send. cbn [conn_]. rewrite Hc, uwrap_small, swrap_small by lia.
  change (sn ++ str ":" ++ mn) with (RpcCodec.full_name sn mn).
  destruct (RpcCodec.send_encodes (id_ ch) (RpcCodec.full_name sn mn) conn req w)
    as (w' & E & Hs & _); [done|unfold RpcCodec.full_name; zlia|]. rewrite E. mstep. eauto.
Qed.

(** ** The properties of a channel *)

(** C33: Once a channel has handled a response to a call, no later response
    with that id has any effect, whatever calls and messages come in between:
    ids are never given out twice. *)
Theorem rpc_response_consumed_once {S W M T C Svc Meth : Type} `{EqDecision S} `{SessionOps S W}
    `{Message M} (ParseFromArray : T -> bytes -> option M) (Run : C -> M -> W -> res W)
    (FindMethodByName : Svc -> bytes -> option Meth) (GetRequestPrototype : Svc -> Meth -> res T)
    (ServiceCall : Svc -> Meth -> M -> (M -> W -> res W) -> W -> res W)
    id d1 (ch : Channel S T C Svc) w ch1 w1 ch2 :
  chan_inv ch -> 0 <= id < id_ ch ->
  onResponse ParseFromArray Run id d1 ch w = Ok (ch1, w1) ->
  rtc (chan_step ParseFromArray Run FindMethodByName GetRequestPrototype ServiceCall) ch1 ch2 ->
  forall d2 w2, onResponse ParseFromArray Run id d2 ch2 w2 = Ok (ch2, w2).
Proof.
  intros Hinv Hid E Hs d2 w2. apply onResponse_absent.
  eapply chan_steps_absent; [| | |done]; apply onResponse_Ok in E as ->; simpl; try done.
  - split; simpl; [apply Hinv|]. intros i out [_ ?]%lookup_delete_Some. by eapply inv_out.
  - apply lookup_delete_eq.
Qed.

(** A small protobuf: messages are their own bytes, one service with one
    method, which echoes; method names are compared as C strings. *)
Module Toy.
#[export] Instance message : Message bytes := {|
  ByteSize m := zlen m; SerializeWithCachedSizesToArray m := m; message_ok _ := True |}.
#[export] Instance message_laws : MessageLaws bytes.
Proof. split. done. Defined.
Definition parse (t : unit) (d : bytes) : option bytes := Some d.
Definition run (d : unit) (m : bytes) (w : Log.net) : res Log.net := Ok w.
Definition find_method (s : unit) (name : bytes) : option unit :=
  if decide (ztake (strlen name) name = str "Echo") then Some tt else None.
Definition request_type (s m : unit) : res unit := Ok tt.
Definition service_call (s m : unit) (req : bytes) (k : bytes -> Log.net -> res Log.net)
    (w : Log.net) : res Log.net := k req w.
Definition service_name (s : unit) : bytes := str "echo.EchoService".
(** A channel on session 0 that has made one call. *)
Definition called : Channel nat unit unit unit :=
  mkChannel (Some 0%nat) 1 {[ 0 := mkOut (Some tt) (Some tt) ]} None.
Definition answered : Channel nat unit unit unit := mkChannel (Some 0%nat) 1 ∅ None.
End Toy.
Import Toy.

Lemma rpc_response_consumed_once_witness :
  onResponse Toy.parse Toy.run 0 (str "x") Toy.answered Log.empty = Ok (Toy.answered, Log.empty).
Proof.
  refine (rpc_response_consumed_once Toy.parse Toy.run Toy.find_method Toy.request_type
    Toy.service_call 0 (str "x") Toy.called Log.empty Toy.answered Log.empty Toy.answered
    _ _ _ _ (str "x") Log.empty).
  - split; [simpl; lia|]. intros i out Ho.
    unfold Toy.called in *. cbn [outstandings_ id_] in *.
    apply lookup_singleton_Some in Ho as [<- _]. lia.
  - simpl. lia.
  - vm_compute. reflexivity.
  - apply rtc_refl.
Defined.

(** A call from one channel to the service behind another: the request's
    bytes, the reply's bytes. *)
Section call.
Context {S1 W1 S2 W2 M T C Svc Meth : Type}.
Context `{EqDecision S1} `{EqDecision S2} `{SessionLaws S1 W1} `{SessionLaws S2 W2}.
Context `{MessageLaws M} (ParseFromArray : T -> bytes -> option M).
Context (Run : C -> M -> W1 -> res W1) (Run' : C -> M -> W2 -> res W2).
Context (FindMethodByName : Svc -> bytes -> option Meth) (GetRequestPrototype : Svc -> Meth -> res T).
Context (ServiceCall1 : Svc -> Meth -> M -> (M -> W1 -> res W1) -> W1 -> res W1).
Context (ServiceCall2 : Svc -> Meth -> M -> (M -> W2 -> res W2) -> W2 -> res W2).

Definition request_bytes (id : Z) (sn mn : bytes) (req : M) : bytes :=
  RpcCodec.encode id (RpcCodec.full_name sn mn) (SerializeWithCachedSizesToArray req).
(** The method name of a reply has gained the NUL of the request's name. *)
Definition reply_bytes (id : Z) (sn mn : bytes) (resp : M) : bytes :=
  RpcCodec.encode (id + 2 ^ 63) (RpcCodec.full_name sn (mn ++ [Byte.x00]))
    (SerializeWithCachedSizesToArray resp).

Lemma server_answers (ch : Channel S2 T C Svc) conn services svc meth t sn mn id req req' resp b w w1 :
  conn_ ch = Some conn -> services_ ch = Some services -> services !! sn = Some svc ->
  FindMethodByName svc (mn ++ [Byte.x00]) = Some meth ->
  RpcCodec.name_ok sn mn -> 0 <= id < 2 ^ 63 -> message_ok req -> message_ok resp ->
  zlen sn + zlen mn + 14 + ByteSize req <= RpcCodec.kMaxMessageLen ->
  zlen sn + zlen mn + 15 + ByteSize resp <= RpcCodec.kMaxMessageLen ->
  GetRequestPrototype svc meth = Ok t ->
  ParseFromArray t (SerializeWithCachedSizesToArray req) = Some req' ->
  sent w1 conn = sent w conn -> (forall k, ServiceCall2 svc meth req' k w = k resp w1) ->
  represents b (request_bytes id sn mn req) ->
  exists b' w', onMessage ParseFromArray Run' FindMethodByName GetRequestPrototype ServiceCall2 conn b (ch, w)
                  = Ok (b', (ch, w')) /\ represents b' [] /\
    sent w' conn = sent w conn ++ reply_bytes id sn mn resp /\
    RpcCodec.send (id + 2 ^ 63) (RpcCodec.full_name sn (mn ++ [Byte.x00])) conn resp w1 = Ok w'.
Proof.
  intros Hc Hsv Hs Hm Hn Hid Hok1 Hok2 Hl1 Hl2 Ht Hp Hw Hk HR. unfold RpcCodec.kMaxMessageLen in *.
  pose proof (serialize_size req Hok1) as Sq. pose proof (serialize_size resp Hok2) as Sp.
  destruct (RpcCodec.send_encodes (id + 2 ^ 63) (RpcCodec.full_name sn (mn ++ [Byte.x00]))
    conn resp w1) as (w' & Es & Hsent & _); [done|unfold RpcCodec.full_name; zlia|].
  set (c := RpcCodec.mkCall id sn mn (SerializeWithCachedSizesToArray req)).
  assert (RpcCodec.call_ok c) as Hok.
  { split; [simpl; lia|]. split; [done|].
    unfold RpcCodec.full_name, RpcCodec.kMaxMessageLen. simpl. zlia. }
  destruct (onMessage_frame ParseFromArray Run' FindMethodByName GetRequestPrototype ServiceCall2 conn
    b c (ch, w) (ch, w')) as (b' & E & HR'); [done|done| |].
  - unfold RpcCodec.on_msg, RpcCodec.call_msg, RpcCodec.received, onRpcMessage. simpl.
    rewrite bool_decide_true by done. mstep.
    destruct (Z.leb_spec (2 ^ 63) id); [lia|]. unfold onRequest.
    rewrite Hsv, Hs, Hm, Ht. mstep. rewrite Hp, Hk. rewrite Z.mod_small by lia.
    rewrite doneCallback_sends by lia. unfold codec_send. rewrite Hc, Es. done.
  - exists b', w'. split; [done|]. split; [done|]. by rewrite Hsent, Hw.
Qed.

Lemma server_fails (ch : Channel S2 T C Svc) conn services svc meth t sn mn id req req' b w e :
  conn_ ch = Some conn -> services_ ch = Some services -> services !! sn = Some svc ->
  FindMethodByName svc (mn ++ [Byte.x00]) = Some meth ->
  RpcCodec.name_ok sn mn -> 0 <= id < 2 ^ 63 -> message_ok req ->
  zlen sn + zlen mn + 14 + ByteSize req <= RpcCodec.kMaxMessageLen ->
  GetRequestPrototype svc meth = Ok t ->
  ParseFromArray t (SerializeWithCachedSizesToArray req) = Some req' ->
  (forall k, ServiceCall2 svc meth req' k w = Err e) ->
  represents b (request_bytes id sn mn req) ->
  onMessage ParseFromArray Run' FindMethodByName GetRequestPrototype ServiceCall2 conn b (ch, w) = Err e.
Proof.
  intros Hc Hsv Hs Hm Hn Hid Hok1 Hl1 Ht Hp Hk HR. unfold RpcCodec.kMaxMessageLen in *.
  pose proof (serialize_size req Hok1) as Sq.
  set (c := RpcCodec.mkCall id sn mn (SerializeWithCachedSizesToArray req)).
  apply (onMessage_frame_err _ _ _ _ _ conn b c); [done| |].
  - split; [simpl; lia|]. split; [done|].
    unfold RpcCodec.full_name, RpcCodec.kMaxMessageLen. simpl. zlia.
  - unfold RpcCodec.on_msg, RpcCodec.call_msg, RpcCodec.received, onRpcMessage. simpl.
    rewrite bool_decide_true by done. mstep.
    destruct (Z.leb_spec (2 ^ 63) id); [lia|]. unfold onRequest.
    by rewrite Hsv, Hs, Hm, Ht; mstep; rewrite Hp, Hk.
Qed.

Lemma client_completes (ch : Channel S1 T C Svc) conn sn mn id t d resp resp' b w w' :
  conn_ ch = Some conn -> outstandings_ ch !! id = Some (mkOut (Some t) (Some d)) ->
  RpcCodec.name_ok sn mn -> 0 <= id < 2 ^ 63 -> message_ok resp ->
  zlen sn + zlen mn + 15 + ByteSize resp <= RpcCodec.kMaxMessageLen ->
  ParseFromArray t (SerializeWithCachedSizesToArray resp) = Some resp' ->
  Run d resp' w = Ok w' -> represents b (reply_bytes id sn mn resp) ->
  exists b', onMessage ParseFromArray Run FindMethodByName GetRequestPrototype ServiceCall1 conn b (ch, w)
    = Ok (b', (mkChannel (conn_ ch) (id_ ch) (delete id (outstandings_ ch)) (services_ ch), w')) /\
    represents b' [].
Proof.
  intros Hc Ho [Hn1 Hn2] Hid Hok Hl Hp Hr HR.
  unfold RpcCodec.kMaxMessageLen in *. pose proof (serialize_size resp Hok) as Sp.
  set (c := RpcCodec.mkCall (id + 2 ^ 63) sn (mn ++ [Byte.x00]) (SerializeWithCachedSizesToArray resp)).
  apply (onMessage_frame _ _ _ _ _ conn b c); [done| |].
  - split; [simpl; lia|]. split; [split; [done|simpl; zlia]|].
    unfold RpcCodec.full_name, RpcCodec.kMaxMessageLen. simpl. zlia.
  - unfold RpcCodec.on_msg, RpcCodec.call_msg, RpcCodec.received, onRpcMessage. simpl.
    rewrite bool_decide_true by done. mstep.
    destruct (Z.leb_spec (2 ^ 63) (id + 2 ^ 63)); [|lia]. unfold onResponse.
    replace ((id + 2 ^ 63) mod 2 ^ 63) with id
      by (rewrite <- Z.add_mod_idemp_r, Z.mod_same, Z.add_0_r, Z.mod_small; lia).
    rewrite Ho. simpl. by rewrite Hp, Hr.
Qed.
End call.
End RpcChannel.

(** src/rpc/RpcServer.h, src/rpc/RpcServer.cc, src/rpc/RpcSession.h: the services
    of a process, and the channel a connection gets.  All services are
    registered before [start], so the map a channel points to does not change
    under it. *)
Module RpcServer.
Import RpcChannel RpcChannel.Toy.

Section server.
Context {S T C Svc : Type} (full_name : Svc -> bytes).

Record RpcServer := mkServer {
  services_ : gmap bytes Svc;
  sessions : list (S * Channel S T C Svc);   (** each [RpcSession] with its channel *)
}.

Definition RpcServer_new : RpcServer := mkServer ∅ [].

Definition registerService (service : Svc) (s : RpcServer) : RpcServer :=
  mkServer (<[full_name service := service]> (services_ s)) (sessions s).

(** The channel is kept by the session ([setChannel]) and is its message
    callback. *)
Definition onConnection (conn : S) (s : RpcServer) : RpcServer :=
  let channel := setServices (services_ s) (RpcChannel_new (Some conn)) in
  mkServer (services_ s) ((conn, channel) :: sessions s).
End server.
Arguments RpcServer : clear implicits.

Section end_to_end.
Context {S1 W1 S2 W2 M T C Svc Meth : Type}.
Context `{EqDecision S1} `{EqDecision S2} `{SessionLaws S1 W1} `{SessionLaws S2 W2}.
Context `{MessageLaws M} (ParseFromArray : T -> bytes -> option M).
Context (Run : C -> M -> W1 -> res W1) (Run' : C -> M -> W2 -> res W2).
Context (FindMethodByName : Svc -> bytes -> option Meth) (GetRequestPrototype : Svc -> Meth -> res T).
Context (ServiceCall1 : Svc -> Meth -> M -> (M -> W1 -> res W1) -> W1 -> res W1).
Context (ServiceCall2 : Svc -> Meth -> M -> (M -> W2 -> res W2) -> W2 -> res W2).
Context (full_name : Svc -> bytes).

(** C5: A call made on one channel, carried to the channel a server gives a
    new connection after registering the service, makes the service run on the
    request and its reply, carried back, runs the caller's closure on the
    response and removes the call from the outstanding ones. *)
Theorem rpc_call_completes (ch : Channel S1 T C Svc) (srv : RpcServer S2 T C Svc)
    c1 c2 svc meth mn req req' resp resp' tq t d w :
  chan_inv ch -> id_ ch < 2 ^ 63 - 1 -> conn_ ch = Some c1 ->
  RpcCodec.name_ok (full_name svc) mn -> message_ok req -> message_ok resp ->
  zlen (full_name svc) + zlen mn + 14 + ByteSize req <= RpcCodec.kMaxMessageLen ->
  zlen (full_name svc) + zlen mn + 15 + ByteSize resp <= RpcCodec.kMaxMessageLen ->
  FindMethodByName svc (mn ++ [Byte.x00]) = Some meth ->
  GetRequestPrototype svc meth = Ok tq ->
  ParseFromArray tq (SerializeWithCachedSizesToArray req) = Some req' ->
  ParseFromArray t (SerializeWithCachedSizesToArray resp) = Some resp' ->
  exists ch' w' query answer,
    CallMethod (full_name svc) mn req (Some t) (Some d) ch w = Ok (ch', w') /\
    sent w' c1 = sent w c1 ++ query /\
    (forall b w2 w2s, represents b query -> sent w2s c2 = sent w2 c2 ->
      (forall k, ServiceCall2 svc meth req' k w2 = k resp w2s) ->
      exists chs rest b' w2',
        sessions (onConnection c2 (registerService full_name svc srv)) = (c2, chs) :: rest /\
        onMessage ParseFromArray Run' FindMethodByName GetRequestPrototype ServiceCall2 c2 b (chs, w2)
          = Ok (b', (chs, w2')) /\ represents b' [] /\
        sent w2' c2 = sent w2 c2 ++ answer) /\
    (forall b w1 w1', represents b answer -> Run d resp' w1 = Ok w1' ->
      exists b', onMessage ParseFromArray Run FindMethodByName GetRequestPrototype ServiceCall1 c1 b (ch', w1)
          = Ok (b', (mkChannel (Some c1) (id_ ch + 1) (outstandings_ ch) (RpcChannel.services_ ch), w1'))
        /\ represents b' []).
Proof.
  intros Hinv Hlt Hc Hn Hok1 Hok2 Hl1 Hl2 Hm Ht Hp Hp'. pose proof (inv_id _ Hinv) as Hi.
  destruct (call_fresh_and_sent c1 (full_name svc) mn req (Some t) (Some d) ch w)
    as (Hfresh & w' & E & _ & Hs); [done..|unfold RpcCodec.kMaxMessageLen in *; lia|].
  eexists _, w', (request_bytes (id_ ch) (full_name svc) mn req),
    (reply_bytes (id_ ch) (full_name svc) mn resp).
  split; [exact E|]. split; [exact Hs|]. split.
  - intros b w2 w2s HR Hw Hk. eexists _, _.
    destruct (server_answers ParseFromArray Run' FindMethodByName GetRequestPrototype ServiceCall2
      (setServices (<[full_name svc := svc]> (services_ srv)) (RpcChannel_new (Some c2)))
      c2 (<[full_name svc := svc]> (services_ srv)) svc meth tq (full_name svc) mn (id_ ch)
      req req' resp b w2 w2s) as (b' & w2' & Ea & HR' & Hs' & _); auto; [by rewrite lookup_insert_eq|].
    exists b', w2'. split; [reflexivity|]. by split.
  - intros b w1 w1' HR Hr.
    destruct (client_completes ParseFromArray Run FindMethodByName GetRequestPrototype ServiceCall1
      (mkChannel (Some c1) (id_ ch + 1) (<[id_ ch:=mkOut (Some t) (Some d)]> (outstandings_ ch))
         (RpcChannel.services_ ch)) c1 (full_name svc) mn (id_ ch) t d resp resp' b w1 w1')
      as (b' & E' & HR'); simpl; auto; [by rewrite lookup_insert_eq|].
    exists b'. simpl in E'. rewrite delete_insert_id in E' by done. by split.
Qed.
End end_to_end.

Lemma rpc_call_completes_witness :
  exists ch' w' query answer,
    CallMethod (str "echo.EchoService") (str "Echo") (str "hello") (Some tt) (Some tt)
      (RpcChannel_new (Svc := unit) (Some 0%nat)) Log.empty = Ok (ch', w') /\
    sent w' 0%nat = query /\
    (forall b w2, represents b query ->
      exists chs b' w2',
        onMessage Toy.parse Toy.run Toy.find_method Toy.request_type Toy.service_call 7%nat b
          (chs, w2) = Ok (b', (chs, w2')) /\ sent w2' 7%nat = sent w2 7%nat ++ answer).
Proof.
  destruct (rpc_call_completes (S1 := nat) (S2 := nat) (W1 := Log.net) (W2 := Log.net)
    Toy.parse Toy.run Toy.run Toy.find_method Toy.request_type
    Toy.service_call Toy.service_call Toy.service_name
    (RpcChannel_new (Some 0%nat)) RpcServer_new 0%nat 7%nat tt tt (str "Echo")
    (str "hello") (str "hello") (str "hello") (str "hello") tt tt tt Log.empty)
    as (ch' & w' & q & a & E & Hq & Hs & _);
    [split; simpl; [lia|intros i out; by rewrite lookup_empty]|simpl; lia|reflexivity| |exact I|exact I|
     vm_compute; discriminate|vm_compute; discriminate|reflexivity|reflexivity|reflexivity|reflexivity|].
  - split; [|vm_compute; discriminate].
    apply (bool_decide_eq_true_1 (Byte.x3a ∉ Toy.service_name tt)). vm_compute. reflexivity.
  - exists ch', w', q, a. split; [exact E|]. split; [rewrite Hq; reflexivity|].
    intros b w2 HR. destruct (Hs b w2 w2 HR eq_refl (fun k => eq_refl)) as (chs & rest & b' & w2' & _ & Eb & _ & Hb).
    by exists chs, b', w2'.
Defined.
End RpcServer.
