(* ===== verification/StringMap.v ===== *)
(** * [std::map<std::string, std::string>]

    An association list with strictly increasing keys, in the order
    [std::string] compares: by unsigned bytes, a prefix first.  [sm_insert] is
    [insert] (which keeps an old value), [sm_assign] is [operator[]] with an
    assignment, [sm_find] is [find]. *)

From Stdlib Require Import ZArith Lia Sorting.Sorted.
From stdpp Require Import base list.
From S2P Require Import Prelude.
Local Open Scope Z_scope.

Fixpoint str_compare (a b : bytes) : comparison :=
  match a, b with
  | [], [] => Eq
  | [], _ :: _ => Lt
  | _ :: _, [] => Gt
  | x :: a, y :: b =>
      match Z.compare (byte_to_Z x) (byte_to_Z y) with
      | Eq => str_compare a b
      | o => o
      end
  end.

Definition smap := list (bytes * bytes).

Fixpoint sm_find (k : bytes) (m : smap) : option bytes :=
  match m with
  | [] => None
  | (k', v') :: m =>
      match str_compare k k' with
      | Eq => Some v'
      | Lt => None
      | Gt => sm_find k m
      end
  end.

Fixpoint sm_put (over : bool) (k v : bytes) (m : smap) : smap :=
  match m with
  | [] => [(k, v)]
  | (k', v') :: m' =>
      match str_compare k k' with
      | Eq => (k', if over then v else v') :: m'
      | Lt => (k, v) :: m
      | Gt => (k', v') :: sm_put over k v m'
      end
  end.

Definition sm_assign : bytes -> bytes -> smap -> smap := sm_put true.
Definition sm_insert : bytes -> bytes -> smap -> smap := sm_put false.

(** ** The order *)
Definition str_lt (a b : bytes) : Prop := str_compare a b = Lt.

Lemma str_compare_eq a b : str_compare a b = Eq <-> a = b.
Proof.
  revert b. induction a as [|x a IH]; intros [|y b]; simpl; try done.
  destruct (Z.compare_spec (byte_to_Z x) (byte_to_Z y)) as [E|E|E].
  - apply byte_to_Z_inj in E. rewrite IH. naive_solver.
  - split; [done|]. intros [= -> _]. lia.
  - split; [done|]. intros [= -> _]. lia.
Qed.

Lemma str_compare_refl a : str_compare a a = Eq.
Proof. by apply str_compare_eq. Qed.

Lemma str_compare_antisym a b : str_compare b a = CompOpp (str_compare a b).
Proof.
  revert b. induction a as [|x a IH]; intros [|y b]; simpl; try done.
  rewrite (Z.compare_antisym (byte_to_Z x)).
  destruct (Z.compare (byte_to_Z x) (byte_to_Z y)); simpl; auto.
Qed.

Lemma str_lt_trans a b c : str_lt a b -> str_lt b c -> str_lt a c.
Proof.
  unfold str_lt. revert b c. induction a as [|x a IH]; intros [|y b] [|z c]; simpl; try done.
  destruct (Z.compare_spec (byte_to_Z x) (byte_to_Z y)) as [E|E|E]; try done;
  destruct (Z.compare_spec (byte_to_Z y) (byte_to_Z z)) as [F|F|F]; try done; intros H1 H2.
  - rewrite E, F, Z.compare_refl. eauto.
  - rewrite E. by rewrite (proj2 (Z.compare_lt_iff _ _)).
  - rewrite <- F. by rewrite (proj2 (Z.compare_lt_iff _ _)).
  - rewrite (proj2 (Z.compare_lt_iff _ _)); [done|lia].
Qed.

Lemma str_gt_lt a b : str_compare a b = Gt <-> str_lt b a.
Proof. unfold str_lt. rewrite (str_compare_antisym a b). by destruct (str_compare a b). Qed.

(** ** The invariant *)
Definition sorted (m : smap) : Prop := StronglySorted str_lt (map fst m).

Lemma sm_find_below k m :
  Forall (str_lt k) (map fst m) -> sm_find k m = None.
Proof. destruct m as [|[k' v'] m]; simpl; [done|]. intros H%Forall_cons. by rewrite (proj1 H). Qed.

Lemma keys_put over k v m k' :
  In k' (map fst (sm_put over k v m)) -> k' = k \/ In k' (map fst m).
Proof.
  induction m as [|[k1 v1] m IH]; simpl; [naive_solver|].
  destruct (str_compare k k1); simpl; naive_solver.
Qed.

Lemma sorted_put over k v m : sorted m -> sorted (sm_put over k v m).
Proof.
  unfold sorted. induction m as [|[k1 v1] m IH]; simpl; intros Hs.
  { repeat constructor. }
  apply StronglySorted_inv in Hs as [Hs Hf].
  destruct (str_compare k k1) eqn:E; simpl.
  - by constructor.
  - constructor; [by constructor|]. constructor; [done|].
    eapply Forall_impl; [exact Hf|]. intros. by eapply str_lt_trans.
  - constructor; [auto|]. apply Forall_forall. intros x Hx%list_elem_of_In.
    apply keys_put in Hx as [->|Hx]; [by apply str_gt_lt|].
    rewrite Forall_forall in Hf. by apply Hf, list_elem_of_In.
Qed.

Lemma sm_find_put over k v m k' :
  sorted m ->
  sm_find k' (sm_put over k v m) =
    if decide (k' = k) then Some (if over then v else default v (sm_find k m))
    else sm_find k' m.
Proof.
  unfold sorted. induction m as [|[k1 v1] m IH]; simpl; intros Hs.
  - case_decide as Hk; [subst; rewrite str_compare_refl; by destruct over|].
    destruct (str_compare k' k) eqn:E; try done. by apply str_compare_eq in E.
  - apply StronglySorted_inv in Hs as [Hs Hf].
    destruct (str_compare k k1) eqn:E; simpl.
    + apply str_compare_eq in E as ->. case_decide as Hk.
      * subst. rewrite str_compare_refl. by destruct over.
      * destruct (str_compare k' k1) eqn:E'; try done. by apply str_compare_eq in E'.
    + case_decide as Hk; [subst; rewrite str_compare_refl; by destruct over|].
      destruct (str_compare k' k) eqn:E'; [by apply str_compare_eq in E'| |done].
      by rewrite (str_lt_trans _ _ _ E' E).
    + rewrite IH by done. case_decide as Hk; [subst; by rewrite E|done].
Qed.

Lemma sm_find_assign k v m k' :
  sorted m -> sm_find k' (sm_assign k v m) = if decide (k' = k) then Some v else sm_find k' m.
Proof. apply sm_find_put. Qed.

Lemma sm_find_insert k v m k' :
  sorted m ->
  sm_find k' (sm_insert k v m) =
    if decide (k' = k) then Some (default v (sm_find k m)) else sm_find k' m.
Proof. apply sm_find_put. Qed.

Lemma sorted_assign k v m : sorted m -> sorted (sm_assign k v m).
Proof. apply sorted_put. Qed.
Lemma sorted_insert k v m : sorted m -> sorted (sm_insert k v m).
Proof. apply sorted_put. Qed.
Lemma sorted_nil : sorted [].
Proof. constructor. Qed.

Create HintDb smap.
#[export] Hint Resolve sorted_assign sorted_insert sorted_nil : smap.

(** ** Maps rebuilt from their entries *)
Lemma sm_put_last over k v m :
  Forall (fun k' => str_lt k' k) (map fst m) -> sm_put over k v m = m ++ [(k, v)].
Proof.
  induction m as [|[k1 v1] m IH]; simpl; [done|]. intros [H1 H2]%Forall_cons.
  rewrite (proj2 (str_gt_lt k k1)) by done. by rewrite IH.
Qed.

(** Inserting the entries of a map in its order rebuilds it. *)
Lemma sm_insert_all l m :
  sorted (m ++ l) -> foldl (fun m kv => sm_insert kv.1 kv.2 m) m l = m ++ l.
Proof.
  unfold sorted. revert m. induction l as [|[k v] l IH]; intros m Hs; simpl.
  { by rewrite app_nil_r. }
  assert (Forall (fun k' => str_lt k' k) (map fst m)) as Hf.
  { rewrite map_app in Hs. simpl in Hs. clear IH. induction m as [|[k1 v1] m IH]; simpl in *; [done|].
    apply StronglySorted_inv in Hs as [Hs Hf]. constructor; [|auto].
    apply Forall_app in Hf as [_ Hf]. by apply Forall_cons in Hf as [? _]. }
  unfold sm_insert at 2. rewrite sm_put_last by done. rewrite IH.
  - by rewrite <- app_assoc.
  - by rewrite <- app_assoc.
Qed.

(** Assigning the entries of a sorted list over another map. *)
Lemma sm_find_assign_all l m k :
  sorted m -> sorted l ->
  sm_find k (foldl (fun m kv => sm_assign kv.1 kv.2 m) m l) =
    match sm_find k l with Some v => Some v | None => sm_find k m end.
Proof.
  revert m. induction l as [|[k1 v1] l IH]; intros m Hm Hl; simpl; [done|].
  apply StronglySorted_inv in Hl as [Hl Hf]. rewrite IH by auto with smap.
  rewrite sm_find_assign by done. simpl.
  destruct (str_compare k k1) eqn:E.
  - apply str_compare_eq in E as ->. rewrite decide_True by done. by rewrite sm_find_below.
  - rewrite decide_False by (intros ->; by rewrite str_compare_refl in E).
    rewrite sm_find_below; [done|].
    eapply Forall_impl; [exact Hf|]. intros. by eapply str_lt_trans.
  - by rewrite decide_False by (intros ->; by rewrite str_compare_refl in E).
Qed.
