(* ===== verification/Http.v ===== *)
(** * HTTP messages: src/http/HttpRequest.h, HttpContext.h, HttpContext.cc,
    HttpResponse.h, HttpResponse.cc

    [Module Request]: a request, its setters and its printer.  [Module Context]:
    the parser of a connection, a state machine fed with the bytes of the
    receive buffer.  [Module Response]: the printer of a response. *)

From Stdlib Require Import ZArith Lia.
From stdpp Require Import base list strings.
From S2P Require Import Prelude Endian Buffer Text StringMap.
Local Open Scope Z_scope.

(** ** Printers

    [prints f d]: [f] appends the bytes [d] to any buffer that has room. *)
Definition prints (f : Buffer -> res Buffer) (d : bytes) : Prop :=
  forall b c, represents b c -> fits c (zlen d) ->
    exists b', f b = Ok b' /\ represents b' (c ++ d).

Lemma prints_string d : prints (append_string d) d.
Proof.
  intros b c HR Hf. destruct (repr_append b c d [Byte.x00] HR Hf) as (b' & E & HR' & _). eauto.
Qed.

Lemma prints_cstr d : Byte.x00 ∉ d -> prints (append_cstr d) d.
Proof.
  intros Hn. unfold append_cstr, strlen. apply find_byte_None in Hn as ->. apply prints_string.
Qed.

Lemma prints_bind f g d e : prints f d -> prints g e -> prints (fun b => let* b := f b in g b) (d ++ e).
Proof.
  intros Hf Hg b c HR Hfit. destruct (Hf b c HR) as (b1 & -> & HR1).
  { unfold fits in *. zlia. }
  mstep. destruct (Hg b1 _ HR1) as (b2 & -> & HR2).
  { unfold fits in *. zlia. }
  exists b2. split; [done|]. by rewrite app_assoc.
Qed.

Lemma prints_ret : prints Ok [].
Proof. intros b c HR _. exists b. by rewrite app_nil_r. Qed.

Lemma prints_foldM {A} (f : A -> Buffer -> res Buffer) (g : A -> bytes) l :
  (forall a, prints (f a) (g a)) -> prints (foldM f l) (concat (map g l)).
Proof.
  intros H. induction l as [|a l IH]; simpl; [apply prints_ret|]. by apply prints_bind.
Qed.

(** Literals contain no NUL. *)
Ltac no_nul := apply (bool_decide_eq_true_1 (_ ∉ _)); vm_compute; reflexivity.

Module Request.

Inductive Method := kInvalid | kGet | kPost | kHead | kPut | kDelete.
Inductive Version := kUnknown | kHttp10 | kHttp11.

#[export] Instance Method_eq_dec : EqDecision Method.
Proof. solve_decision. Defined.
#[export] Instance Version_eq_dec : EqDecision Version.
Proof. solve_decision. Defined.

Record HttpRequest := mkRequest {
  method_ : Method;
  version_ : Version;
  path_ : bytes;
  query_ : bytes;
  body_ : bytes;
  closeConnection_ : bool;
  querys_ : smap;
  headers_ : smap;
}.

Definition HttpRequest_new (isclose : bool) : HttpRequest :=
  mkRequest kInvalid kUnknown [] [] [] isclose [] [].

Definition setVersion (v : Version) (r : HttpRequest) : HttpRequest :=
  mkRequest (method_ r) v (path_ r) (query_ r) (body_ r) (closeConnection_ r) (querys_ r) (headers_ r).
Definition getVersion (r : HttpRequest) : Version := version_ r.

Definition method_of (m : bytes) : Method :=
  if decide (m = str "GET") then kGet
  else if decide (m = str "POST") then kPost
  else if decide (m = str "HEAD") then kHead
  else if decide (m = str "PUT") then kPut
  else if decide (m = str "DELETE") then kDelete
  else kInvalid.

(** [setMethod(start, end)] on the characters of the range. *)
Definition setMethod (m : bytes) (r : HttpRequest) : res (bool * HttpRequest) :=
  let* _ := assert (bool_decide (method_ r = kInvalid)) in
  let r := mkRequest (method_of m) (version_ r) (path_ r) (query_ r) (body_ r)
             (closeConnection_ r) (querys_ r) (headers_ r) in
  Ok (negb (bool_decide (method_ r = kInvalid)), r).

Definition methodString (r : HttpRequest) : bytes :=
  match method_ r with
  | kGet => str "GET"
  | kPost => str "POST"
  | kHead => str "HEAD"
  | kPut => str "PUT"
  | kDelete => str "DELETE"
  | kInvalid => str "UNKNOWN"
  end.

Definition setPath (p : bytes) (r : HttpRequest) : HttpRequest :=
  mkRequest (method_ r) (version_ r) p (query_ r) (body_ r) (closeConnection_ r) (querys_ r) (headers_ r).
Definition setQuery (q : bytes) (r : HttpRequest) : HttpRequest :=
  mkRequest (method_ r) (version_ r) (path_ r) q (body_ r) (closeConnection_ r) (querys_ r) (headers_ r).
Definition setBody (b : bytes) (r : HttpRequest) : HttpRequest :=
  mkRequest (method_ r) (version_ r) (path_ r) (query_ r) b (closeConnection_ r) (querys_ r) (headers_ r).

(** [addHeader(start, colon, end)] with the line [start, end) and the offset of
    the colon in it. *)
Definition addHeader (line : bytes) (colon : Z) (r : HttpRequest) : HttpRequest :=
  let field := ztake colon line in
  let value := skip_spaces (zdrop (colon + 1) line) in
  let value := rev (skip_spaces (rev value)) in
  mkRequest (method_ r) (version_ r) (path_ r) (query_ r) (body_ r) (closeConnection_ r)
    (querys_ r) (sm_assign field value (headers_ r)).

Definition getHeader (field : bytes) (r : HttpRequest) : bytes :=
  match sm_find field (headers_ r) with Some v => v | None => [] end.

Definition addQuery (parm value : bytes) (r : HttpRequest) : HttpRequest :=
  mkRequest (method_ r) (version_ r) (path_ r) (query_ r) (body_ r) (closeConnection_ r)
    (sm_insert parm value (querys_ r)) (headers_ r).

(** [getQuery] compares the iterator of [querys_] with the end of [headers_]:
    they differ, also when the key is missing, and the end of [querys_] is
    dereferenced. *)
Definition getQuery (field : bytes) (r : HttpRequest) : res bytes :=
  match sm_find field (querys_ r) with Some v => Ok v | None => Err UB end.

(** [swap]: [body_], [closeConnection_] and [querys_] stay. *)
Definition swap (r that : HttpRequest) : HttpRequest * HttpRequest :=
  (mkRequest (method_ that) (version_ that) (path_ that) (query_ that) (body_ r)
     (closeConnection_ r) (querys_ r) (headers_ that),
   mkRequest (method_ r) (version_ r) (path_ r) (query_ r) (body_ that)
     (closeConnection_ that) (querys_ that) (headers_ r)).

Definition append_pair (sep fin : bytes) (kv : bytes * bytes) (output : Buffer) : res Buffer :=
  let* output := append_string kv.1 output in
  let* output := append_cstr sep output in
  let* output := append_string kv.2 output in
  append_cstr fin output.

Definition appendToBuffer (r : HttpRequest) (output : Buffer) : res Buffer :=
  let* output := append_cstr (methodString r) output in
  let* output := append_cstr (str " ") output in
  let* output := append_string (path_ r) output in
  let* output := append_cstr (str "?") output in
  let* output := foldM (append_pair (str "=") (str "&")) (querys_ r) output in
  let* output := append_cstr (str " ") output in
  let* output := append_cstr (str "HTTP/1.1") output in
  let* output := append_cstr kCRLF output in
  let* output := append_cstr ((if closeConnection_ r then str "Connection: close"
                               else str "Connection: Keep-Alive") ++ kCRLF) output in
  let* output := foldM (append_pair (str ": ") kCRLF) (headers_ r) output in
  let* output := append_cstr kCRLF output in
  append_string (body_ r) output.

(** ** The printer *)
Definition pair_text (sep fin : bytes) (kv : bytes * bytes) : bytes := kv.1 ++ sep ++ kv.2 ++ fin.

Lemma prints_pair sep fin kv :
  Byte.x00 ∉ sep -> Byte.x00 ∉ fin -> prints (append_pair sep fin kv) (pair_text sep fin kv).
Proof.
  intros. unfold append_pair, pair_text.
  eauto 10 using prints_bind, prints_string, prints_cstr.
Qed.

Definition connection_value (r : HttpRequest) : bytes :=
  if closeConnection_ r then str "close" else str "Keep-Alive".

(** The bytes of a request. *)
Definition request_text (r : HttpRequest) : bytes :=
  methodString r ++ str " " ++ path_ r ++ str "?" ++
  concat (map (pair_text (str "=") (str "&")) (querys_ r)) ++ str " " ++ str "HTTP/1.1" ++ kCRLF ++
  pair_text (str ": ") kCRLF (str "Connection", connection_value r) ++
  concat (map (pair_text (str ": ") kCRLF) (headers_ r)) ++ kCRLF ++ body_ r.

Lemma prints_request r : prints (appendToBuffer r) (request_text r).
Proof.
  unfold appendToBuffer, request_text.
  replace (pair_text (str ": ") kCRLF (str "Connection", connection_value r))
    with ((if closeConnection_ r then str "Connection: close" else str "Connection: Keep-Alive") ++ kCRLF)
    by (unfold connection_value; by destruct (closeConnection_ r)).
  apply prints_bind; [apply prints_cstr; unfold methodString; destruct (method_ r); no_nul|].
  repeat (apply prints_bind;
    [first [apply prints_string
           | apply prints_foldM; intros; apply prints_pair; no_nul
           | apply prints_cstr; first [no_nul | destruct (closeConnection_ r); no_nul]]|]).
  apply prints_string.
Qed.
End Request.

Module Context.
Import Request.

Inductive HttpRequestParseState := kExpectRequestLine | kExpectHeaders | kExpectBody | kGotAll.

#[export] Instance state_eq_dec : EqDecision HttpRequestParseState.
Proof. solve_decision. Defined.

Record HttpContext := mkContext { state_ : HttpRequestParseState; request_ : HttpRequest }.

Definition HttpContext_new : HttpContext := mkContext kExpectRequestLine (HttpRequest_new false).

Definition gotAll (x : HttpContext) : bool := bool_decide (state_ x = kGotAll).

Definition reset (x : HttpContext) : HttpContext :=
  mkContext kExpectRequestLine (swap (request_ x) (HttpRequest_new false)).1.

(** The loop over the parameters of a query. *)
Definition add_parm (r : HttpRequest) (it : bytes) : HttpRequest :=
  match find_byte Byte.x3d it with
  | Some pos => addQuery (substr_to it pos) (substr_from it (pos + 1)) r
  | None => r
  end.

(** [parseRequestLine(begin, end)] on the characters of the line. *)
Definition parseRequestLine (line : bytes) (r : HttpRequest) : res (bool * HttpRequest) :=
  match find_byte Byte.x20 line with
  | None => Ok (false, r)
  | Some space =>
      let* (known, r) := setMethod (ztake space line) r in
      if negb known then Ok (false, r) else
      let line := zdrop (space + 1) line in
      match find_byte Byte.x20 line with
      | None => Ok (false, r)
      | Some space =>
          let target := ztake space line in
          let r :=
            match find_byte Byte.x3f target with
            | Some query =>
                let r := setPath (ztake query target) r in
                let r := setQuery (zdrop (query + 1) target) r in
                foldl add_parm r (split (query_ r) (str "&"))
            | None => setPath target r
            end in
          let line := zdrop (space + 1) line in
          if (zlen line =? 8) && bool_decide (ztake 7 line = str "HTTP/1.") then
            if decide (zdrop 7 line = str "1") then Ok (true, setVersion kHttp11 r)
            else if decide (zdrop 7 line = str "0") then Ok (true, setVersion kHttp10 r)
            else Ok (false, r)
          else Ok (false, r)
      end
  end.

(** [parseRequest]: the result, the context and the buffer it leaves.  Entered
    in state [kGotAll] the loop never ends. *)
Fixpoint parse_loop (fuel : nat) (x : HttpContext) (buf : Buffer) : res (bool * HttpContext * Buffer) :=
  match fuel with
  | O => Err OutOfFuel
  | S fuel =>
      match state_ x with
      | kExpectRequestLine =>
          let* crlf := findCRLF buf in
          match crlf with
          | Some crlf =>
              let* line := mem_read buf (peek buf) (crlf - peek buf) in
              let* (ok, r) := parseRequestLine line (request_ x) in
              if (ok : bool) then
                let* buf := retrieveUntil (crlf + 2) buf in
                parse_loop fuel (mkContext kExpectHeaders r) buf
              else Ok (false, mkContext kExpectRequestLine r, buf)
          | None => Ok (true, x, buf)
          end
      | kExpectHeaders =>
          let* crlf := findCRLF buf in
          match crlf with
          | Some crlf =>
              let* line := mem_read buf (peek buf) (crlf - peek buf) in
              match find_byte Byte.x3a line with
              | Some colon =>
                  let x := mkContext kExpectHeaders (addHeader line colon (request_ x)) in
                  let* buf := retrieveUntil (crlf + 2) buf in
                  parse_loop fuel x buf
              | None =>
                  if peek buf =? crlf then
                    let* buf := retrieveUntil (crlf + 2) buf in
                    parse_loop fuel (mkContext kExpectBody (request_ x)) buf
                  else
                    let* buf := retrieveUntil (crlf + 2) buf in
                    Ok (false, x, buf)
              end
          | None => Ok (true, x, buf)
          end
      | kExpectBody =>
          let contentlength := atoi (getHeader (str "Content-Length") (request_ x)) in
          if 0 <? contentlength then
            if u64 contentlength <=? readableBytes buf then
              let* body := mem_read buf (peek buf) contentlength in
              let x := mkContext kGotAll (setBody body (request_ x)) in
              let* buf := retrieve (u64 contentlength) buf in
              Ok (true, x, buf)
            else Ok (true, x, buf)
          else Ok (true, mkContext kGotAll (request_ x), buf)
      | kGotAll => parse_loop fuel x buf
      end
  end.

(** Each round but the last consumes a line, so this is enough. *)
Definition parseRequest (x : HttpContext) (buf : Buffer) : res (bool * HttpContext * Buffer) :=
  parse_loop (S (Z.to_nat (readableBytes buf))) x buf.

(** ** Searching for the end of a line *)
Lemma search_range pat c i : search pat c = Some i -> 0 <= i /\ i + zlen pat <= zlen c.
Proof.
  revert i. induction c as [|b c IH]; intros i; simpl; case_decide as Hp; try done.
  1,2: intros [= <-]; apply prefix_length in Hp; unfold zlen; lia.
  destruct (search pat c) as [j|]; [|done]. simpl. intros [= <-].
  destruct (IH j eq_refl). zlia.
Qed.

Lemma prefix_app_short (pat c y : bytes) :
  (length pat <= length c)%nat -> pat `prefix_of` c ++ y -> pat `prefix_of` c.
Proof.
  intros Hl [k E]. exists (drop (length pat) c).
  rewrite <- (take_drop (length pat) c) at 1. f_equal.
  apply (f_equal (take (length pat))) in E.
  rewrite take_app_le, take_app_length in E by done. done.
Qed.

Lemma search_app pat c y i : search pat c = Some i -> search pat (c ++ y) = Some i.
Proof.
  revert i. induction c as [|b c IH]; intros i H; pose proof (search_range _ _ _ H) as Hr;
    simpl in H; case_decide as Hp; try done.
  - injection H as <-. apply prefix_nil_inv in Hp as ->. by destruct y.
  - injection H as <-. simpl. rewrite decide_True; [done|].
    change (pat `prefix_of` (b :: c) ++ y). by apply prefix_app_r.
  - destruct (search pat c) as [j|] eqn:E; [|done]. simpl in *. injection H as <-.
    rewrite decide_False.
    + by rewrite (IH j).
    + intros Hp'. apply Hp. eapply (prefix_app_short _ _ y); [|exact Hp'].
      destruct (search_range _ _ _ E). unfold zlen in *. simpl. lia.
Qed.

Lemma search_line l y : Byte.x0d ∉ l -> search kCRLF (l ++ kCRLF ++ y) = Some (zlen l).
Proof.
  induction l as [|b l IH]; intros Hn.
  - reflexivity.
  - apply not_elem_of_cons in Hn as [Hb Hl].
    cbn [app search]. rewrite decide_False.
    + rewrite IH by done. simpl. f_equal. zlia.
    + intros [k E]. by injection E.
Qed.

(** ** The parser, on byte strings

    One round of the loop: the new context, the number of bytes it consumes,
    and the result if the loop ends. *)
Definition step (x : HttpContext) (c : bytes) : res (HttpContext * Z * option bool) :=
  match state_ x with
  | kExpectRequestLine =>
      match search kCRLF c with
      | Some i =>
          let* (ok, r) := parseRequestLine (ztake i c) (request_ x) in
          if (ok : bool) then Ok (mkContext kExpectHeaders r, i + 2, None)
          else Ok (mkContext kExpectRequestLine r, 0, Some false)
      | None => Ok (x, 0, Some true)
      end
  | kExpectHeaders =>
      match search kCRLF c with
      | Some i =>
          match find_byte Byte.x3a (ztake i c) with
          | Some colon => Ok (mkContext kExpectHeaders (addHeader (ztake i c) colon (request_ x)), i + 2, None)
          | None => if i =? 0 then Ok (mkContext kExpectBody (request_ x), 2, None)
                    else Ok (x, i + 2, Some false)
          end
      | None => Ok (x, 0, Some true)
      end
  | kExpectBody =>
      let n := atoi (getHeader (str "Content-Length") (request_ x)) in
      if 0 <? n then
        if n <=? zlen c then Ok (mkContext kGotAll (setBody (ztake n c) (request_ x)), n, Some true)
        else Ok (x, 0, Some true)
      else Ok (mkContext kGotAll (request_ x), 0, Some true)
  | kGotAll => Ok (x, 0, None)
  end.

Fixpoint steps (fuel : nat) (x : HttpContext) (c : bytes) : res (bool * HttpContext * bytes) :=
  match fuel with
  | O => Err OutOfFuel
  | S fuel =>
      let* (x', n, stop) := step x c in
      match stop with
      | Some ok => Ok (ok, x', zdrop n c)
      | None => steps fuel x' (zdrop n c)
      end
  end.

Definition parse_bytes (x : HttpContext) (c : bytes) : res (bool * HttpContext * bytes) :=
  steps (S (length c)) x c.

(** What the two results have to agree on: all but the buffer, which
    represents the bytes left. *)
Definition same_result (a : bool * HttpContext * Buffer) (b : bool * HttpContext * bytes) : Prop :=
  a.1 = b.1 /\ represents a.2 b.2.

Lemma repr_retrieveLine b c i :
  represents b c -> search kCRLF c = Some i ->
  exists b', retrieveUntil (peek b + i + 2) b = Ok b' /\ represents b' (zdrop (i + 2) c).
Proof.
  intros HR Hi. destruct (search_range _ _ _ Hi) as [H0 H1]. change (zlen kCRLF) with 2 in H1.
  rewrite <- Z.add_assoc. apply (repr_retrieveUntil _ _ HR); lia.
Qed.

Lemma parse_loop_refines fuel x b c :
  represents b c -> res_rel same_result (parse_loop fuel x b) (steps fuel x c).
Proof.
  revert x b c. induction fuel as [|fuel IH]; intros x b c HR; [done|]. cbn [parse_loop steps].
  unfold step. destruct (state_ x).
  - rewrite (repr_findCRLF _ _ HR). mstep. destruct (search kCRLF c) as [i|] eqn:Hi; [|by split].
    cbn [fmap option_fmap option_map]. destruct (search_range _ _ _ Hi) as [H0 H1].
    change (zlen kCRLF) with 2 in H1.
    replace (peek b + i - peek b) with i by lia.
    rewrite (repr_mem_read_prefix _ _ HR) by lia. mstep.
    destruct (parseRequestLine (ztake i c) (request_ x)) as [[ok r]|e]; [|done]. mstep.
    destruct ok; [|by split].
    destruct (repr_retrieveLine _ _ _ HR Hi) as (b' & -> & HR'). by apply IH.
  - rewrite (repr_findCRLF _ _ HR). mstep. destruct (search kCRLF c) as [i|] eqn:Hi; [|by split].
    cbn [fmap option_fmap option_map]. destruct (search_range _ _ _ Hi) as [H0 H1].
    change (zlen kCRLF) with 2 in H1.
    replace (peek b + i - peek b) with i by lia.
    rewrite (repr_mem_read_prefix _ _ HR) by lia. mstep.
    destruct (repr_retrieveLine _ _ _ HR Hi) as (b' & -> & HR').
    destruct (find_byte Byte.x3a (ztake i c)); [by apply IH|].
    destruct (Z.eqb_spec (peek b) (peek b + i)), (Z.eqb_spec i 0); try lia; [|by split].
    subst i. by apply IH.
  - rewrite (repr_readableBytes _ _ HR).
    set (n := atoi _). pose proof (atoi_range _ : - 2 ^ 31 <= n < 2 ^ 31) as Hn.
    destruct (Z.ltb_spec 0 n); [|by split].
    rewrite (uwrap_small 64 n) by lia.
    destruct (Z.leb_spec n (zlen c)); [|by split].
    rewrite (repr_mem_read_prefix _ _ HR) by lia. mstep.
    destruct (repr_retrieve _ _ HR n) as (b' & -> & HR'); [lia|]. by split.
  - mstep. rewrite zdrop_0 by lia. by apply IH.
Qed.

(** ** Termination, and independence of the chunks *)
Definition running (x : HttpContext) : Prop := state_ x <> kGotAll.

(** One round, by the bytes it needs. *)
Lemma step_bounds x c x' n stop :
  running x -> step x c = Ok (x', n, stop) ->
  0 <= n <= zlen c /\ (stop = None -> 2 <= n /\ running x').
Proof.
  unfold step, running. destruct (state_ x) eqn:Hs; intros Hr; [| | |done].
  - destruct (search kCRLF c) as [i|] eqn:Hi; [|intros [= <- <- <-]; split; [zlia|done]].
    destruct (search_range _ _ _ Hi) as [H0 H1]. change (zlen kCRLF) with 2 in H1.
    intros ([[] r] & _ & [= <- <- <-])%bind_Ok_inv; [|split; [zlia|done]]. split; [lia|by split; [lia|]].
  - destruct (search kCRLF c) as [i|] eqn:Hi; [|intros [= <- <- <-]; split; [zlia|done]].
    destruct (search_range _ _ _ Hi) as [H0 H1]. change (zlen kCRLF) with 2 in H1.
    destruct (find_byte Byte.x3a (ztake i c)).
    + intros [= <- <- <-]. split; [lia|by split; [lia|]].
    + destruct (Z.eqb_spec i 0); intros [= <- <- <-]; (split; [lia|]); [by split; [lia|]|done].
  - split_guards; intros [= <- <- <-]; (split; [zlia|done]).
Qed.

Lemma step_wait x c x' n : step x c = Ok (x', n, Some true) -> running x' -> x' = x /\ n = 0.
Proof.
  unfold step, running. destruct (state_ x).
  - destruct (search kCRLF c); [|by intros [= <- <-]].
    by intros ([[] r] & _ & [=])%bind_Ok_inv.
  - destruct (search kCRLF c) as [i|]; [|by intros [= <- <-]].
    destruct (find_byte Byte.x3a (ztake i c)); [done|]. by destruct (i =? 0).
  - split_guards; intros [= <- <-]; done.
  - done.
Qed.

(** A round that consumes or ends with more than "wait for more bytes" does
    the same when more bytes follow. *)
Lemma step_app x c y :
  running x ->
  step x (c ++ y) = step x c \/ step x c = Ok (x, 0, Some true).
Proof.
  unfold step, running. destruct (state_ x); intros Hr; [| | |done].
  - destruct (search kCRLF c) as [i|] eqn:Hi; [left|by right].
    destruct (search_range _ _ _ Hi) as [H0 H1]. change (zlen kCRLF) with 2 in H1.
    rewrite (search_app _ _ y _ Hi), ztake_app_le by lia. done.
  - destruct (search kCRLF c) as [i|] eqn:Hi; [left|by right].
    destruct (search_range _ _ _ Hi) as [H0 H1]. change (zlen kCRLF) with 2 in H1.
    rewrite (search_app _ _ y _ Hi), ztake_app_le by lia. done.
  - destruct (Z.ltb_spec 0 (atoi (getHeader (str "Content-Length") (request_ x)))); [|by left].
    destruct (Z.leb_spec (atoi (getHeader (str "Content-Length") (request_ x))) (zlen c)); [left|by right].
    rewrite ztake_app_le by lia.
    by rewrite (proj2 (Z.leb_le _ (zlen (c ++ y)))) by zlia.
Qed.

Lemma steps_fuel f1 f2 x c :
  running x -> (length c < f1)%nat -> (length c < f2)%nat -> steps f1 x c = steps f2 x c.
Proof.
  revert f2 x c. induction f1 as [|f1 IH]; intros [|f2] x c Hr H1 H2; try lia.
  cbn [steps]. destruct (step x c) as [[[x' n] stop]|e] eqn:E; [|done]. mstep.
  destruct stop as [ok|]; [done|].
  destruct (step_bounds _ _ _ _ _ Hr E) as [Hn [H2n Hr']]; [done|].
  pose proof (zlen_zdrop n c Hn) as L. unfold zlen in *. apply IH; [done|lia..].
Qed.

Lemma parse_bytes_eq x c :
  running x ->
  parse_bytes x c =
    (let* (x', n, stop) := step x c in
     match stop with
     | Some ok => Ok (ok, x', zdrop n c)
     | None => parse_bytes x' (zdrop n c)
     end).
Proof.
  intros Hr. unfold parse_bytes at 1. cbn [steps].
  destruct (step x c) as [[[x' n] stop]|e] eqn:E; [|done]. mstep.
  destruct stop as [ok|]; [done|].
  destruct (step_bounds _ _ _ _ _ Hr E) as [Hn [H2n Hr']]; [done|].
  pose proof (zlen_zdrop n c Hn) as L. unfold zlen in *.
  apply steps_fuel; [done|lia..].
Qed.

(** Induction over the rounds of the parser. *)
Lemma parse_ind (P : HttpContext -> bytes -> Prop) :
  (forall x c, running x ->
     (forall x' n, step x c = Ok (x', n, None) -> running x' -> 0 <= n <= zlen c -> P x' (zdrop n c)) ->
     P x c) ->
  forall x c, running x -> P x c.
Proof.
  intros H x c. remember (length c) as k eqn:Hk. revert x c Hk.
  induction k as [k IH] using lt_wf_ind. intros x c Hk Hr. apply H; [done|].
  intros x' n E Hr' Hn. destruct (step_bounds _ _ _ _ _ Hr E) as [_ [H2 _]]; [done|].
  pose proof (zlen_zdrop n c Hn) as L. unfold zlen in *. eapply IH; [|done|done]. lia.
Qed.

Lemma parse_bytes_app x c y x' r :
  running x -> parse_bytes x c = Ok (true, x', r) -> running x' ->
  parse_bytes x (c ++ y) = parse_bytes x' (r ++ y).
Proof.
  intros Hr. revert x c Hr. apply (parse_ind (fun x c =>
    parse_bytes x c = Ok (true, x', r) -> running x' ->
    parse_bytes x (c ++ y) = parse_bytes x' (r ++ y))).
  intros x c Hr IH E Hr'. rewrite parse_bytes_eq in E by done.
  destruct (step_app x c y Hr) as [Ea|Ea].
  - rewrite parse_bytes_eq by done. rewrite Ea.
    destruct (step x c) as [[[x1 n] [ok|]]|e] eqn:Es; try done; simpl in E.
    + injection E as -> -> <-. destruct (step_wait _ _ _ _ Es Hr') as [-> ->].
      rewrite zdrop_0 by lia. symmetry. rewrite parse_bytes_eq by done. by rewrite Ea.
    + simpl. destruct (step_bounds _ _ _ _ _ Hr Es) as [Hn [H2 Hr1]]; [done|].
      rewrite zdrop_app_le by lia. by apply IH.
  - rewrite Ea in E. simpl in E. rewrite zdrop_0 in E by lia. by injection E as -> ->.
Qed.

(** ** Parsing what was printed *)
Definition lacks (xs : bytes) (l : bytes) : Prop := forall x, In x xs -> x ∉ l.

Definition query_ok (kv : bytes * bytes) : Prop :=
  lacks (str "=& " ++ [Byte.x0d]) kv.1 /\ lacks (str "& " ++ [Byte.x0d]) kv.2.
Definition header_ok (kv : bytes * bytes) : Prop :=
  lacks (str ":" ++ [Byte.x0d]) kv.1 /\ lacks [Byte.x0d] kv.2 /\
  skip_spaces kv.2 = kv.2 /\ skip_spaces (rev kv.2) = rev kv.2.

Record request_ok (r : HttpRequest) : Prop := {
  ok_method : method_ r <> kInvalid;
  ok_path : lacks (str " ?" ++ [Byte.x0d]) (path_ r);
  ok_querys : Forall query_ok (querys_ r) /\ sorted (querys_ r);
  ok_headers : Forall header_ok (headers_ r) /\ sorted (headers_ r);
}.
(** How much of what follows the headers a parser takes for the body. *)
Definition content_length (r : HttpRequest) : Z := Z.max 0 (atoi (getHeader (str "Content-Length") r)).

Abbreviation qtext := (pair_text (str "=") (str "&")).
Abbreviation htext := (pair_text (str ": ") kCRLF).

Lemma split_query l :
  Forall query_ok l ->
  split (concat (map qtext l)) (str "&") =
    if decide (l = []) then [] else map (fun kv => kv.1 ++ Byte.x3d :: kv.2) l ++ [[]].
Proof.
  intros Hl. change (str "&") with [Byte.x26]. rewrite split_fields.
  assert (fields Byte.x26 (concat (map qtext l)) = map (fun kv => kv.1 ++ Byte.x3d :: kv.2) l ++ [[]]) as E.
  { induction Hl as [|[k v] l [H1 H2] Hl IH]; [done|]. simpl in *.
    replace (qtext (k, v) ++ concat (map qtext l))
      with ((k ++ Byte.x3d :: v) ++ Byte.x26 :: concat (map qtext l))
      by (unfold pair_text; simpl; by rewrite <- !app_assoc; simpl; rewrite <- !app_assoc).
    rewrite fields_app; [by rewrite IH|].
    rewrite elem_of_app, elem_of_cons. intros [H|[H|H]]; [|done|].
    - eapply H1; [|exact H]. simpl; auto.
    - eapply H2; [|exact H]. simpl; auto. }
  destruct l as [|[k v] l]; [done|]. rewrite (decide_False (P := _ :: _ = [])) by done.
  rewrite decide_False; [done|]. unfold pair_text. simpl. by destruct k.
Qed.

Lemma add_parms r l :
  Forall query_ok l ->
  foldl add_parm r (map (fun kv => kv.1 ++ Byte.x3d :: kv.2) l) =
    mkRequest (method_ r) (version_ r) (path_ r) (query_ r) (body_ r) (closeConnection_ r)
      (foldl (fun m kv => sm_insert kv.1 kv.2 m) (querys_ r) l) (headers_ r).
Proof.
  intros Hl. revert r. induction Hl as [|[k v] l [H1 _] _ IH]; intros r; simpl; [by destruct r|].
  rewrite IH. unfold add_parm. simpl in *.
  rewrite find_byte_app_not_in by (apply H1; simpl; auto).
  unfold substr_to, substr_from. rewrite ztake_app_exact by done.
  change (Byte.x3d :: v) with ([Byte.x3d] ++ v). by rewrite app_assoc, zdrop_app_exact by zlia.
Qed.

Lemma method_of_string r : method_of (methodString r) = method_ r.
Proof. unfold methodString. by destruct (method_ r). Qed.

(** The request line of a printed request. *)
Definition request_line (r : HttpRequest) : bytes :=
  methodString r ++ str " " ++ path_ r ++ str "?" ++ concat (map qtext (querys_ r)) ++ str " " ++ str "HTTP/1.1".

Lemma query_no_space l : Forall query_ok l -> Byte.x20 ∉ concat (map qtext l).
Proof.
  induction 1 as [|[k v] l [H1 H2] _ IH]; simpl; [apply not_elem_of_nil|].
  unfold pair_text in *. simpl in *. rewrite !elem_of_app, elem_of_cons, elem_of_app.
  intros [[H|[H|[H|H]]]|H]; [by eapply H1; [|exact H]; simpl; auto|done|
    by eapply H2; [|exact H]; simpl; auto| |by apply IH].
  apply list_elem_of_In in H; simpl in H; destruct H as [H|[]]; discriminate H.
Qed.

Lemma zdrop_cut (a : bytes) x l : zdrop (zlen a + 1) (a ++ x :: l) = l.
Proof. change (x :: l) with ([x] ++ l). by rewrite app_assoc, zdrop_app_exact by zlia. Qed.

Lemma parse_request_line r r0 :
  request_ok r -> method_ r0 = kInvalid -> querys_ r0 = [] ->
  parseRequestLine (request_line r) r0 =
    Ok (true, mkRequest (method_ r) kHttp11 (path_ r) (concat (map qtext (querys_ r))) (body_ r0)
                (closeConnection_ r0) (querys_ r) (headers_ r0)).
Proof.
  intros [Hm Hp [Hq Hqs] _] Hm0 Hq0. unfold parseRequestLine, request_line.
  change (str " " ++ str "HTTP/1.1") with (Byte.x20 :: str "HTTP/1.1").
  change (str " " ++ ?l) with (Byte.x20 :: l). change (str "?" ++ ?l) with (Byte.x3f :: l).
  rewrite find_byte_app_not_in
    by (unfold methodString; destruct (method_ r); apply (bool_decide_eq_true_1 (_ ∉ _)); reflexivity).
  rewrite ztake_app_exact, zdrop_cut by done.
  unfold setMethod. rewrite bool_decide_true by done. mstep. cbv zeta. cbn [method_].
  rewrite method_of_string, bool_decide_false by done. cbn [negb assert bind].
  set (q := concat (map qtext (querys_ r))).
  replace (path_ r ++ Byte.x3f :: q ++ Byte.x20 :: str "HTTP/1.1")
    with ((path_ r ++ Byte.x3f :: q) ++ Byte.x20 :: str "HTTP/1.1") by (by rewrite <- app_assoc).
  rewrite find_byte_app_not_in.
  2: { rewrite elem_of_app, elem_of_cons. intros [H|[H|H]]; [|done|by eapply query_no_space].
       eapply Hp; [|exact H]. simpl; auto. }
  rewrite ztake_app_exact, zdrop_cut by done.
  rewrite find_byte_app_not_in by (apply Hp; simpl; auto).
  rewrite ztake_app_exact, zdrop_cut by done. unfold setPath, setQuery. cbn [query_].
  unfold q. rewrite split_query by done.
  change ((zlen (str "HTTP/1.1") =? 8) && bool_decide (ztake 7 (str "HTTP/1.1") = str "HTTP/1.")) with true.
  rewrite (decide_True (P := zdrop 7 (str "HTTP/1.1") = str "1")) by done. cbv iota.
  case_decide as Hnil.
  - rewrite Hnil. simpl. by rewrite Hq0.
  - rewrite foldl_app, add_parms by done. simpl. rewrite Hq0, sm_insert_all by done. done.
Qed.

Definition with_headers (r : HttpRequest) (h : smap) : HttpRequest :=
  mkRequest (method_ r) (version_ r) (path_ r) (query_ r) (body_ r) (closeConnection_ r) (querys_ r) h.

Lemma parse_header r kv y :
  header_ok kv ->
  parse_bytes (mkContext kExpectHeaders r) (htext kv ++ y) =
    parse_bytes (mkContext kExpectHeaders (with_headers r (sm_assign kv.1 kv.2 (headers_ r)))) y.
Proof.
  destruct kv as [k v]. intros (Hk & Hv & Ht1 & Ht2). simpl in *.
  assert (htext (k, v) ++ y = (k ++ Byte.x3a :: Byte.x20 :: v) ++ kCRLF ++ y) as ->
    by (unfold pair_text; simpl; rewrite <- !app_assoc; simpl; by rewrite <- app_assoc).
  rewrite parse_bytes_eq by done. unfold step. simpl state_. cbv iota.
  rewrite search_line.
  2: { rewrite elem_of_app, !elem_of_cons. intros [H|[H|[H|H]]]; try done.
       - eapply Hk; [|exact H]. simpl; auto.
       - eapply Hv; [|exact H]. simpl; auto. }
  rewrite ztake_app_exact by done.
  rewrite find_byte_app_not_in by (apply Hk; simpl; auto). mstep.
  rewrite app_assoc, zdrop_app_exact by (by rewrite (zlen_app _ kCRLF)).
  do 2 f_equal. unfold addHeader, with_headers. cbn [request_].
  rewrite ztake_app_exact, zdrop_cut by done.
  change (skip_spaces (Byte.x20 :: v)) with (skip_spaces v).
  by rewrite Ht1, Ht2, rev_involutive.
Qed.

Lemma parse_headers l r y :
  Forall header_ok l ->
  parse_bytes (mkContext kExpectHeaders r) (concat (map htext l) ++ y) =
    parse_bytes (mkContext kExpectHeaders
      (with_headers r (foldl (fun m kv => sm_assign kv.1 kv.2 m) (headers_ r) l))) y.
Proof.
  intros Hl. revert r. induction Hl as [|kv l Hkv _ IH]; intros r; simpl; [by destruct r|].
  rewrite <- app_assoc, parse_header, IH by done. done.
Qed.

Lemma parse_body r d :
  body_ r = [] ->
  parse_bytes (mkContext kExpectHeaders r) (kCRLF ++ d) =
    if content_length r <=? zlen d
    then Ok (true, mkContext kGotAll (setBody (ztake (content_length r) d) r), zdrop (content_length r) d)
    else Ok (true, mkContext kExpectBody r, d).
Proof.
  intros Hb. rewrite parse_bytes_eq by done. unfold step. simpl state_. cbv iota.
  pose proof (search_line [] d (not_elem_of_nil _)) as Es. cbn [app] in Es. rewrite Es.
  rewrite ztake_0 by done. simpl find_byte. cbv iota. change (zlen [] =? 0) with true. mstep.
  rewrite zdrop_app_exact by done.
  rewrite parse_bytes_eq by done. unfold step. simpl state_. simpl request_. cbv iota. unfold content_length.
  set (n := atoi _). pose proof (zlen_nonneg d). destruct (Z.ltb_spec 0 n).
  - rewrite Z.max_r by lia. destruct (Z.leb_spec n (zlen d)); mstep; [done|]. by rewrite zdrop_0 by lia.
  - rewrite Z.max_l, (proj2 (Z.leb_le _ _)) by lia. mstep. rewrite zdrop_0, ztake_0 by lia.
    unfold setBody. destruct r. simpl in Hb. by subst.
Qed.

(** The request a parser gets from what [r] prints, with the body [d]. *)
Definition received_with (d : bytes) (r : HttpRequest) : HttpRequest :=
  mkRequest (method_ r) kHttp11 (path_ r) (concat (map qtext (querys_ r))) d false (querys_ r)
    (foldl (fun m kv => sm_assign kv.1 kv.2 m) [] ((str "Connection", connection_value r) :: headers_ r)).

Definition received (r : HttpRequest) : HttpRequest := received_with (body_ r) r.

Lemma request_line_no_cr r : request_ok r -> Byte.x0d ∉ request_line r.
Proof.
  intros [_ Hp [Hq _] _]. unfold request_line. rewrite !elem_of_app.
  assert (forall l : bytes, bool_decide (Byte.x0d ∈ l) = false -> Byte.x0d ∈ l -> False) as Hl.
  { intros l E H. by rewrite bool_decide_true in E. }
  assert (Byte.x0d ∉ concat (map qtext (querys_ r))) as Hc.
  { induction Hq as [|[k v] l [H1 H2] _ IH]; simpl; [apply not_elem_of_nil|].
    unfold pair_text. simpl. rewrite elem_of_app. intros [H|H]; [|by apply IH]. revert H.
    rewrite elem_of_app, elem_of_cons, elem_of_app. intros [H|[H|[H|H]]]; [|done| |].
    - eapply H1; [|exact H]. simpl; auto.
    - eapply H2; [|exact H]. simpl; auto.
    - by eapply Hl; [|exact H]. }
  intros [H|[H|[H|[H|[H|[H|H]]]]]]; try (by eapply Hl; [|exact H]).
  - unfold methodString in H. destruct (method_ r); by eapply Hl; [|exact H].
  - eapply Hp; [|exact H]. simpl; auto.
Qed.

Lemma header_of_received d r k :
  request_ok r ->
  sm_find k (headers_ (received_with d r)) =
    match sm_find k (headers_ r) with
    | Some v => Some v
    | None => if decide (k = str "Connection") then Some (connection_value r) else None
    end.
Proof.
  intros [_ _ _ [_ Hs]]. unfold received_with. cbn [headers_ foldl].
  rewrite sm_find_assign_all by auto with smap.
  by rewrite sm_find_assign by auto with smap.
Qed.

Lemma parse_printed r :
  request_ok r ->
  parse_bytes HttpContext_new (request_text r) =
    if content_length r <=? zlen (body_ r)
    then Ok (true, mkContext kGotAll (received_with (ztake (content_length r) (body_ r)) r), zdrop (content_length r) (body_ r))
    else Ok (true, mkContext kExpectBody (received_with [] r), body_ r).
Proof.
  intros Hok.
  assert (request_text r = request_line r ++ kCRLF ++
    (concat (map htext ((str "Connection", connection_value r) :: headers_ r)) ++ kCRLF ++ body_ r)) as ->.
  { unfold request_text, request_line. cbn [map concat]. by rewrite <- !app_assoc. }
  rewrite parse_bytes_eq by done. unfold step. simpl state_. cbv iota.
  rewrite search_line by (by apply request_line_no_cr).
  rewrite ztake_app_exact by done.
  rewrite parse_request_line by done. mstep.
  rewrite app_assoc, zdrop_app_exact by (by rewrite (zlen_app _ kCRLF)).
  rewrite parse_headers.
  2: { constructor; [|apply Hok]. unfold connection_value. 
       destruct (closeConnection_ r); (split; [|split]); try done; intros x Hx;
         simpl in Hx; destruct_or! Hx; try done; subst; apply (bool_decide_eq_true_1 (_ ∉ _)); reflexivity. }
  rewrite parse_body by done.
  match goal with |- context [ content_length ?q ] => change q with (received_with [] r) end.
  assert (content_length (received_with [] r) = content_length r) as ->; [|done].
  unfold content_length, getHeader. rewrite (header_of_received [] r (str "Content-Length") Hok).
  by destruct (sm_find (str "Content-Length") (headers_ r)).
Qed.

(** ** The properties of the parser *)
Lemma parse_refines x b c :
  represents b c -> res_rel same_result (parseRequest x b) (parse_bytes x c).
Proof.
  intros HR. unfold parseRequest, parse_bytes. rewrite (repr_readableBytes _ _ HR).
  unfold zlen. rewrite Nat2Z.id. by apply parse_loop_refines.
Qed.

(** C38: A request with a method, whose path, query parameters and headers
    hold none of the characters that delimit them and no blanks around the
    values of headers, and which has at most 2^60 bytes, printed by
    appendToBuffer, is parsed back by the server parser with the same method,
    path, query parameters and headers, and Connection besides. The body is as
    many bytes as its Content-Length header says and the rest stays in the
    buffer; with no such header the body is empty, and with more than there
    are the parser waits for them. *)
Theorem http_request_roundtrip r :
  request_ok r -> zlen (request_text r) <= 2 ^ 60 ->
  let n := content_length r in
  exists b1 b2 x, appendToBuffer r newBuffer = Ok b1 /\
    parseRequest HttpContext_new b1 = Ok (true, x, b2) /\
    let r' := request_ x in
    method_ r' = method_ r /\ version_ r' = kHttp11 /\ path_ r' = path_ r /\ querys_ r' = querys_ r /\
    (forall k, sm_find k (headers_ r') =
      match sm_find k (headers_ r) with
      | Some v => Some v
      | None => if decide (k = str "Connection") then Some (connection_value r) else None
      end) /\
    if n <=? zlen (body_ r)
    then state_ x = kGotAll /\ body_ r' = ztake n (body_ r) /\ represents b2 (zdrop n (body_ r))
    else state_ x = kExpectBody /\ body_ r' = [] /\ represents b2 (body_ r).
Proof.
  intros Hok Hlen n.
  destruct (prints_request r newBuffer [] newBuffer_represents) as (b1 & E & HR); [fits_lia|].
  pose proof (parse_refines HttpContext_new b1 _ HR) as Hp.
  rewrite app_nil_l, parse_printed in Hp by done. fold n in Hp.
  destruct (n <=? zlen (body_ r));
    apply res_rel_Ok_r in Hp as ([x b2] & Ep & Hx & HR2); simpl in *; subst x; eexists b1, b2, _;
    split; [done| |done|]; (split; [done|]); repeat (split; [done|]);
    (split; [intros k; by apply header_of_received|done]).
Qed.

Definition sample : HttpRequest :=
  mkRequest kPost kUnknown (str "/push/keys") [] (str "hello") false
    [(str "keys", str "1_2"); (str "operation", str "9")]
    [(str "Content-Length", str "5"); (str "Host", str "logic")].

Lemma sample_ok : request_ok sample.
Proof.
  assert (forall xs l : bytes, forallb (fun x => bool_decide (x ∉ l)) xs = true -> lacks xs l) as Hl.
  { intros xs l E x Hx. rewrite forallb_forall in E. by apply E, bool_decide_eq_true in Hx. }
  split.
  - done.
  - apply Hl. reflexivity.
  - split; [repeat (constructor; [split; apply Hl; reflexivity|]); constructor|].
    repeat (constructor; [|repeat (constructor; [reflexivity|]); constructor]). constructor.
  - split; [repeat (constructor; [repeat split; apply Hl; reflexivity|]); constructor|].
    repeat (constructor; [|repeat (constructor; [reflexivity|]); constructor]). constructor.
Qed.

Lemma http_request_roundtrip_witness :
  exists b1 b2 x, appendToBuffer sample newBuffer = Ok b1 /\
    parseRequest HttpContext_new b1 = Ok (true, x, b2) /\ gotAll x = true /\ body_ (request_ x) = str "hello" /\
    represents b2 [].
Proof.
  destruct (http_request_roundtrip sample) as (b1 & b2 & x & E1 & E2 & _ & _ & _ & _ & _ & Hg & Hb & HR).
  - exact sample_ok.
  - vm_compute. discriminate.
  - exists b1, b2, x. split; [exact E1|]. split; [exact E2|]. split; [|split; [exact Hb|exact HR]].
    unfold gotAll. by rewrite Hg.
Defined.

(** C39: Parsing the bytes that are there, and going on when more arrive,
    gives the same result as parsing all of them at once. *)
Theorem http_parse_chunks x b c x1 b1 r1 y b2 b12 :
  state_ x <> kGotAll -> represents b c -> parseRequest x b = Ok (true, x1, b1) ->
  gotAll x1 = false -> represents b1 r1 -> represents b2 (r1 ++ y) -> represents b12 (c ++ y) ->
  res_rel (fun p q => p.1 = q.1 /\ content p.2 = content q.2)
    (parseRequest x1 b2) (parseRequest x b12).
Proof.
  intros Hr HR E Hg HR1 HR2 HR12. apply bool_decide_eq_false in Hg.
  pose proof (parse_refines x b c HR) as Hp. rewrite E in Hp.
  destruct (parse_bytes x c) as [[[ok x1'] r1']|] eqn:Ep; [|done].
  destruct Hp as [[= <- <-] HR1']. simpl in HR1'.
  apply represents_iff in HR1 as [_ <-]. apply represents_iff in HR1' as [_ <-].
  pose proof (parse_refines x1 b2 _ HR2) as H2. pose proof (parse_refines x b12 _ HR12) as H12.
  rewrite (parse_bytes_app _ _ y _ _ Hr Ep Hg) in H12.
  destruct (parse_bytes x1 (content b1 ++ y)) as [[p q]|e],
    (parseRequest x1 b2) as [[p2 q2]|], (parseRequest x b12) as [[p12 q12]|]; simpl in *; try done.
  - destruct H2 as [E2 H2], H12 as [E12 H12]. simpl in *. subst p2 p12.
    split; [done|]. apply represents_iff in H2 as [_ ->]. by apply represents_iff in H12 as [_ ->].
  - congruence.
Qed.

Definition half_request : bytes := ztake 30 (request_text sample).

Lemma http_parse_chunks_witness :
  exists x1 b1, parseRequest HttpContext_new (buffer_of half_request) = Ok (true, x1, b1) /\
    res_rel (fun p q => p.1 = q.1 /\ content p.2 = content q.2)
      (parseRequest x1 (buffer_of (content b1 ++ zdrop 30 (request_text sample))))
      (parseRequest HttpContext_new (buffer_of (half_request ++ zdrop 30 (request_text sample)))).
Proof.
  pose proof buffer_of_represents as Hb.
  destruct (parseRequest HttpContext_new (buffer_of half_request)) as [[[ok x1] b1]|] eqn:E;
    [|vm_compute in E; discriminate E].
  vm_compute in E. injection E as <- <- <-. eexists _, _. split; [reflexivity|].
  refine (http_parse_chunks HttpContext_new (buffer_of half_request) half_request _ _ _ _ _ _
    _ _ eq_refl _ _ _ _); try (apply Hb; vm_compute; reflexivity); try done.
Defined.

(** ** How the parser can fail *)
Lemma parseRequestLine_err line r e :
  parseRequestLine line r = Err e -> e = AssertFailed /\ method_ r <> kInvalid.
Proof.
  unfold parseRequestLine, setMethod. destruct (find_byte Byte.x20 line) as [i|]; [|done].
  case_bool_decide as Hm; mstep; [|by intros [= <-]].
  destruct (negb _) eqn:En; cbn [negb]; try done.
  destruct (find_byte Byte.x20 (zdrop (i + 1) line)) as [j|]; [|done].
  destruct (_ && _); [|done]. by repeat case_decide.
Qed.

Lemma step_err x c e :
  step x c = Err e ->
  e = AssertFailed /\ state_ x = kExpectRequestLine /\ method_ (request_ x) <> kInvalid.
Proof.
  unfold step. destruct (state_ x) eqn:Hs.
  - destruct (search kCRLF c) as [i|]; [|done].
    destruct (parseRequestLine (ztake i c) (request_ x)) as [[[] r]|e'] eqn:E; try done.
    intros [= <-]. apply parseRequestLine_err in E as [-> ?]. done.
  - destruct (search kCRLF c) as [i|]; [|done].
    destruct (find_byte Byte.x3a (ztake i c)); [done|]. by destruct (i =? 0).
  - by split_guards.
  - done.
Qed.

(** The parser never goes back to the request line. *)
Lemma step_past_line x c x' n : running x -> step x c = Ok (x', n, None) -> state_ x' <> kExpectRequestLine.
Proof.
  unfold step, running. destruct (state_ x); intros Hr; [| | |done].
  - destruct (search kCRLF c); [|done]. by intros ([[] r] & _ & [= <- _])%bind_Ok_inv.
  - destruct (search kCRLF c) as [i|]; [|done].
    destruct (find_byte Byte.x3a (ztake i c)); [by intros [= <- _]|].
    destruct (i =? 0); by intros [= <- _].
  - by split_guards.
Qed.

Lemma parse_past_line x c :
  running x -> state_ x <> kExpectRequestLine ->
  exists ok x' r, parse_bytes x c = Ok (ok, x', r) /\ state_ x' <> kExpectRequestLine.
Proof.
  intros Hr. revert x c Hr. apply (parse_ind (fun x c => state_ x <> kExpectRequestLine ->
    exists ok x' r, parse_bytes x c = Ok (ok, x', r) /\ state_ x' <> kExpectRequestLine)).
  intros x c Hr IH Hs. rewrite parse_bytes_eq by done.
  destruct (step x c) as [[[x' n] [ok|]]|e] eqn:E; mstep.
  - exists ok, x', (zdrop n c). split; [done|]. revert E Hs Hr. unfold step, running.
    destruct (state_ x) eqn:Hx; try done.
    + destruct (search kCRLF c) as [i|]; [|by intros [= <- _ _]; rewrite Hx].
      destruct (find_byte Byte.x3a (ztake i c)); [done|].
      destruct (i =? 0); [done|]. intros [= <- _ _]. by rewrite Hx.
    + split_guards; intros [= <- _ _]; simpl; by rewrite ?Hx.
  - destruct (step_bounds _ _ _ _ _ Hr E) as [Hn [_ Hr']]; [done|].
    apply (IH _ _ eq_refl Hr' Hn). exact (step_past_line _ _ _ _ Hr E).
  - apply step_err in E as (_ & ? & _). congruence.
Qed.

(** From every state but kGotAll parseRequest returns on every buffer, or
    fails the assertion of setMethod, which happens only when the request line
    of a connection was refused before. *)
Theorem http_parse_outcomes x b c :
  state_ x <> kGotAll -> represents b c ->
  (exists ok x' b', parseRequest x b = Ok (ok, x', b') /\ exists c', represents b' c') \/
  (parseRequest x b = Err AssertFailed /\
   state_ x = kExpectRequestLine /\ method_ (request_ x) <> kInvalid).
Proof.
  intros Hr HR. pose proof (parse_refines x b c HR) as Hp.
  destruct (parse_bytes x c) as [[[ok x'] r]|e] eqn:E.
  - apply res_rel_Ok_r in Hp as ([[ok' x''] b'] & -> & _ & HR'). left. eauto 8.
  - right. destruct (parseRequest x b); simpl in Hp; [done|]. subst e0.
    rewrite parse_bytes_eq in E by done.
    destruct (step x c) as [[[x' n] [ok|]]|e'] eqn:Es; simpl in E; [done| |].
    + destruct (step_bounds _ _ _ _ _ Hr Es) as [_ [_ Hr']]; [done|].
      destruct (parse_past_line x' (zdrop n c) Hr') as (?&?&?&?&_); [exact (step_past_line _ _ _ _ Hr Es)|congruence].
    + injection E as <-. by apply step_err in Es as (-> & ? & ?).
Qed.

Lemma http_parse_outcomes_witness :
  exists ok x' b', parseRequest HttpContext_new (buffer_of half_request) = Ok (ok, x', b').
Proof.
  destruct (http_parse_outcomes HttpContext_new (buffer_of half_request) half_request)
    as [(ok & x' & b' & E & _)|(_ & _ & H)].
  - discriminate.
  - eexists (replicate 8 Byte.x00), _. split; [reflexivity|]. vm_compute. split; discriminate.
  - eauto.
  - by destruct H.
Defined.

(** A refused request line leaves the method set and the bytes in the
    buffer, so that the next bytes on the connection fail the assertion in
    setMethod. *)
Theorem http_bad_line_then_asserts x b c x' b' r y b2 :
  state_ x <> kGotAll -> method_ (request_ x) = kInvalid ->
  represents b c -> parseRequest x b = Ok (false, x', b') ->
  state_ x' = kExpectRequestLine -> method_ (request_ x') <> kInvalid ->
  represents b' r -> represents b2 (r ++ y) ->
  parseRequest x' b2 = Err AssertFailed.
Proof.
  intros Hr Hm0 HR E Hs Hm HR' HR2. pose proof (parse_refines x b c HR) as Hp. rewrite E in Hp.
  destruct (parse_bytes x c) as [[[ok x1] r1]|] eqn:Ep; [|done].
  destruct Hp as [[= <- <-] HR1]. simpl in HR1.
  apply represents_iff in HR1 as [_ <-]. apply represents_iff in HR' as [_ <-].
  rewrite parse_bytes_eq in Ep by done.
  destruct (step x c) as [[[x1 n] [ok|]]|e'] eqn:Es; simpl in Ep; [|exfalso|done].
  2: { destruct (step_bounds _ _ _ _ _ Hr Es) as [_ [_ Hr']]; [done|].
       destruct (parse_past_line x1 (zdrop n c) Hr') as (?&?&?&?&Hc);
         [exact (step_past_line _ _ _ _ Hr Es)|congruence]. }
  injection Ep as -> -> Hc.
  pose proof (parse_refines x' b2 _ HR2) as H2.
  rewrite parse_bytes_eq in H2 by (unfold running; by rewrite Hs).
  assert (step x' (content b' ++ y) = Err AssertFailed) as Ee.
  2: { rewrite Ee in H2. destruct (parseRequest x' b2); simpl in H2; [done|by subst]. }
  revert Es Hc. unfold step. rewrite Hs. destruct (state_ x) eqn:Hx.
  - destruct (search kCRLF c) as [i|] eqn:Hi; [|done].
    destruct (parseRequestLine (ztake i c) (request_ x)) as [[[] r0]|] eqn:El; try done.
    intros [= <- <-]. rewrite zdrop_0 by done. intros <-. simpl in *.
    destruct (search_range _ _ _ Hi) as [H0 H1]. change (zlen kCRLF) with 2 in H1.
    rewrite (search_app _ _ y _ Hi), ztake_app_le by lia.
    revert El. unfold parseRequestLine. destruct (find_byte Byte.x20 (ztake i c)) as [j|].
    + intros _. unfold setMethod at 1. by rewrite bool_decide_false.
    + intros [= <-]. by destruct Hm.
  - destruct (search kCRLF c) as [i|]; [|done].
    destruct (find_byte Byte.x3a (ztake i c)); [done|]. destruct (i =? 0); [done|].
    intros [= <- _]. congruence.
  - by split_guards.
  - done.
Qed.

Definition bad_line : bytes := str "GET /push HTTP/2.0" ++ kCRLF.

Lemma http_bad_line_then_asserts_witness :
  exists x' b', parseRequest HttpContext_new (buffer_of bad_line) = Ok (false, x', b') /\
    parseRequest x' (buffer_of (bad_line ++ kCRLF)) = Err AssertFailed.
Proof.
  pose proof buffer_of_represents as Hb.
  eexists _, _. split; [vm_compute; reflexivity|].
  refine (http_bad_line_then_asserts HttpContext_new (buffer_of bad_line) bad_line _
    (buffer_of bad_line) bad_line kCRLF _ _ _ _ _ _ _ _ _);
    try (apply Hb; vm_compute; reflexivity); done.
Defined.

(** ** What a connection keeps from one request to the next *)
Lemma add_parm_keeps r it k v :
  sorted (querys_ r) -> sm_find k (querys_ r) = Some v ->
  sorted (querys_ (add_parm r it)) /\ sm_find k (querys_ (add_parm r it)) = Some v.
Proof.
  intros Hs Hf. unfold add_parm. destruct (find_byte Byte.x3d it); [|done]. simpl.
  split; [auto with smap|]. rewrite sm_find_insert by done.
  case_decide; [subst; by rewrite Hf|done].
Qed.

Lemma add_parms_keep l r k v :
  sorted (querys_ r) -> sm_find k (querys_ r) = Some v ->
  sm_find k (querys_ (foldl add_parm r l)) = Some v.
Proof.
  revert r. induction l as [|it l IH]; intros r Hs Hf; simpl; [done|].
  destruct (add_parm_keeps r it k v Hs Hf). by apply IH.
Qed.

(** Reset does not clear the query parameters: a parameter of one request
    is what a later request on the connection reads under that name. *)
Theorem http_reset_keeps_parameters x line ok r' k v :
  sorted (querys_ (request_ x)) -> sm_find k (querys_ (request_ x)) = Some v ->
  parseRequestLine line (request_ (reset x)) = Ok (ok, r') ->
  getQuery k r' = Ok v.
Proof.
  intros Hs Hf. unfold parseRequestLine, getQuery, setMethod. simpl.
  assert (forall r', sm_find k (querys_ r') = Some v ->
    match sm_find k (querys_ r') with Some v0 => Ok v0 | None => Err UB end = Ok v) as Hg
    by (intros ? ->; done).
  destruct (find_byte Byte.x20 line) as [i|]; [|by intros [= _ <-]; apply Hg].
  mstep. destruct (negb (negb _)); [by intros [= _ <-]; apply Hg|].
  destruct (find_byte Byte.x20 _) as [j|]; [|by intros [= _ <-]; apply Hg].
  set (r1 := match find_byte Byte.x3f _ with Some _ => _ | None => _ end).
  assert (sm_find k (querys_ r1) = Some v) as H1.
  { unfold r1. destruct (find_byte Byte.x3f _); [by apply add_parms_keep|done]. }
  destruct (_ && _); [|by intros [= _ <-]; apply Hg].
  repeat case_decide; intros [= _ <-]; by apply Hg.
Qed.

(** After [?operation=1] the request line with [?operation=2] still reads 1. *)
Definition first_done : HttpContext :=
  mkContext kGotAll (mkRequest kGet kHttp11 (str "/push/all") (str "operation=1") [] false
                       [(str "operation", str "1")] []).
Definition second_line : bytes := str "GET /push/all?operation=2 HTTP/1.1".

Lemma http_reset_keeps_parameters_witness :
  exists r', parseRequestLine second_line (request_ (reset first_done)) = Ok (true, r') /\
    getQuery (str "operation") r' = Ok (str "1").
Proof.
  eexists. split; [vm_compute; reflexivity|].
  refine (http_reset_keeps_parameters first_done second_line true _ (str "operation") (str "1") _ _ _).
  - repeat constructor.
  - reflexivity.
  - vm_compute. reflexivity.
Defined.
End Context.

Module Response.

Inductive HttpStatusCode := kUnknown | k200Ok | k301MovedPermanently | k400BadRequest | k404NotFound.

Definition code_value (c : HttpStatusCode) : Z :=
  match c with
  | kUnknown => 0
  | k200Ok => 200
  | k301MovedPermanently => 301
  | k400BadRequest => 400
  | k404NotFound => 404
  end.

(** A response; [HS] is the type of [HttpSessionPtr]. *)
Record HttpResponse (HS : Type) := mkResponse {
  headers_ : smap;
  statusCode_ : HttpStatusCode;
  statusMessage_ : bytes;
  closeConnection_ : bool;
  body_ : bytes;
  delay_ : bool;
  httpsession_ : HS;
}.
Arguments mkResponse {HS}.
Arguments headers_ {HS}.
Arguments statusCode_ {HS}.
Arguments statusMessage_ {HS}.
Arguments closeConnection_ {HS}.
Arguments body_ {HS}.
Arguments delay_ {HS}.
Arguments httpsession_ {HS}.

Section response.
Context {HS : Type}.
Implicit Types r : HttpResponse HS.

Definition HttpResponse_new (session : HS) (close : bool) : HttpResponse HS :=
  mkResponse [] kUnknown [] close [] false session.
Definition setStatusCode (code : HttpStatusCode) r :=
  mkResponse (headers_ r) code (statusMessage_ r) (closeConnection_ r) (body_ r) (delay_ r) (httpsession_ r).
Definition setStatusMessage (message : bytes) r :=
  mkResponse (headers_ r) (statusCode_ r) message (closeConnection_ r) (body_ r) (delay_ r) (httpsession_ r).
Definition setCloseConnection (on : bool) r :=
  mkResponse (headers_ r) (statusCode_ r) (statusMessage_ r) on (body_ r) (delay_ r) (httpsession_ r).
Definition addHeader (key value : bytes) r :=
  mkResponse (sm_assign key value (headers_ r)) (statusCode_ r) (statusMessage_ r)
    (closeConnection_ r) (body_ r) (delay_ r) (httpsession_ r).
Definition setContentType (contentType : bytes) r := addHeader (str "Content-Type") contentType r.
Definition setBody (body : bytes) r :=
  mkResponse (headers_ r) (statusCode_ r) (statusMessage_ r) (closeConnection_ r) body (delay_ r) (httpsession_ r).
Definition setDelay r :=
  mkResponse (headers_ r) (statusCode_ r) (statusMessage_ r) (closeConnection_ r) (body_ r) true (httpsession_ r).
Definition delay r : bool := delay_ r.

(** [snprintf] into the 32 characters of [buf]. *)
Definition snprintf32 (s : bytes) : bytes := ztake 31 s.

Definition appendToBuffer r (output : Buffer) : res Buffer :=
  let* output := append_cstr
    (snprintf32 (str "HTTP/1.1 " ++ to_string (code_value (statusCode_ r)) ++ str " ")) output in
  let* output := append_string (statusMessage_ r) output in
  let* output := append_cstr kCRLF output in
  let* output :=
    if closeConnection_ r then append_cstr (str "Connection: close" ++ kCRLF) output
    else
      let* output := append_cstr
        (snprintf32 (str "Content-Length: " ++ to_string (zlen (body_ r)) ++ kCRLF)) output in
      append_cstr (str "Connection: Keep-Alive" ++ kCRLF) output in
  let* output := foldM (Request.append_pair (str ": ") kCRLF) (headers_ r) output in
  let* output := append_cstr kCRLF output in
  append_string (body_ r) output.

(** The bytes of a response. *)
Definition response_text r : bytes :=
  (str "HTTP/1.1 " ++ to_string (code_value (statusCode_ r)) ++ str " ") ++
  statusMessage_ r ++ kCRLF ++
  (if closeConnection_ r then str "Connection: close" ++ kCRLF
   else (str "Content-Length: " ++ to_string (zlen (body_ r)) ++ kCRLF) ++
        str "Connection: Keep-Alive" ++ kCRLF) ++
  concat (map (Request.pair_text (str ": ") kCRLF) (headers_ r)) ++ kCRLF ++ body_ r.

(** [snprintf] does not cut the length of a body below 10^13 bytes. *)
Lemma prints_response r :
  zlen (body_ r) < 10 ^ 13 -> prints (appendToBuffer r) (response_text r).
Proof.
  intros Hb. unfold appendToBuffer, response_text, snprintf32.
  rewrite (ztake_all (str "HTTP/1.1 " ++ _)) by (destruct (statusCode_ r); vm_compute; discriminate).
  apply prints_bind; [apply prints_cstr; destruct (statusCode_ r); no_nul|].
  apply prints_bind; [apply prints_string|].
  apply prints_bind; [apply prints_cstr; no_nul|].
  apply prints_bind; [|apply prints_bind; [|apply prints_bind]].
  - destruct (closeConnection_ r); [apply prints_cstr; no_nul|].
    pose proof (zlen_nonneg (body_ r)). pose proof (digits_len 20 13 (zlen (body_ r))).
    rewrite to_string_pos in * by done.
    rewrite ztake_all by (rewrite !zlen_app; change (zlen (str "Content-Length: ")) with 16;
      change (zlen kCRLF) with 2; lia).
    apply prints_bind; apply prints_cstr; [|no_nul].
    assert (Byte.x00 ∉ to_string (zlen (body_ r))) as Hn.
    { apply to_string_no; [lia|vm_compute; intuition discriminate]. }
    rewrite to_string_pos in Hn by done. rewrite !elem_of_app.
    intros [H'|[H'|H']]; [|by apply Hn|]; revert H';
      apply (bool_decide_eq_true_1 (_ ∉ _)); reflexivity.
  - apply prints_foldM. intros. apply Request.prints_pair; no_nul.
  - apply prints_cstr; no_nul.
  - apply prints_string.
Qed.
End response.
End Response.
