(* ===== verification/Limiter.v ===== *)
(** * The request limiter: src/rate/Sample.h, src/rate/Vegas.h, src/rate/Limiter.h

    A TCP-Vegas style limit on the requests in flight.  [Acquire] counts a
    request in and says whether it may run; the closure it returns, [Done],
    counts it out and adds its round trip time to the current sample; the
    sixteenth one recomputes the limit, in IEEE double arithmetic (the
    binary64 operations of the Standard Library's [SpecFloat]).  Atomic
    variables step one at a time: [Done] is two steps, before and under the
    lock [mu_]. *)

From Stdlib Require Import ZArith Lia Floats.SpecFloat.
From stdpp Require Import base list gmap.
From S2P Require Import Prelude.
Local Open Scope Z_scope.

(** ** Doubles *)
Definition dbl_of_int (z : Z) : spec_float := binary_normalize 53 1024 z 0 false.
Definition dadd := SFadd 53 1024.
Definition dsub := SFsub 53 1024.
Definition dmul := SFmul 53 1024.
Definition ddiv := SFdiv 53 1024.
Definition dsqrt := SFsqrt 53 1024.
Definition dlt : spec_float -> spec_float -> bool := SFltb.

(** [(int64_t) d]: towards zero; out of range the x86-64 conversion gives the
    smallest integer. *)
Definition int_of_dbl (d : spec_float) : Z :=
  let v := match d with
           | S754_zero _ => 0
           | S754_finite s m e =>
               let a := if 0 <=? e then Zpos m * 2 ^ e else Zpos m / 2 ^ (- e) in
               if s then - a else a
           | _ => 2 ^ 63
           end in
  if (- 2 ^ 63 <=? v) && (v <? 2 ^ 63) then v else - 2 ^ 63.

#[global] Arguments dbl_of_int : simpl never.
#[global] Arguments int_of_dbl : simpl never.
#[global] Arguments dadd : simpl never.
#[global] Arguments dsub : simpl never.
#[global] Arguments dmul : simpl never.
#[global] Arguments ddiv : simpl never.
#[global] Arguments dsqrt : simpl never.

(** A signed 64-bit operation; leaving the range is undefined. *)
Definition i64 (z : Z) : res Z :=
  if (- 2 ^ 63 <=? z) && (z <? 2 ^ 63) then Ok z else Err UB.

Module Sample.

Record Sample := mkSample { count_ : Z; maxInFlight_ : Z; drop_ : Z; totalRTT_ : Z }.

Definition Sample_new : Sample := mkSample 0 0 0 0.

(** [Add]: the compare-and-exchange loop stores the larger of the two.  The
    atomic sum wraps around. *)
Definition Add (rtt inflight : Z) (drop : bool) (s : Sample) : Sample :=
  mkSample (s64 (count_ s + 1))
    (if maxInFlight_ s <? inflight then inflight else maxInFlight_ s)
    (if drop then 1 else drop_ s)
    (s64 (totalRTT_ s + rtt)).

Definition RTT (s : Sample) : Z :=
  if count_ s =? 0 then 0 else Z.quot (totalRTT_ s) (count_ s).
Definition MaxInFlight (s : Sample) : Z := maxInFlight_ s.
Definition Count (s : Sample) : Z := count_ s.
Definition Drop (s : Sample) : Z := drop_ s.
End Sample.

Module Vegas.
Import Sample.

Inductive Op := Ignore | Success | OpDrop.

Record Status := mkStatus { st_limit : Z; st_inFlight : Z; st_minRTT : Z; st_lastRTT : Z }.

Definition minWindowTime_ : Z := 500 * 1000 * 1000.
Definition maxWindowTime_ : Z := 2000 * 1000 * 1000.
Definition minLimit_ : Z := 8.
Definition maxLimit_ : Z := 4096.

(** [samples]: the samples made so far; [sample_] points to one of them. *)
Record Vegas := mkVegas {
  limit_ : Z;
  inFlight_ : Z;
  updateTime_ : Z;
  minRTT_ : Z;
  samples : list Sample;
  sample_ : nat;
  probes_ : Z;
}.

Definition Vegas_new : Vegas := mkVegas minLimit_ 0 0 0 [Sample_new] 0 100.

Definition sample_at (i : nat) (v : Vegas) : Sample := default Sample_new (samples v !! i).

Definition Stat (v : Vegas) : Status :=
  mkStatus (limit_ v) (inFlight_ v) (Z.quot (minRTT_ v) (1000 * 1000))
    (Z.quot (RTT (sample_at (sample_ v) v)) (1000 * 1000)).

Definition set_inFlight (n : Z) (v : Vegas) : Vegas :=
  mkVegas (limit_ v) n (updateTime_ v) (minRTT_ v) (samples v) (sample_ v) (probes_ v).

(** [Acquire]: the number the closure captures, and whether the request may
    run. *)
Definition Acquire (v : Vegas) : Vegas * (Z * bool) :=
  let inFlight := s64 (inFlight_ v + 1) in
  (set_inFlight inFlight v, (inFlight, inFlight <=? limit_ v)).

(** The closure up to the lock; [now] is the clock.  Returns the sample to
    close, if it gets that far. *)
Definition done_add (inFlight start now : Z) (op : Op) (v : Vegas) : res (Vegas * option nat) :=
  let v := set_inFlight (s64 (inFlight_ v - 1)) v in
  match op with
  | Ignore => Ok (v, None)
  | _ =>
      let* rtt := i64 (now - start) in
      let s := sample_ v in
      let sm := Add rtt inFlight (match op with OpDrop => true | _ => false end) (sample_at s v) in
      let v := mkVegas (limit_ v) (inFlight_ v) (updateTime_ v) (minRTT_ v)
                 (<[s := sm]> (samples v)) (sample_ v) (probes_ v) in
      Ok (v, if (updateTime_ v <? now) && (16 <=? Count sm) then Some s else None)
  end.

(** The queue length estimate. *)
Definition queue_of (limit minRTT lastRTT : Z) : Z :=
  int_of_dbl (dmul (dbl_of_int limit)
    (dsub (dbl_of_int 1) (ddiv (dbl_of_int minRTT) (dbl_of_int lastRTT)))).

Definition threshold_of (limit : Z) : spec_float := ddiv (dsqrt (dbl_of_int limit)) (dbl_of_int 2).

(** The new limit, or [None] when the code returns without storing one. *)
Definition clamp (newLimit : spec_float) : Z :=
  int_of_dbl (dbl_of_int (Z.max minLimit_ (Z.min maxLimit_ (int_of_dbl newLimit)))).
Definition times (k : Z) (d : spec_float) : spec_float := dmul (dbl_of_int k) d.

Definition new_limit (limit queue maxInFlight : Z) (drop : bool) : res (option Z) :=
  let threshold := threshold_of limit in
  let q := dbl_of_int queue in
  if drop then Ok (Some (clamp (dsub (dbl_of_int limit) threshold)))
  else
    let* maxInFlight2 := i64 (maxInFlight * 2) in
    if maxInFlight2 <? limit then Ok None
    else if dlt q threshold then Ok (Some (clamp (dadd (dbl_of_int limit) (times 6 threshold))))
    else if dlt q (times 2 threshold) then Ok (Some (clamp (dadd (dbl_of_int limit) (times 3 threshold))))
    else if dlt q (times 3 threshold) then Ok (Some (clamp (dadd (dbl_of_int limit) threshold)))
    else if dlt (times 6 threshold) q then Ok (Some (clamp (dsub (dbl_of_int limit) threshold)))
    else Ok None.

(** The probe: now and then the smallest round trip time is measured anew. *)
Definition probe (limit maxFlight lastRTT rand probes minRTT : Z) : res (Z * Z) :=
  if probes <=? 0 then
    let* maxFlight2 := i64 (maxFlight * 2) in
    if (maxFlight2 <? limit) || (maxFlight <=? minLimit_)
    then Ok (3 * limit + Z.rem rand (3 * limit), lastRTT)
    else Ok (probes, minRTT)
  else Ok (probes, minRTT).

(** The closure under the lock, for the sample [s]; [rand] is the value of
    [std::rand()]. *)
Definition done_update (s : nat) (now rand : Z) (v : Vegas) : res Vegas :=
  if negb (bool_decide (sample_ v = s)) then Ok v else
  let sm := sample_at s v in
  let v := mkVegas (limit_ v) (inFlight_ v) (updateTime_ v) (minRTT_ v)
             (samples v ++ [Sample_new]) (length (samples v)) (probes_ v) in
  let lastRTT := RTT sm in
  if lastRTT <=? 0 then Ok v else
  let* window := i64 (lastRTT * 5) in
  let* updateTime := i64 (now + window) in
  let* updateTime :=
    if window <? minWindowTime_ then i64 (now + minWindowTime_)
    else if maxWindowTime_ <? window then i64 (now + maxWindowTime_)
    else Ok updateTime in
  let limit := limit_ v in
  let queue := queue_of limit (minRTT_ v) lastRTT in
  let* probes := i64 (probes_ v - 1) in
  let* (probes, minRTT) := probe limit (MaxInFlight sm) lastRTT rand probes (minRTT_ v) in
  let minRTT := if (minRTT =? 0) || (lastRTT <? minRTT) then lastRTT else minRTT in
  let* stored := new_limit limit queue (MaxInFlight sm) (negb (Drop sm =? 0)) in
  Ok (mkVegas (default limit stored) (inFlight_ v) updateTime minRTT (samples v) (sample_ v) probes).

#[global] Arguments clamp : simpl never.
#[global] Arguments times : simpl never.
#[global] Arguments threshold_of : simpl never.

(** ** The limit *)
Definition in_limits (z : Z) : Prop := minLimit_ <= z <= maxLimit_.

(** Checks a property of every limit by computation. *)
Definition all_limits (P : Z -> bool) : bool := forallb (fun k => P (minLimit_ + Z.of_nat k)) (seq 0 4089).

Lemma all_limits_spec P z : all_limits P = true -> in_limits z -> P z = true.
Proof.
  unfold all_limits, in_limits, minLimit_, maxLimit_. rewrite forallb_forall. intros H Hz.
  specialize (H (Z.to_nat (z - 8))). rewrite in_seq in H.
  replace (8 + Z.of_nat (Z.to_nat (z - 8))) with z in H by lia. apply H. lia.
Qed.

Lemma exact_check : all_limits (fun z => int_of_dbl (dbl_of_int z) =? z) = true.
Proof. vm_compute. reflexivity. Qed.

Lemma clamp_eq d : clamp d = Z.max minLimit_ (Z.min maxLimit_ (int_of_dbl d)).
Proof.
  unfold clamp. apply Z.eqb_eq, (all_limits_spec _ _ exact_check).
  unfold in_limits, minLimit_, maxLimit_. lia.
Qed.

Lemma clamp_in_limits d : in_limits (clamp d).
Proof. rewrite clamp_eq. unfold in_limits, minLimit_, maxLimit_. lia. Qed.

Lemma new_limit_in_limits limit queue m drop l :
  new_limit limit queue m drop = Ok (Some l) -> in_limits l.
Proof.
  unfold new_limit. destruct drop; [intros [= <-]; apply clamp_in_limits|].
  intros (m2 & _ & H)%bind_Ok_inv. revert H.
  repeat match goal with |- context [if ?c then _ else _] => destruct c end;
    intros [=]; subst; apply clamp_in_limits.
Qed.

(** What the formulas do to a limit before it is clamped: down by one
    threshold, up by 1, 3 and 6. *)
Definition moves_ok (z : Z) : bool :=
  let d := dbl_of_int z in
  let t := ddiv (dsqrt d) (dbl_of_int 2) in
  (int_of_dbl (dsub d t) <? z) && (z <? int_of_dbl (dadd d t)) &&
  (z <? int_of_dbl (dadd d (times 3 t))) && (z <? int_of_dbl (dadd d (times 6 t))).

Lemma moves_check : all_limits moves_ok = true.
Proof. vm_compute. reflexivity. Qed.

Lemma clamp_down z : in_limits z -> clamp (dsub (dbl_of_int z) (threshold_of z)) <= z /\
  (minLimit_ < z -> clamp (dsub (dbl_of_int z) (threshold_of z)) < z).
Proof.
  intros Hz. pose proof (all_limits_spec _ _ moves_check Hz) as H. unfold moves_ok in H.
  apply andb_true_iff in H as [[[H%Z.ltb_lt _]%andb_true_iff _]%andb_true_iff _].
  rewrite clamp_eq. unfold threshold_of, in_limits, minLimit_, maxLimit_ in *. lia.
Qed.

Lemma clamp_up z k : in_limits z -> In k [1; 3; 6] ->
  let t := if k =? 1 then threshold_of z else times k (threshold_of z) in
  z <= clamp (dadd (dbl_of_int z) t) /\ (z < maxLimit_ -> z < clamp (dadd (dbl_of_int z) t)).
Proof.
  intros Hz Hk. pose proof (all_limits_spec _ _ moves_check Hz) as H. unfold moves_ok in H.
  rewrite !andb_true_iff, !Z.ltb_lt in H. destruct H as [[[_ H1] H3] H6].
  cbv zeta. rewrite clamp_eq. unfold threshold_of, in_limits, minLimit_, maxLimit_ in *.
  destruct Hk as [<-|[<-|[<-|[]]]]; simpl; lia.
Qed.

(** ** The runs of a limiter: [n] closures are out, [pend] are the samples some
    thread is about to close. *)
Inductive run : Vegas -> nat -> list nat -> Prop :=
  | run_new : run Vegas_new 0 []
  | run_acquire v n pend :
      run v n pend -> Z.of_nat n < 2 ^ 62 -> run (Acquire v).1 (S n) pend
  | run_done v n pend inFlight start now op v' s :
      run v (S n) pend -> done_add inFlight start now op v = Ok (v', s) ->
      run v' n (match s with Some s => s :: pend | None => pend end)
  | run_update v n pend1 s pend2 now rand v' :
      run v n (pend1 ++ s :: pend2) -> done_update s now rand v = Ok v' -> run v' n (pend1 ++ pend2).

Record inv (v : Vegas) (n : nat) : Prop := {
  inv_count : inFlight_ v = Z.of_nat n;
  inv_limit : in_limits (limit_ v);
  inv_n : Z.of_nat n <= 2 ^ 62;
}.

Lemma done_add_fields inFlight start now op v v' s :
  done_add inFlight start now op v = Ok (v', s) ->
  inFlight_ v' = s64 (inFlight_ v - 1) /\ limit_ v' = limit_ v.
Proof.
  unfold done_add. destruct op; [by intros [= <- _]|..];
    intros (rtt & _ & [= <- _])%bind_Ok_inv; done.
Qed.

Lemma done_update_fields s now rand v v' :
  in_limits (limit_ v) -> done_update s now rand v = Ok v' ->
  inFlight_ v' = inFlight_ v /\ in_limits (limit_ v').
Proof.
  intros Hl. unfold done_update. case_bool_decide; simpl; [|by intros [= <-]].
  destruct (_ <=? 0); [by intros [= <-]|].
  intros (w & _ & (u & _ & (u' & _ & (p & _ & ([p' m] & _ & (st & Hst & [= <-])%bind_Ok_inv)%bind_Ok_inv)
    %bind_Ok_inv)%bind_Ok_inv)%bind_Ok_inv)%bind_Ok_inv.
  simpl. split; [done|]. destruct st as [l|]; simpl; [|done]. by eapply new_limit_in_limits.
Qed.

Lemma limiter_run_inv v n pend : run v n pend -> inv v n.
Proof.
  induction 1 as [|v n pend _ [Hc Hl Hn] Hlt|v n pend i st now op v' s _ [Hc Hl Hn] E
                 |v n p1 s p2 now rand v' _ [Hc Hl Hn] E].
  - split; [done| |done]. unfold in_limits, minLimit_, maxLimit_. simpl. unfold minLimit_. lia.
  - split; simpl; [|done|lia]. rewrite Hc, swrap_small; lia.
  - apply done_add_fields in E as [Ei El]. rewrite Hc, swrap_small in Ei by lia.
    split; [lia|by rewrite El|lia].
  - apply done_update_fields in E as [Ei El]; [|done]. split; [congruence|done|done].
Qed.

(** ** The properties of the limiter *)

(** C40: In every run of the rate limiter the in-flight counter is the number
    of requests that were admitted or refused and not yet reported, and the
    limit stays between 8 and 4096. *)
Theorem limiter_counts_in_flight v n pend :
  run v n pend ->
  inFlight_ v = Z.of_nat n /\ minLimit_ <= limit_ v <= maxLimit_.
Proof. intros H%limiter_run_inv. split; apply H. Qed.

Lemma limiter_counts_in_flight_witness :
  inFlight_ (Acquire (Acquire Vegas_new).1).1 = 2 /\
  minLimit_ <= limit_ (Acquire (Acquire Vegas_new).1).1 <= maxLimit_.
Proof.
  refine (limiter_counts_in_flight (Acquire (Acquire Vegas_new).1).1 2 [] _).
  apply run_acquire; [apply run_acquire; [apply run_new|]|]; reflexivity.
Defined.

(** A new limit is within 8 and 4096; after a drop it is smaller (unless
    at the minimum), and with a short queue it is larger (unless at the
    maximum), for every limit, queue and threshold in IEEE doubles. *)
Theorem limiter_moves_the_limit limit queue m drop l :
  minLimit_ <= limit <= maxLimit_ -> new_limit limit queue m drop = Ok (Some l) ->
  minLimit_ <= l <= maxLimit_ /\
  (drop = true -> l <= limit /\ (minLimit_ < limit -> l < limit)) /\
  (drop = false -> limit <= m * 2 /\
    (dlt (dbl_of_int queue) (times 3 (threshold_of limit)) = true \/
     dlt (dbl_of_int queue) (times 2 (threshold_of limit)) = true \/
     dlt (dbl_of_int queue) (threshold_of limit) = true ->
       limit <= l /\ (limit < maxLimit_ -> limit < l))).
Proof.
  intros Hl E. split; [by eapply new_limit_in_limits|]. revert E. unfold new_limit. split.
  - intros ->. injection E as <-. by apply clamp_down.
  - intros ->. revert E. intros (m2 & Hm & H)%bind_Ok_inv. unfold i64 in Hm.
    destruct (_ && _); [|done]. injection Hm as <-. revert H.
    destruct (Z.ltb_spec (m * 2) limit); [done|].
    pose proof (clamp_up limit 6 Hl ltac:(simpl; auto)) as H6.
    pose proof (clamp_up limit 3 Hl ltac:(simpl; auto)) as H3.
    pose proof (clamp_up limit 1 Hl ltac:(simpl; auto)) as H1. simpl in H1, H3, H6.
    destruct (dlt (dbl_of_int queue) (threshold_of limit)); [by intros [= <-]|].
    destruct (dlt (dbl_of_int queue) (times 2 (threshold_of limit))); [by intros [= <-]|].
    destruct (dlt (dbl_of_int queue) (times 3 (threshold_of limit))); [by intros [= <-]|].
    intros _. split; [done|]. intros [|[|]]; done.
Qed.

Lemma limiter_moves_the_limit_witness :
  new_limit 100 0 60 false = Ok (Some 130) /\ minLimit_ <= 130 <= maxLimit_ /\
  (true = true -> 95 <= 100 /\ (minLimit_ < 100 -> 95 < 100)).
Proof.
  split; [vm_compute; reflexivity|]. split.
  - refine (proj1 (limiter_moves_the_limit 100 0 60 false 130 _ _)); vm_compute;
      [split; discriminate|reflexivity].
  - refine (proj1 (proj2 (limiter_moves_the_limit 100 0 60 true 95 _ _))); vm_compute;
      [split; discriminate|reflexivity].
Defined.
End Vegas.

Module Limiter.
Import Sample Vegas.

(** The closures [Allow] returns: what [Acquire] captured, and the start
    time. *)
Record Func := mkFunc { f_inFlight : Z; f_start : Z }.

(** [Allow]: a refused request is counted out at once. *)
Definition Allow (now : Z) (v : Vegas) : res (Vegas * option Func) :=
  let '(v, (inFlight, success)) := Acquire v in
  if (success : bool) then Ok (v, Some (mkFunc inFlight now))
  else
    let* (v, _) := done_add inFlight 0 now Ignore v in
    Ok (v, None).

(** Calling the closure, with nothing in between. *)
Definition call (f : Func) (op : Op) (now rand : Z) (v : Vegas) : res Vegas :=
  let* (v, s) := done_add (f_inFlight f) (f_start f) now op v in
  match s with
  | Some s => done_update s now rand v
  | None => Ok v
  end.

Lemma Allow_spec now v n pend :
  run v n pend -> Z.of_nat n < 2 ^ 62 ->
  exists v' o, Allow now v = Ok (v', o) /\
    (is_Some o <-> Z.of_nat n < limit_ v) /\ limit_ v' = limit_ v /\
    run v' (match o with Some _ => S n | None => n end) pend.
Proof.
  intros H Hn. pose proof (limiter_run_inv _ _ _ H) as [Hc Hl _].
  pose proof (run_acquire _ _ _ H Hn) as Ha.
  unfold Allow. unfold Acquire in *. simpl in Ha.
  rewrite Hc, swrap_small in * by lia.
  destruct (Z.leb_spec (Z.of_nat n + 1) (limit_ v)).
  - eexists _, (Some _). split; [reflexivity|]. split; [|by split].
    split; [lia|eauto].
  - eexists _, None. split; [reflexivity|]. split; [split; [by intros []|lia]|]. split; [done|].
    exact (run_done _ _ _ (Z.of_nat n + 1) 0 now Ignore _ None Ha eq_refl).
Qed.

(** Allow admits a request exactly when fewer requests than the limit are
    in flight, and counts it as in flight only then. *)
Theorem limiter_admits_up_to_limit now v n pend :
  run v n pend -> Z.of_nat n < 2 ^ 62 ->
  exists v' o, Allow now v = Ok (v', o) /\
    (is_Some o <-> Z.of_nat n < limit_ v) /\ limit_ v' = limit_ v /\
    run v' (match o with Some _ => S n | None => n end) pend.
Proof. apply Allow_spec. Qed.

Lemma limiter_admits_up_to_limit_witness :
  exists v' o, Allow 5 Vegas_new = Ok (v', o) /\ is_Some o.
Proof.
  destruct (limiter_admits_up_to_limit 5 Vegas_new 0 []) as (v' & o & E & [_ H] & _).
  - apply run_new.
  - reflexivity.
  - exists v', o. split; [exact E|]. apply H. reflexivity.
Defined.
End Limiter.
