(* ===== verification/HttpServer.v ===== *)
(** * The HTTP server: src/http/HttpServer.h, src/http/HttpServer.cc,
    src/http/HttpSession.h

    A connection's bytes go through its parser; a complete request is handed
    to the handler registered for its path, if the limiter admits it.  The
    response is an object shared by the server, the handler and the callback
    the handler may pass on, so responses and callbacks live in a heap. *)

From Stdlib Require Import ZArith Lia.
From stdpp Require Import base list gmap strings.
From S2P Require Import Prelude Endian Buffer Interfaces Text StringMap Http Limiter.
Local Open Scope Z_scope.
Import Request Context.

Module HttpServer.

(** The closure [new Callback([=]{ ... })] of [onRequest]: what it captures. *)
Record Callback := mkCallback { cb_func : Limiter.Func; cb_response : nat }.

Section server.
Context {S W : Type} `{Countable S} `{SessionOps S W}.

(** [contexts]: [HttpSession::context_]; [session_context]: [Session::context_],
    where the server leaves the callback for the handler. *)
Record World := mkWorld {
  limiter_ : Vegas.Vegas;
  contexts : gmap S HttpContext;
  session_context : gmap S nat;
  callbacks : list (option Callback);
  responses : list (Response.HttpResponse S);
  net : W;
}.

Definition World_new (w : W) : World := mkWorld Vegas.Vegas_new ∅ ∅ [] [] w.

Definition set_limiter (v : Vegas.Vegas) (w : World) : World :=
  mkWorld v (contexts w) (session_context w) (callbacks w) (responses w) (net w).
Definition set_context (conn : S) (x : HttpContext) (w : World) : World :=
  mkWorld (limiter_ w) (<[conn := x]> (contexts w)) (session_context w) (callbacks w) (responses w) (net w).
Definition set_net (n : W) (w : World) : World :=
  mkWorld (limiter_ w) (contexts w) (session_context w) (callbacks w) (responses w) n.
Definition set_responses (l : list (Response.HttpResponse S)) (w : World) : World :=
  mkWorld (limiter_ w) (contexts w) (session_context w) (callbacks w) l (net w).

Definition getContext (conn : S) (w : World) : HttpContext :=
  default HttpContext_new (contexts w !! conn).

(** A pointer to a response is its place in the heap. *)
Definition get_response (rp : nat) (w : World) : res (Response.HttpResponse S) :=
  match responses w !! rp with Some r => Ok r | None => Err UB end.
Definition new_response (r : Response.HttpResponse S) (w : World) : nat * World :=
  (length (responses w), set_responses (responses w ++ [r]) w).
Definition put_response (rp : nat) (r : Response.HttpResponse S) (w : World) : World :=
  set_responses (<[rp := r]> (responses w)) w.

(** [new Callback] and [conn->SetContext(cb)]. *)
Definition new_callback (conn : S) (cb : Callback) (w : World) : World :=
  mkWorld (limiter_ w) (contexts w) (<[conn := length (callbacks w)]> (session_context w))
    (callbacks w ++ [Some cb]) (responses w) (net w).

Definition doResponse (rp : nat) (w : World) : res World :=
  let* buf := Buffer_new kInitialSize in
  let* r := get_response rp w in
  let* buf := Response.appendToBuffer r buf in
  let* n := session_send (Response.httpsession_ r) buf (net w) in
  Ok (set_net n w).

Definition set_status (code : Response.HttpStatusCode) (message : bytes) (rp : nat) (w : World) : res World :=
  let* r := get_response rp w in
  Ok (put_response rp (Response.setStatusMessage message (Response.setStatusCode code r)) w).

(** Running a callback, at time [now]; one that was deleted is gone. *)
Definition run_callback (cb : nat) (now rand : Z) (w : World) : res World :=
  match callbacks w !! cb with
  | Some (Some c) =>
      let* v := Limiter.call (cb_func c) Vegas.Success now rand (limiter_ w) in
      let w := set_limiter v w in
      let* w := set_status Response.k200Ok (str "OK") (cb_response c) w in
      doResponse (cb_response c) w
  | _ => Err UB
  end.

Definition delete_callback (cb : nat) (w : World) : World :=
  mkWorld (limiter_ w) (contexts w) (session_context w) (<[cb := None]> (callbacks w)) (responses w) (net w).

(** A handler gets the request and the pointer to the response. *)
Definition HttpCallback := HttpRequest -> nat -> World -> res World.

(** [RegHandler]: [insert] keeps the first handler of a path. *)
Definition RegHandler (url : bytes) (cb : HttpCallback) (handler_ : gmap bytes HttpCallback)
    : gmap bytes HttpCallback :=
  match handler_ !! url with Some _ => handler_ | None => <[url := cb]> handler_ end.

Context (handler_ : gmap bytes HttpCallback).

Definition close_of (req : HttpRequest) : bool :=
  let connection := getHeader (str "Connection") req in
  bool_decide (connection = str "close") ||
  (bool_decide (getVersion req = kHttp10) && negb (bool_decide (connection = str "Keep-Alive"))).

Definition onRequest (conn : S) (req : HttpRequest) (now : Z) (w : World) : res World :=
  let close := close_of req in
  let '(response, w) := new_response (Response.HttpResponse_new conn close) w in
  let* w :=
    match handler_ !! path_ req with
    | Some handler =>
        let* (v, allowed) := Limiter.Allow now (limiter_ w) in
        let w := set_limiter v w in
        match allowed with
        | Some func =>
            let w := new_callback conn (mkCallback func response) w in
            let* w := handler req response w in
            let* r := get_response response w in
            if negb (Response.delay r) then
              let* w := set_status Response.k200Ok (str "OK") response w in
              doResponse response w
            else Ok w
        | None =>
            let* w := set_status Response.k200Ok (str "Too Frequency") response w in
            doResponse response w
        end
    | None =>
        let* w := set_status Response.k404NotFound (str "NotFound") response w in
        doResponse response w
    end in
  let* r := get_response response w in
  if Response.closeConnection_ r then
    let* n := session_close conn (net w) in
    Ok (set_net n w)
  else Ok w.

(** The text of the 400 answer. *)
Definition bad_request_text : bytes := str "HTTP/1.1 400 Bad Request" ++ kCRLF ++ kCRLF.

Definition onMessage (conn : S) (buf : Buffer) (now : Z) (w : World) : res (Buffer * World) :=
  let* (ok, x, buf) := parseRequest (getContext conn w) buf in
  let w := set_context conn x w in
  let* w :=
    if negb ok then
      let* b := Buffer_new kInitialSize in
      let* b := append_cstr bad_request_text b in
      let* n := session_send conn b (net w) in
      Ok (set_net n w)
    else Ok w in
  if gotAll x then
    let* w := onRequest conn (request_ x) now w in
    Ok (buf, set_context conn (reset (getContext conn w)) w)
  else Ok (buf, w).
End server.
Arguments World : clear implicits.
Arguments World S W {_ _}.
Arguments HttpCallback : clear implicits.
Arguments HttpCallback S W {_ _}.

(** ** Answering a request *)
Section answers.
Context {S W : Type} `{Countable S} `{SessionLaws S W}.
Implicit Types w : World S W.

(** A handler that only acts on the rest of the process and answers nothing
    itself. *)
Definition quiet (h : HttpCallback S W) : Prop :=
  forall req rp w, exists n, h req rp w = Ok (set_net n w) /\ forall s, sent n s = sent (net w) s.

(** The response with status [code] and [message]. *)
Definition plain (conn : S) (close : bool) (code : Response.HttpStatusCode) (message : bytes)
    : Response.HttpResponse S := Response.mkResponse [] code message close [] false conn.

Lemma doResponse_sends rp r w :
  responses w !! rp = Some r -> zlen (Response.body_ r) < 10 ^ 13 ->
  zlen (Response.response_text r) < 2 ^ 60 ->
  exists n, doResponse rp w = Ok (set_net n w) /\
    sent n (Response.httpsession_ r) = sent (net w) (Response.httpsession_ r) ++ Response.response_text r /\
    forall s, s <> Response.httpsession_ r -> sent n s = sent (net w) s.
Proof.
  intros Hr Hb Hl. unfold doResponse, get_response. rewrite Buffer_new_default, Hr. mstep.
  destruct (Response.prints_response r Hb newBuffer [] newBuffer_represents) as (b & -> & HR);
    [fits_lia|]. mstep.
  destruct (session_send_spec (Response.httpsession_ r) b _ (net w) HR) as (n & -> & Hs & Ho).
  exists n. by rewrite app_nil_l in Hs.
Qed.

(** Setting the status of a response without headers and body, and sending
    it. *)
Lemma status_sends code message conn close code0 message0 r0 w :
  In (code, message) [(Response.k200Ok, str "OK"); (Response.k200Ok, str "Too Frequency");
                      (Response.k404NotFound, str "NotFound")] ->
  r0 = plain conn close code0 message0 -> forall rp, responses w !! rp = Some r0 ->
  exists n, (let* w := set_status code message rp w in doResponse rp w)
      = Ok (set_net n (put_response rp (plain conn close code message) w)) /\
    sent n conn = sent (net w) conn ++ Response.response_text (plain conn close code message) /\
    forall s, s <> conn -> sent n s = sent (net w) s.
Proof.
  intros Hc -> rp Hr. unfold set_status, get_response. rewrite Hr. mstep.
  destruct (doResponse_sends rp (plain conn close code message)
    (put_response rp (plain conn close code message) w)) as (n & E & Hs & Ho).
  - unfold put_response. simpl. apply list_lookup_insert_eq. by eapply lookup_lt_Some.
  - reflexivity.
  - destruct Hc as [[= <- <-]|[[= <- <-]|[[= <- <-]|[]]]]; destruct close; vm_compute; reflexivity.
  - by exists n.
Qed.

Context (handler_ : gmap bytes (HttpCallback S W)).

(** The status line of the answer to a request when [n] requests are in
    flight. *)
Definition status_of (req : HttpRequest) (limit : Z) (n : nat) : Response.HttpStatusCode * bytes :=
  match handler_ !! path_ req with
  | None => (Response.k404NotFound, str "NotFound")
  | Some _ => if Z.of_nat n <? limit then (Response.k200Ok, str "OK")
              else (Response.k200Ok, str "Too Frequency")
  end.

(** Whether the request counts as in flight from now on. *)
Definition stays_in_flight (req : HttpRequest) (limit : Z) (n : nat) : bool :=
  match handler_ !! path_ req with None => false | Some _ => Z.of_nat n <? limit end.

Definition answer_text (conn : S) (req : HttpRequest) (limit : Z) (n : nat) : bytes :=
  let '(code, message) := status_of req limit n in
  Response.response_text (plain conn (close_of req) code message).

Lemma finish conn close code message rp w :
  responses w !! rp = Some (plain conn close code message) ->
  exists n, (let* r := get_response rp w in
             if Response.closeConnection_ r then let* n := session_close conn (net w) in Ok (set_net n w)
             else Ok w) = Ok (set_net n w) /\ forall s, sent n s = sent (net w) s.
Proof.
  intros Hr. unfold get_response. rewrite Hr. mstep. simpl. destruct close.
  - destruct (session_close_spec conn (net w)) as (n & -> & Hs). by exists n.
  - exists (net w). by destruct w.
Qed.

(** The end of [onRequest]: the status, the answer, the close. *)
Lemma send_and_finish conn close code message code0 message0 rp w0 w :
  responses w !! rp = Some (plain conn close code0 message0) ->
  In (code, message) [(Response.k200Ok, str "OK"); (Response.k200Ok, str "Too Frequency");
                      (Response.k404NotFound, str "NotFound")] ->
  (forall s, sent (net w) s = sent (net w0) s) ->
  exists m, (let* w2 := (let* w2 := set_status code message rp w in doResponse rp w2) in
             let* r := get_response rp w2 in
             if Response.closeConnection_ r then let* n := session_close conn (net w2) in Ok (set_net n w2)
             else Ok w2)
            = Ok (set_net m (put_response rp (plain conn close code message) w)) /\
    sent m conn = sent (net w0) conn ++ Response.response_text (plain conn close code message) /\
    forall s, s <> conn -> sent m s = sent (net w0) s.
Proof.
  intros Hr Hin Hsame.
  destruct (status_sends code message conn close code0 message0 _ w Hin eq_refl _ Hr) as (m & -> & Hs & Ho). mstep.
  destruct (finish conn close code message rp
    (set_net m (put_response rp (plain conn close code message) w))) as (m' & -> & Hm').
  { unfold put_response. simpl. apply list_lookup_insert_eq. by eapply lookup_lt_Some. }
  simpl in Hm'. exists m'. split; [by destruct w|]. split.
  - by rewrite Hm', Hs, Hsame.
  - intros s Hne. by rewrite Hm', Ho, Hsame.
Qed.

Lemma new_response_lookup w (r0 : Response.HttpResponse S) :
  (responses w ++ [r0]) !! length (responses w) = Some r0.
Proof. by rewrite lookup_app_r, Nat.sub_diag by done. Qed.

Lemma onRequest_answers conn req now w n pend :
  (forall h, handler_ !! path_ req = Some h -> quiet h) ->
  Vegas.run (limiter_ w) n pend -> Z.of_nat n < 2 ^ 62 ->
  exists w', onRequest handler_ conn req now w = Ok w' /\
    sent (net w') conn = sent (net w) conn ++ answer_text conn req (Vegas.limit_ (limiter_ w)) n /\
    (forall s, s <> conn -> sent (net w') s = sent (net w) s) /\
    Vegas.limit_ (limiter_ w') = Vegas.limit_ (limiter_ w) /\
    Vegas.run (limiter_ w')
      (if stays_in_flight req (Vegas.limit_ (limiter_ w)) n then Datatypes.S n else n) pend /\
    contexts w' = contexts w.
Proof.
  intros Hq Hrun Hn. unfold onRequest, answer_text, status_of, stays_in_flight. cbn [new_response].
  set (w1 := set_responses _ w).
  destruct (handler_ !! path_ req) as [h|] eqn:Hh.
  - destruct (Limiter.Allow_spec now (limiter_ w) n pend Hrun Hn) as (v & o & E & Ho & Hl & Hrun').
    change (limiter_ w1) with (limiter_ w). rewrite E. mstep. destruct o as [f|].
    + rewrite (proj2 (Z.ltb_lt _ _)) by (apply Ho; eauto).
      set (w2 := new_callback conn (mkCallback f (length (responses w))) (set_limiter v w1)).
      destruct (Hq h eq_refl req (length (responses w)) w2) as (m & -> & Hm). mstep.
      unfold get_response at 1. simpl responses. rewrite new_response_lookup. mstep. simpl negb. cbv iota.
      edestruct (send_and_finish conn (close_of req) Response.k200Ok (str "OK")
        Response.kUnknown [] (length (responses w)) w (set_net m w2)) as (m' & -> & Hs & Hoth);
        [apply new_response_lookup|simpl; auto|exact Hm|].
      eexists. split; [reflexivity|]. simpl. by repeat split.
    + rewrite (proj2 (Z.ltb_ge _ _)) by (apply Z.nlt_ge; intros [? [=]]%Ho).
      edestruct (send_and_finish conn (close_of req) Response.k200Ok (str "Too Frequency")
        Response.kUnknown [] (length (responses w)) w (set_limiter v w1)) as (m' & -> & Hs & Hoth);
        [apply new_response_lookup|simpl; auto|done|].
      eexists. split; [reflexivity|]. simpl. by repeat split.
  - edestruct (send_and_finish conn (close_of req) Response.k404NotFound (str "NotFound")
      Response.kUnknown [] (length (responses w)) w w1) as (m' & -> & Hs & Hoth);
      [apply new_response_lookup|simpl; auto|done|].
    eexists. split; [reflexivity|]. simpl. by repeat split.
Qed.

(** ** The properties of the server *)

(** The process when the handler of an admitted request is called: the limiter
    has let it in, its callback and its response, on the same connection, are
    new. *)
Definition let_in (conn : S) (req : HttpRequest) (v : Vegas.Vegas) (f : Limiter.Func) w : World S W :=
  new_callback conn (mkCallback f (length (responses w)))
    (set_limiter v (set_responses (responses w ++ [Response.HttpResponse_new conn (close_of req)]) w)).
(** Between [w] and [w'] the server has sent [text] to the session [s] alone. *)
Definition sends (s : S) (text : bytes) (w w' : World S W) : Prop :=
  sent (net w') s = sent (net w) s ++ text /\ forall s', s' <> s -> sent (net w') s' = sent (net w) s'.
(** The answer that ends an admitted request. *)
Definition ok_status (r : Response.HttpResponse S) : Response.HttpResponse S :=
  Response.setStatusMessage (str "OK") (Response.setStatusCode Response.k200Ok r).
Definition sendable (r : Response.HttpResponse S) : Prop :=
  zlen (Response.body_ r) < 10 ^ 13 /\ zlen (Response.response_text r) < 2 ^ 60.

Lemma close_if conn (r : Response.HttpResponse S) w :
  exists m, (if Response.closeConnection_ r then let* n := session_close conn (net w) in Ok (set_net n w) else Ok w)
      = Ok (set_net m w) /\ forall s, sent m s = sent (net w) s.
Proof.
  destruct (Response.closeConnection_ r).
  - destruct (session_close_spec conn (net w)) as (m & -> & Hs). by exists m.
  - exists (net w). by destruct w.
Qed.

(** What happens to an admitted request, by what its handler did. *)
Lemma onRequest_handled conn req h now w v f :
  handler_ !! path_ req = Some h -> Limiter.Allow now (limiter_ w) = Ok (v, Some f) ->
  match h req (length (responses w)) (let_in conn req v f w) with
  | Err e => onRequest handler_ conn req now w = Err e
  | Ok w1 =>
      forall r, responses w1 !! length (responses w) = Some r -> sendable (ok_status r) ->
      exists w', onRequest handler_ conn req now w = Ok w' /\
        if Response.delay r then forall s, sent (net w') s = sent (net w1) s
        else sends (Response.httpsession_ r) (Response.response_text (ok_status r)) w1 w'
  end.
Proof.
  intros Hh Ha. unfold onRequest. rewrite Hh. cbn [new_response]. cbv beta iota zeta.
  change (limiter_ (set_responses _ w)) with (limiter_ w). rewrite Ha. mstep. fold (let_in conn req v f w).
  destruct (h req (length (responses w)) (let_in conn req v f w)) as [w1|e]; mstep; [|done].
  intros r Hr [Hb Ht]. unfold get_response at 1. rewrite Hr. mstep. destruct (Response.delay r) eqn:Hd; cbn [negb].
  - mstep. unfold get_response. rewrite Hr. mstep. destruct (close_if conn r w1) as (m & -> & Hm). eauto.
  - unfold set_status, get_response. rewrite Hr. mstep. fold (ok_status r).
    set (w2 := put_response (length (responses w)) (ok_status r) w1).
    assert (responses w2 !! length (responses w) = Some (ok_status r)) as Hr2.
    { unfold w2, put_response. simpl. apply list_lookup_insert_eq. by eapply lookup_lt_Some. }
    destruct (doResponse_sends _ _ w2 Hr2 Hb Ht) as (m & -> & Hs & Ho). mstep. cbn [responses set_net]. rewrite Hr2. mstep.
    destruct (close_if conn (ok_status r) (set_net m w2)) as (m' & -> & Hm').
    eexists. split; [reflexivity|]. split; [exact (eq_trans (Hm' _) Hs)|].
    intros s' Hne. exact (eq_trans (Hm' s') (Ho s' Hne)).
Qed.

(** What happens to a request that no handler sees. *)
Lemma onRequest_unhandled conn req now w code message :
  (handler_ !! path_ req = None /\ (code, message) = (Response.k404NotFound, str "NotFound")) \/
  (is_Some (handler_ !! path_ req) /\ (exists v, Limiter.Allow now (limiter_ w) = Ok (v, None)) /\
   (code, message) = (Response.k200Ok, str "Too Frequency")) ->
  exists w', onRequest handler_ conn req now w = Ok w' /\
    sends conn (Response.response_text (plain conn (close_of req) code message)) w w'.
Proof.
  intros Hreq. unfold onRequest. cbn [new_response]. cbv beta iota zeta.
  destruct (handler_ !! path_ req) as [h|] eqn:Hh.
  - destruct Hreq as [[? _]|(_ & [v Ha] & [= -> ->])]; [congruence|].
    change (limiter_ (set_responses _ w)) with (limiter_ w). rewrite Ha. mstep.
    edestruct (send_and_finish conn (close_of req) Response.k200Ok (str "Too Frequency")
      Response.kUnknown [] (length (responses w)) w) as (m' & -> & Hs & Hoth);
      [apply new_response_lookup|simpl; auto|done|]. eexists. by split.
  - destruct Hreq as [(_ & [= -> ->])|([h Hh'] & _)]; [|congruence].
    edestruct (send_and_finish conn (close_of req) Response.k404NotFound (str "NotFound")
      Response.kUnknown [] (length (responses w)) w) as (m' & -> & Hs & Hoth);
      [apply new_response_lookup|simpl; auto|done|]. eexists. by split.
Qed.

(** C37: What onMessage does with the bytes of any connection, at any point of
    its life and with any handlers, unless the parser fails an assertion on a
    line that failed before: while a request is incomplete it sends nothing
    and keeps the state of the parser; a malformed one is answered 400; a
    complete one is answered 404 for an unknown path, Too Frequency over the
    limit, and else its handler runs once, on the request that was parsed; an
    exception of the handler gets out, otherwise the response it was given is
    sent with 200 OK unless it is delayed, to its session and no other, and
    the parser is ready for the next request. Bodies and responses are below
    10^13 and 2^60 bytes, and fewer than 2^62 requests are in flight. *)
Theorem http_serves_request conn buf now w n pend ok x b' :
  parseRequest (getContext conn w) buf = Ok (ok, x, b') -> Vegas.run (limiter_ w) n pend -> Z.of_nat n < 2 ^ 62 ->
  let w0 := set_context conn x w in
  let req := request_ x in
  let rp := length (responses w) in
  let served (P : World S W -> Prop) := exists w', onMessage handler_ conn buf now w = Ok (b', w') /\
    state_ (getContext conn w') = kExpectRequestLine /\ P w' in
  (gotAll x = false -> exists w', onMessage handler_ conn buf now w = Ok (b', w') /\ getContext conn w' = x /\
     sends conn (if ok then [] else bad_request_text) w w') /\
  (ok = true -> gotAll x = true ->
   match handler_ !! path_ req with
   | None => served (sends conn (Response.response_text (plain conn (close_of req) Response.k404NotFound (str "NotFound"))) w)
   | Some h =>
       if Z.of_nat n <? Vegas.limit_ (limiter_ w) then
         exists v f, Limiter.Allow now (limiter_ w) = Ok (v, Some f) /\
         match h req rp (let_in conn req v f w0) with
         | Err e => onMessage handler_ conn buf now w = Err e
         | Ok w1 =>
             forall r, responses w1 !! rp = Some r -> sendable (ok_status r) ->
             served (fun w' => if Response.delay r then forall s, sent (net w') s = sent (net w1) s
                               else sends (Response.httpsession_ r) (Response.response_text (ok_status r)) w1 w')
         end
       else served (sends conn (Response.response_text (plain conn (close_of req) Response.k200Ok (str "Too Frequency"))) w)
   end).
Proof.
  intros Hp Hrun Hn w0 req rp served. unfold served, onMessage. rewrite Hp. mstep. fold w0. change (request_ x) with req.
  assert (forall w' : World S W, state_ (getContext conn (set_context conn (reset (getContext conn w')) w')) = kExpectRequestLine) as Hready.
  { intros w'. unfold getContext at 1. simpl. by rewrite lookup_insert_eq. }
  split.
  - intros Hg. rewrite Hg. destruct ok; cbn [negb].
    + mstep. exists w0. split; [done|]. unfold getContext. simpl. rewrite lookup_insert_eq.
      split; [done|]. split; [simpl; by rewrite app_nil_r|done].
    + rewrite Buffer_new_default. mstep.
      assert (prints (append_cstr bad_request_text) bad_request_text) as Hpr
        by (apply prints_cstr, (bool_decide_eq_true_1 (_ ∉ _)); reflexivity).
      destruct (Hpr newBuffer [] newBuffer_represents) as (b1 & -> & HR1); [vm_compute; discriminate|]. mstep.
      destruct (session_send_spec conn b1 _ (net w0) HR1) as (m & -> & Hs & Ho). mstep.
      eexists. split; [done|]. unfold getContext. simpl. rewrite lookup_insert_eq. split; [done|]. split; [exact Hs|exact Ho].
  - intros -> Hg. rewrite Hg. cbn [negb]. mstep. change (length (responses w)) with (length (responses w0)) in rp.
    destruct (handler_ !! path_ req) as [h|] eqn:Hh.
    + destruct (Limiter.Allow_spec now (limiter_ w) n pend Hrun Hn) as (v & o & Ha & Ho & _ & _).
      destruct (Z.ltb_spec (Z.of_nat n) (Vegas.limit_ (limiter_ w))) as [Hlt|Hge].
      * apply Ho in Hlt as [f ->]. exists v, f. split; [done|].
        pose proof (onRequest_handled conn req h now w0 v f Hh Ha) as HA. fold rp in HA.
        destruct (h req rp (let_in conn req v f w0)) as [w1|e]; [|by rewrite HA].
        intros r Hr Hb. destruct (HA r Hr Hb) as (w' & -> & Hw'). mstep. eexists. split; [done|]. split; [apply Hready|exact Hw'].
      * destruct o as [f|]; [exfalso; assert (Z.of_nat n < Vegas.limit_ (limiter_ w)) by (apply Ho; eauto); lia|].
        destruct (onRequest_unhandled conn req now w0 Response.k200Ok (str "Too Frequency")) as (w' & -> & Hw');
          [right; split; [by eexists|]; split; [by exists v|done]|]. mstep. eexists. split; [done|]. split; [apply Hready|exact Hw'].
    + destruct (onRequest_unhandled conn req now w0 Response.k404NotFound (str "NotFound")) as (w' & -> & Hw'); [by left|]. mstep.
      eexists. split; [done|]. split; [apply Hready|exact Hw'].
Qed.

Lemma quiet_requests_pile_up conn reqs now w n :
  Forall (fun req => is_Some (handler_ !! path_ req)) reqs ->
  map_Forall (fun _ h => quiet h) handler_ ->
  Vegas.run (limiter_ w) n [] -> Z.of_nat (n + length reqs) <= Vegas.limit_ (limiter_ w) ->
  exists w', foldM (fun req => onRequest handler_ conn req now) reqs w = Ok w' /\
    Vegas.run (limiter_ w') (n + length reqs) [] /\
    Vegas.limit_ (limiter_ w') = Vegas.limit_ (limiter_ w).
Proof.
  intros Hreg Hq. revert w n. induction Hreg as [|req reqs [h Hh] _ IH]; intros w n Hrun Hn.
  { exists w. simpl. by rewrite Nat.add_0_r. }
  pose proof (Vegas.limiter_run_inv _ _ _ Hrun) as [_ Hlim _].
  unfold Vegas.in_limits, Vegas.maxLimit_ in Hlim. simpl in *.
  destruct (onRequest_answers conn req now w n []) as (w1 & -> & _ & _ & Hl & Hrun1 & _);
    [intros h' Hh'; by eapply Hq|done|lia|]. mstep.
  unfold stays_in_flight in Hrun1. rewrite Hh, (proj2 (Z.ltb_lt _ _)) in Hrun1 by lia.
  destruct (IH w1 (Datatypes.S n) Hrun1) as (w' & E & Hr' & Hl'); [rewrite Hl; lia|].
  exists w'. split; [done|]. rewrite Nat.add_succ_r. by rewrite Hl', Hl.
Qed.

(** A handler that answers at once never reports back to the limiter:
    after eight such requests every later one is refused. *)
Theorem http_limiter_leaks conn reqs now n0 req later :
  length reqs = 8%nat -> Forall (fun req => is_Some (handler_ !! path_ req)) (req :: reqs) ->
  map_Forall (fun _ h => quiet h) handler_ ->
  exists w w', foldM (fun req => onRequest handler_ conn req now) reqs (World_new n0) = Ok w /\
    onRequest handler_ conn req later w = Ok w' /\
    sent (net w') conn = sent (net w) conn ++
      Response.response_text (plain conn (close_of req) Response.k200Ok (str "Too Frequency")).
Proof.
  intros Hlen [[h Hh] Hreg]%Forall_cons Hq.
  destruct (quiet_requests_pile_up conn reqs now (World_new n0) 0 Hreg Hq Vegas.run_new)
    as (w & E & Hrun & Hl); [rewrite Hlen; vm_compute; discriminate|].
  rewrite Hlen in Hrun. simpl in Hrun, Hl.
  destruct (onRequest_answers conn req later w 8 []) as (w' & E' & Hs & _);
    [intros h' Hh'; by eapply Hq|done|done|].
  exists w, w'. split; [done|]. split; [done|]. rewrite Hs. unfold answer_text, status_of.
  by rewrite Hh, Hl.
Qed.
End answers.

(** A server with one quiet handler, in the process of Interfaces.v. *)
Definition nop_handler : HttpCallback nat Log.net := fun _ _ w => Ok w.
Definition one_handler : gmap bytes (HttpCallback nat Log.net) :=
  RegHandler (str "/push/keys") nop_handler ∅.

Lemma nop_quiet : quiet nop_handler.
Proof. intros req rp w. exists (net w). split; [by destruct w|done]. Qed.

(** A request whose bytes end the buffer, and its answer. *)
Lemma http_serves_request_witness :
  exists b' w', onMessage one_handler 4%nat (buffer_of (request_text sample)) 7 (World_new Log.empty) = Ok (b', w') /\
    sent (net w') 4%nat = Response.response_text (plain 4%nat false Response.k200Ok (str "OK")).
Proof.
  destruct (parseRequest HttpContext_new (buffer_of (request_text sample))) as [[[ok x] b']|e] eqn:Ep;
    [|vm_compute in Ep; discriminate].
  assert (ok = true /\ gotAll x = true /\ path_ (request_ x) = str "/push/keys" /\ close_of (request_ x) = false) as (-> & Hg & Hpath & Hclose)
    by (vm_compute in Ep; injection Ep as <- <- <-; vm_compute; auto).
  destruct (http_serves_request one_handler 4%nat (buffer_of (request_text sample)) 7 (World_new Log.empty) 0 [] true x b')
    as [_ H]; [exact Ep|apply Vegas.run_new|reflexivity|].
  specialize (H eq_refl Hg). rewrite Hpath in H.
  destruct (one_handler !! str "/push/keys") as [h|] eqn:Hh; vm_compute in Hh; [|discriminate]. injection Hh as <-.
  destruct H as (v & f & _ & H).
  destruct (H (plain 4%nat (close_of (request_ x)) Response.kUnknown [])) as (w' & E & _ & Hs & _).
  - reflexivity.
  - rewrite Hclose. split; vm_compute; reflexivity.
  - exists b', w'. split; [exact E|]. rewrite Hclose in Hs. exact Hs.
Defined.

Lemma http_limiter_leaks_witness :
  exists w w', foldM (fun req => onRequest one_handler 4%nat req 7) (replicate 8 (received sample))
      (World_new Log.empty) = Ok w /\
    onRequest one_handler 4%nat (received sample) 9 w = Ok w'.
Proof.
  destruct (http_limiter_leaks one_handler 4%nat (replicate 8 (received sample)) 7 Log.empty
    (received sample) 9) as (w & w' & E1 & E2 & _).
  - reflexivity.
  - apply (Forall_replicate _ 9%nat). eexists. vm_compute. reflexivity.
  - intros k h. unfold one_handler, RegHandler. rewrite lookup_empty.
    intros [[_ <-]|[_ Hk]]%lookup_insert_Some; [exact nop_quiet|by rewrite lookup_empty in Hk].
  - exists w, w'. split; [exact E1|exact E2].
Defined.
End HttpServer.
