(* ===== verification/Net.v ===== *)
(** * Accepting connections: src/net/LoopMgr.cc, src/net/TcpServer.h,
      src/net/TcpServer.cc, src/net/Acceptor.cc

    [LoopMgr] hands out the loops of a server in turn; [TcpServer] makes a
    session per connection, keeps it in [connections_] and removes it when the
    session reports that it is closed; [Acceptor] keeps one [async_accept]
    outstanding.  A loop is its index in [loops_]. *)

From Stdlib Require Import ZArith Lia Permutation.
From stdpp Require Import base list gmap.
From S2P Require Import Prelude.
Local Open Scope Z_scope.

Module LoopMgr.

Record LoopMgr := mkLoopMgr { loops_ : list nat; next_ : Z }.

(** One [new Loop()] per thread. *)
Definition LoopMgr_new (thrnum : nat) : LoopMgr := mkLoopMgr (seq 0 thrnum) 0.

(** [loops_] is indexed without a check. *)
Definition findNextLoop (m : LoopMgr) : res (nat * LoopMgr) :=
  let next := u64 (next_ m + 1) in
  let next := if next =? zlen (loops_ m) then 0 else next in
  match loops_ m !! Z.to_nat next with
  | Some loop => Ok (loop, mkLoopMgr (loops_ m) next)
  | None => Err UB
  end.

(** [k] calls in a row. *)
Fixpoint findLoops (k : nat) (m : LoopMgr) : res (list nat * LoopMgr) :=
  match k with
  | O => Ok ([], m)
  | S k =>
      let* (loop, m) := findNextLoop m in
      let* (loops, m) := findLoops k m in
      Ok (loop :: loops, m)
  end.

Record wf (thrnum : nat) (m : LoopMgr) : Prop := {
  wf_loops : loops_ m = seq 0 thrnum;
  wf_next : 0 <= next_ m < Z.of_nat thrnum;
  wf_few : Z.of_nat thrnum < 2 ^ 63;
}.

Lemma wf_new thrnum : (0 < thrnum)%nat -> Z.of_nat thrnum < 2 ^ 63 -> wf thrnum (LoopMgr_new thrnum).
Proof. intros. split; simpl; try done; lia. Qed.

Lemma findNextLoop_turn n m :
  wf n m ->
  let i := (next_ m + 1) mod Z.of_nat n in
  findNextLoop m = Ok (Z.to_nat i, mkLoopMgr (loops_ m) i) /\ wf n (mkLoopMgr (loops_ m) i).
Proof.
  intros [Hl Hn Hb] i. assert (0 <= i < Z.of_nat n) as Hi by (apply Z.mod_pos_bound; lia).
  split; [|by split; simpl; try done; lia].
  unfold findNextLoop. rewrite uwrap_small by lia. rewrite Hl.
  unfold zlen. rewrite length_seq.
  assert ((if next_ m + 1 =? Z.of_nat n then 0 else next_ m + 1) = i) as ->.
  { unfold i. destruct (Z.eqb_spec (next_ m + 1) (Z.of_nat n)) as [->|];
      [by rewrite Z.mod_same by lia|by rewrite Z.mod_small by lia]. }
  rewrite lookup_seq_lt by lia. done.
Qed.

Lemma findLoops_turns n k m :
  wf n m ->
  exists m', findLoops k m =
    Ok (map (fun j => Z.to_nat ((next_ m + 1 + Z.of_nat j) mod Z.of_nat n)) (seq 0 k), m') /\ wf n m'.
Proof.
  revert m. induction k as [|k IH]; intros m Hm; [by exists m|]. cbn [findLoops].
  destruct (findNextLoop_turn n m Hm) as [E Hm1]. rewrite E. mstep.
  destruct (IH _ Hm1) as (m' & -> & Hm'). mstep. exists m'. split; [|done]. do 2 f_equal.
  cbn [seq map]. f_equal; [by rewrite Z.add_0_r|].
  rewrite <- (fmap_S_seq 0 k), list_fmap_alt, map_map. apply map_ext. intros j. simpl next_. f_equal.
  rewrite Nat2Z.inj_succ, <- Z.add_assoc, Z.add_mod_idemp_l by (destruct Hm; lia).
  f_equal. lia.
Qed.

Lemma turns_Permutation n a :
  (0 < n)%nat -> map (fun j => Z.to_nat ((a + Z.of_nat j) mod Z.of_nat n)) (seq 0 n) ≡ₚ seq 0 n.
Proof.
  intros Hn. assert (forall z, 0 <= z mod Z.of_nat n < Z.of_nat n) as B
    by (intros; apply Z.mod_pos_bound; lia).
  apply Permutation.NoDup_Permutation_bis; [|by rewrite length_map|].
  - apply NoDup_ListNoDup, NoDup_fmap_2_strong; [|apply NoDup_seq].
    intros x y Hx%elem_of_seq Hy%elem_of_seq E. apply Z2Nat.inj in E; [|apply B..].
    pose proof (Z.div_mod (a + Z.of_nat x) (Z.of_nat n)). pose proof (Z.div_mod (a + Z.of_nat y) (Z.of_nat n)).
    set (p := (a + Z.of_nat x) / _) in *. set (q := (a + Z.of_nat y) / _) in *.
    assert (Z.of_nat n * (p - q) = Z.of_nat x - Z.of_nat y) by lia.
    assert (p = q) by nia. nia.
  - intros x (j & <- & _)%in_map_iff. apply in_seq. specialize (B (a + Z.of_nat j)). lia.
Qed.

Lemma findLoops_app j k m l1 m1 l2 m2 :
  findLoops j m = Ok (l1, m1) -> findLoops k m1 = Ok (l2, m2) ->
  findLoops (j + k) m = Ok (l1 ++ l2, m2).
Proof.
  revert m l1. induction j as [|j IH]; intros m l1 E1 E2; simpl in *; [by simplify_eq|].
  apply bind_Ok_inv in E1 as ([loop m'] & -> & E1). mstep.
  apply bind_Ok_inv in E1 as ([loops m''] & E & [= <- ->]). by rewrite (IH _ _ E E2).
Qed.

(** K times thrnum calls of findNextLoop give every loop exactly k times,
    from every state of the manager. *)
Theorem loops_shared_evenly thrnum k m :
  wf thrnum m ->
  exists loops m', findLoops (k * thrnum) m = Ok (loops, m') /\ wf thrnum m' /\
    forall i, (i < thrnum)%nat -> count_occ Nat.eq_dec loops i = k.
Proof.
  intros Hm. revert m Hm. induction k as [|k IH]; intros m Hm.
  { exists [], m. done. }
  destruct (findLoops_turns thrnum thrnum m Hm) as (m1 & E1 & Hm1).
  destruct (IH m1 Hm1) as (l & m2 & E2 & Hm2 & Hc).
  eexists (_ ++ l), m2. split; [cbn [Nat.mul]; by eapply findLoops_app|]. split; [done|].
  intros i Hi. rewrite count_occ_app, Hc by done.
  rewrite (proj1 (Permutation_count_occ Nat.eq_dec _ _) (turns_Permutation thrnum _ ltac:(lia)) i).
  by rewrite (proj1 (NoDup_count_occ' Nat.eq_dec _)
    (proj1 (NoDup_ListNoDup _) (NoDup_seq 0 thrnum)) i) by (apply in_seq; lia).
Qed.
End LoopMgr.

Lemma loops_shared_evenly_witness :
  exists loops m', LoopMgr.findLoops (2 * 3) (LoopMgr.LoopMgr_new 3) = Ok (loops, m') /\
    LoopMgr.wf 3 m' /\ forall i, (i < 3)%nat -> count_occ Nat.eq_dec loops i = 2%nat.
Proof. apply (LoopMgr.loops_shared_evenly 3 2 (LoopMgr.LoopMgr_new 3)). apply LoopMgr.wf_new; lia. Defined.

Module TcpServer.
Import LoopMgr.

Section server.
Context {S : Type}.
(** [std::make_shared<T>(loop, id)] for the session class of the server; the
    constructor keeps the id. *)
Context (make_shared : nat -> Z -> S) (session_id : S -> Z).

Record TcpServer := mkTcp {
  loopmgr_ : LoopMgr;
  connections_ : gmap Z S;     (** keyed by [int] *)
  sessionid_ : Z;
}.

(** The constructor, with the loop given to the acceptor. *)
Definition TcpServer_new (thrnum : nat) : res (nat * TcpServer) :=
  let* (loop, m) := findNextLoop (LoopMgr_new thrnum) in
  Ok (loop, mkTcp m ∅ 1).

(** [connections_.insert] keeps an entry that is there. *)
Definition newSession (t : TcpServer) : res (S * TcpServer) :=
  let* (loop, m) := findNextLoop (loopmgr_ t) in
  let session := make_shared loop (sessionid_ t) in
  let key := s32 (sessionid_ t) in
  let conns := match connections_ t !! key with
               | Some _ => connections_ t
               | None => <[key := session]> (connections_ t)
               end in
  Ok (session, mkTcp m conns (u64 (sessionid_ t + 1))).

(** [disconnectcallback_]: the callback of [setServerDisconnectCallback], if
    one was set. *)
Definition DefaultDisconnectCallback {W} (disconnectcallback_ : option (S -> W -> res W))
    (id : Z) (t : TcpServer) (w : W) : res (TcpServer * W) :=
  match connections_ t !! id with
  | Some session =>
      let t := mkTcp (loopmgr_ t) (delete id (connections_ t)) (sessionid_ t) in
      match disconnectcallback_ with
      | Some cb => let* w := cb session w in Ok (t, w)
      | None => Ok (t, w)
      end
  | None => Ok (t, w)
  end.

(** [Session::close] of a session of this server, as far as the server sees
    it: the id goes through an [int]. *)
Definition session_closes {W} (cb : option (S -> W -> res W)) (s : S) (t : TcpServer) (w : W)
    : res (TcpServer * W) :=
  DefaultDisconnectCallback cb (s32 (session_id s)) t w.
End server.
Arguments TcpServer : clear implicits.
End TcpServer.

(** The acceptor with its server. *)
Module Acceptor.
Import LoopMgr TcpServer.

Section acceptor.
Context {S W : Type} (make_shared : nat -> Z -> S) (session_id : S -> Z).
Context (disconnectcallback_ : option (S -> W -> res W)).
(** [Session::start]: the connection callback and the first read. *)
Context (session_start : S -> W -> res W).

Record Acceptor := mkAcceptor {
  server : TcpServer S;
  is_open : bool;
  accepting : option S;       (** the session of the outstanding [async_accept] *)
  created : list S;           (** every session [newSession] has made *)
}.

Definition accept (a : Acceptor) : res Acceptor :=
  let* (session, t) := newSession make_shared (server a) in
  Ok (mkAcceptor t (is_open a) (Some session) (created a ++ [session])).

(** [listen]: opens the socket and accepts. *)
Definition listen (a : Acceptor) : res Acceptor :=
  accept (mkAcceptor (server a) true (accepting a) (created a)).

(** The completion handler of [async_accept]. *)
Definition accepted (err : bool) (a : Acceptor) (w : W) : res (Acceptor * W) :=
  match accepting a with
  | None => Ok (a, w)
  | Some session =>
      let a := mkAcceptor (server a) (is_open a) None (created a) in
      let* (a, w) :=
        if negb err then let* w := session_start session w in Ok (a, w)
        else
          let* (t, w) := session_closes session_id disconnectcallback_ session (server a) w in
          Ok (mkAcceptor t (is_open a) (accepting a) (created a), w) in
      if negb (is_open a) then Ok (a, w)
      else let* a := accept a in Ok (a, w)
  end.

Definition close (a : Acceptor) : Acceptor :=
  mkAcceptor (server a) false (accepting a) (created a).

(** A session of the server closes. *)
Definition session_close (s : S) (a : Acceptor) (w : W) : res (Acceptor * W) :=
  let* (t, w) := session_closes session_id disconnectcallback_ s (server a) w in
  Ok (mkAcceptor t (is_open a) (accepting a) (created a), w).
End acceptor.
Arguments Acceptor : clear implicits.

(** ** Each session is disconnected once *)
Section once.
Context {S : Type} `{EqDecision S} (make_shared : nat -> Z -> S) (session_id : S -> Z).
Context (made_id : forall loop id, session_id (make_shared loop id) = id).

(** The disconnect callback, as a log of its calls. *)
Definition log_cb : option (S -> list S -> res (list S)) := Some (fun s log => Ok (log ++ [s])).
Definition no_start (s : S) (log : list S) : res (list S) := Ok log.

(** What may happen, in any order and number: an accept completes, a session
    made earlier closes (perhaps again), the acceptor closes. *)
Inductive step : Acceptor S * list S -> Acceptor S * list S -> Prop :=
  | step_accepted err a log a' log' :
      Z.of_nat (length (created a)) < 2 ^ 31 - 2 ->
      accepted make_shared session_id log_cb no_start err a log = Ok (a', log') ->
      step (a, log) (a', log')
  | step_close_session s a log a' log' :
      s ∈ created a -> session_close session_id log_cb s a log = Ok (a', log') ->
      step (a, log) (a', log')
  | step_close a log : step (a, log) (close a, log).

Record inv (thrnum : nat) (a : Acceptor S) (log : list S) : Prop := {
  inv_loops : wf thrnum (loopmgr_ (server a));
  inv_next : sessionid_ (server a) = 1 + Z.of_nat (length (created a));
  inv_few : Z.of_nat (length (created a)) < 2 ^ 31 - 1;
  inv_ids i s : created a !! i = Some s -> session_id s = 1 + Z.of_nat i;
  inv_conns i s : connections_ (server a) !! i = Some s <->
    s ∈ created a /\ session_id s = i /\ s ∉ log;
  inv_log s : s ∈ log -> s ∈ created a;
  inv_once : NoDup log;
  inv_pending : forall s, accepting a = Some s -> s ∈ created a;
}.

Lemma created_id thrnum a log s :
  inv thrnum a log -> s ∈ created a -> 1 <= session_id s <= Z.of_nat (length (created a)).
Proof.
  intros Hi [i E]%list_elem_of_lookup. rewrite (inv_ids _ _ _ Hi _ _ E).
  apply lookup_lt_Some in E. lia.
Qed.

Lemma created_inj thrnum a log s s' :
  inv thrnum a log -> s ∈ created a -> s' ∈ created a -> session_id s = session_id s' -> s = s'.
Proof.
  intros Hi [i E]%list_elem_of_lookup [j E']%list_elem_of_lookup.
  rewrite (inv_ids _ _ _ Hi _ _ E), (inv_ids _ _ _ Hi _ _ E'). intros H.
  assert (i = j) as -> by lia. congruence.
Qed.

Lemma accept_inv thrnum a log :
  inv thrnum a log -> Z.of_nat (length (created a)) < 2 ^ 31 - 2 ->
  exists a' s, accept make_shared a = Ok a' /\ inv thrnum a' log /\
    accepting a' = Some s /\ is_open a' = is_open a.
Proof using All.
  intros Hi Hf. destruct (findNextLoop_turn _ _ (inv_loops _ _ _ Hi)) as [E Hw].
  pose proof (inv_next _ _ _ Hi) as Hn. unfold accept, newSession. rewrite E. mstep.
  rewrite swrap_small by lia. rewrite uwrap_small by lia.
  set (s := make_shared _ _). assert (session_id s = sessionid_ (server a)) as Hs by apply made_id.
  assert (s ∉ created a) as Hnew by (intros H%(created_id thrnum a log); [lia|done]).
  destruct (connections_ (server a) !! sessionid_ (server a)) as [s'|] eqn:Ec.
  { apply (inv_conns _ _ _ Hi) in Ec as (Hc & Hid & _).
    apply (created_id thrnum a log) in Hc; [lia|done]. }
  eexists _, s. split; [done|]. split; [|done].
  split; simpl; rewrite ?length_app; simpl; try done; try lia.
  - intros i x [H|[Hge H]]%lookup_app_Some; [by apply (inv_ids _ _ _ Hi)|].
    apply list_lookup_singleton_Some in H as [? <-]. lia.
  - intros i x. rewrite lookup_insert_Some, elem_of_app, list_elem_of_singleton, (inv_conns _ _ _ Hi).
    split; [intros [[<- <-]|[Hne (H1 & H2 & H3)]]|intros ([Hc| ->] & <- & Hl)].
    + repeat split; auto. intros H%(inv_log _ _ _ Hi). done.
    + auto.
    + right. apply (created_id thrnum a log) in Hc as ?; [|done]. repeat split; auto. lia.
    + by left.
  - intros x Hx%(inv_log _ _ _ Hi). apply elem_of_app. by left.
  - apply (inv_once _ _ _ Hi).
  - intros x [= <-]. apply elem_of_app. right. by apply list_elem_of_singleton.
Qed.

Lemma session_close_inv thrnum a log s :
  inv thrnum a log -> s ∈ created a ->
  exists a', session_close session_id log_cb s a log = Ok (a', if decide (s ∈ log) then log else log ++ [s]) /\
    inv thrnum a' (if decide (s ∈ log) then log else log ++ [s]) /\
    is_open a' = is_open a /\ accepting a' = accepting a /\ created a' = created a.
Proof.
  intros Hi Hs. pose proof (created_id _ _ _ _ Hi Hs) as Hid. pose proof (inv_few _ _ _ Hi) as Hf.
  unfold session_close, session_closes, DefaultDisconnectCallback.
  rewrite swrap_small by lia. destruct (connections_ (server a) !! session_id s) as [x|] eqn:Ec.
  - apply (inv_conns _ _ _ Hi) in Ec as (Hx & Ex & Hl).
    apply (created_inj _ _ _ _ _ Hi Hx Hs) in Ex as ->. mstep. rewrite decide_False by done.
    eexists. split; [done|]. split; [|done]. destruct Hi. split; simpl; try done.
    + intros i y. rewrite lookup_delete_Some, inv_conns0, not_elem_of_app, list_elem_of_singleton.
      split.
      { intros (Hne & Hy & Hid' & Hyl). repeat split; try done. intros ->. done. }
      intros (Hy & <- & Hyl & Hys). repeat split; try done.
      intros E. apply Hys. by eapply created_inj.
    + intros y [Hy|Hy]%elem_of_app; [auto|]. by apply list_elem_of_singleton in Hy as ->.
    + apply NoDup_app. split; [done|]. split; [|apply NoDup_singleton].
      intros y Hy Hys. by apply list_elem_of_singleton in Hys as ->.
  - mstep. rewrite decide_True.
    2: { destruct (decide (s ∈ log)) as [|Hl]; [done|].
         pose proof (proj2 (inv_conns _ _ _ Hi (session_id s) s) (conj Hs (conj eq_refl Hl))). congruence. }
    eexists. split; [done|]. by destruct a.
Qed.

Lemma accepted_inv thrnum err a log :
  inv thrnum a log -> Z.of_nat (length (created a)) < 2 ^ 31 - 2 ->
  exists a' log', accepted make_shared session_id log_cb no_start err a log = Ok (a', log') /\
    inv thrnum a' log' /\ is_open a' = is_open a /\
    (accepting a <> None -> is_open a = true -> accepting a' <> None).
Proof using All.
  intros Hi Hf. unfold accepted. destruct (accepting a) as [s|] eqn:Ea; [|by exists a, log].
  set (a0 := mkAcceptor (server a) (is_open a) None (created a)).
  assert (inv thrnum a0 log) as Hi0 by (destruct Hi; by split).
  assert (exists a1 log1,
    (if negb err then let* w := no_start s log in Ok (a0, w)
     else let* (t, w) := session_closes session_id log_cb s (server a0) log in
          Ok (mkAcceptor t (is_open a0) (accepting a0) (created a0), w)) = Ok (a1, log1) /\
    inv thrnum a1 log1 /\ is_open a1 = is_open a /\ created a1 = created a) as (a1 & log1 & -> & H1 & Ho & Hc).
  { destruct err; simpl; [|by exists a0, log].
    destruct (session_close_inv thrnum a0 log s Hi0) as (a1 & E & H1 & Ho & _ & Hc);
      [by apply (inv_pending _ _ _ Hi)|]. unfold session_close in E. simpl in E. rewrite E. eauto 6. }
  mstep. rewrite Ho. destruct (is_open a) eqn:Eo; simpl; [|exists a1, log1; by rewrite Ho].
  destruct (accept_inv thrnum a1 log1 H1) as (a2 & s2 & -> & H2 & E2 & Ho2); [by rewrite Hc|].
  mstep. exists a2, log1. rewrite E2, Ho2. done.
Qed.

Lemma steps_inv thrnum x y :
  rtc step x y -> inv thrnum x.1 x.2 -> (is_open x.1 = true -> accepting x.1 <> None) ->
  inv thrnum y.1 y.2 /\ (is_open y.1 = true -> accepting y.1 <> None).
Proof using All.
  induction 1 as [|x y z Hxy _ IH]; intros Hi Ho; [done|]. apply IH; clear IH.
  - destruct Hxy as [err a log a' log' Hf E|s a log a' log' Hs E|a log]; simpl in *.
    + destruct (accepted_inv _ err _ _ Hi Hf) as (? & ? & E' & ? & _). rewrite E in E'; by simplify_eq.
    + destruct (session_close_inv _ _ _ _ Hi Hs) as (? & E' & ? & _). rewrite E in E'; by simplify_eq.
    + destruct Hi. by split.
  - destruct Hxy as [err a log a' log' Hf E|s a log a' log' Hs E|a log]; simpl in *.
    + destruct (accepted_inv _ err _ _ Hi Hf) as (? & ? & E' & _ & Eo & Hp). rewrite E in E'; simplify_eq. rewrite Eo. auto.
    + destruct (session_close_inv _ _ _ _ Hi Hs) as (? & E' & _ & Eo & Ep & _). rewrite E in E'; simplify_eq. rewrite Eo, Ep. auto.
    + done.
Qed.

Lemma listen_inv thrnum :
  (0 < thrnum)%nat -> Z.of_nat thrnum < 2 ^ 63 ->
  exists loop t a, TcpServer_new thrnum = Ok (loop, t) /\
    listen make_shared (mkAcceptor t false None []) = Ok a /\ inv thrnum a [] /\
    is_open a = true /\ accepting a <> None.
Proof using All.
  intros H0 H1. destruct (findNextLoop_turn _ _ (wf_new _ H0 H1)) as [E Hw].
  unfold TcpServer_new. rewrite E. mstep.
  match type of Hw with wf _ ?m =>
    destruct (accept_inv thrnum (mkAcceptor (mkTcp m ∅ 1) true None []) []) as (a & s & Ea & Hi & Es & Eo) end.
  - split; simpl; try done; try lia; [|constructor].
    intros i s. rewrite lookup_empty, elem_of_nil. naive_solver.
  - simpl. lia.
  - eexists _, _, a. split; [done|]. split; [done|]. split; [done|]. by rewrite Es.
Qed.

(** C36: Whatever the order of accepts, accept errors, closes (repeated ones
    included) and the closing of the acceptor, the disconnect callback runs at
    most once per session, connections_ holds exactly the sessions it has not
    run for, an accept is outstanding while the acceptor is open, and every
    step succeeds, for fewer than 2^31 sessions. *)
Theorem sessions_disconnect_once thrnum loop t a0 a log :
  (0 < thrnum)%nat -> Z.of_nat thrnum < 2 ^ 63 ->
  TcpServer_new thrnum = Ok (loop, t) -> listen make_shared (mkAcceptor t false None []) = Ok a0 ->
  rtc step (a0, []) (a, log) ->
  NoDup log /\
  (forall i s, connections_ (server a) !! i = Some s <->
     s ∈ created a /\ session_id s = i /\ s ∉ log) /\
  (is_open a = true -> accepting a <> None) /\
  (forall s, s ∈ created a -> exists a' log',
     session_close session_id log_cb s a log = Ok (a', log') /\ s ∈ log') /\
  (forall err, Z.of_nat (length (created a)) < 2 ^ 31 - 2 -> exists a' log',
     accepted make_shared session_id log_cb no_start err a log = Ok (a', log')).
Proof using All.
  intros H0 H1 Et El Hs.
  destruct (listen_inv thrnum H0 H1) as (loop' & t' & a1 & E1 & E2 & Hi & Ho & Hp).
  rewrite Et in E1. injection E1 as <- <-. rewrite El in E2. injection E2 as <-.
  destruct (steps_inv thrnum _ _ Hs Hi) as [Hi' Ho']; [done|]. simpl in *.
  split; [apply Hi'|]. split; [apply Hi'|]. split; [done|]. split.
  - intros s Hc. destruct (session_close_inv _ _ _ s Hi' Hc) as (a' & E & _). eexists _, _.
    split; [exact E|]. case_decide; [done|]. apply elem_of_app. right. by apply list_elem_of_singleton.
  - intros err Hf. destruct (accepted_inv _ err _ _ Hi' Hf) as (a' & log' & E & _). eauto.
Qed.
End once.

(** Sessions as pairs of loop and id; one is accepted, closes twice. *)
Definition pair_session (loop : nat) (id : Z) : nat * Z := (loop, id).

Lemma sessions_disconnect_once_witness :
  exists loop t a0 a1 a2 a3 log,
    TcpServer_new (S := nat * Z) 2 = Ok (loop, t) /\
    listen pair_session (mkAcceptor t false None []) = Ok a0 /\
    accepted pair_session snd log_cb no_start false a0 [] = Ok (a1, []) /\
    session_close snd log_cb (0%nat, 1) a1 [] = Ok (a2, [(0%nat, 1)]) /\
    session_close snd log_cb (0%nat, 1) a2 [(0%nat, 1)] = Ok (a3, log) /\
    NoDup log /\ log = [(0%nat, 1)] /\ connections_ (server a3) !! 2 = Some (1%nat, 2).
Proof.
  do 7 eexists. do 5 (split; [vm_compute; reflexivity|]). split; [|split; vm_compute; reflexivity].
  eapply (sessions_disconnect_once pair_session snd (fun _ _ => eq_refl) 2);
    [lia|lia|vm_compute; reflexivity|vm_compute; reflexivity|].
  eapply rtc_l; [apply (step_accepted _ _ false); [vm_compute; reflexivity|vm_compute; reflexivity]|].
  eapply rtc_l; [apply (step_close_session _ _ (0%nat, 1)); [vm_compute; left|vm_compute; reflexivity]|].
  eapply rtc_l; [apply (step_close_session _ _ (0%nat, 1)); [vm_compute; left|vm_compute; reflexivity]|].
  apply rtc_refl.
Defined.
End Acceptor.
