(* ===== verification/Protobuf.v ===== *)
(** * The protobuf runtime the generated messages call

    src/protocol/logic.pb.cc and gate.pb.cc are generated code on top of the
    protobuf library (WireFormatLite, CodedInputStream), which is not part of
    the sources.  [WireFormat] lists the functions they use; [WireLaws] states
    what the library documents of them: a value read after it was written is
    the value, the size functions give the sizes, readers only move forward.
    [merge] is the loop every generated [MergePartialFromCodedStream] has.
    [Leb128] is a small implementation, which shows that the laws can hold. *)

From Stdlib Require Import ZArith Lia.
From stdpp Require Import base list.
From S2P Require Import Prelude.
Local Open Scope Z_scope.

Class WireFormat := {
  (** CodedInputStream: the next tag, 0 at the end. *)
  ReadTag : bytes -> Z * bytes;
  ReadInt32 : bytes -> option (Z * bytes);
  ReadInt64 : bytes -> option (Z * bytes);
  ReadEnum : bytes -> option (Z * bytes);
  ReadBool : bytes -> option (bool * bytes);
  ReadString : bytes -> option (bytes * bytes);
  ReadPackedInt32 : bytes -> option (list Z * bytes);
  ReadRepeatedInt32 : bytes -> option (list Z * bytes);
  SkipField : Z -> bytes -> option bytes;
  IsEndGroup : Z -> bool;
  VerifyUtf8String : bytes -> bool;
  (** Whether a message that ended with this tag, leaving these bytes, was
      read to its end. *)
  ConsumedEntireMessage : Z -> bytes -> bool;
  WriteInt32ToArray : Z -> Z -> bytes;
  WriteInt64ToArray : Z -> Z -> bytes;
  WriteEnumToArray : Z -> Z -> bytes;
  WriteBoolToArray : Z -> bool -> bytes;
  WriteStringToArray : Z -> bytes -> bytes;
  WriteTagToArray : Z -> bytes;           (** a length-delimited field's tag *)
  WriteVarint32ToArray : Z -> bytes;
  WriteInt32NoTagToArray : Z -> bytes;
  Int32Size : Z -> Z;
  Int64Size : Z -> Z;
  EnumSize : Z -> Z;
  LengthDelimitedSize : Z -> Z;
}.

(** [StringSize] and [BytesSize]. *)
Definition StringSize `{WireFormat} (s : bytes) : Z := LengthDelimitedSize (zlen s).

Definition int32_range (v : Z) : Prop := - 2 ^ 31 <= v < 2 ^ 31.
Definition int64_range (v : Z) : Prop := - 2 ^ 63 <= v < 2 ^ 63.
Definition field_number (f : Z) : Prop := 1 <= f <= 15.

(** What a repeated int32 field looks like on the wire. *)
Definition packed_sizes `{WireFormat} (l : list Z) : Z := foldr (fun v n => Int32Size v + n) 0 l.

Class WireLaws `{WireFormat} : Prop := {
  read_int32 f v r :
    field_number f -> int32_range v ->
    exists p, ReadTag (WriteInt32ToArray f v ++ r) = (8 * f, p) /\ ReadInt32 p = Some (v, r);
  read_int64 f v r :
    field_number f -> int64_range v ->
    exists p, ReadTag (WriteInt64ToArray f v ++ r) = (8 * f, p) /\ ReadInt64 p = Some (v, r);
  read_enum f v r :
    field_number f -> int32_range v ->
    exists p, ReadTag (WriteEnumToArray f v ++ r) = (8 * f, p) /\ ReadEnum p = Some (v, r);
  read_bool f v r :
    field_number f ->
    exists p, ReadTag (WriteBoolToArray f v ++ r) = (8 * f, p) /\ ReadBool p = Some (v, r);
  read_string f s r :
    field_number f -> zlen s < 2 ^ 31 ->
    exists p, ReadTag (WriteStringToArray f s ++ r) = (8 * f + 2, p) /\ ReadString p = Some (s, r);
  read_packed f l r :
    field_number f -> Forall int32_range l -> packed_sizes l < 2 ^ 31 ->
    exists p, ReadTag (WriteTagToArray f ++ WriteVarint32ToArray (packed_sizes l) ++
                       concat (map WriteInt32NoTagToArray l) ++ r) = (8 * f + 2, p) /\
      ReadPackedInt32 p = Some (l, r);
  read_end : ReadTag [] = (0, []);
  consumed_end : ConsumedEntireMessage 0 [] = true;
  int32_size f v : field_number f -> int32_range v -> zlen (WriteInt32ToArray f v) = 1 + Int32Size v;
  int64_size f v : field_number f -> int64_range v -> zlen (WriteInt64ToArray f v) = 1 + Int64Size v;
  enum_size f v : field_number f -> int32_range v -> zlen (WriteEnumToArray f v) = 1 + EnumSize v;
  bool_size f v : field_number f -> zlen (WriteBoolToArray f v) = 1 + 1;
  string_size f s : field_number f -> zlen s < 2 ^ 31 -> zlen (WriteStringToArray f s) = 1 + StringSize s;
  tag_size f : field_number f -> zlen (WriteTagToArray f) = 1;
  varint_size v : 0 <= v < 2 ^ 31 -> zlen (WriteVarint32ToArray v) = Int32Size v;
  no_tag_size v : int32_range v -> zlen (WriteInt32NoTagToArray v) = Int32Size v;
  int32_size_pos v : 0 < Int32Size v;
  tag_shrinks c t r : ReadTag c = (t, r) -> t <> 0 -> (length r < length c)%nat;
  read_int32_shrinks c v r : ReadInt32 c = Some (v, r) -> (length r <= length c)%nat;
  read_int64_shrinks c v r : ReadInt64 c = Some (v, r) -> (length r <= length c)%nat;
  read_enum_shrinks c v r : ReadEnum c = Some (v, r) -> (length r <= length c)%nat;
  read_bool_shrinks c v r : ReadBool c = Some (v, r) -> (length r <= length c)%nat;
  read_string_shrinks c v r : ReadString c = Some (v, r) -> (length r <= length c)%nat;
  read_packed_shrinks c v r : ReadPackedInt32 c = Some (v, r) -> (length r <= length c)%nat;
  read_repeated_shrinks c v r : ReadRepeatedInt32 c = Some (v, r) -> (length r <= length c)%nat;
  skip_shrinks t c r : SkipField t c = Some r -> (length r <= length c)%nat;
}.

(** ** The loop of [MergePartialFromCodedStream]

    [field tag]: what the switch does with a known tag, or [None] for
    [handle_unusual].  The [ExpectTag] shortcuts of the code only save the
    switch when the expected tag comes next. *)
Section merge.
Context `{WireFormat} {M : Type} (field : Z -> option (M -> bytes -> option (M * bytes))).

Fixpoint merge_loop (k : nat) (m : M) (input : bytes) : option (M * Z * bytes) :=
  match k with
  | O => None
  | S k =>
      let '(tag, input) := ReadTag input in
      match (if tag <=? 127 then field tag else None) with
      | Some parse =>
          match parse m input with
          | Some (m, input) => merge_loop k m input
          | None => None
          end
      | None =>
          if (tag =? 0) || IsEndGroup tag then Some (m, tag, input)
          else match SkipField tag input with
               | Some input => merge_loop k m input
               | None => None
               end
      end
  end.

(** Every round reads a tag, so the input bounds the rounds. *)
Definition merge (m : M) (input : bytes) : option (M * Z * bytes) :=
  merge_loop (S (length input)) m input.

(** [ParseFromArray] on a cleared message, and the body of a nested message. *)
Definition merge_entire (m : M) (input : bytes) : option M :=
  match merge m input with
  | Some (m, tag, rest) => if ConsumedEntireMessage tag rest then Some m else None
  | None => None
  end.

Context `{!WireLaws}.
Context (field_0 : field 0 = None).
Context (field_shrinks : forall t parse m c m' r,
  field t = Some parse -> parse m c = Some (m', r) -> (length r <= length c)%nat).

Lemma merge_fuel k1 k2 m c :
  (length c < k1)%nat -> (length c < k2)%nat -> merge_loop k1 m c = merge_loop k2 m c.
Proof using All.
  revert k2 m c. induction k1 as [|k1 IH]; intros [|k2] m c H1 H2; try lia. cbn [merge_loop].
  destruct (ReadTag c) as [t p] eqn:Et.
  destruct (decide (t = 0)) as [->|Ht]; [by rewrite field_0|].
  pose proof (tag_shrinks _ _ _ Et Ht).
  destruct (if t <=? 127 then field t else None) as [parse|] eqn:Ef.
  - destruct (parse m p) as [[m' r]|] eqn:Ep; [|done].
    assert (length r <= length p)%nat.
    { destruct (t <=? 127); [|done]. by eapply field_shrinks. }
    apply IH; lia.
  - destruct ((t =? 0) || IsEndGroup t); [done|].
    destruct (SkipField t p) as [r|] eqn:Es; [|done]. apply skip_shrinks in Es. apply IH; lia.
Qed.

(** One known field at the head of the input. *)
Lemma merge_field d t p parse m m' r :
  ReadTag (d ++ r) = (t, p) -> 0 < t <= 127 -> field t = Some parse -> parse m p = Some (m', r) ->
  merge m (d ++ r) = merge m' r.
Proof using All.
  intros Et Ht Ef Ep. unfold merge at 1. cbn [merge_loop]. rewrite Et.
  destruct (Z.leb_spec t 127); [|lia]. rewrite Ef, Ep.
  apply tag_shrinks in Et as Hl; [|lia]. pose proof (field_shrinks _ _ _ _ _ _ Ef Ep).
  apply merge_fuel; lia.
Qed.

Lemma merge_entire_end m : merge_entire m [] = Some m.
Proof using All.
  unfold merge_entire, merge. cbn [merge_loop]. rewrite read_end, field_0. simpl.
  by rewrite consumed_end.
Qed.

Lemma merge_entire_eq m c m' c' : merge m c = merge m' c' -> merge_entire m c = merge_entire m' c'.
Proof using. intros E. unfold merge_entire. by rewrite E. Qed.
End merge.

(** ** The fields of generated messages: a reader and a setter *)
Section fields.
Context `{WireFormat} {M : Type}.
Implicit Types m : M.

Definition read_then {A} (reader : bytes -> option (A * bytes)) (set : A -> M -> M)
    (m : M) (input : bytes) : option (M * bytes) :=
  match reader input with Some (v, input) => Some (set v m, input) | None => None end.

(** A string field must be UTF-8. *)
Definition ReadUtf8 (input : bytes) : option (bytes * bytes) :=
  match ReadString input with
  | Some (s, input) => if VerifyUtf8String s then Some (s, input) else None
  | None => None
  end.

(** [ReadMessageNoVirtual]: an embedded message is encoded like a string, and
    is merged into the one that is there. *)
Definition read_message {N} (field : Z -> option (N -> bytes -> option (N * bytes)))
    (get : M -> N) (set : N -> M -> M) (m : M) (input : bytes) : option (M * bytes) :=
  match ReadString input with
  | Some (d, input) =>
      match merge_entire field (get m) d with
      | Some n => Some (set n m, input)
      | None => None
      end
  | None => None
  end.

Context {WL : WireLaws} (field : Z -> option (M -> bytes -> option (M * bytes))).
Context (field_0 : field 0 = None).
Context (field_shrinks : forall t parse m c m' r,
  field t = Some parse -> parse m c = Some (m', r) -> (length r <= length c)%nat).

Lemma merge_opt (b : bool) d t parse m m' r :
  0 < t <= 127 -> field t = Some parse ->
  (b = true -> exists p, ReadTag (d ++ r) = (t, p) /\ parse m p = Some (m', r)) ->
  (b = false -> m' = m) ->
  merge field m ((if b then d else []) ++ r) = merge field m' r.
Proof using All.
  intros Ht Hf H1 H2. destruct b; [|by rewrite H2].
  destruct (H1 eq_refl) as (p & E1 & E2). by eapply merge_field.
Qed.

(** A field that is written only when it is not the default. *)
Lemma merge_scalar {A} (b : bool) d t (reader : bytes -> option (A * bytes)) v set m r :
  0 < t <= 127 -> field t = Some (read_then reader set) ->
  (exists p, ReadTag (d ++ r) = (t, p) /\ reader p = Some (v, r)) ->
  (b = false -> set v m = m) ->
  merge field m ((if b then d else []) ++ r) = merge field (set v m) r.
Proof using All.
  intros Ht Hf (p & E1 & E2) H2. eapply merge_opt; [exact Ht|exact Hf| |exact H2].
  intros _. exists p. unfold read_then. by rewrite E2.
Qed.
Ltac nonzero Hd := intros Hz%negb_false_iff%Z.eqb_eq; by apply Hd.

Lemma merge_int32 f v set m r :
  field_number f -> int32_range v -> field (8 * f) = Some (read_then ReadInt32 set) ->
  (v = 0 -> set v m = m) ->
  merge field m ((if negb (v =? 0) then WriteInt32ToArray f v else []) ++ r) = merge field (set v m) r.
Proof using All.
  unfold field_number. intros Hf Hv Hfd Hd.
  apply (merge_scalar _ _ (8 * f) ReadInt32); [lia|done|by apply read_int32|nonzero Hd].
Qed.

Lemma merge_int64 f v set m r :
  field_number f -> int64_range v -> field (8 * f) = Some (read_then ReadInt64 set) ->
  (v = 0 -> set v m = m) ->
  merge field m ((if negb (v =? 0) then WriteInt64ToArray f v else []) ++ r) = merge field (set v m) r.
Proof using All.
  unfold field_number. intros Hf Hv Hfd Hd.
  apply (merge_scalar _ _ (8 * f) ReadInt64); [lia|done|by apply read_int64|nonzero Hd].
Qed.

Lemma merge_enum f v set m r :
  field_number f -> int32_range v -> field (8 * f) = Some (read_then ReadEnum set) ->
  (v = 0 -> set v m = m) ->
  merge field m ((if negb (v =? 0) then WriteEnumToArray f v else []) ++ r) = merge field (set v m) r.
Proof using All.
  unfold field_number. intros Hf Hv Hfd Hd.
  apply (merge_scalar _ _ (8 * f) ReadEnum); [lia|done|by apply read_enum|nonzero Hd].
Qed.

Lemma merge_bool f v set m r :
  field_number f -> field (8 * f) = Some (read_then ReadBool set) -> (v = false -> set v m = m) ->
  merge field m ((if v then WriteBoolToArray f v else []) ++ r) = merge field (set v m) r.
Proof using All.
  unfold field_number. intros Hf Hfd Hd.
  apply (merge_scalar _ _ (8 * f) ReadBool); [lia|done|by apply read_bool|done].
Qed.

Lemma merge_bytes f s set m r :
  field_number f -> zlen s < 2 ^ 31 -> field (8 * f + 2) = Some (read_then ReadString set) ->
  (s = [] -> set s m = m) ->
  merge field m ((if 0 <? zlen s then WriteStringToArray f s else []) ++ r) = merge field (set s m) r.
Proof using All.
  unfold field_number. intros Hf Hv Hfd Hd.
  apply (merge_scalar _ _ (8 * f + 2) ReadString); [lia|done|by apply read_string|].
  intros Hz%Z.ltb_ge. apply Hd. destruct s; [done|zlia].
Qed.

Lemma read_utf8 f s r :
  field_number f -> zlen s < 2 ^ 31 -> VerifyUtf8String s = true ->
  exists p, ReadTag (WriteStringToArray f s ++ r) = (8 * f + 2, p) /\ ReadUtf8 p = Some (s, r).
Proof using WL.
  intros Hf Hs Hu. destruct (read_string f s r Hf Hs) as (p & E1 & E2).
  exists p. unfold ReadUtf8. by rewrite E2, Hu.
Qed.

Lemma merge_string f s set m r :
  field_number f -> zlen s < 2 ^ 31 -> VerifyUtf8String s = true ->
  field (8 * f + 2) = Some (read_then ReadUtf8 set) -> (s = [] -> set s m = m) ->
  merge field m ((if 0 <? zlen s then WriteStringToArray f s else []) ++ r) = merge field (set s m) r.
Proof using All.
  intros Hf Hv Hu Hfd Hd.
  apply (merge_scalar _ _ (8 * f + 2) ReadUtf8); [unfold field_number in Hf; lia|done|by apply read_utf8|].
  intros Hz%Z.ltb_ge. apply Hd. destruct s; [done|zlia].
Qed.

Lemma merge_repeated_string f l add m r :
  field_number f -> Forall (fun s => zlen s < 2 ^ 31 /\ VerifyUtf8String s = true) l ->
  field (8 * f + 2) = Some (read_then ReadUtf8 add) ->
  merge field m (concat (map (WriteStringToArray f) l) ++ r) = merge field (foldl (fun m s => add s m) m l) r.
Proof using All.
  intros Hf Hl Hfd. revert m. induction Hl as [|s l [Hs Hu] _ IH]; intros m; [done|].
  cbn [map concat foldl]. rewrite <- app_assoc, <- IH.
  destruct (read_utf8 f s (concat (map (WriteStringToArray f) l) ++ r) Hf Hs Hu) as (p & E1 & E2).
  eapply (merge_field field field_0 field_shrinks); [exact E1| |exact Hfd|].
  - unfold field_number in Hf. lia.
  - unfold read_then. by rewrite E2.
Qed.

Lemma merge_packed f l add m r :
  field_number f -> Forall int32_range l -> packed_sizes l < 2 ^ 31 ->
  field (8 * f + 2) = Some (read_then ReadPackedInt32 add) -> (l = [] -> add l m = m) ->
  merge field m ((if 0 <? zlen l then WriteTagToArray f ++ WriteVarint32ToArray (packed_sizes l) else [])
                 ++ concat (map WriteInt32NoTagToArray l) ++ r) = merge field (add l m) r.
Proof using All.
  intros Hf Hl Hs Hfd Hd. destruct l as [|v l]; [by rewrite Hd|].
  rewrite (proj2 (Z.ltb_lt _ _)) by zlia.
  destruct (read_packed f (v :: l) r Hf Hl Hs) as (p & E1 & E2).
  replace ((WriteTagToArray f ++ WriteVarint32ToArray (packed_sizes (v :: l))) ++
           concat (map WriteInt32NoTagToArray (v :: l)) ++ r)
    with ((WriteTagToArray f ++ WriteVarint32ToArray (packed_sizes (v :: l)) ++
           concat (map WriteInt32NoTagToArray (v :: l))) ++ r) by (by rewrite <- !app_assoc).
  eapply (merge_field field field_0 field_shrinks); [|  |exact Hfd|].
  - rewrite <- !app_assoc. exact E1.
  - unfold field_number in Hf. lia.
  - unfold read_then. by rewrite E2.
Qed.

Lemma merge_opt_message {N} f (nfield : Z -> option (N -> bytes -> option (N * bytes)))
    (ser : N -> bytes) (o : option N) (dflt : N) get set m r :
  field_number f ->
  (forall n, o = Some n -> zlen (ser n) < 2 ^ 31 /\ merge_entire nfield (get m) (ser n) = Some n) ->
  field (8 * f + 2) = Some (read_message nfield get set) ->
  merge field m ((if o is Some _ then WriteStringToArray f (ser (default dflt o)) else []) ++ r)
    = merge field (match o with Some n => set n m | None => m end) r.
Proof using All.
  intros Hf Hn Hfd. destruct o as [n|]; [|done]. destruct (Hn n eq_refl) as [Hl E]. simpl.
  destruct (read_string f (ser n) r Hf Hl) as (p & E1 & E2).
  eapply (merge_field field field_0 field_shrinks); [exact E1| |exact Hfd|].
  - unfold field_number in Hf. lia.
  - unfold read_message. by rewrite E2, E.
Qed.

(** Readers that shrink make fields that shrink. *)
Lemma read_then_shrinks {A} (reader : bytes -> option (A * bytes)) set m c m' r :
  (forall c v r, reader c = Some (v, r) -> (length r <= length c)%nat) ->
  read_then reader set m c = Some (m', r) -> (length r <= length c)%nat.
Proof using.
  intros Hr. unfold read_then. destruct (reader c) as [[v r']|] eqn:E; [|done].
  intros [= _ <-]. eauto.
Qed.

Lemma ReadUtf8_shrinks c v r : ReadUtf8 c = Some (v, r) -> (length r <= length c)%nat.
Proof using WL.
  unfold ReadUtf8. destruct (ReadString c) as [[s r']|] eqn:E; [|done].
  destruct (VerifyUtf8String s); [|done]. intros [= _ <-]. by eapply read_string_shrinks.
Qed.

Lemma read_message_shrinks {N} (nfield : Z -> option (N -> bytes -> option (N * bytes))) get set m c m' r :
  read_message nfield get set m c = Some (m', r) -> (length r <= length c)%nat.
Proof using WL.
  unfold read_message. destruct (ReadString c) as [[s r']|] eqn:E; [|done].
  destruct (merge_entire _ _ _); [|done]. intros [= _ <-]. by eapply read_string_shrinks.
Qed.
End fields.

(** ** Output streams

    [io::CodedOutputStream], and the functions of [WireFormatLite] that write
    to one.  [written] is the specification's view: the bytes the stream has
    been given.  The laws say what the library documents, that a writer puts
    on the stream what its [ToArray] counterpart puts into memory. *)
Class OutputStream (O : Type) := {
  written : O -> bytes;
  WriteInt32 : Z -> Z -> O -> O;
  WriteInt64 : Z -> Z -> O -> O;
  WriteEnum : Z -> Z -> O -> O;
  WriteBool : Z -> bool -> O -> O;
  WriteString : Z -> bytes -> O -> O;
  WriteStringMaybeAliased : Z -> bytes -> O -> O;
  WriteBytesMaybeAliased : Z -> bytes -> O -> O;
  WriteTag : Z -> O -> O;
  WriteVarint32 : Z -> O -> O;
  WriteInt32NoTag : Z -> O -> O;
  (** Field number, then of the message: [GetCachedSize],
      [InternalSerializeWithCachedSizesToArray], [SerializeWithCachedSizes]. *)
  WriteMessageMaybeToArray : Z -> Z -> bytes -> (O -> O) -> O -> O;
}.

(** [f] gives the stream the bytes [d]. *)
Definition appends {O : Type} `{OutputStream O} (f : O -> O) (d : bytes) : Prop :=
  forall o, written (f o) = written o ++ d.

Class OutputLaws (O : Type) `{WireFormat} `{OutputStream O} : Prop := {
  out_int32 f v : appends (WriteInt32 f v) (WriteInt32ToArray f v);
  out_int64 f v : appends (WriteInt64 f v) (WriteInt64ToArray f v);
  out_enum f v : appends (WriteEnum f v) (WriteEnumToArray f v);
  out_bool f v : appends (WriteBool f v) (WriteBoolToArray f v);
  out_string f s : appends (WriteString f s) (WriteStringToArray f s);
  out_string_aliased f s : appends (WriteStringMaybeAliased f s) (WriteStringToArray f s);
  out_bytes_aliased f s : appends (WriteBytesMaybeAliased f s) (WriteStringToArray f s);
  out_tag f : appends (WriteTag f) (WriteTagToArray f);
  out_varint v : appends (WriteVarint32 v) (WriteVarint32ToArray v);
  out_int32_no_tag v : appends (WriteInt32NoTag v) (WriteInt32NoTagToArray v);
  out_message f d w :
    appends w d -> appends (WriteMessageMaybeToArray f (zlen d) d w) (WriteStringToArray f d);
}.

Section streams.
Context {O : Type} `{OutputStream O}.

(** A loop that writes each element. *)
Definition write_each {A} (w : A -> O -> O) (l : list A) (output : O) : O :=
  foldl (fun output x => w x output) output l.

Lemma appends_nil : appends id [].
Proof. intros o. by rewrite app_nil_r. Qed.
Lemma appends_seq f g d e : appends f d -> appends g e -> appends (fun o => g (f o)) (d ++ e).
Proof. intros Hf Hg o. by rewrite Hg, Hf, <- app_assoc. Qed.
Lemma appends_if (b : bool) f d : appends f d -> appends (if b then f else id) (if b then d else []).
Proof. intros Hf. destruct b; [done|apply appends_nil]. Qed.
Lemma appends_each {A} (w : A -> O -> O) (d : A -> bytes) l :
  (forall x, appends (w x) (d x)) -> appends (write_each w l) (concat (map d l)).
Proof.
  intros Hw. unfold write_each. induction l as [|x l IH]; intros o; simpl; [by rewrite app_nil_r|].
  by rewrite IH, Hw, <- app_assoc.
Qed.

Context `{WireFormat} `{!OutputLaws O}.
Lemma appends_opt_message {N} f (size : N -> Z) (ser : N -> bytes) (w : N -> O -> O) (x : option N) (dflt : N) :
  (forall n, x = Some n -> size n = zlen (ser n) /\ appends (w n) (ser n)) ->
  appends (match x with Some n => WriteMessageMaybeToArray f (size n) (ser n) (w n) | None => id end)
    (if x is Some _ then WriteStringToArray f (ser (default dflt x)) else []).
Proof.
  intros Hx. destruct x as [n|]; [|apply appends_nil]. destruct (Hx n eq_refl) as [-> Hw].
  by apply out_message.
Qed.
End streams.

(** ** An implementation: base-128 varints *)
Module Leb128.

Fixpoint put_varint (k : nat) (z : Z) : bytes :=
  match k with
  | O => []
  | S k => if z <? 128 then [byte_of_Z z] else byte_of_Z (z mod 128 + 128) :: put_varint k (z / 128)
  end.

Fixpoint get_varint (k : nat) (c : bytes) : option (Z * bytes) :=
  match k, c with
  | S k, b :: c =>
      let v := byte_to_Z b in
      if v <? 128 then Some (v, c)
      else match get_varint k c with
           | Some (w, r) => Some (v - 128 + 128 * w, r)
           | None => None
           end
  | _, _ => None
  end.

Lemma get_put_varint k z r :
  0 <= z < 128 ^ Z.of_nat (S k) -> get_varint (S k) (put_varint (S k) z ++ r) = Some (z, r).
Proof.
  revert z. induction k as [|k IH]; intros z Hz; cbn [put_varint];
    rewrite Nat2Z.inj_succ, Z.pow_succ_r in Hz by lia; destruct (Z.ltb_spec z 128).
  1,3: cbn [app get_varint]; rewrite byte_to_of_Z, Z.mod_small by lia;
    by rewrite (proj2 (Z.ltb_lt _ _)).
  - change (128 ^ Z.of_nat 0) with 1 in Hz. lia.
  - pose proof (Z.mod_pos_bound z 128 ltac:(lia)). pose proof (Z.div_mod z 128 ltac:(lia)).
    change (if z / 128 <? 128 then _ else _) with (put_varint (S k) (z / 128)).
    cbn [app]. cbn [get_varint]. rewrite byte_to_of_Z, (Z.mod_small (z mod 128 + 128)) by lia.
    destruct (Z.ltb_spec (z mod 128 + 128) 128); [lia|].
    change (match put_varint (S k) (z / 128) ++ r with [] => _ | _ => _ end)
      with (get_varint (S k) (put_varint (S k) (z / 128) ++ r)). rewrite IH.
    + do 2 f_equal. lia.
    + split; [apply Z.div_pos; lia|apply Z.div_lt_upper_bound; lia].
Qed.

Lemma get_varint_len k c v r : get_varint k c = Some (v, r) -> (length r < length c)%nat.
Proof.
  revert c v. induction k as [|k IH]; intros [|b c] v; simpl; try done.
  destruct (byte_to_Z b <? 128); [intros [= _ <-]; lia|].
  destruct (get_varint k c) as [[w r']|] eqn:E; [|done]. intros [= _ <-]. apply IH in E. lia.
Qed.

Lemma put_varint_cons k z : 0 < zlen (put_varint (S k) z).
Proof. cbn [put_varint]. destruct (z <? 128); rewrite zlen_cons; zlia. Qed.
Lemma put_varint_pos z : 0 < zlen (put_varint 10 z).
Proof. apply put_varint_cons. Qed.

Definition varint (z : Z) : bytes := put_varint 10 z.
Definition read (c : bytes) : option (Z * bytes) := get_varint 10 c.

Lemma read_varint z r : 0 <= z < 2 ^ 64 -> read (varint z ++ r) = Some (z, r).
Proof. intros. apply get_put_varint. change (128 ^ Z.of_nat 10) with (2 ^ 70). lia. Qed.

Definition read_map {A} (f : Z -> A) (c : bytes) : option (A * bytes) :=
  match read c with Some (v, r) => Some (f v, r) | None => None end.

Definition read_bytes (c : bytes) : option (bytes * bytes) :=
  match read c with
  | Some (n, r) => if n <=? zlen r then Some (ztake n r, zdrop n r) else None
  | None => None
  end.

Fixpoint read_all (k : nat) (c : bytes) : option (list Z) :=
  match k, c with
  | _, [] => Some []
  | O, _ => None
  | S k, _ => match read c with
              | Some (v, r) => match read_all k r with Some l => Some (s32 v :: l) | None => None end
              | None => None
              end
  end.

Definition read_packed_bytes (c : bytes) : option (list Z * bytes) :=
  match read_bytes c with
  | Some (d, r) => match read_all (length d) d with Some l => Some (l, r) | None => None end
  | None => None
  end.

#[export] Instance wire : WireFormat := {|
  ReadTag c := match read c with Some (t, r) => (t, r) | None => (0, c) end;
  ReadInt32 := read_map (fun v => s32 v);
  ReadInt64 := read_map (fun v => s64 v);
  ReadEnum := read_map (fun v => s32 v);
  ReadBool := read_map (fun v => negb (v =? 0));
  ReadString := read_bytes;
  ReadPackedInt32 := read_packed_bytes;
  ReadRepeatedInt32 c := match read c with Some (v, r) => Some ([s32 v], r) | None => None end;
  SkipField t c := if Z.land t 7 =? 0 then snd <$> read c
                   else if Z.land t 7 =? 2 then snd <$> read_bytes c else None;
  IsEndGroup t := Z.land t 7 =? 4;
  VerifyUtf8String _ := true;
  ConsumedEntireMessage t r := (t =? 0) && (zlen r =? 0);
  WriteInt32ToArray f v := varint (8 * f) ++ varint (u64 v);
  WriteInt64ToArray f v := varint (8 * f) ++ varint (u64 v);
  WriteEnumToArray f v := varint (8 * f) ++ varint (u64 v);
  WriteBoolToArray f v := varint (8 * f) ++ varint (if v then 1 else 0);
  WriteStringToArray f s := varint (8 * f + 2) ++ varint (zlen s) ++ s;
  WriteTagToArray f := varint (8 * f + 2);
  WriteVarint32ToArray := varint;
  WriteInt32NoTagToArray v := varint (u64 v);
  Int32Size v := zlen (varint (u64 v));
  Int64Size v := zlen (varint (u64 v));
  EnumSize v := zlen (varint (u64 v));
  LengthDelimitedSize n := zlen (varint n) + n;
|}.

#[export] Instance out : OutputStream bytes := {|
  written o := o;
  WriteInt32 f v o := o ++ WriteInt32ToArray f v;
  WriteInt64 f v o := o ++ WriteInt64ToArray f v;
  WriteEnum f v o := o ++ WriteEnumToArray f v;
  WriteBool f v o := o ++ WriteBoolToArray f v;
  WriteString f s o := o ++ WriteStringToArray f s;
  WriteStringMaybeAliased f s o := o ++ WriteStringToArray f s;
  WriteBytesMaybeAliased f s o := o ++ WriteStringToArray f s;
  WriteTag f o := o ++ WriteTagToArray f;
  WriteVarint32 v o := o ++ WriteVarint32ToArray v;
  WriteInt32NoTag v o := o ++ WriteInt32NoTagToArray v;
  WriteMessageMaybeToArray f n d w o := w (o ++ varint (8 * f + 2) ++ varint n);
|}.
#[export] Instance out_laws : OutputLaws bytes.
Proof.
  split; try done. intros f d w Hw o. specialize (Hw (o ++ varint (8 * f + 2) ++ varint (zlen d))).
  simpl in *. rewrite Hw. by rewrite <- !app_assoc.
Qed.

Lemma read_len c v r : read c = Some (v, r) -> (length r < length c)%nat.
Proof. apply get_varint_len. Qed.

Lemma read_map_len {A} (f : Z -> A) c v r : read_map f c = Some (v, r) -> (length r <= length c)%nat.
Proof.
  unfold read_map. destruct (read c) as [[w r']|] eqn:E; [|done]. intros [= _ <-].
  apply read_len in E. lia.
Qed.

Lemma read_bytes_len c v r : read_bytes c = Some (v, r) -> (length r <= length c)%nat.
Proof.
  unfold read_bytes. destruct (read c) as [[n r']|] eqn:E; [|done]. apply read_len in E.
  destruct (n <=? zlen r'); [|done]. intros [= _ <-]. unfold zdrop. rewrite length_drop. lia.
Qed.

Lemma read_bytes_put s r : zlen s < 2 ^ 31 -> read_bytes (varint (zlen s) ++ s ++ r) = Some (s, r).
Proof.
  intros Hs. unfold read_bytes. rewrite read_varint by zlia.
  rewrite (proj2 (Z.leb_le _ _)) by zlia. by rewrite ztake_app_exact, zdrop_app_exact.
Qed.

Lemma tag_byte t : 0 <= t < 128 -> varint t = [byte_of_Z t].
Proof. intros. unfold varint. cbn [put_varint]. by rewrite (proj2 (Z.ltb_lt _ _)) by lia. Qed.

Lemma s32_u64 v : int32_range v -> s32 (u64 v) = v.
Proof.
  unfold int32_range. intros Hv. unfold swrap, uwrap. rewrite <- Z.add_mod_idemp_l by lia.
  rewrite Z.mod_mod_divide by (by exists (2 ^ 32)). rewrite Z.add_mod_idemp_l by lia. rewrite Z.mod_small; lia.
Qed.

Lemma s64_u64 v : int64_range v -> s64 (u64 v) = v.
Proof. intros. rewrite swrap_uwrap by lia. by apply swrap_small. Qed.

Lemma read_all_put l k :
  Forall int32_range l -> (length (concat (map (fun v => varint (u64 v)) l)) <= k)%nat ->
  read_all k (concat (map (fun v => varint (u64 v)) l)) = Some l.
Proof.
  intros Hl. revert k. induction Hl as [|v l Hv _ IH]; intros k Hk; [by destruct k|].
  cbn [map concat] in *. pose proof (put_varint_pos (u64 v)) as Hp. unfold zlen in Hp.
  rewrite length_app in Hk. fold (varint (u64 v)) in Hp.
  destruct k as [|k]; [lia|].
  destruct (varint (u64 v) ++ concat (map (fun v => varint (u64 v)) l)) as [|b c] eqn:E.
  { apply (f_equal length) in E. rewrite length_app in E. simpl in E. lia. }
  cbn [read_all]. rewrite <- E, read_varint by apply (uwrap_range 64 v ltac:(lia)).
  rewrite IH by lia. by rewrite s32_u64.
Qed.

#[export] Instance wire_laws : WireLaws.
Proof.
  assert (forall c t r, (match read c with Some (t, r) => (t, r) | None => (0, c) end) = (t, r) ->
    t <> 0 -> (length r < length c)%nat) as Htag.
  { intros c t r. destruct (read c) as [[t' r']|] eqn:E; intros [= <- <-]; [|done].
    intros _. by eapply read_len. }
  assert (forall v, 0 <= u64 v < 2 ^ 64) as Hu by (intros; by apply uwrap_range).
  split; unfold field_number; cbn -[varint read Z.mul Z.add Z.pow]; intros;
    rewrite <- ?app_assoc; rewrite ?(read_varint (8 * f)), ?(read_varint (8 * f + 2)) by lia;
    eauto using read_map_len, read_bytes_len.
  - eexists; split; [done|]. unfold read_map. rewrite read_varint by done. by rewrite s32_u64.
  - eexists; split; [done|]. unfold read_map. rewrite read_varint by done. by rewrite s64_u64.
  - eexists; split; [done|]. unfold read_map. rewrite read_varint by done. by rewrite s32_u64.
  - eexists; split; [done|]. unfold read_map. rewrite read_varint by (destruct v; lia). by destruct v.
  - eexists; split; [done|]. by apply read_bytes_put.
  - eexists; split; [done|]. unfold read_packed_bytes.
    assert (packed_sizes l = zlen (concat (map (fun v => varint (u64 v)) l))) as Es.
    { clear. unfold packed_sizes. induction l as [|v l IH]; [done|]. cbn [foldr map concat].
      rewrite IH, zlen_app. done. }
    rewrite Es, read_bytes_put by (by rewrite <- Es). by rewrite read_all_put.
  - rewrite zlen_app, tag_byte by lia. done.
  - rewrite zlen_app, tag_byte by lia. done.
  - rewrite zlen_app, tag_byte by lia. done.
  - rewrite zlen_app, tag_byte by lia. by destruct v.
  - rewrite !zlen_app, tag_byte by lia. done.
  - by rewrite tag_byte by lia.
  - by rewrite uwrap_small by lia.
  - apply put_varint_pos.
  - unfold read_packed_bytes in *. destruct (read_bytes c) as [[d r']|] eqn:E; [|done].
    apply read_bytes_len in E. destruct (read_all _ _); [|done]. naive_solver.
  - destruct (read c) as [[w r']|] eqn:E; [|done]. apply read_len in E. simplify_eq. lia.
  - destruct (_ =? 0); [|destruct (_ =? 2); [|done]].
    + destruct (read c) as [[w r']|] eqn:E; [|done]. apply read_len in E. simplify_eq/=. lia.
    + destruct (read_bytes c) as [[w r']|] eqn:E; [|done]. apply read_bytes_len in E. by simplify_eq/=.
Qed.
End Leb128.
