(* ===== verification/Messages.v ===== *)
(** * The generated messages: src/protocol/gate.pb.cc, src/protocol/logic.pb.cc

    One module per message the servers exchange, each with the data members of
    the generated class, [Clear], the setters, [field] (the switch of
    [MergePartialFromCodedStream]), [SerializeToArray]
    ([InternalSerializeWithCachedSizesToArray]), [SerializeWithCachedSizes],
    [ByteSize] and [MergeFrom].
    Sizes are mathematical integers: a message fits the 64 MB of an RPC frame.
    Each module proves that its serialization has the size it announces and
    parses back to the message, and that the serializer to a stream writes the
    same bytes. *)

From Stdlib Require Import ZArith Lia.
From stdpp Require Import base list.
From S2P Require Import Prelude Protobuf.
Local Open Scope Z_scope.

(** A serialized piece of known size. *)
Definition sized (d : bytes) (n : Z) : Prop := zlen d = n.

(** What a field can carry: a string is UTF-8, lengths and integers fit. *)
Definition utf8_ok `{WireFormat} (s : bytes) : Prop := zlen s < 2 ^ 31 /\ VerifyUtf8String s = true.
Definition bytes_ok (s : bytes) : Prop := zlen s < 2 ^ 31.

Section sizes.
Context `{WireLaws}.
Lemma size_int32 f v : field_number f -> int32_range v ->
  zlen (if negb (v =? 0) then WriteInt32ToArray f v else []) = if negb (v =? 0) then 1 + Int32Size v else 0.
Proof. intros. destruct (negb (v =? 0)); [by apply int32_size|done]. Qed.
Lemma size_int64 f v : field_number f -> int64_range v ->
  zlen (if negb (v =? 0) then WriteInt64ToArray f v else []) = if negb (v =? 0) then 1 + Int64Size v else 0.
Proof. intros. destruct (negb (v =? 0)); [by apply int64_size|done]. Qed.
Lemma size_enum f v : field_number f -> int32_range v ->
  zlen (if negb (v =? 0) then WriteEnumToArray f v else []) = if negb (v =? 0) then 1 + EnumSize v else 0.
Proof. intros. destruct (negb (v =? 0)); [by apply enum_size|done]. Qed.
Lemma size_bool f (v : bool) : field_number f ->
  zlen (if v then WriteBoolToArray f v else []) = if v then 1 + 1 else 0.
Proof. intros. destruct v; [by apply bool_size|done]. Qed.
Lemma size_string f s : field_number f -> zlen s < 2 ^ 31 ->
  zlen (if 0 <? zlen s then WriteStringToArray f s else []) = if 0 <? zlen s then 1 + StringSize s else 0.
Proof. intros. destruct (0 <? zlen s); [by apply string_size|done]. Qed.
Lemma size_strings f l : field_number f -> Forall utf8_ok l ->
  zlen (concat (map (WriteStringToArray f) l)) = 1 * zlen l + foldr (fun s n => StringSize s + n) 0 l.
Proof.
  intros Hf. induction 1 as [|s l [Hs _] _ IH]; [done|]. cbn [map concat foldr].
  rewrite zlen_app, IH, string_size, zlen_cons by done. unfold StringSize. lia.
Qed.
Lemma size_packed l : Forall int32_range l ->
  zlen (concat (map WriteInt32NoTagToArray l)) = packed_sizes l.
Proof.
  induction 1 as [|v l Hv _ IH]; [done|]. cbn [map concat]. rewrite zlen_app, IH, no_tag_size by done. done.
Qed.
Lemma packed_sizes_pos l : l <> [] -> 0 < packed_sizes l.
Proof.
  destruct l as [|v l]; [done|]. intros _. unfold packed_sizes. cbn [foldr].
  pose proof (int32_size_pos v). assert (0 <= foldr (fun v n => Int32Size v + n) 0 l); [|lia].
  induction l as [|x l IH]; simpl; [lia|]. pose proof (int32_size_pos x). lia.
Qed.
End sizes.

Ltac fnum := unfold field_number; lia.
Ltac side := first [done | fnum].

(** Consumes one field of a serialized message. *)
Tactic Notation "merge_step" uconstr(lem) :=
  erewrite merge_entire_eq;
  [|apply lem;
    try first [ fnum | done | assumption | by intros -> | by intros ->; case_match
              | match goal with Hu : utf8_ok ?s |- _ => solve [apply Hu] end ]].

Ltac shrinks_field :=
  repeat match goal with
  | |- context [ Z.eqb ?t ?k ] => destruct (Z.eqb t k)
  end; intros Hf Hp; simplify_eq;
  first [ eapply read_then_shrinks; [|exact Hp];
          first [ apply read_int32_shrinks | apply read_int64_shrinks | apply read_enum_shrinks
                | apply read_bool_shrinks | apply ReadUtf8_shrinks | apply read_string_shrinks
                | apply read_packed_shrinks | apply read_repeated_shrinks ]
        | eapply read_message_shrinks; exact Hp ].


Module Proto.
Record Proto := mk { ver_ : Z; op_ : Z; seq_ : Z; body_ : bytes }.
Definition Clear : Proto := mk 0 0 0 [].
Definition set_ver (v : Z) (m : Proto) : Proto := mk v (op_ m) (seq_ m) (body_ m).
Definition set_op (v : Z) (m : Proto) : Proto := mk (ver_ m) v (seq_ m) (body_ m).
Definition set_seq (v : Z) (m : Proto) : Proto := mk (ver_ m) (op_ m) v (body_ m).
Definition set_body (v : bytes) (m : Proto) : Proto := mk (ver_ m) (op_ m) (seq_ m) v.

Section code.
Context `{WireFormat}.
Definition field (tag : Z) : option (Proto -> bytes -> option (Proto * bytes)) :=
  if tag =? 8 then Some (read_then ReadInt32 set_ver) else
  if tag =? 16 then Some (read_then ReadInt32 set_op) else
  if tag =? 24 then Some (read_then ReadInt32 set_seq) else
  if tag =? 34 then Some (read_then ReadString set_body) else
  None.
Definition MergePartialFromCodedStream : Proto -> bytes -> option (Proto * Z * bytes) := merge field.

Definition SerializeToArray (m : Proto) : bytes :=
  (if negb (ver_ m =? 0) then WriteInt32ToArray 1 (ver_ m) else []) ++
  (if negb (op_ m =? 0) then WriteInt32ToArray 2 (op_ m) else []) ++
  (if negb (seq_ m =? 0) then WriteInt32ToArray 3 (seq_ m) else []) ++
  (if 0 <? zlen (body_ m) then WriteStringToArray 4 (body_ m) else []).

Definition ByteSize (m : Proto) : Z :=
  (if negb (ver_ m =? 0) then 1 + Int32Size (ver_ m) else 0) +
  (if negb (op_ m =? 0) then 1 + Int32Size (op_ m) else 0) +
  (if negb (seq_ m =? 0) then 1 + Int32Size (seq_ m) else 0) +
  (if 0 <? zlen (body_ m) then 1 + StringSize (body_ m) else 0).

Definition SerializeWithCachedSizes {O : Type} `{OutputStream O} (m : Proto) (output : O) : O :=
  let output := (if negb (ver_ m =? 0) then WriteInt32 1 (ver_ m) else id) output in
  let output := (if negb (op_ m =? 0) then WriteInt32 2 (op_ m) else id) output in
  let output := (if negb (seq_ m =? 0) then WriteInt32 3 (seq_ m) else id) output in
  let output := (if 0 <? zlen (body_ m) then WriteBytesMaybeAliased 4 (body_ m) else id) output in
  output.

Definition MergeFrom (from m : Proto) : Proto :=
  mk (if negb (ver_ from =? 0) then ver_ from else ver_ m)
     (if negb (op_ from =? 0) then op_ from else op_ m)
     (if negb (seq_ from =? 0) then seq_ from else seq_ m)
     (if 0 <? zlen (body_ from) then body_ from else body_ m).
Definition CopyFrom (from : Proto) : Proto := MergeFrom from Clear.

Definition ok (m : Proto) : Prop :=
  int32_range (ver_ m) /\
  int32_range (op_ m) /\
  int32_range (seq_ m) /\
  bytes_ok (body_ m).
End code.

Section laws.
Context `{WireLaws}.
Lemma Proto_field_shrinks t parse m c m' r :
  field t = Some parse -> parse m c = Some (m', r) -> (length r <= length c)%nat.
Proof. unfold field. shrinks_field. Qed.

Lemma Proto_size m : ok m -> zlen (SerializeToArray m) = ByteSize m.
Proof.
  intros (Hver & Hop & Hseq & Hbody). unfold SerializeToArray, ByteSize.
  rewrite ?zlen_app.
  rewrite (size_int32 1) by side.
  rewrite (size_int32 2) by side.
  rewrite (size_int32 3) by side.
  rewrite (size_string 4) by side.
  lia.
Qed.

Lemma Proto_parse m : ok m -> merge_entire field Clear (SerializeToArray m) = Some m.
Proof.
  intros (Hver & Hop & Hseq & Hbody). rewrite <- (app_nil_r (SerializeToArray m)). unfold SerializeToArray.
  rewrite <- ?app_assoc. pose proof (eq_refl : field 0 = None) as F0.
  pose proof Proto_field_shrinks as Fs.
  merge_step (merge_int32 field F0 Fs 1 _ set_ver).
  merge_step (merge_int32 field F0 Fs 2 _ set_op).
  merge_step (merge_int32 field F0 Fs 3 _ set_seq).
  merge_step (merge_bytes field F0 Fs 4 _ set_body).
  rewrite (merge_entire_end field F0 Fs).
  by destruct m.
Qed.

Lemma Proto_stream {O : Type} `{OutputStream O} `{!OutputLaws O} m :
  ok m -> appends (SerializeWithCachedSizes m) (SerializeToArray m).
Proof.
  intros _ output. unfold SerializeWithCachedSizes, SerializeToArray.
  rewrite (appends_if _ _ _ (out_bytes_aliased 4 (body_ m))).
  rewrite (appends_if _ _ _ (out_int32 3 (seq_ m))).
  rewrite (appends_if _ _ _ (out_int32 2 (op_ m))).
  rewrite (appends_if _ _ _ (out_int32 1 (ver_ m))).
  by rewrite <- ?app_assoc.
Qed.
End laws.
End Proto.

Module Empty.
Record Empty := mk { }.
Definition Clear : Empty := mk.

Section code.
Context `{WireFormat}.
Definition field (tag : Z) : option (Empty -> bytes -> option (Empty * bytes)) :=
  None.
Definition MergePartialFromCodedStream : Empty -> bytes -> option (Empty * Z * bytes) := merge field.

Definition SerializeToArray (m : Empty) : bytes :=
  [].

Definition ByteSize (m : Empty) : Z :=
  0.

Definition SerializeWithCachedSizes {O : Type} `{OutputStream O} (m : Empty) (output : O) : O :=
  output.

Definition MergeFrom (from m : Empty) : Empty :=
  m.
Definition CopyFrom (from : Empty) : Empty := MergeFrom from Clear.

Definition ok (m : Empty) : Prop :=
  True.
End code.

Section laws.
Context `{WireLaws}.
Lemma Empty_field_shrinks t parse m c m' r :
  field t = Some parse -> parse m c = Some (m', r) -> (length r <= length c)%nat.
Proof. done. Qed.

Lemma Empty_size m : ok m -> zlen (SerializeToArray m) = ByteSize m.
Proof.
  done.
Qed.

Lemma Empty_parse m : ok m -> merge_entire field Clear (SerializeToArray m) = Some m.
Proof.
  intros _. destruct m. exact (merge_entire_end field eq_refl Empty_field_shrinks Clear).
Qed.

Lemma Empty_stream {O : Type} `{OutputStream O} `{!OutputLaws O} m :
  ok m -> appends (SerializeWithCachedSizes m) (SerializeToArray m).
Proof.
  intros _. apply appends_nil.
Qed.
End laws.
End Empty.

Module PushMsgReq.
Record PushMsgReq := mk { keys_ : list bytes; proto_ : option Proto.Proto; protoop_ : Z }.
Definition Clear : PushMsgReq := mk [] None 0.
Definition add_keys (v : bytes) (m : PushMsgReq) : PushMsgReq := mk (keys_ m ++ [v]) (proto_ m) (protoop_ m).
Lemma PushMsgReq_add_keys_all l m : foldl (fun m s => add_keys s m) m l = mk (keys_ m ++ l) (proto_ m) (protoop_ m).
Proof.
  revert m. induction l as [|s l IH]; intros m; simpl; [rewrite app_nil_r; by destruct m|].
  rewrite IH. simpl. by rewrite <- app_assoc.
Qed.
Definition set_proto (v : Proto.Proto) (m : PushMsgReq) : PushMsgReq := mk (keys_ m) (Some v) (protoop_ m).
Definition proto (m : PushMsgReq) : Proto.Proto := default Proto.Clear (proto_ m).
(** [mutable_proto], which makes the message on first use. *)
Definition mutable_proto (m : PushMsgReq) : Proto.Proto := match proto_ m with Some p => p | None => Proto.Clear end.
Definition set_protoop (v : Z) (m : PushMsgReq) : PushMsgReq := mk (keys_ m) (proto_ m) v.

Section code.
Context `{WireFormat}.
Definition field (tag : Z) : option (PushMsgReq -> bytes -> option (PushMsgReq * bytes)) :=
  if tag =? 10 then Some (read_then ReadUtf8 add_keys) else
  if tag =? 18 then Some (read_message Proto.field mutable_proto set_proto) else
  if tag =? 24 then Some (read_then ReadInt32 set_protoop) else
  None.
Definition MergePartialFromCodedStream : PushMsgReq -> bytes -> option (PushMsgReq * Z * bytes) := merge field.

Definition SerializeToArray (m : PushMsgReq) : bytes :=
  concat (map (WriteStringToArray 1) (keys_ m)) ++
  (if proto_ m is Some _ then WriteStringToArray 2 (Proto.SerializeToArray (default Proto.Clear (proto_ m))) else []) ++
  (if negb (protoop_ m =? 0) then WriteInt32ToArray 3 (protoop_ m) else []).

Definition ByteSize (m : PushMsgReq) : Z :=
  (if negb (protoop_ m =? 0) then 1 + Int32Size (protoop_ m) else 0) +
  (if proto_ m is Some _ then 1 + LengthDelimitedSize (Proto.ByteSize (default Proto.Clear (proto_ m))) else 0) +
  (1 * zlen (keys_ m) + foldr (fun s n => StringSize s + n) 0 (keys_ m)).

Definition SerializeWithCachedSizes {O : Type} `{OutputStream O} (m : PushMsgReq) (output : O) : O :=
  let output := write_each (WriteString 1) (keys_ m) output in
  let output := (match proto_ m with
                 | Some p => WriteMessageMaybeToArray 2 (Proto.ByteSize p) (Proto.SerializeToArray p)
                               (Proto.SerializeWithCachedSizes p)
                 | None => id
                 end) output in
  let output := (if negb (protoop_ m =? 0) then WriteInt32 3 (protoop_ m) else id) output in
  output.

Definition MergeFrom (from m : PushMsgReq) : PushMsgReq :=
  mk (keys_ m ++ keys_ from)
     (match proto_ from with Some p => Some (Proto.MergeFrom p (mutable_proto m)) | None => proto_ m end)
     (if negb (protoop_ from =? 0) then protoop_ from else protoop_ m).
Definition CopyFrom (from : PushMsgReq) : PushMsgReq := MergeFrom from Clear.

Definition ok (m : PushMsgReq) : Prop :=
  Forall utf8_ok (keys_ m) /\
  (if proto_ m is Some p then Proto.ok p /\ Proto.ByteSize p < 2 ^ 31 else True) /\
  int32_range (protoop_ m).
End code.

Section laws.
Context `{WireLaws}.
Lemma PushMsgReq_field_shrinks t parse m c m' r :
  field t = Some parse -> parse m c = Some (m', r) -> (length r <= length c)%nat.
Proof. unfold field. shrinks_field. Qed.

Lemma PushMsgReq_size m : ok m -> zlen (SerializeToArray m) = ByteSize m.
Proof.
  intros (Hkeys & Hproto & Hprotoop). unfold SerializeToArray, ByteSize.
  rewrite ?zlen_app.
  rewrite (size_strings 1) by side.
  rewrite (size_int32 3) by side.
  assert (zlen (if proto_ m is Some _ then WriteStringToArray 2 (Proto.SerializeToArray (default Proto.Clear (proto_ m))) else [])
    = if proto_ m is Some _ then 1 + LengthDelimitedSize (Proto.ByteSize (default Proto.Clear (proto_ m))) else 0) as ->.
  { destruct (proto_ m) as [p|]; cbn [default id from_option]; unfold id; [|done]. destruct Hproto as [Hp Hl].
    pose proof (Proto.Proto_size p Hp) as E. rewrite string_size by (fnum || by rewrite E). unfold StringSize. by rewrite E. }
  lia.
Qed.

Lemma PushMsgReq_parse m : ok m -> merge_entire field Clear (SerializeToArray m) = Some m.
Proof.
  intros (Hkeys & Hproto & Hprotoop). rewrite <- (app_nil_r (SerializeToArray m)). unfold SerializeToArray.
  rewrite <- ?app_assoc. pose proof (eq_refl : field 0 = None) as F0.
  pose proof PushMsgReq_field_shrinks as Fs.
  merge_step (merge_repeated_string field F0 Fs 1 _ add_keys).
  rewrite PushMsgReq_add_keys_all.
  merge_step (merge_opt_message field F0 Fs 2 Proto.field Proto.SerializeToArray (proto_ m) Proto.Clear mutable_proto set_proto).
  2: { intros p Ep. rewrite Ep in Hproto. destruct Hproto as [Hp Hl]. rewrite (Proto.Proto_size p Hp).
       split; [done|]. by apply Proto.Proto_parse. }
  merge_step (merge_int32 field F0 Fs 3 _ set_protoop).
  rewrite (merge_entire_end field F0 Fs).
  destruct m as [? [?|] ?]; done.
Qed.

Lemma PushMsgReq_stream {O : Type} `{OutputStream O} `{!OutputLaws O} m :
  ok m -> appends (SerializeWithCachedSizes m) (SerializeToArray m).
Proof.
  intros (Hkeys & Hproto & Hprotoop) output. unfold SerializeWithCachedSizes, SerializeToArray.
  assert (forall p, proto_ m = Some p -> Proto.ByteSize p = zlen (Proto.SerializeToArray p) /\
    appends (Proto.SerializeWithCachedSizes p) (Proto.SerializeToArray p)) as Hp.
  { intros p Ep. rewrite Ep in Hproto. destruct Hproto as [Hp _]. split; [by rewrite Proto.Proto_size|].
    by apply Proto.Proto_stream. }
  rewrite (appends_if _ _ _ (out_int32 3 (protoop_ m))).
  rewrite (appends_opt_message 2 Proto.ByteSize Proto.SerializeToArray Proto.SerializeWithCachedSizes (proto_ m) Proto.Clear Hp).
  rewrite (appends_each _ _ (keys_ m) (out_string 1)).
  by rewrite <- ?app_assoc.
Qed.
End laws.
End PushMsgReq.

Module PushMsgReply.
Record PushMsgReply := mk { }.
Definition Clear : PushMsgReply := mk.

Section code.
Context `{WireFormat}.
Definition field (tag : Z) : option (PushMsgReply -> bytes -> option (PushMsgReply * bytes)) :=
  None.
Definition MergePartialFromCodedStream : PushMsgReply -> bytes -> option (PushMsgReply * Z * bytes) := merge field.

Definition SerializeToArray (m : PushMsgReply) : bytes :=
  [].

Definition ByteSize (m : PushMsgReply) : Z :=
  0.

Definition SerializeWithCachedSizes {O : Type} `{OutputStream O} (m : PushMsgReply) (output : O) : O :=
  output.

Definition MergeFrom (from m : PushMsgReply) : PushMsgReply :=
  m.
Definition CopyFrom (from : PushMsgReply) : PushMsgReply := MergeFrom from Clear.

Definition ok (m : PushMsgReply) : Prop :=
  True.
End code.

Section laws.
Context `{WireLaws}.
Lemma PushMsgReply_field_shrinks t parse m c m' r :
  field t = Some parse -> parse m c = Some (m', r) -> (length r <= length c)%nat.
Proof. done. Qed.

Lemma PushMsgReply_size m : ok m -> zlen (SerializeToArray m) = ByteSize m.
Proof.
  done.
Qed.

Lemma PushMsgReply_parse m : ok m -> merge_entire field Clear (SerializeToArray m) = Some m.
Proof.
  intros _. destruct m. exact (merge_entire_end field eq_refl PushMsgReply_field_shrinks Clear).
Qed.

Lemma PushMsgReply_stream {O : Type} `{OutputStream O} `{!OutputLaws O} m :
  ok m -> appends (SerializeWithCachedSizes m) (SerializeToArray m).
Proof.
  intros _. apply appends_nil.
Qed.
End laws.
End PushMsgReply.

Module BroadcastReq.
Record BroadcastReq := mk { protoop_ : Z; proto_ : option Proto.Proto; speed_ : Z }.
Definition Clear : BroadcastReq := mk 0 None 0.
Definition set_protoop (v : Z) (m : BroadcastReq) : BroadcastReq := mk v (proto_ m) (speed_ m).
Definition set_proto (v : Proto.Proto) (m : BroadcastReq) : BroadcastReq := mk (protoop_ m) (Some v) (speed_ m).
Definition proto (m : BroadcastReq) : Proto.Proto := default Proto.Clear (proto_ m).
(** [mutable_proto], which makes the message on first use. *)
Definition mutable_proto (m : BroadcastReq) : Proto.Proto := match proto_ m with Some p => p | None => Proto.Clear end.
Definition set_speed (v : Z) (m : BroadcastReq) : BroadcastReq := mk (protoop_ m) (proto_ m) v.

Section code.
Context `{WireFormat}.
Definition field (tag : Z) : option (BroadcastReq -> bytes -> option (BroadcastReq * bytes)) :=
  if tag =? 8 then Some (read_then ReadInt32 set_protoop) else
  if tag =? 18 then Some (read_message Proto.field mutable_proto set_proto) else
  if tag =? 24 then Some (read_then ReadInt32 set_speed) else
  None.
Definition MergePartialFromCodedStream : BroadcastReq -> bytes -> option (BroadcastReq * Z * bytes) := merge field.

Definition SerializeToArray (m : BroadcastReq) : bytes :=
  (if negb (protoop_ m =? 0) then WriteInt32ToArray 1 (protoop_ m) else []) ++
  (if proto_ m is Some _ then WriteStringToArray 2 (Proto.SerializeToArray (default Proto.Clear (proto_ m))) else []) ++
  (if negb (speed_ m =? 0) then WriteInt32ToArray 3 (speed_ m) else []).

Definition ByteSize (m : BroadcastReq) : Z :=
  (if negb (protoop_ m =? 0) then 1 + Int32Size (protoop_ m) else 0) +
  (if proto_ m is Some _ then 1 + LengthDelimitedSize (Proto.ByteSize (default Proto.Clear (proto_ m))) else 0) +
  (if negb (speed_ m =? 0) then 1 + Int32Size (speed_ m) else 0).

Definition SerializeWithCachedSizes {O : Type} `{OutputStream O} (m : BroadcastReq) (output : O) : O :=
  let output := (if negb (protoop_ m =? 0) then WriteInt32 1 (protoop_ m) else id) output in
  let output := (match proto_ m with
                 | Some p => WriteMessageMaybeToArray 2 (Proto.ByteSize p) (Proto.SerializeToArray p)
                               (Proto.SerializeWithCachedSizes p)
                 | None => id
                 end) output in
  let output := (if negb (speed_ m =? 0) then WriteInt32 3 (speed_ m) else id) output in
  output.

Definition MergeFrom (from m : BroadcastReq) : BroadcastReq :=
  mk (if negb (protoop_ from =? 0) then protoop_ from else protoop_ m)
     (match proto_ from with Some p => Some (Proto.MergeFrom p (mutable_proto m)) | None => proto_ m end)
     (if negb (speed_ from =? 0) then speed_ from else speed_ m).
Definition CopyFrom (from : BroadcastReq) : BroadcastReq := MergeFrom from Clear.

Definition ok (m : BroadcastReq) : Prop :=
  int32_range (protoop_ m) /\
  (if proto_ m is Some p then Proto.ok p /\ Proto.ByteSize p < 2 ^ 31 else True) /\
  int32_range (speed_ m).
End code.

Section laws.
Context `{WireLaws}.
Lemma BroadcastReq_field_shrinks t parse m c m' r :
  field t = Some parse -> parse m c = Some (m', r) -> (length r <= length c)%nat.
Proof. unfold field. shrinks_field. Qed.

Lemma BroadcastReq_size m : ok m -> zlen (SerializeToArray m) = ByteSize m.
Proof.
  intros (Hprotoop & Hproto & Hspeed). unfold SerializeToArray, ByteSize.
  rewrite ?zlen_app.
  rewrite (size_int32 1) by side.
  rewrite (size_int32 3) by side.
  assert (zlen (if proto_ m is Some _ then WriteStringToArray 2 (Proto.SerializeToArray (default Proto.Clear (proto_ m))) else [])
    = if proto_ m is Some _ then 1 + LengthDelimitedSize (Proto.ByteSize (default Proto.Clear (proto_ m))) else 0) as ->.
  { destruct (proto_ m) as [p|]; cbn [default id from_option]; unfold id; [|done]. destruct Hproto as [Hp Hl].
    pose proof (Proto.Proto_size p Hp) as E. rewrite string_size by (fnum || by rewrite E). unfold StringSize. by rewrite E. }
  lia.
Qed.

Lemma BroadcastReq_parse m : ok m -> merge_entire field Clear (SerializeToArray m) = Some m.
Proof.
  intros (Hprotoop & Hproto & Hspeed). rewrite <- (app_nil_r (SerializeToArray m)). unfold SerializeToArray.
  rewrite <- ?app_assoc. pose proof (eq_refl : field 0 = None) as F0.
  pose proof BroadcastReq_field_shrinks as Fs.
  merge_step (merge_int32 field F0 Fs 1 _ set_protoop).
  merge_step (merge_opt_message field F0 Fs 2 Proto.field Proto.SerializeToArray (proto_ m) Proto.Clear mutable_proto set_proto).
  2: { intros p Ep. rewrite Ep in Hproto. destruct Hproto as [Hp Hl]. rewrite (Proto.Proto_size p Hp).
       split; [done|]. by apply Proto.Proto_parse. }
  merge_step (merge_int32 field F0 Fs 3 _ set_speed).
  rewrite (merge_entire_end field F0 Fs).
  destruct m as [? [?|] ?]; done.
Qed.

Lemma BroadcastReq_stream {O : Type} `{OutputStream O} `{!OutputLaws O} m :
  ok m -> appends (SerializeWithCachedSizes m) (SerializeToArray m).
Proof.
  intros (Hprotoop & Hproto & Hspeed) output. unfold SerializeWithCachedSizes, SerializeToArray.
  assert (forall p, proto_ m = Some p -> Proto.ByteSize p = zlen (Proto.SerializeToArray p) /\
    appends (Proto.SerializeWithCachedSizes p) (Proto.SerializeToArray p)) as Hp.
  { intros p Ep. rewrite Ep in Hproto. destruct Hproto as [Hp _]. split; [by rewrite Proto.Proto_size|].
    by apply Proto.Proto_stream. }
  rewrite (appends_if _ _ _ (out_int32 3 (speed_ m))).
  rewrite (appends_opt_message 2 Proto.ByteSize Proto.SerializeToArray Proto.SerializeWithCachedSizes (proto_ m) Proto.Clear Hp).
  rewrite (appends_if _ _ _ (out_int32 1 (protoop_ m))).
  by rewrite <- ?app_assoc.
Qed.
End laws.
End BroadcastReq.

Module BroadcastReply.
Record BroadcastReply := mk { }.
Definition Clear : BroadcastReply := mk.

Section code.
Context `{WireFormat}.
Definition field (tag : Z) : option (BroadcastReply -> bytes -> option (BroadcastReply * bytes)) :=
  None.
Definition MergePartialFromCodedStream : BroadcastReply -> bytes -> option (BroadcastReply * Z * bytes) := merge field.

Definition SerializeToArray (m : BroadcastReply) : bytes :=
  [].

Definition ByteSize (m : BroadcastReply) : Z :=
  0.

Definition SerializeWithCachedSizes {O : Type} `{OutputStream O} (m : BroadcastReply) (output : O) : O :=
  output.

Definition MergeFrom (from m : BroadcastReply) : BroadcastReply :=
  m.
Definition CopyFrom (from : BroadcastReply) : BroadcastReply := MergeFrom from Clear.

Definition ok (m : BroadcastReply) : Prop :=
  True.
End code.

Section laws.
Context `{WireLaws}.
Lemma BroadcastReply_field_shrinks t parse m c m' r :
  field t = Some parse -> parse m c = Some (m', r) -> (length r <= length c)%nat.
Proof. done. Qed.

Lemma BroadcastReply_size m : ok m -> zlen (SerializeToArray m) = ByteSize m.
Proof.
  done.
Qed.

Lemma BroadcastReply_parse m : ok m -> merge_entire field Clear (SerializeToArray m) = Some m.
Proof.
  intros _. destruct m. exact (merge_entire_end field eq_refl BroadcastReply_field_shrinks Clear).
Qed.

Lemma BroadcastReply_stream {O : Type} `{OutputStream O} `{!OutputLaws O} m :
  ok m -> appends (SerializeWithCachedSizes m) (SerializeToArray m).
Proof.
  intros _. apply appends_nil.
Qed.
End laws.
End BroadcastReply.

Module BroadcastRoomReq.
Record BroadcastRoomReq := mk { roomid_ : bytes; proto_ : option Proto.Proto }.
Definition Clear : BroadcastRoomReq := mk [] None.
Definition set_roomid (v : bytes) (m : BroadcastRoomReq) : BroadcastRoomReq := mk v (proto_ m).
Definition set_proto (v : Proto.Proto) (m : BroadcastRoomReq) : BroadcastRoomReq := mk (roomid_ m) (Some v).
Definition proto (m : BroadcastRoomReq) : Proto.Proto := default Proto.Clear (proto_ m).
(** [mutable_proto], which makes the message on first use. *)
Definition mutable_proto (m : BroadcastRoomReq) : Proto.Proto := match proto_ m with Some p => p | None => Proto.Clear end.

Section code.
Context `{WireFormat}.
Definition field (tag : Z) : option (BroadcastRoomReq -> bytes -> option (BroadcastRoomReq * bytes)) :=
  if tag =? 10 then Some (read_then ReadUtf8 set_roomid) else
  if tag =? 18 then Some (read_message Proto.field mutable_proto set_proto) else
  None.
Definition MergePartialFromCodedStream : BroadcastRoomReq -> bytes -> option (BroadcastRoomReq * Z * bytes) := merge field.

Definition SerializeToArray (m : BroadcastRoomReq) : bytes :=
  (if 0 <? zlen (roomid_ m) then WriteStringToArray 1 (roomid_ m) else []) ++
  (if proto_ m is Some _ then WriteStringToArray 2 (Proto.SerializeToArray (default Proto.Clear (proto_ m))) else []).

Definition ByteSize (m : BroadcastRoomReq) : Z :=
  (if 0 <? zlen (roomid_ m) then 1 + StringSize (roomid_ m) else 0) +
  (if proto_ m is Some _ then 1 + LengthDelimitedSize (Proto.ByteSize (default Proto.Clear (proto_ m))) else 0).

Definition SerializeWithCachedSizes {O : Type} `{OutputStream O} (m : BroadcastRoomReq) (output : O) : O :=
  let output := (if 0 <? zlen (roomid_ m) then WriteStringMaybeAliased 1 (roomid_ m) else id) output in
  let output := (match proto_ m with
                 | Some p => WriteMessageMaybeToArray 2 (Proto.ByteSize p) (Proto.SerializeToArray p)
                               (Proto.SerializeWithCachedSizes p)
                 | None => id
                 end) output in
  output.

Definition MergeFrom (from m : BroadcastRoomReq) : BroadcastRoomReq :=
  mk (if 0 <? zlen (roomid_ from) then roomid_ from else roomid_ m)
     (match proto_ from with Some p => Some (Proto.MergeFrom p (mutable_proto m)) | None => proto_ m end).
Definition CopyFrom (from : BroadcastRoomReq) : BroadcastRoomReq := MergeFrom from Clear.

Definition ok (m : BroadcastRoomReq) : Prop :=
  utf8_ok (roomid_ m) /\
  (if proto_ m is Some p then Proto.ok p /\ Proto.ByteSize p < 2 ^ 31 else True).
End code.

Section laws.
Context `{WireLaws}.
Lemma BroadcastRoomReq_field_shrinks t parse m c m' r :
  field t = Some parse -> parse m c = Some (m', r) -> (length r <= length c)%nat.
Proof. unfold field. shrinks_field. Qed.

Lemma BroadcastRoomReq_size m : ok m -> zlen (SerializeToArray m) = ByteSize m.
Proof.
  intros (Hroomid & Hproto). unfold SerializeToArray, ByteSize.
  rewrite ?zlen_app.
  rewrite (size_string 1) by (apply Hroomid || fnum).
  assert (zlen (if proto_ m is Some _ then WriteStringToArray 2 (Proto.SerializeToArray (default Proto.Clear (proto_ m))) else [])
    = if proto_ m is Some _ then 1 + LengthDelimitedSize (Proto.ByteSize (default Proto.Clear (proto_ m))) else 0) as ->.
  { destruct (proto_ m) as [p|]; cbn [default id from_option]; unfold id; [|done]. destruct Hproto as [Hp Hl].
    pose proof (Proto.Proto_size p Hp) as E. rewrite string_size by (fnum || by rewrite E). unfold StringSize. by rewrite E. }
  lia.
Qed.

Lemma BroadcastRoomReq_parse m : ok m -> merge_entire field Clear (SerializeToArray m) = Some m.
Proof.
  intros (Hroomid & Hproto). rewrite <- (app_nil_r (SerializeToArray m)). unfold SerializeToArray.
  rewrite <- ?app_assoc. pose proof (eq_refl : field 0 = None) as F0.
  pose proof BroadcastRoomReq_field_shrinks as Fs.
  merge_step (merge_string field F0 Fs 1 _ set_roomid).
  merge_step (merge_opt_message field F0 Fs 2 Proto.field Proto.SerializeToArray (proto_ m) Proto.Clear mutable_proto set_proto).
  2: { intros p Ep. rewrite Ep in Hproto. destruct Hproto as [Hp Hl]. rewrite (Proto.Proto_size p Hp).
       split; [done|]. by apply Proto.Proto_parse. }
  rewrite (merge_entire_end field F0 Fs).
  destruct m as [? [?|]]; done.
Qed.

Lemma BroadcastRoomReq_stream {O : Type} `{OutputStream O} `{!OutputLaws O} m :
  ok m -> appends (SerializeWithCachedSizes m) (SerializeToArray m).
Proof.
  intros (Hroomid & Hproto) output. unfold SerializeWithCachedSizes, SerializeToArray.
  assert (forall p, proto_ m = Some p -> Proto.ByteSize p = zlen (Proto.SerializeToArray p) /\
    appends (Proto.SerializeWithCachedSizes p) (Proto.SerializeToArray p)) as Hp.
  { intros p Ep. rewrite Ep in Hproto. destruct Hproto as [Hp _]. split; [by rewrite Proto.Proto_size|].
    by apply Proto.Proto_stream. }
  rewrite (appends_opt_message 2 Proto.ByteSize Proto.SerializeToArray Proto.SerializeWithCachedSizes (proto_ m) Proto.Clear Hp).
  rewrite (appends_if _ _ _ (out_string_aliased 1 (roomid_ m))).
  by rewrite <- ?app_assoc.
Qed.
End laws.
End BroadcastRoomReq.

Module BroadcastRoomReply.
Record BroadcastRoomReply := mk { }.
Definition Clear : BroadcastRoomReply := mk.

Section code.
Context `{WireFormat}.
Definition field (tag : Z) : option (BroadcastRoomReply -> bytes -> option (BroadcastRoomReply * bytes)) :=
  None.
Definition MergePartialFromCodedStream : BroadcastRoomReply -> bytes -> option (BroadcastRoomReply * Z * bytes) := merge field.

Definition SerializeToArray (m : BroadcastRoomReply) : bytes :=
  [].

Definition ByteSize (m : BroadcastRoomReply) : Z :=
  0.

Definition SerializeWithCachedSizes {O : Type} `{OutputStream O} (m : BroadcastRoomReply) (output : O) : O :=
  output.

Definition MergeFrom (from m : BroadcastRoomReply) : BroadcastRoomReply :=
  m.
Definition CopyFrom (from : BroadcastRoomReply) : BroadcastRoomReply := MergeFrom from Clear.

Definition ok (m : BroadcastRoomReply) : Prop :=
  True.
End code.

Section laws.
Context `{WireLaws}.
Lemma BroadcastRoomReply_field_shrinks t parse m c m' r :
  field t = Some parse -> parse m c = Some (m', r) -> (length r <= length c)%nat.
Proof. done. Qed.

Lemma BroadcastRoomReply_size m : ok m -> zlen (SerializeToArray m) = ByteSize m.
Proof.
  done.
Qed.

Lemma BroadcastRoomReply_parse m : ok m -> merge_entire field Clear (SerializeToArray m) = Some m.
Proof.
  intros _. destruct m. exact (merge_entire_end field eq_refl BroadcastRoomReply_field_shrinks Clear).
Qed.

Lemma BroadcastRoomReply_stream {O : Type} `{OutputStream O} `{!OutputLaws O} m :
  ok m -> appends (SerializeWithCachedSizes m) (SerializeToArray m).
Proof.
  intros _. apply appends_nil.
Qed.
End laws.
End BroadcastRoomReply.

Module RoomsReq.
Record RoomsReq := mk { }.
Definition Clear : RoomsReq := mk.

Section code.
Context `{WireFormat}.
Definition field (tag : Z) : option (RoomsReq -> bytes -> option (RoomsReq * bytes)) :=
  None.
Definition MergePartialFromCodedStream : RoomsReq -> bytes -> option (RoomsReq * Z * bytes) := merge field.

Definition SerializeToArray (m : RoomsReq) : bytes :=
  [].

Definition ByteSize (m : RoomsReq) : Z :=
  0.

Definition SerializeWithCachedSizes {O : Type} `{OutputStream O} (m : RoomsReq) (output : O) : O :=
  output.

Definition MergeFrom (from m : RoomsReq) : RoomsReq :=
  m.
Definition CopyFrom (from : RoomsReq) : RoomsReq := MergeFrom from Clear.

Definition ok (m : RoomsReq) : Prop :=
  True.
End code.

Section laws.
Context `{WireLaws}.
Lemma RoomsReq_field_shrinks t parse m c m' r :
  field t = Some parse -> parse m c = Some (m', r) -> (length r <= length c)%nat.
Proof. done. Qed.

Lemma RoomsReq_size m : ok m -> zlen (SerializeToArray m) = ByteSize m.
Proof.
  done.
Qed.

Lemma RoomsReq_parse m : ok m -> merge_entire field Clear (SerializeToArray m) = Some m.
Proof.
  intros _. destruct m. exact (merge_entire_end field eq_refl RoomsReq_field_shrinks Clear).
Qed.

Lemma RoomsReq_stream {O : Type} `{OutputStream O} `{!OutputLaws O} m :
  ok m -> appends (SerializeWithCachedSizes m) (SerializeToArray m).
Proof.
  intros _. apply appends_nil.
Qed.
End laws.
End RoomsReq.

Module PushMsg.
Record PushMsg := mk { type_ : Z; operation_ : Z; speed_ : Z; server_ : bytes; room_ : bytes; keys_ : list bytes; msg_ : bytes }.
Definition Clear : PushMsg := mk 0 0 0 [] [] [] [].
Definition set_type (v : Z) (m : PushMsg) : PushMsg := mk v (operation_ m) (speed_ m) (server_ m) (room_ m) (keys_ m) (msg_ m).
Definition set_operation (v : Z) (m : PushMsg) : PushMsg := mk (type_ m) v (speed_ m) (server_ m) (room_ m) (keys_ m) (msg_ m).
Definition set_speed (v : Z) (m : PushMsg) : PushMsg := mk (type_ m) (operation_ m) v (server_ m) (room_ m) (keys_ m) (msg_ m).
Definition set_server (v : bytes) (m : PushMsg) : PushMsg := mk (type_ m) (operation_ m) (speed_ m) v (room_ m) (keys_ m) (msg_ m).
Definition set_room (v : bytes) (m : PushMsg) : PushMsg := mk (type_ m) (operation_ m) (speed_ m) (server_ m) v (keys_ m) (msg_ m).
Definition add_keys (v : bytes) (m : PushMsg) : PushMsg := mk (type_ m) (operation_ m) (speed_ m) (server_ m) (room_ m) (keys_ m ++ [v]) (msg_ m).
Lemma PushMsg_add_keys_all l m : foldl (fun m s => add_keys s m) m l = mk (type_ m) (operation_ m) (speed_ m) (server_ m) (room_ m) (keys_ m ++ l) (msg_ m).
Proof.
  revert m. induction l as [|s l IH]; intros m; simpl; [rewrite app_nil_r; by destruct m|].
  rewrite IH. simpl. by rewrite <- app_assoc.
Qed.
Definition set_msg (v : bytes) (m : PushMsg) : PushMsg := mk (type_ m) (operation_ m) (speed_ m) (server_ m) (room_ m) (keys_ m) v.

Section code.
Context `{WireFormat}.
Definition field (tag : Z) : option (PushMsg -> bytes -> option (PushMsg * bytes)) :=
  if tag =? 8 then Some (read_then ReadEnum set_type) else
  if tag =? 16 then Some (read_then ReadInt32 set_operation) else
  if tag =? 24 then Some (read_then ReadInt32 set_speed) else
  if tag =? 34 then Some (read_then ReadUtf8 set_server) else
  if tag =? 42 then Some (read_then ReadUtf8 set_room) else
  if tag =? 50 then Some (read_then ReadUtf8 add_keys) else
  if tag =? 58 then Some (read_then ReadString set_msg) else
  None.
Definition MergePartialFromCodedStream : PushMsg -> bytes -> option (PushMsg * Z * bytes) := merge field.

Definition SerializeToArray (m : PushMsg) : bytes :=
  (if negb (type_ m =? 0) then WriteEnumToArray 1 (type_ m) else []) ++
  (if negb (operation_ m =? 0) then WriteInt32ToArray 2 (operation_ m) else []) ++
  (if negb (speed_ m =? 0) then WriteInt32ToArray 3 (speed_ m) else []) ++
  (if 0 <? zlen (server_ m) then WriteStringToArray 4 (server_ m) else []) ++
  (if 0 <? zlen (room_ m) then WriteStringToArray 5 (room_ m) else []) ++
  concat (map (WriteStringToArray 6) (keys_ m)) ++
  (if 0 <? zlen (msg_ m) then WriteStringToArray 7 (msg_ m) else []).

Definition ByteSize (m : PushMsg) : Z :=
  (if negb (type_ m =? 0) then 1 + EnumSize (type_ m) else 0) +
  (if negb (operation_ m =? 0) then 1 + Int32Size (operation_ m) else 0) +
  (if negb (speed_ m =? 0) then 1 + Int32Size (speed_ m) else 0) +
  (if 0 <? zlen (server_ m) then 1 + StringSize (server_ m) else 0) +
  (if 0 <? zlen (room_ m) then 1 + StringSize (room_ m) else 0) +
  (if 0 <? zlen (msg_ m) then 1 + StringSize (msg_ m) else 0) +
  (1 * zlen (keys_ m) + foldr (fun s n => StringSize s + n) 0 (keys_ m)).

Definition SerializeWithCachedSizes {O : Type} `{OutputStream O} (m : PushMsg) (output : O) : O :=
  let output := (if negb (type_ m =? 0) then WriteEnum 1 (type_ m) else id) output in
  let output := (if negb (operation_ m =? 0) then WriteInt32 2 (operation_ m) else id) output in
  let output := (if negb (speed_ m =? 0) then WriteInt32 3 (speed_ m) else id) output in
  let output := (if 0 <? zlen (server_ m) then WriteStringMaybeAliased 4 (server_ m) else id) output in
  let output := (if 0 <? zlen (room_ m) then WriteStringMaybeAliased 5 (room_ m) else id) output in
  let output := write_each (WriteString 6) (keys_ m) output in
  let output := (if 0 <? zlen (msg_ m) then WriteBytesMaybeAliased 7 (msg_ m) else id) output in
  output.

Definition MergeFrom (from m : PushMsg) : PushMsg :=
  mk (if negb (type_ from =? 0) then type_ from else type_ m)
     (if negb (operation_ from =? 0) then operation_ from else operation_ m)
     (if negb (speed_ from =? 0) then speed_ from else speed_ m)
     (if 0 <? zlen (server_ from) then server_ from else server_ m)
     (if 0 <? zlen (room_ from) then room_ from else room_ m)
     (keys_ m ++ keys_ from)
     (if 0 <? zlen (msg_ from) then msg_ from else msg_ m).
Definition CopyFrom (from : PushMsg) : PushMsg := MergeFrom from Clear.

Definition ok (m : PushMsg) : Prop :=
  int32_range (type_ m) /\
  int32_range (operation_ m) /\
  int32_range (speed_ m) /\
  utf8_ok (server_ m) /\
  utf8_ok (room_ m) /\
  Forall utf8_ok (keys_ m) /\
  bytes_ok (msg_ m).
End code.

Section laws.
Context `{WireLaws}.
Lemma PushMsg_field_shrinks t parse m c m' r :
  field t = Some parse -> parse m c = Some (m', r) -> (length r <= length c)%nat.
Proof. unfold field. shrinks_field. Qed.

Lemma PushMsg_size m : ok m -> zlen (SerializeToArray m) = ByteSize m.
Proof.
  intros (Htype & Hoperation & Hspeed & Hserver & Hroom & Hkeys & Hmsg). unfold SerializeToArray, ByteSize.
  rewrite ?zlen_app.
  rewrite (size_enum 1) by side.
  rewrite (size_int32 2) by side.
  rewrite (size_int32 3) by side.
  rewrite (size_string 4) by (apply Hserver || fnum).
  rewrite (size_string 5) by (apply Hroom || fnum).
  rewrite (size_strings 6) by side.
  rewrite (size_string 7) by side.
  lia.
Qed.

Lemma PushMsg_parse m : ok m -> merge_entire field Clear (SerializeToArray m) = Some m.
Proof.
  intros (Htype & Hoperation & Hspeed & Hserver & Hroom & Hkeys & Hmsg). rewrite <- (app_nil_r (SerializeToArray m)). unfold SerializeToArray.
  rewrite <- ?app_assoc. pose proof (eq_refl : field 0 = None) as F0.
  pose proof PushMsg_field_shrinks as Fs.
  merge_step (merge_enum field F0 Fs 1 _ set_type).
  merge_step (merge_int32 field F0 Fs 2 _ set_operation).
  merge_step (merge_int32 field F0 Fs 3 _ set_speed).
  merge_step (merge_string field F0 Fs 4 _ set_server).
  merge_step (merge_string field F0 Fs 5 _ set_room).
  merge_step (merge_repeated_string field F0 Fs 6 _ add_keys).
  rewrite PushMsg_add_keys_all.
  merge_step (merge_bytes field F0 Fs 7 _ set_msg).
  rewrite (merge_entire_end field F0 Fs).
  by destruct m.
Qed.

Lemma PushMsg_stream {O : Type} `{OutputStream O} `{!OutputLaws O} m :
  ok m -> appends (SerializeWithCachedSizes m) (SerializeToArray m).
Proof.
  intros _ output. unfold SerializeWithCachedSizes, SerializeToArray.
  rewrite (appends_if _ _ _ (out_bytes_aliased 7 (msg_ m))).
  rewrite (appends_each _ _ (keys_ m) (out_string 6)).
  rewrite (appends_if _ _ _ (out_string_aliased 5 (room_ m))).
  rewrite (appends_if _ _ _ (out_string_aliased 4 (server_ m))).
  rewrite (appends_if _ _ _ (out_int32 3 (speed_ m))).
  rewrite (appends_if _ _ _ (out_int32 2 (operation_ m))).
  rewrite (appends_if _ _ _ (out_enum 1 (type_ m))).
  by rewrite <- ?app_assoc.
Qed.
End laws.
End PushMsg.

Module CloseReply.
Record CloseReply := mk { }.
Definition Clear : CloseReply := mk.

Section code.
Context `{WireFormat}.
Definition field (tag : Z) : option (CloseReply -> bytes -> option (CloseReply * bytes)) :=
  None.
Definition MergePartialFromCodedStream : CloseReply -> bytes -> option (CloseReply * Z * bytes) := merge field.

Definition SerializeToArray (m : CloseReply) : bytes :=
  [].

Definition ByteSize (m : CloseReply) : Z :=
  0.

Definition SerializeWithCachedSizes {O : Type} `{OutputStream O} (m : CloseReply) (output : O) : O :=
  output.

Definition MergeFrom (from m : CloseReply) : CloseReply :=
  m.
Definition CopyFrom (from : CloseReply) : CloseReply := MergeFrom from Clear.

Definition ok (m : CloseReply) : Prop :=
  True.
End code.

Section laws.
Context `{WireLaws}.
Lemma CloseReply_field_shrinks t parse m c m' r :
  field t = Some parse -> parse m c = Some (m', r) -> (length r <= length c)%nat.
Proof. done. Qed.

Lemma CloseReply_size m : ok m -> zlen (SerializeToArray m) = ByteSize m.
Proof.
  done.
Qed.

Lemma CloseReply_parse m : ok m -> merge_entire field Clear (SerializeToArray m) = Some m.
Proof.
  intros _. destruct m. exact (merge_entire_end field eq_refl CloseReply_field_shrinks Clear).
Qed.

Lemma CloseReply_stream {O : Type} `{OutputStream O} `{!OutputLaws O} m :
  ok m -> appends (SerializeWithCachedSizes m) (SerializeToArray m).
Proof.
  intros _. apply appends_nil.
Qed.
End laws.
End CloseReply.

Module CloseReq.
Record CloseReq := mk { }.
Definition Clear : CloseReq := mk.

Section code.
Context `{WireFormat}.
Definition field (tag : Z) : option (CloseReq -> bytes -> option (CloseReq * bytes)) :=
  None.
Definition MergePartialFromCodedStream : CloseReq -> bytes -> option (CloseReq * Z * bytes) := merge field.

Definition SerializeToArray (m : CloseReq) : bytes :=
  [].

Definition ByteSize (m : CloseReq) : Z :=
  0.

Definition SerializeWithCachedSizes {O : Type} `{OutputStream O} (m : CloseReq) (output : O) : O :=
  output.

Definition MergeFrom (from m : CloseReq) : CloseReq :=
  m.
Definition CopyFrom (from : CloseReq) : CloseReq := MergeFrom from Clear.

Definition ok (m : CloseReq) : Prop :=
  True.
End code.

Section laws.
Context `{WireLaws}.
Lemma CloseReq_field_shrinks t parse m c m' r :
  field t = Some parse -> parse m c = Some (m', r) -> (length r <= length c)%nat.
Proof. done. Qed.

Lemma CloseReq_size m : ok m -> zlen (SerializeToArray m) = ByteSize m.
Proof.
  done.
Qed.

Lemma CloseReq_parse m : ok m -> merge_entire field Clear (SerializeToArray m) = Some m.
Proof.
  intros _. destruct m. exact (merge_entire_end field eq_refl CloseReq_field_shrinks Clear).
Qed.

Lemma CloseReq_stream {O : Type} `{OutputStream O} `{!OutputLaws O} m :
  ok m -> appends (SerializeWithCachedSizes m) (SerializeToArray m).
Proof.
  intros _. apply appends_nil.
Qed.
End laws.
End CloseReq.

Module PingReply.
Record PingReply := mk { }.
Definition Clear : PingReply := mk.

Section code.
Context `{WireFormat}.
Definition field (tag : Z) : option (PingReply -> bytes -> option (PingReply * bytes)) :=
  None.
Definition MergePartialFromCodedStream : PingReply -> bytes -> option (PingReply * Z * bytes) := merge field.

Definition SerializeToArray (m : PingReply) : bytes :=
  [].

Definition ByteSize (m : PingReply) : Z :=
  0.

Definition SerializeWithCachedSizes {O : Type} `{OutputStream O} (m : PingReply) (output : O) : O :=
  output.

Definition MergeFrom (from m : PingReply) : PingReply :=
  m.
Definition CopyFrom (from : PingReply) : PingReply := MergeFrom from Clear.

Definition ok (m : PingReply) : Prop :=
  True.
End code.

Section laws.
Context `{WireLaws}.
Lemma PingReply_field_shrinks t parse m c m' r :
  field t = Some parse -> parse m c = Some (m', r) -> (length r <= length c)%nat.
Proof. done. Qed.

Lemma PingReply_size m : ok m -> zlen (SerializeToArray m) = ByteSize m.
Proof.
  done.
Qed.

Lemma PingReply_parse m : ok m -> merge_entire field Clear (SerializeToArray m) = Some m.
Proof.
  intros _. destruct m. exact (merge_entire_end field eq_refl PingReply_field_shrinks Clear).
Qed.

Lemma PingReply_stream {O : Type} `{OutputStream O} `{!OutputLaws O} m :
  ok m -> appends (SerializeWithCachedSizes m) (SerializeToArray m).
Proof.
  intros _. apply appends_nil.
Qed.
End laws.
End PingReply.

Module PingReq.
Record PingReq := mk { }.
Definition Clear : PingReq := mk.

Section code.
Context `{WireFormat}.
Definition field (tag : Z) : option (PingReq -> bytes -> option (PingReq * bytes)) :=
  None.
Definition MergePartialFromCodedStream : PingReq -> bytes -> option (PingReq * Z * bytes) := merge field.

Definition SerializeToArray (m : PingReq) : bytes :=
  [].

Definition ByteSize (m : PingReq) : Z :=
  0.

Definition SerializeWithCachedSizes {O : Type} `{OutputStream O} (m : PingReq) (output : O) : O :=
  output.

Definition MergeFrom (from m : PingReq) : PingReq :=
  m.
Definition CopyFrom (from : PingReq) : PingReq := MergeFrom from Clear.

Definition ok (m : PingReq) : Prop :=
  True.
End code.

Section laws.
Context `{WireLaws}.
Lemma PingReq_field_shrinks t parse m c m' r :
  field t = Some parse -> parse m c = Some (m', r) -> (length r <= length c)%nat.
Proof. done. Qed.

Lemma PingReq_size m : ok m -> zlen (SerializeToArray m) = ByteSize m.
Proof.
  done.
Qed.

Lemma PingReq_parse m : ok m -> merge_entire field Clear (SerializeToArray m) = Some m.
Proof.
  intros _. destruct m. exact (merge_entire_end field eq_refl PingReq_field_shrinks Clear).
Qed.

Lemma PingReq_stream {O : Type} `{OutputStream O} `{!OutputLaws O} m :
  ok m -> appends (SerializeWithCachedSizes m) (SerializeToArray m).
Proof.
  intros _. apply appends_nil.
Qed.
End laws.
End PingReq.

Module ConnectReq.
Record ConnectReq := mk { server_ : bytes; cookie_ : bytes; token_ : bytes }.
Definition Clear : ConnectReq := mk [] [] [].
Definition set_server (v : bytes) (m : ConnectReq) : ConnectReq := mk v (cookie_ m) (token_ m).
Definition set_cookie (v : bytes) (m : ConnectReq) : ConnectReq := mk (server_ m) v (token_ m).
Definition set_token (v : bytes) (m : ConnectReq) : ConnectReq := mk (server_ m) (cookie_ m) v.

Section code.
Context `{WireFormat}.
Definition field (tag : Z) : option (ConnectReq -> bytes -> option (ConnectReq * bytes)) :=
  if tag =? 10 then Some (read_then ReadUtf8 set_server) else
  if tag =? 18 then Some (read_then ReadUtf8 set_cookie) else
  if tag =? 26 then Some (read_then ReadString set_token) else
  None.
Definition MergePartialFromCodedStream : ConnectReq -> bytes -> option (ConnectReq * Z * bytes) := merge field.

Definition SerializeToArray (m : ConnectReq) : bytes :=
  (if 0 <? zlen (server_ m) then WriteStringToArray 1 (server_ m) else []) ++
  (if 0 <? zlen (cookie_ m) then WriteStringToArray 2 (cookie_ m) else []) ++
  (if 0 <? zlen (token_ m) then WriteStringToArray 3 (token_ m) else []).

Definition ByteSize (m : ConnectReq) : Z :=
  (if 0 <? zlen (server_ m) then 1 + StringSize (server_ m) else 0) +
  (if 0 <? zlen (cookie_ m) then 1 + StringSize (cookie_ m) else 0) +
  (if 0 <? zlen (token_ m) then 1 + StringSize (token_ m) else 0).

Definition SerializeWithCachedSizes {O : Type} `{OutputStream O} (m : ConnectReq) (output : O) : O :=
  let output := (if 0 <? zlen (server_ m) then WriteStringMaybeAliased 1 (server_ m) else id) output in
  let output := (if 0 <? zlen (cookie_ m) then WriteStringMaybeAliased 2 (cookie_ m) else id) output in
  let output := (if 0 <? zlen (token_ m) then WriteBytesMaybeAliased 3 (token_ m) else id) output in
  output.

Definition MergeFrom (from m : ConnectReq) : ConnectReq :=
  mk (if 0 <? zlen (server_ from) then server_ from else server_ m)
     (if 0 <? zlen (cookie_ from) then cookie_ from else cookie_ m)
     (if 0 <? zlen (token_ from) then token_ from else token_ m).
Definition CopyFrom (from : ConnectReq) : ConnectReq := MergeFrom from Clear.

Definition ok (m : ConnectReq) : Prop :=
  utf8_ok (server_ m) /\
  utf8_ok (cookie_ m) /\
  bytes_ok (token_ m).
End code.

Section laws.
Context `{WireLaws}.
Lemma ConnectReq_field_shrinks t parse m c m' r :
  field t = Some parse -> parse m c = Some (m', r) -> (length r <= length c)%nat.
Proof. unfold field. shrinks_field. Qed.

Lemma ConnectReq_size m : ok m -> zlen (SerializeToArray m) = ByteSize m.
Proof.
  intros (Hserver & Hcookie & Htoken). unfold SerializeToArray, ByteSize.
  rewrite ?zlen_app.
  rewrite (size_string 1) by (apply Hserver || fnum).
  rewrite (size_string 2) by (apply Hcookie || fnum).
  rewrite (size_string 3) by side.
  lia.
Qed.

Lemma ConnectReq_parse m : ok m -> merge_entire field Clear (SerializeToArray m) = Some m.
Proof.
  intros (Hserver & Hcookie & Htoken). rewrite <- (app_nil_r (SerializeToArray m)). unfold SerializeToArray.
  rewrite <- ?app_assoc. pose proof (eq_refl : field 0 = None) as F0.
  pose proof ConnectReq_field_shrinks as Fs.
  merge_step (merge_string field F0 Fs 1 _ set_server).
  merge_step (merge_string field F0 Fs 2 _ set_cookie).
  merge_step (merge_bytes field F0 Fs 3 _ set_token).
  rewrite (merge_entire_end field F0 Fs).
  by destruct m.
Qed.

Lemma ConnectReq_stream {O : Type} `{OutputStream O} `{!OutputLaws O} m :
  ok m -> appends (SerializeWithCachedSizes m) (SerializeToArray m).
Proof.
  intros _ output. unfold SerializeWithCachedSizes, SerializeToArray.
  rewrite (appends_if _ _ _ (out_bytes_aliased 3 (token_ m))).
  rewrite (appends_if _ _ _ (out_string_aliased 2 (cookie_ m))).
  rewrite (appends_if _ _ _ (out_string_aliased 1 (server_ m))).
  by rewrite <- ?app_assoc.
Qed.
End laws.
End ConnectReq.

Module ConnectReply.
Record ConnectReply := mk { mid_ : Z; key_ : bytes; roomid_ : bytes; accepts_ : list Z; heartbeat_ : Z }.
Definition Clear : ConnectReply := mk 0 [] [] [] 0.
Definition set_mid (v : Z) (m : ConnectReply) : ConnectReply := mk v (key_ m) (roomid_ m) (accepts_ m) (heartbeat_ m).
Definition set_key (v : bytes) (m : ConnectReply) : ConnectReply := mk (mid_ m) v (roomid_ m) (accepts_ m) (heartbeat_ m).
Definition set_roomid (v : bytes) (m : ConnectReply) : ConnectReply := mk (mid_ m) (key_ m) v (accepts_ m) (heartbeat_ m).
Definition append_accepts (v : list Z) (m : ConnectReply) : ConnectReply := mk (mid_ m) (key_ m) (roomid_ m) (accepts_ m ++ v) (heartbeat_ m).
Definition add_accepts (v : Z) (m : ConnectReply) : ConnectReply := append_accepts [v] m.
Definition set_heartbeat (v : Z) (m : ConnectReply) : ConnectReply := mk (mid_ m) (key_ m) (roomid_ m) (accepts_ m) v.

Section code.
Context `{WireFormat}.
Definition field (tag : Z) : option (ConnectReply -> bytes -> option (ConnectReply * bytes)) :=
  if tag =? 8 then Some (read_then ReadInt64 set_mid) else
  if tag =? 18 then Some (read_then ReadUtf8 set_key) else
  if tag =? 26 then Some (read_then ReadUtf8 set_roomid) else
  if tag =? 34 then Some (read_then ReadPackedInt32 append_accepts) else
  if tag =? 32 then Some (read_then ReadRepeatedInt32 append_accepts) else
  if tag =? 40 then Some (read_then ReadInt64 set_heartbeat) else
  None.
Definition MergePartialFromCodedStream : ConnectReply -> bytes -> option (ConnectReply * Z * bytes) := merge field.

Definition SerializeToArray (m : ConnectReply) : bytes :=
  (if negb (mid_ m =? 0) then WriteInt64ToArray 1 (mid_ m) else []) ++
  (if 0 <? zlen (key_ m) then WriteStringToArray 2 (key_ m) else []) ++
  (if 0 <? zlen (roomid_ m) then WriteStringToArray 3 (roomid_ m) else []) ++
  (if 0 <? zlen (accepts_ m) then WriteTagToArray 4 ++ WriteVarint32ToArray (packed_sizes (accepts_ m)) else []) ++
  concat (map WriteInt32NoTagToArray (accepts_ m)) ++
  (if negb (heartbeat_ m =? 0) then WriteInt64ToArray 5 (heartbeat_ m) else []).

Definition ByteSize (m : ConnectReply) : Z :=
  (if negb (mid_ m =? 0) then 1 + Int64Size (mid_ m) else 0) +
  (if 0 <? zlen (key_ m) then 1 + StringSize (key_ m) else 0) +
  (if 0 <? zlen (roomid_ m) then 1 + StringSize (roomid_ m) else 0) +
  (if negb (heartbeat_ m =? 0) then 1 + Int64Size (heartbeat_ m) else 0) +
  ((if 0 <? packed_sizes (accepts_ m) then 1 + Int32Size (packed_sizes (accepts_ m)) else 0) + packed_sizes (accepts_ m)).

Definition SerializeWithCachedSizes {O : Type} `{OutputStream O} (m : ConnectReply) (output : O) : O :=
  let output := (if negb (mid_ m =? 0) then WriteInt64 1 (mid_ m) else id) output in
  let output := (if 0 <? zlen (key_ m) then WriteStringMaybeAliased 2 (key_ m) else id) output in
  let output := (if 0 <? zlen (roomid_ m) then WriteStringMaybeAliased 3 (roomid_ m) else id) output in
  let output := (if 0 <? zlen (accepts_ m) then fun output => WriteVarint32 (packed_sizes (accepts_ m)) (WriteTag 4 output) else id) output in
  let output := write_each WriteInt32NoTag (accepts_ m) output in
  let output := (if negb (heartbeat_ m =? 0) then WriteInt64 5 (heartbeat_ m) else id) output in
  output.

Definition MergeFrom (from m : ConnectReply) : ConnectReply :=
  mk (if negb (mid_ from =? 0) then mid_ from else mid_ m)
     (if 0 <? zlen (key_ from) then key_ from else key_ m)
     (if 0 <? zlen (roomid_ from) then roomid_ from else roomid_ m)
     (accepts_ m ++ accepts_ from)
     (if negb (heartbeat_ from =? 0) then heartbeat_ from else heartbeat_ m).
Definition CopyFrom (from : ConnectReply) : ConnectReply := MergeFrom from Clear.

Definition ok (m : ConnectReply) : Prop :=
  int64_range (mid_ m) /\
  utf8_ok (key_ m) /\
  utf8_ok (roomid_ m) /\
  Forall int32_range (accepts_ m) /\ packed_sizes (accepts_ m) < 2 ^ 31 /\
  int64_range (heartbeat_ m).
End code.

Section laws.
Context `{WireLaws}.
Lemma ConnectReply_field_shrinks t parse m c m' r :
  field t = Some parse -> parse m c = Some (m', r) -> (length r <= length c)%nat.
Proof. unfold field. shrinks_field. Qed.

Lemma ConnectReply_size m : ok m -> zlen (SerializeToArray m) = ByteSize m.
Proof.
  intros (Hmid & Hkey & Hroomid & Haccepts & Hacceptss & Hheartbeat). unfold SerializeToArray, ByteSize.
  rewrite ?zlen_app.
  rewrite (size_int64 1) by side.
  rewrite (size_string 2) by (apply Hkey || fnum).
  rewrite (size_string 3) by (apply Hroomid || fnum).
  rewrite (size_packed (accepts_ m)) by done.
  rewrite (size_int64 5) by side.
  assert (zlen (if 0 <? zlen (accepts_ m) then WriteTagToArray 4 ++ WriteVarint32ToArray (packed_sizes (accepts_ m)) else [])
    = if 0 <? packed_sizes (accepts_ m) then 1 + Int32Size (packed_sizes (accepts_ m)) else 0) as ->.
  { destruct (accepts_ m) as [|v l]; [done|]. pose proof (packed_sizes_pos (v :: l) ltac:(done)).
    rewrite !(proj2 (Z.ltb_lt 0 _)) by zlia.
    rewrite zlen_app, tag_size, varint_size by fnum. done. }
  lia.
Qed.

Lemma ConnectReply_parse m : ok m -> merge_entire field Clear (SerializeToArray m) = Some m.
Proof.
  intros (Hmid & Hkey & Hroomid & Haccepts & Hacceptss & Hheartbeat). rewrite <- (app_nil_r (SerializeToArray m)). unfold SerializeToArray.
  rewrite <- ?app_assoc. pose proof (eq_refl : field 0 = None) as F0.
  pose proof ConnectReply_field_shrinks as Fs.
  merge_step (merge_int64 field F0 Fs 1 _ set_mid).
  merge_step (merge_string field F0 Fs 2 _ set_key).
  merge_step (merge_string field F0 Fs 3 _ set_roomid).
  merge_step (merge_packed field F0 Fs 4 _ append_accepts).
  merge_step (merge_int64 field F0 Fs 5 _ set_heartbeat).
  rewrite (merge_entire_end field F0 Fs).
  by destruct m.
Qed.

Lemma ConnectReply_stream {O : Type} `{OutputStream O} `{!OutputLaws O} m :
  ok m -> appends (SerializeWithCachedSizes m) (SerializeToArray m).
Proof.
  intros _ output. unfold SerializeWithCachedSizes, SerializeToArray.
  rewrite (appends_if _ _ _ (out_int64 5 (heartbeat_ m))).
  rewrite (appends_each _ _ (accepts_ m) out_int32_no_tag).
  rewrite (appends_if _ _ _ (appends_seq _ _ _ _ (out_tag 4) (out_varint (packed_sizes (accepts_ m))))).
  rewrite (appends_if _ _ _ (out_string_aliased 3 (roomid_ m))).
  rewrite (appends_if _ _ _ (out_string_aliased 2 (key_ m))).
  rewrite (appends_if _ _ _ (out_int64 1 (mid_ m))).
  by rewrite <- ?app_assoc.
Qed.
End laws.
End ConnectReply.

Module DisconnectReq.
Record DisconnectReq := mk { mid_ : Z; key_ : bytes; server_ : bytes }.
Definition Clear : DisconnectReq := mk 0 [] [].
Definition set_mid (v : Z) (m : DisconnectReq) : DisconnectReq := mk v (key_ m) (server_ m).
Definition set_key (v : bytes) (m : DisconnectReq) : DisconnectReq := mk (mid_ m) v (server_ m).
Definition set_server (v : bytes) (m : DisconnectReq) : DisconnectReq := mk (mid_ m) (key_ m) v.

Section code.
Context `{WireFormat}.
Definition field (tag : Z) : option (DisconnectReq -> bytes -> option (DisconnectReq * bytes)) :=
  if tag =? 8 then Some (read_then ReadInt64 set_mid) else
  if tag =? 18 then Some (read_then ReadUtf8 set_key) else
  if tag =? 26 then Some (read_then ReadUtf8 set_server) else
  None.
Definition MergePartialFromCodedStream : DisconnectReq -> bytes -> option (DisconnectReq * Z * bytes) := merge field.

Definition SerializeToArray (m : DisconnectReq) : bytes :=
  (if negb (mid_ m =? 0) then WriteInt64ToArray 1 (mid_ m) else []) ++
  (if 0 <? zlen (key_ m) then WriteStringToArray 2 (key_ m) else []) ++
  (if 0 <? zlen (server_ m) then WriteStringToArray 3 (server_ m) else []).

Definition ByteSize (m : DisconnectReq) : Z :=
  (if negb (mid_ m =? 0) then 1 + Int64Size (mid_ m) else 0) +
  (if 0 <? zlen (key_ m) then 1 + StringSize (key_ m) else 0) +
  (if 0 <? zlen (server_ m) then 1 + StringSize (server_ m) else 0).

Definition SerializeWithCachedSizes {O : Type} `{OutputStream O} (m : DisconnectReq) (output : O) : O :=
  let output := (if negb (mid_ m =? 0) then WriteInt64 1 (mid_ m) else id) output in
  let output := (if 0 <? zlen (key_ m) then WriteStringMaybeAliased 2 (key_ m) else id) output in
  let output := (if 0 <? zlen (server_ m) then WriteStringMaybeAliased 3 (server_ m) else id) output in
  output.

Definition MergeFrom (from m : DisconnectReq) : DisconnectReq :=
  mk (if negb (mid_ from =? 0) then mid_ from else mid_ m)
     (if 0 <? zlen (key_ from) then key_ from else key_ m)
     (if 0 <? zlen (server_ from) then server_ from else server_ m).
Definition CopyFrom (from : DisconnectReq) : DisconnectReq := MergeFrom from Clear.

Definition ok (m : DisconnectReq) : Prop :=
  int64_range (mid_ m) /\
  utf8_ok (key_ m) /\
  utf8_ok (server_ m).
End code.

Section laws.
Context `{WireLaws}.
Lemma DisconnectReq_field_shrinks t parse m c m' r :
  field t = Some parse -> parse m c = Some (m', r) -> (length r <= length c)%nat.
Proof. unfold field. shrinks_field. Qed.

Lemma DisconnectReq_size m : ok m -> zlen (SerializeToArray m) = ByteSize m.
Proof.
  intros (Hmid & Hkey & Hserver). unfold SerializeToArray, ByteSize.
  rewrite ?zlen_app.
  rewrite (size_int64 1) by side.
  rewrite (size_string 2) by (apply Hkey || fnum).
  rewrite (size_string 3) by (apply Hserver || fnum).
  lia.
Qed.

Lemma DisconnectReq_parse m : ok m -> merge_entire field Clear (SerializeToArray m) = Some m.
Proof.
  intros (Hmid & Hkey & Hserver). rewrite <- (app_nil_r (SerializeToArray m)). unfold SerializeToArray.
  rewrite <- ?app_assoc. pose proof (eq_refl : field 0 = None) as F0.
  pose proof DisconnectReq_field_shrinks as Fs.
  merge_step (merge_int64 field F0 Fs 1 _ set_mid).
  merge_step (merge_string field F0 Fs 2 _ set_key).
  merge_step (merge_string field F0 Fs 3 _ set_server).
  rewrite (merge_entire_end field F0 Fs).
  by destruct m.
Qed.

Lemma DisconnectReq_stream {O : Type} `{OutputStream O} `{!OutputLaws O} m :
  ok m -> appends (SerializeWithCachedSizes m) (SerializeToArray m).
Proof.
  intros _ output. unfold SerializeWithCachedSizes, SerializeToArray.
  rewrite (appends_if _ _ _ (out_string_aliased 3 (server_ m))).
  rewrite (appends_if _ _ _ (out_string_aliased 2 (key_ m))).
  rewrite (appends_if _ _ _ (out_int64 1 (mid_ m))).
  by rewrite <- ?app_assoc.
Qed.
End laws.
End DisconnectReq.

Module DisconnectReply.
Record DisconnectReply := mk { has_ : bool }.
Definition Clear : DisconnectReply := mk false.
Definition set_has (v : bool) (m : DisconnectReply) : DisconnectReply := mk v.

Section code.
Context `{WireFormat}.
Definition field (tag : Z) : option (DisconnectReply -> bytes -> option (DisconnectReply * bytes)) :=
  if tag =? 8 then Some (read_then ReadBool set_has) else
  None.
Definition MergePartialFromCodedStream : DisconnectReply -> bytes -> option (DisconnectReply * Z * bytes) := merge field.

Definition SerializeToArray (m : DisconnectReply) : bytes :=
  (if has_ m then WriteBoolToArray 1 (has_ m) else []).

Definition ByteSize (m : DisconnectReply) : Z :=
  (if has_ m then 1 + 1 else 0).

Definition SerializeWithCachedSizes {O : Type} `{OutputStream O} (m : DisconnectReply) (output : O) : O :=
  let output := (if has_ m then WriteBool 1 (has_ m) else id) output in
  output.

Definition MergeFrom (from m : DisconnectReply) : DisconnectReply :=
  mk (if has_ from then has_ from else has_ m).
Definition CopyFrom (from : DisconnectReply) : DisconnectReply := MergeFrom from Clear.

Definition ok (m : DisconnectReply) : Prop :=
  True.
End code.

Section laws.
Context `{WireLaws}.
Lemma DisconnectReply_field_shrinks t parse m c m' r :
  field t = Some parse -> parse m c = Some (m', r) -> (length r <= length c)%nat.
Proof. unfold field. shrinks_field. Qed.

Lemma DisconnectReply_size m : ok m -> zlen (SerializeToArray m) = ByteSize m.
Proof.
  intros _. unfold SerializeToArray, ByteSize.
  rewrite ?zlen_app.
  rewrite (size_bool 1) by fnum.
  lia.
Qed.

Lemma DisconnectReply_parse m : ok m -> merge_entire field Clear (SerializeToArray m) = Some m.
Proof.
  intros _. rewrite <- (app_nil_r (SerializeToArray m)). unfold SerializeToArray.
  rewrite <- ?app_assoc. pose proof (eq_refl : field 0 = None) as F0.
  pose proof DisconnectReply_field_shrinks as Fs.
  merge_step (merge_bool field F0 Fs 1 _ set_has).
  rewrite (merge_entire_end field F0 Fs).
  by destruct m.
Qed.

Lemma DisconnectReply_stream {O : Type} `{OutputStream O} `{!OutputLaws O} m :
  ok m -> appends (SerializeWithCachedSizes m) (SerializeToArray m).
Proof.
  intros _ output. unfold SerializeWithCachedSizes, SerializeToArray.
  rewrite (appends_if _ _ _ (out_bool 1 (has_ m))).
  by rewrite <- ?app_assoc.
Qed.
End laws.
End DisconnectReply.

Module HeartbeatReq.
Record HeartbeatReq := mk { mid_ : Z; key_ : bytes; server_ : bytes }.
Definition Clear : HeartbeatReq := mk 0 [] [].
Definition set_mid (v : Z) (m : HeartbeatReq) : HeartbeatReq := mk v (key_ m) (server_ m).
Definition set_key (v : bytes) (m : HeartbeatReq) : HeartbeatReq := mk (mid_ m) v (server_ m).
Definition set_server (v : bytes) (m : HeartbeatReq) : HeartbeatReq := mk (mid_ m) (key_ m) v.

Section code.
Context `{WireFormat}.
Definition field (tag : Z) : option (HeartbeatReq -> bytes -> option (HeartbeatReq * bytes)) :=
  if tag =? 8 then Some (read_then ReadInt64 set_mid) else
  if tag =? 18 then Some (read_then ReadUtf8 set_key) else
  if tag =? 26 then Some (read_then ReadUtf8 set_server) else
  None.
Definition MergePartialFromCodedStream : HeartbeatReq -> bytes -> option (HeartbeatReq * Z * bytes) := merge field.

Definition SerializeToArray (m : HeartbeatReq) : bytes :=
  (if negb (mid_ m =? 0) then WriteInt64ToArray 1 (mid_ m) else []) ++
  (if 0 <? zlen (key_ m) then WriteStringToArray 2 (key_ m) else []) ++
  (if 0 <? zlen (server_ m) then WriteStringToArray 3 (server_ m) else []).

Definition ByteSize (m : HeartbeatReq) : Z :=
  (if negb (mid_ m =? 0) then 1 + Int64Size (mid_ m) else 0) +
  (if 0 <? zlen (key_ m) then 1 + StringSize (key_ m) else 0) +
  (if 0 <? zlen (server_ m) then 1 + StringSize (server_ m) else 0).

Definition SerializeWithCachedSizes {O : Type} `{OutputStream O} (m : HeartbeatReq) (output : O) : O :=
  let output := (if negb (mid_ m =? 0) then WriteInt64 1 (mid_ m) else id) output in
  let output := (if 0 <? zlen (key_ m) then WriteStringMaybeAliased 2 (key_ m) else id) output in
  let output := (if 0 <? zlen (server_ m) then WriteStringMaybeAliased 3 (server_ m) else id) output in
  output.

Definition MergeFrom (from m : HeartbeatReq) : HeartbeatReq :=
  mk (if negb (mid_ from =? 0) then mid_ from else mid_ m)
     (if 0 <? zlen (key_ from) then key_ from else key_ m)
     (if 0 <? zlen (server_ from) then server_ from else server_ m).
Definition CopyFrom (from : HeartbeatReq) : HeartbeatReq := MergeFrom from Clear.

Definition ok (m : HeartbeatReq) : Prop :=
  int64_range (mid_ m) /\
  utf8_ok (key_ m) /\
  utf8_ok (server_ m).
End code.

Section laws.
Context `{WireLaws}.
Lemma HeartbeatReq_field_shrinks t parse m c m' r :
  field t = Some parse -> parse m c = Some (m', r) -> (length r <= length c)%nat.
Proof. unfold field. shrinks_field. Qed.

Lemma HeartbeatReq_size m : ok m -> zlen (SerializeToArray m) = ByteSize m.
Proof.
  intros (Hmid & Hkey & Hserver). unfold SerializeToArray, ByteSize.
  rewrite ?zlen_app.
  rewrite (size_int64 1) by side.
  rewrite (size_string 2) by (apply Hkey || fnum).
  rewrite (size_string 3) by (apply Hserver || fnum).
  lia.
Qed.

Lemma HeartbeatReq_parse m : ok m -> merge_entire field Clear (SerializeToArray m) = Some m.
Proof.
  intros (Hmid & Hkey & Hserver). rewrite <- (app_nil_r (SerializeToArray m)). unfold SerializeToArray.
  rewrite <- ?app_assoc. pose proof (eq_refl : field 0 = None) as F0.
  pose proof HeartbeatReq_field_shrinks as Fs.
  merge_step (merge_int64 field F0 Fs 1 _ set_mid).
  merge_step (merge_string field F0 Fs 2 _ set_key).
  merge_step (merge_string field F0 Fs 3 _ set_server).
  rewrite (merge_entire_end field F0 Fs).
  by destruct m.
Qed.

Lemma HeartbeatReq_stream {O : Type} `{OutputStream O} `{!OutputLaws O} m :
  ok m -> appends (SerializeWithCachedSizes m) (SerializeToArray m).
Proof.
  intros _ output. unfold SerializeWithCachedSizes, SerializeToArray.
  rewrite (appends_if _ _ _ (out_string_aliased 3 (server_ m))).
  rewrite (appends_if _ _ _ (out_string_aliased 2 (key_ m))).
  rewrite (appends_if _ _ _ (out_int64 1 (mid_ m))).
  by rewrite <- ?app_assoc.
Qed.
End laws.
End HeartbeatReq.

Module HeartbeatReply.
Record HeartbeatReply := mk { }.
Definition Clear : HeartbeatReply := mk.

Section code.
Context `{WireFormat}.
Definition field (tag : Z) : option (HeartbeatReply -> bytes -> option (HeartbeatReply * bytes)) :=
  None.
Definition MergePartialFromCodedStream : HeartbeatReply -> bytes -> option (HeartbeatReply * Z * bytes) := merge field.

Definition SerializeToArray (m : HeartbeatReply) : bytes :=
  [].

Definition ByteSize (m : HeartbeatReply) : Z :=
  0.

Definition SerializeWithCachedSizes {O : Type} `{OutputStream O} (m : HeartbeatReply) (output : O) : O :=
  output.

Definition MergeFrom (from m : HeartbeatReply) : HeartbeatReply :=
  m.
Definition CopyFrom (from : HeartbeatReply) : HeartbeatReply := MergeFrom from Clear.

Definition ok (m : HeartbeatReply) : Prop :=
  True.
End code.

Section laws.
Context `{WireLaws}.
Lemma HeartbeatReply_field_shrinks t parse m c m' r :
  field t = Some parse -> parse m c = Some (m', r) -> (length r <= length c)%nat.
Proof. done. Qed.

Lemma HeartbeatReply_size m : ok m -> zlen (SerializeToArray m) = ByteSize m.
Proof.
  done.
Qed.

Lemma HeartbeatReply_parse m : ok m -> merge_entire field Clear (SerializeToArray m) = Some m.
Proof.
  intros _. destruct m. exact (merge_entire_end field eq_refl HeartbeatReply_field_shrinks Clear).
Qed.

Lemma HeartbeatReply_stream {O : Type} `{OutputStream O} `{!OutputLaws O} m :
  ok m -> appends (SerializeWithCachedSizes m) (SerializeToArray m).
Proof.
  intros _. apply appends_nil.
Qed.
End laws.
End HeartbeatReply.

Module ReceiveReq.
Record ReceiveReq := mk { mid_ : Z; proto_ : option Proto.Proto }.
Definition Clear : ReceiveReq := mk 0 None.
Definition set_mid (v : Z) (m : ReceiveReq) : ReceiveReq := mk v (proto_ m).
Definition set_proto (v : Proto.Proto) (m : ReceiveReq) : ReceiveReq := mk (mid_ m) (Some v).
Definition proto (m : ReceiveReq) : Proto.Proto := default Proto.Clear (proto_ m).
(** [mutable_proto], which makes the message on first use. *)
Definition mutable_proto (m : ReceiveReq) : Proto.Proto := match proto_ m with Some p => p | None => Proto.Clear end.

Section code.
Context `{WireFormat}.
Definition field (tag : Z) : option (ReceiveReq -> bytes -> option (ReceiveReq * bytes)) :=
  if tag =? 8 then Some (read_then ReadInt64 set_mid) else
  if tag =? 18 then Some (read_message Proto.field mutable_proto set_proto) else
  None.
Definition MergePartialFromCodedStream : ReceiveReq -> bytes -> option (ReceiveReq * Z * bytes) := merge field.

Definition SerializeToArray (m : ReceiveReq) : bytes :=
  (if negb (mid_ m =? 0) then WriteInt64ToArray 1 (mid_ m) else []) ++
  (if proto_ m is Some _ then WriteStringToArray 2 (Proto.SerializeToArray (default Proto.Clear (proto_ m))) else []).

Definition ByteSize (m : ReceiveReq) : Z :=
  (if negb (mid_ m =? 0) then 1 + Int64Size (mid_ m) else 0) +
  (if proto_ m is Some _ then 1 + LengthDelimitedSize (Proto.ByteSize (default Proto.Clear (proto_ m))) else 0).

Definition SerializeWithCachedSizes {O : Type} `{OutputStream O} (m : ReceiveReq) (output : O) : O :=
  let output := (if negb (mid_ m =? 0) then WriteInt64 1 (mid_ m) else id) output in
  let output := (match proto_ m with
                 | Some p => WriteMessageMaybeToArray 2 (Proto.ByteSize p) (Proto.SerializeToArray p)
                               (Proto.SerializeWithCachedSizes p)
                 | None => id
                 end) output in
  output.

Definition MergeFrom (from m : ReceiveReq) : ReceiveReq :=
  mk (if negb (mid_ from =? 0) then mid_ from else mid_ m)
     (match proto_ from with Some p => Some (Proto.MergeFrom p (mutable_proto m)) | None => proto_ m end).
Definition CopyFrom (from : ReceiveReq) : ReceiveReq := MergeFrom from Clear.

Definition ok (m : ReceiveReq) : Prop :=
  int64_range (mid_ m) /\
  (if proto_ m is Some p then Proto.ok p /\ Proto.ByteSize p < 2 ^ 31 else True).
End code.

Section laws.
Context `{WireLaws}.
Lemma ReceiveReq_field_shrinks t parse m c m' r :
  field t = Some parse -> parse m c = Some (m', r) -> (length r <= length c)%nat.
Proof. unfold field. shrinks_field. Qed.

Lemma ReceiveReq_size m : ok m -> zlen (SerializeToArray m) = ByteSize m.
Proof.
  intros (Hmid & Hproto). unfold SerializeToArray, ByteSize.
  rewrite ?zlen_app.
  rewrite (size_int64 1) by side.
  assert (zlen (if proto_ m is Some _ then WriteStringToArray 2 (Proto.SerializeToArray (default Proto.Clear (proto_ m))) else [])
    = if proto_ m is Some _ then 1 + LengthDelimitedSize (Proto.ByteSize (default Proto.Clear (proto_ m))) else 0) as ->.
  { destruct (proto_ m) as [p|]; cbn [default id from_option]; unfold id; [|done]. destruct Hproto as [Hp Hl].
    pose proof (Proto.Proto_size p Hp) as E. rewrite string_size by (fnum || by rewrite E). unfold StringSize. by rewrite E. }
  lia.
Qed.

Lemma ReceiveReq_parse m : ok m -> merge_entire field Clear (SerializeToArray m) = Some m.
Proof.
  intros (Hmid & Hproto). rewrite <- (app_nil_r (SerializeToArray m)). unfold SerializeToArray.
  rewrite <- ?app_assoc. pose proof (eq_refl : field 0 = None) as F0.
  pose proof ReceiveReq_field_shrinks as Fs.
  merge_step (merge_int64 field F0 Fs 1 _ set_mid).
  merge_step (merge_opt_message field F0 Fs 2 Proto.field Proto.SerializeToArray (proto_ m) Proto.Clear mutable_proto set_proto).
  2: { intros p Ep. rewrite Ep in Hproto. destruct Hproto as [Hp Hl]. rewrite (Proto.Proto_size p Hp).
       split; [done|]. by apply Proto.Proto_parse. }
  rewrite (merge_entire_end field F0 Fs).
  destruct m as [? [?|]]; done.
Qed.

Lemma ReceiveReq_stream {O : Type} `{OutputStream O} `{!OutputLaws O} m :
  ok m -> appends (SerializeWithCachedSizes m) (SerializeToArray m).
Proof.
  intros (Hmid & Hproto) output. unfold SerializeWithCachedSizes, SerializeToArray.
  assert (forall p, proto_ m = Some p -> Proto.ByteSize p = zlen (Proto.SerializeToArray p) /\
    appends (Proto.SerializeWithCachedSizes p) (Proto.SerializeToArray p)) as Hp.
  { intros p Ep. rewrite Ep in Hproto. destruct Hproto as [Hp _]. split; [by rewrite Proto.Proto_size|].
    by apply Proto.Proto_stream. }
  rewrite (appends_opt_message 2 Proto.ByteSize Proto.SerializeToArray Proto.SerializeWithCachedSizes (proto_ m) Proto.Clear Hp).
  rewrite (appends_if _ _ _ (out_int64 1 (mid_ m))).
  by rewrite <- ?app_assoc.
Qed.
End laws.
End ReceiveReq.

Module ReceiveReply.
Record ReceiveReply := mk { }.
Definition Clear : ReceiveReply := mk.

Section code.
Context `{WireFormat}.
Definition field (tag : Z) : option (ReceiveReply -> bytes -> option (ReceiveReply * bytes)) :=
  None.
Definition MergePartialFromCodedStream : ReceiveReply -> bytes -> option (ReceiveReply * Z * bytes) := merge field.

Definition SerializeToArray (m : ReceiveReply) : bytes :=
  [].

Definition ByteSize (m : ReceiveReply) : Z :=
  0.

Definition SerializeWithCachedSizes {O : Type} `{OutputStream O} (m : ReceiveReply) (output : O) : O :=
  output.

Definition MergeFrom (from m : ReceiveReply) : ReceiveReply :=
  m.
Definition CopyFrom (from : ReceiveReply) : ReceiveReply := MergeFrom from Clear.

Definition ok (m : ReceiveReply) : Prop :=
  True.
End code.

Section laws.
Context `{WireLaws}.
Lemma ReceiveReply_field_shrinks t parse m c m' r :
  field t = Some parse -> parse m c = Some (m', r) -> (length r <= length c)%nat.
Proof. done. Qed.

Lemma ReceiveReply_size m : ok m -> zlen (SerializeToArray m) = ByteSize m.
Proof.
  done.
Qed.

Lemma ReceiveReply_parse m : ok m -> merge_entire field Clear (SerializeToArray m) = Some m.
Proof.
  intros _. destruct m. exact (merge_entire_end field eq_refl ReceiveReply_field_shrinks Clear).
Qed.

Lemma ReceiveReply_stream {O : Type} `{OutputStream O} `{!OutputLaws O} m :
  ok m -> appends (SerializeWithCachedSizes m) (SerializeToArray m).
Proof.
  intros _. apply appends_nil.
Qed.
End laws.
End ReceiveReply.

