(* ===== verification/Services.v ===== *)
(** * The RPC messages and services of the servers

    [msg] is a message of one of the generated types that travel as RPC
    requests and responses; the instances show that it is what the RPC codec
    asks of a message.  [Gate] and [Logic] are the generated service classes
    (src/protocol/gate.pb.cc, src/protocol/logic.pb.cc): the virtual methods,
    [CallMethod], the prototypes, and the stubs that call through a channel. *)

From Stdlib Require Import ZArith Lia.
From stdpp Require Import base list gmap strings.
From S2P Require Import Prelude Endian Buffer Framing Interfaces.
From S2P Require Import Text Session RpcCodec RpcChannel Protobuf Messages.
Local Open Scope Z_scope.

Module Wire.

(** The message types of the RPC methods.  [OnlineReq], [OnlineReply] and
    [RoomsReply] have map fields; nobody sends them. *)
Inductive msg_type :=
  | TEmpty
  | TPushMsgReq
  | TPushMsgReply
  | TBroadcastReq
  | TBroadcastReply
  | TBroadcastRoomReq
  | TBroadcastRoomReply
  | TRoomsReq
  | TCloseReply
  | TCloseReq
  | TPingReply
  | TPingReq
  | TConnectReq
  | TConnectReply
  | TDisconnectReq
  | TDisconnectReply
  | THeartbeatReq
  | THeartbeatReply
  | TReceiveReq
  | TReceiveReply
  | TOnlineReq
  | TOnlineReply
  | TRoomsReply.

#[global] Instance msg_type_eq_dec : EqDecision msg_type.
Proof. solve_decision. Defined.

(** The three messages with a map field are handed through the RPC layer as
    their bytes, [MMap], which no service of the repository reads; their
    fields, writers and parsers are in [MapMessages]. *)
Inductive msg :=
  | MEmpty (m : Empty.Empty)
  | MPushMsgReq (m : PushMsgReq.PushMsgReq)
  | MPushMsgReply (m : PushMsgReply.PushMsgReply)
  | MBroadcastReq (m : BroadcastReq.BroadcastReq)
  | MBroadcastReply (m : BroadcastReply.BroadcastReply)
  | MBroadcastRoomReq (m : BroadcastRoomReq.BroadcastRoomReq)
  | MBroadcastRoomReply (m : BroadcastRoomReply.BroadcastRoomReply)
  | MRoomsReq (m : RoomsReq.RoomsReq)
  | MCloseReply (m : CloseReply.CloseReply)
  | MCloseReq (m : CloseReq.CloseReq)
  | MPingReply (m : PingReply.PingReply)
  | MPingReq (m : PingReq.PingReq)
  | MConnectReq (m : ConnectReq.ConnectReq)
  | MConnectReply (m : ConnectReply.ConnectReply)
  | MDisconnectReq (m : DisconnectReq.DisconnectReq)
  | MDisconnectReply (m : DisconnectReply.DisconnectReply)
  | MHeartbeatReq (m : HeartbeatReq.HeartbeatReq)
  | MHeartbeatReply (m : HeartbeatReply.HeartbeatReply)
  | MReceiveReq (m : ReceiveReq.ReceiveReq)
  | MReceiveReply (m : ReceiveReply.ReceiveReply)
  | MMap (t : msg_type) (d : bytes).

(** [GetTypeName] of an object, for the [down_cast] checks. *)
Definition type_of (m : msg) : msg_type :=
  match m with
  | MEmpty _ => TEmpty
  | MPushMsgReq _ => TPushMsgReq
  | MPushMsgReply _ => TPushMsgReply
  | MBroadcastReq _ => TBroadcastReq
  | MBroadcastReply _ => TBroadcastReply
  | MBroadcastRoomReq _ => TBroadcastRoomReq
  | MBroadcastRoomReply _ => TBroadcastRoomReply
  | MRoomsReq _ => TRoomsReq
  | MCloseReply _ => TCloseReply
  | MCloseReq _ => TCloseReq
  | MPingReply _ => TPingReply
  | MPingReq _ => TPingReq
  | MConnectReq _ => TConnectReq
  | MConnectReply _ => TConnectReply
  | MDisconnectReq _ => TDisconnectReq
  | MDisconnectReply _ => TDisconnectReply
  | MHeartbeatReq _ => THeartbeatReq
  | MHeartbeatReply _ => THeartbeatReply
  | MReceiveReq _ => TReceiveReq
  | MReceiveReply _ => TReceiveReply
  | MMap t _ => t
  end.

Section code.
Context `{WireFormat}.
(** Whether the runtime accepts the bytes as a message of one of the three
    types with a map field. *)
Context (ParseMap : msg_type -> bytes -> bool).

Definition byte_size (m : msg) : Z :=
  match m with
  | MEmpty m => Empty.ByteSize m
  | MPushMsgReq m => PushMsgReq.ByteSize m
  | MPushMsgReply m => PushMsgReply.ByteSize m
  | MBroadcastReq m => BroadcastReq.ByteSize m
  | MBroadcastReply m => BroadcastReply.ByteSize m
  | MBroadcastRoomReq m => BroadcastRoomReq.ByteSize m
  | MBroadcastRoomReply m => BroadcastRoomReply.ByteSize m
  | MRoomsReq m => RoomsReq.ByteSize m
  | MCloseReply m => CloseReply.ByteSize m
  | MCloseReq m => CloseReq.ByteSize m
  | MPingReply m => PingReply.ByteSize m
  | MPingReq m => PingReq.ByteSize m
  | MConnectReq m => ConnectReq.ByteSize m
  | MConnectReply m => ConnectReply.ByteSize m
  | MDisconnectReq m => DisconnectReq.ByteSize m
  | MDisconnectReply m => DisconnectReply.ByteSize m
  | MHeartbeatReq m => HeartbeatReq.ByteSize m
  | MHeartbeatReply m => HeartbeatReply.ByteSize m
  | MReceiveReq m => ReceiveReq.ByteSize m
  | MReceiveReply m => ReceiveReply.ByteSize m
  | MMap _ d => zlen d
  end.

Definition serialize (m : msg) : bytes :=
  match m with
  | MEmpty m => Empty.SerializeToArray m
  | MPushMsgReq m => PushMsgReq.SerializeToArray m
  | MPushMsgReply m => PushMsgReply.SerializeToArray m
  | MBroadcastReq m => BroadcastReq.SerializeToArray m
  | MBroadcastReply m => BroadcastReply.SerializeToArray m
  | MBroadcastRoomReq m => BroadcastRoomReq.SerializeToArray m
  | MBroadcastRoomReply m => BroadcastRoomReply.SerializeToArray m
  | MRoomsReq m => RoomsReq.SerializeToArray m
  | MCloseReply m => CloseReply.SerializeToArray m
  | MCloseReq m => CloseReq.SerializeToArray m
  | MPingReply m => PingReply.SerializeToArray m
  | MPingReq m => PingReq.SerializeToArray m
  | MConnectReq m => ConnectReq.SerializeToArray m
  | MConnectReply m => ConnectReply.SerializeToArray m
  | MDisconnectReq m => DisconnectReq.SerializeToArray m
  | MDisconnectReply m => DisconnectReply.SerializeToArray m
  | MHeartbeatReq m => HeartbeatReq.SerializeToArray m
  | MHeartbeatReply m => HeartbeatReply.SerializeToArray m
  | MReceiveReq m => ReceiveReq.SerializeToArray m
  | MReceiveReply m => ReceiveReply.SerializeToArray m
  | MMap _ d => d
  end.

(** [SerializeWithCachedSizes], to a stream. *)
Definition stream {O} `{OutputStream O} (m : msg) : option (O -> O) :=
  match m with
  | MEmpty m => Some (Empty.SerializeWithCachedSizes m)
  | MPushMsgReq m => Some (PushMsgReq.SerializeWithCachedSizes m)
  | MPushMsgReply m => Some (PushMsgReply.SerializeWithCachedSizes m)
  | MBroadcastReq m => Some (BroadcastReq.SerializeWithCachedSizes m)
  | MBroadcastReply m => Some (BroadcastReply.SerializeWithCachedSizes m)
  | MBroadcastRoomReq m => Some (BroadcastRoomReq.SerializeWithCachedSizes m)
  | MBroadcastRoomReply m => Some (BroadcastRoomReply.SerializeWithCachedSizes m)
  | MRoomsReq m => Some (RoomsReq.SerializeWithCachedSizes m)
  | MCloseReply m => Some (CloseReply.SerializeWithCachedSizes m)
  | MCloseReq m => Some (CloseReq.SerializeWithCachedSizes m)
  | MPingReply m => Some (PingReply.SerializeWithCachedSizes m)
  | MPingReq m => Some (PingReq.SerializeWithCachedSizes m)
  | MConnectReq m => Some (ConnectReq.SerializeWithCachedSizes m)
  | MConnectReply m => Some (ConnectReply.SerializeWithCachedSizes m)
  | MDisconnectReq m => Some (DisconnectReq.SerializeWithCachedSizes m)
  | MDisconnectReply m => Some (DisconnectReply.SerializeWithCachedSizes m)
  | MHeartbeatReq m => Some (HeartbeatReq.SerializeWithCachedSizes m)
  | MHeartbeatReply m => Some (HeartbeatReply.SerializeWithCachedSizes m)
  | MReceiveReq m => Some (ReceiveReq.SerializeWithCachedSizes m)
  | MReceiveReply m => Some (ReceiveReply.SerializeWithCachedSizes m)
  | MMap _ _ => None
  end.

(** The default instance of a type. *)
Definition default_instance (t : msg_type) : msg :=
  match t with
  | TEmpty => MEmpty Empty.Clear
  | TPushMsgReq => MPushMsgReq PushMsgReq.Clear
  | TPushMsgReply => MPushMsgReply PushMsgReply.Clear
  | TBroadcastReq => MBroadcastReq BroadcastReq.Clear
  | TBroadcastReply => MBroadcastReply BroadcastReply.Clear
  | TBroadcastRoomReq => MBroadcastRoomReq BroadcastRoomReq.Clear
  | TBroadcastRoomReply => MBroadcastRoomReply BroadcastRoomReply.Clear
  | TRoomsReq => MRoomsReq RoomsReq.Clear
  | TCloseReply => MCloseReply CloseReply.Clear
  | TCloseReq => MCloseReq CloseReq.Clear
  | TPingReply => MPingReply PingReply.Clear
  | TPingReq => MPingReq PingReq.Clear
  | TConnectReq => MConnectReq ConnectReq.Clear
  | TConnectReply => MConnectReply ConnectReply.Clear
  | TDisconnectReq => MDisconnectReq DisconnectReq.Clear
  | TDisconnectReply => MDisconnectReply DisconnectReply.Clear
  | THeartbeatReq => MHeartbeatReq HeartbeatReq.Clear
  | THeartbeatReply => MHeartbeatReply HeartbeatReply.Clear
  | TReceiveReq => MReceiveReq ReceiveReq.Clear
  | TReceiveReply => MReceiveReply ReceiveReply.Clear
  | t => MMap t []
  end.

(** [message->ParseFromArray] on a new object of the type. *)
Definition ParseFromArray (t : msg_type) (d : bytes) : option msg :=
  match t with
  | TEmpty => MEmpty <$> merge_entire Empty.field Empty.Clear d
  | TPushMsgReq => MPushMsgReq <$> merge_entire PushMsgReq.field PushMsgReq.Clear d
  | TPushMsgReply => MPushMsgReply <$> merge_entire PushMsgReply.field PushMsgReply.Clear d
  | TBroadcastReq => MBroadcastReq <$> merge_entire BroadcastReq.field BroadcastReq.Clear d
  | TBroadcastReply => MBroadcastReply <$> merge_entire BroadcastReply.field BroadcastReply.Clear d
  | TBroadcastRoomReq => MBroadcastRoomReq <$> merge_entire BroadcastRoomReq.field BroadcastRoomReq.Clear d
  | TBroadcastRoomReply => MBroadcastRoomReply <$> merge_entire BroadcastRoomReply.field BroadcastRoomReply.Clear d
  | TRoomsReq => MRoomsReq <$> merge_entire RoomsReq.field RoomsReq.Clear d
  | TCloseReply => MCloseReply <$> merge_entire CloseReply.field CloseReply.Clear d
  | TCloseReq => MCloseReq <$> merge_entire CloseReq.field CloseReq.Clear d
  | TPingReply => MPingReply <$> merge_entire PingReply.field PingReply.Clear d
  | TPingReq => MPingReq <$> merge_entire PingReq.field PingReq.Clear d
  | TConnectReq => MConnectReq <$> merge_entire ConnectReq.field ConnectReq.Clear d
  | TConnectReply => MConnectReply <$> merge_entire ConnectReply.field ConnectReply.Clear d
  | TDisconnectReq => MDisconnectReq <$> merge_entire DisconnectReq.field DisconnectReq.Clear d
  | TDisconnectReply => MDisconnectReply <$> merge_entire DisconnectReply.field DisconnectReply.Clear d
  | THeartbeatReq => MHeartbeatReq <$> merge_entire HeartbeatReq.field HeartbeatReq.Clear d
  | THeartbeatReply => MHeartbeatReply <$> merge_entire HeartbeatReply.field HeartbeatReply.Clear d
  | TReceiveReq => MReceiveReq <$> merge_entire ReceiveReq.field ReceiveReq.Clear d
  | TReceiveReply => MReceiveReply <$> merge_entire ReceiveReply.field ReceiveReply.Clear d
  | t => if ParseMap t d then Some (MMap t d) else None
  end.

Definition msg_ok (m : msg) : Prop :=
  match m with
  | MEmpty m => Empty.ok m
  | MPushMsgReq m => PushMsgReq.ok m
  | MPushMsgReply m => PushMsgReply.ok m
  | MBroadcastReq m => BroadcastReq.ok m
  | MBroadcastReply m => BroadcastReply.ok m
  | MBroadcastRoomReq m => BroadcastRoomReq.ok m
  | MBroadcastRoomReply m => BroadcastRoomReply.ok m
  | MRoomsReq m => RoomsReq.ok m
  | MCloseReply m => CloseReply.ok m
  | MCloseReq m => CloseReq.ok m
  | MPingReply m => PingReply.ok m
  | MPingReq m => PingReq.ok m
  | MConnectReq m => ConnectReq.ok m
  | MConnectReply m => ConnectReply.ok m
  | MDisconnectReq m => DisconnectReq.ok m
  | MDisconnectReply m => DisconnectReply.ok m
  | MHeartbeatReq m => HeartbeatReq.ok m
  | MHeartbeatReply m => HeartbeatReply.ok m
  | MReceiveReq m => ReceiveReq.ok m
  | MReceiveReply m => ReceiveReply.ok m
  | MMap t d => (t = TOnlineReq \/ t = TOnlineReply \/ t = TRoomsReply) /\ ParseMap t d = true
  end.

#[global] Instance message : Message msg := {|
  RpcCodec.ByteSize := byte_size;
  SerializeWithCachedSizesToArray := serialize;
  message_ok := msg_ok;
|}.

Context `{!WireLaws}.
#[global] Instance message_laws : MessageLaws msg.
Proof.
  split. intros [] Hm; simpl in *.
  - by apply Empty.Empty_size.
  - by apply PushMsgReq.PushMsgReq_size.
  - by apply PushMsgReply.PushMsgReply_size.
  - by apply BroadcastReq.BroadcastReq_size.
  - by apply BroadcastReply.BroadcastReply_size.
  - by apply BroadcastRoomReq.BroadcastRoomReq_size.
  - by apply BroadcastRoomReply.BroadcastRoomReply_size.
  - by apply RoomsReq.RoomsReq_size.
  - by apply CloseReply.CloseReply_size.
  - by apply CloseReq.CloseReq_size.
  - by apply PingReply.PingReply_size.
  - by apply PingReq.PingReq_size.
  - by apply ConnectReq.ConnectReq_size.
  - by apply ConnectReply.ConnectReply_size.
  - by apply DisconnectReq.DisconnectReq_size.
  - by apply DisconnectReply.DisconnectReply_size.
  - by apply HeartbeatReq.HeartbeatReq_size.
  - by apply HeartbeatReply.HeartbeatReply_size.
  - by apply ReceiveReq.ReceiveReq_size.
  - by apply ReceiveReply.ReceiveReply_size.
  - done.
Qed.

Lemma parse_serialize m : msg_ok m -> ParseFromArray (type_of m) (serialize m) = Some m.
Proof using All.
  destruct m; simpl; intros Hm.
  - by rewrite Empty.Empty_parse.
  - by rewrite PushMsgReq.PushMsgReq_parse.
  - by rewrite PushMsgReply.PushMsgReply_parse.
  - by rewrite BroadcastReq.BroadcastReq_parse.
  - by rewrite BroadcastReply.BroadcastReply_parse.
  - by rewrite BroadcastRoomReq.BroadcastRoomReq_parse.
  - by rewrite BroadcastRoomReply.BroadcastRoomReply_parse.
  - by rewrite RoomsReq.RoomsReq_parse.
  - by rewrite CloseReply.CloseReply_parse.
  - by rewrite CloseReq.CloseReq_parse.
  - by rewrite PingReply.PingReply_parse.
  - by rewrite PingReq.PingReq_parse.
  - by rewrite ConnectReq.ConnectReq_parse.
  - by rewrite ConnectReply.ConnectReply_parse.
  - by rewrite DisconnectReq.DisconnectReq_parse.
  - by rewrite DisconnectReply.DisconnectReply_parse.
  - by rewrite HeartbeatReq.HeartbeatReq_parse.
  - by rewrite HeartbeatReply.HeartbeatReply_parse.
  - by rewrite ReceiveReq.ReceiveReq_parse.
  - by rewrite ReceiveReply.ReceiveReply_parse.
  - destruct Hm as [[->|[->| ->]] Hp]; simpl; by rewrite Hp.
Qed.

Lemma stream_serialize {O} `{OutputStream O} `{!OutputLaws O} m (w : O -> O) :
  msg_ok m -> stream m = Some w -> appends w (serialize m).
Proof using All.
  destruct m; simpl; intros Hm [= <-].

  - by apply Empty.Empty_stream.
  - by apply PushMsgReq.PushMsgReq_stream.
  - by apply PushMsgReply.PushMsgReply_stream.
  - by apply BroadcastReq.BroadcastReq_stream.
  - by apply BroadcastReply.BroadcastReply_stream.
  - by apply BroadcastRoomReq.BroadcastRoomReq_stream.
  - by apply BroadcastRoomReply.BroadcastRoomReply_stream.
  - by apply RoomsReq.RoomsReq_stream.
  - by apply CloseReply.CloseReply_stream.
  - by apply CloseReq.CloseReq_stream.
  - by apply PingReply.PingReply_stream.
  - by apply PingReq.PingReq_stream.
  - by apply ConnectReq.ConnectReq_stream.
  - by apply ConnectReply.ConnectReply_stream.
  - by apply DisconnectReq.DisconnectReq_stream.
  - by apply DisconnectReply.DisconnectReply_stream.
  - by apply HeartbeatReq.HeartbeatReq_stream.
  - by apply HeartbeatReply.HeartbeatReply_stream.
  - by apply ReceiveReq.ReceiveReq_stream.
  - by apply ReceiveReply.ReceiveReply_stream.
Qed.

Lemma parsed_type t d m : ParseFromArray t d = Some m -> type_of m = t.
Proof using. destruct t; simpl; try (intros (x & _ & ->)%fmap_Some; done); case_match; naive_solver. Qed.
End code.
End Wire.
Import Wire.

(** [method->name()] and the order of the methods, as in src/protocol/gate.proto
    and src/protocol/logic.proto. *)
Definition gate_methods : list bytes :=
  [str "Ping"; str "Close"; str "PushMsg"; str "Broadcast"; str "BroadcastRoom"; str "Rooms"].
Definition logic_methods : list bytes :=
  [str "Ping"; str "Close"; str "Connect"; str "Disconnect"; str "Heartbeat"; str "RenewOnline";
   str "Receive"].

(** The controller of a call: a pointer, NULL in every call this program
    makes. *)
Inductive RpcController := NullController | SomeController.

(** An inherited method: [controller->SetFailed(...)], then [done->Run()]. *)
Definition not_implemented {Req Resp W : Type} (empty : Resp) (controller : RpcController)
    (request : Req) (done : Resp -> W -> res W) (w : W) : res W :=
  match controller with
  | NullController => Err UB
  | SomeController => done empty w
  end.

(** A virtual method: it receives the controller, the request and the closure
    it runs on its response. *)
Definition handler (Req Resp W : Type) : Type := RpcController -> Req -> (Resp -> W -> res W) -> W -> res W.

Module Gate.
Record Gate (W : Type) := mk {
  Ping : handler Empty.Empty Empty.Empty W;
  Close : handler Empty.Empty Empty.Empty W;
  PushMsg : handler PushMsgReq.PushMsgReq PushMsgReply.PushMsgReply W;
  Broadcast : handler BroadcastReq.BroadcastReq BroadcastReply.BroadcastReply W;
  BroadcastRoom : handler BroadcastRoomReq.BroadcastRoomReq BroadcastRoomReply.BroadcastRoomReply W;
  Rooms : handler RoomsReq.RoomsReq bytes W;
}.
Arguments mk {W}.
Arguments Ping {W}.
Arguments Close {W}.
Arguments PushMsg {W}.
Arguments Broadcast {W}.
Arguments BroadcastRoom {W}.
Arguments Rooms {W}.

(** A service that overrides nothing. *)
Definition base {W} : Gate W :=
  mk
    (not_implemented Empty.Clear)
    (not_implemented Empty.Clear)
    (not_implemented PushMsgReply.Clear)
    (not_implemented BroadcastReply.Clear)
    (not_implemented BroadcastRoomReply.Clear)
    (not_implemented ([] : bytes)).

(** [down_cast]: the object has the type or the cast is undefined behaviour. *)
Definition CallMethod {W} (s : Gate W) (method : Z) (controller : RpcController) (request : msg)
    (done : msg -> W -> res W) : W -> res W :=
  match method with
  | 0 => match request with MEmpty r => Ping s controller r (fun r => done (MEmpty r)) | _ => fun _ => Err UB end
  | 1 => match request with MEmpty r => Close s controller r (fun r => done (MEmpty r)) | _ => fun _ => Err UB end
  | 2 => match request with MPushMsgReq r => PushMsg s controller r (fun r => done (MPushMsgReply r)) | _ => fun _ => Err UB end
  | 3 => match request with MBroadcastReq r => Broadcast s controller r (fun r => done (MBroadcastReply r)) | _ => fun _ => Err UB end
  | 4 => match request with MBroadcastRoomReq r => BroadcastRoom s controller r (fun r => done (MBroadcastRoomReply r)) | _ => fun _ => Err UB end
  | 5 => match request with MRoomsReq r => Rooms s controller r (fun r => done (MMap TRoomsReply r)) | _ => fun _ => Err UB end
  | _ => fun _ => Err AssertFailed
  end.

Definition GetRequestPrototype (method : Z) : res msg_type :=
  match method with
  | 0 => Ok TEmpty
  | 1 => Ok TEmpty
  | 2 => Ok TPushMsgReq
  | 3 => Ok TBroadcastReq
  | 4 => Ok TBroadcastRoomReq
  | 5 => Ok TRoomsReq
  | _ => Err AssertFailed
  end.

Definition GetResponsePrototype (method : Z) : res msg_type :=
  match method with
  | 0 => Ok TEmpty
  | 1 => Ok TEmpty
  | 2 => Ok TPushMsgReply
  | 3 => Ok TBroadcastReply
  | 4 => Ok TBroadcastRoomReply
  | 5 => Ok TRoomsReply
  | _ => Err AssertFailed
  end.

(** The stub: [channel_->CallMethod(descriptor()->method(i), ...)]; the callers
    of this program pass a response object. *)
Section stub.
Context {S W C Svc : Type} `{SessionOps S W} `{Message msg}.
Definition stub_call (i : nat) (request : msg) (response : option msg_type) (done : option C)
    (ch : RpcChannel.Channel S msg_type C Svc) (w : W) : res (RpcChannel.Channel S msg_type C Svc * W) :=
  match gate_methods !! i with
  | Some name => RpcChannel.CallMethod (str "gate.Gate") name request response done ch w
  | None => Err AssertFailed
  end.
Definition Stub_Ping (request : Empty.Empty) := stub_call 0 (MEmpty request) (Some TEmpty).
Definition Stub_Close (request : Empty.Empty) := stub_call 1 (MEmpty request) (Some TEmpty).
Definition Stub_PushMsg (request : PushMsgReq.PushMsgReq) := stub_call 2 (MPushMsgReq request) (Some TPushMsgReply).
Definition Stub_Broadcast (request : BroadcastReq.BroadcastReq) := stub_call 3 (MBroadcastReq request) (Some TBroadcastReply).
Definition Stub_BroadcastRoom (request : BroadcastRoomReq.BroadcastRoomReq) := stub_call 4 (MBroadcastRoomReq request) (Some TBroadcastRoomReply).
Definition Stub_Rooms (request : RoomsReq.RoomsReq) := stub_call 5 (MRoomsReq request) (Some TRoomsReply).
End stub.
End Gate.

Module Logic.
Record Logic (W : Type) := mk {
  Ping : handler PingReq.PingReq PingReply.PingReply W;
  Close : handler CloseReq.CloseReq CloseReply.CloseReply W;
  Connect : handler ConnectReq.ConnectReq ConnectReply.ConnectReply W;
  Disconnect : handler DisconnectReq.DisconnectReq DisconnectReply.DisconnectReply W;
  Heartbeat : handler HeartbeatReq.HeartbeatReq HeartbeatReply.HeartbeatReply W;
  RenewOnline : handler bytes bytes W;
  Receive : handler ReceiveReq.ReceiveReq ReceiveReply.ReceiveReply W;
}.
Arguments mk {W}.
Arguments Ping {W}.
Arguments Close {W}.
Arguments Connect {W}.
Arguments Disconnect {W}.
Arguments Heartbeat {W}.
Arguments RenewOnline {W}.
Arguments Receive {W}.

(** A service that overrides nothing. *)
Definition base {W} : Logic W :=
  mk
    (not_implemented PingReply.Clear)
    (not_implemented CloseReply.Clear)
    (not_implemented ConnectReply.Clear)
    (not_implemented DisconnectReply.Clear)
    (not_implemented HeartbeatReply.Clear)
    (not_implemented ([] : bytes))
    (not_implemented ReceiveReply.Clear).

(** [down_cast]: the object has the type or the cast is undefined behaviour. *)
Definition CallMethod {W} (s : Logic W) (method : Z) (controller : RpcController) (request : msg)
    (done : msg -> W -> res W) : W -> res W :=
  match method with
  | 0 => match request with MPingReq r => Ping s controller r (fun r => done (MPingReply r)) | _ => fun _ => Err UB end
  | 1 => match request with MCloseReq r => Close s controller r (fun r => done (MCloseReply r)) | _ => fun _ => Err UB end
  | 2 => match request with MConnectReq r => Connect s controller r (fun r => done (MConnectReply r)) | _ => fun _ => Err UB end
  | 3 => match request with MDisconnectReq r => Disconnect s controller r (fun r => done (MDisconnectReply r)) | _ => fun _ => Err UB end
  | 4 => match request with MHeartbeatReq r => Heartbeat s controller r (fun r => done (MHeartbeatReply r)) | _ => fun _ => Err UB end
  | 5 => match request with MMap TOnlineReq d => RenewOnline s controller d (fun r => done (MMap TOnlineReply r)) | _ => fun _ => Err UB end
  | 6 => match request with MReceiveReq r => Receive s controller r (fun r => done (MReceiveReply r)) | _ => fun _ => Err UB end
  | _ => fun _ => Err AssertFailed
  end.

Definition GetRequestPrototype (method : Z) : res msg_type :=
  match method with
  | 0 => Ok TPingReq
  | 1 => Ok TCloseReq
  | 2 => Ok TConnectReq
  | 3 => Ok TDisconnectReq
  | 4 => Ok THeartbeatReq
  | 5 => Ok TOnlineReq
  | 6 => Ok TReceiveReq
  | _ => Err AssertFailed
  end.

Definition GetResponsePrototype (method : Z) : res msg_type :=
  match method with
  | 0 => Ok TPingReply
  | 1 => Ok TCloseReply
  | 2 => Ok TConnectReply
  | 3 => Ok TDisconnectReply
  | 4 => Ok THeartbeatReply
  | 5 => Ok TOnlineReply
  | 6 => Ok TReceiveReply
  | _ => Err AssertFailed
  end.

(** The stub: [channel_->CallMethod(descriptor()->method(i), ...)]; the callers
    of this program pass a response object. *)
Section stub.
Context {S W C Svc : Type} `{SessionOps S W} `{Message msg}.
Definition stub_call (i : nat) (request : msg) (response : option msg_type) (done : option C)
    (ch : RpcChannel.Channel S msg_type C Svc) (w : W) : res (RpcChannel.Channel S msg_type C Svc * W) :=
  match logic_methods !! i with
  | Some name => RpcChannel.CallMethod (str "logic.Logic") name request response done ch w
  | None => Err AssertFailed
  end.
Definition Stub_Ping (request : PingReq.PingReq) := stub_call 0 (MPingReq request) (Some TPingReply).
Definition Stub_Close (request : CloseReq.CloseReq) := stub_call 1 (MCloseReq request) (Some TCloseReply).
Definition Stub_Connect (request : ConnectReq.ConnectReq) := stub_call 2 (MConnectReq request) (Some TConnectReply).
Definition Stub_Disconnect (request : DisconnectReq.DisconnectReq) := stub_call 3 (MDisconnectReq request) (Some TDisconnectReply).
Definition Stub_Heartbeat (request : HeartbeatReq.HeartbeatReq) := stub_call 4 (MHeartbeatReq request) (Some THeartbeatReply).
Definition Stub_RenewOnline (request : bytes) := stub_call 5 (MMap TOnlineReq request) (Some TOnlineReply).
Definition Stub_Receive (request : ReceiveReq.ReceiveReq) := stub_call 6 (MReceiveReq request) (Some TReceiveReply).
End stub.
End Logic.


(** ** The services of a process *)
Module Services.

(** [Service*]: an implementation of one of the two classes. *)
Inductive service (W : Type) :=
  | SGate (g : Gate.Gate W)
  | SLogic (l : Logic.Logic W).
Arguments SGate {W} g.
Arguments SLogic {W} l.

Definition full_name {W} (s : service W) : bytes :=
  match s with SGate _ => str "gate.Gate" | SLogic _ => str "logic.Logic" end.

Definition methods {W} (s : service W) : list bytes :=
  match s with SGate _ => gate_methods | SLogic _ => logic_methods end.

Definition GetRequestPrototype {W} (s : service W) (method : Z) : res msg_type :=
  match s with SGate _ => Gate.GetRequestPrototype method | SLogic _ => Logic.GetRequestPrototype method end.

(** [service->CallMethod(method, NULL, request, response, done)]. *)
Definition ServiceCall {W} (s : service W) (method : Z) (request : msg) (done : msg -> W -> res W)
    : W -> res W :=
  match s with
  | SGate g => Gate.CallMethod g method NullController request done
  | SLogic l => Logic.CallMethod l method NullController request done
  end.

(** [ServiceDescriptor::FindMethodByName], by the full name of the service.
    It is given a name that ends in NUL, and looks it up as a C string. *)
Class Descriptors := { FindMethodByName : bytes -> bytes -> option Z }.
Class DescriptorLaws `{Descriptors} : Prop := {
  find_method {W} (s : service W) i name :
    methods s !! i = Some name -> FindMethodByName (full_name s) (name ++ [Byte.x00]) = Some (Z.of_nat i);
}.

(** A lookup that compares C strings. *)
Fixpoint index_of (name : bytes) (l : list bytes) (i : Z) : option Z :=
  match l with
  | [] => None
  | x :: l => if decide (x = name) then Some i else index_of name l (i + 1)
  end.
Definition c_lookup : Descriptors := {|
  FindMethodByName service name :=
    let name := ztake (strlen name) name in
    if decide (service = str "gate.Gate") then index_of name gate_methods 0
    else if decide (service = str "logic.Logic") then index_of name logic_methods 0
    else None |}.
Lemma c_lookup_laws : @DescriptorLaws c_lookup.
Proof.
  split. intros W s i name. destruct s; cbn [methods full_name];
    do 7 (destruct i as [|i]; [intros [= <-]; vm_compute; reflexivity|]); done.
Qed.

(** ** A typed call, on the wire *)
Ltac name_ok_tac :=
  split; [split; [|vm_compute; discriminate]|vm_compute; discriminate];
  apply (bool_decide_eq_true_1 (Byte.x3a ∉ _)); vm_compute; reflexivity.
Lemma method_name_ok {W} (s : service W) i name :
  methods s !! i = Some name ->
  RpcCodec.name_ok (full_name s) name /\ zlen (full_name s) + zlen name <= 22.
Proof.
  destruct s; cbn [methods full_name];
    do 7 (destruct i as [|i]; [intros [= <-]; name_ok_tac|]); done.
Qed.

Section calls.
Context `{WireLaws} `{DescriptorLaws} (ParseMap : msg_type -> bytes -> bool).
Context {S W C : Type} `{EqDecision S} `{SessionLaws S W}.
Context (Run : C -> msg -> W -> res W).
#[local] Instance msg_message : Message msg := Wire.message ParseMap.
#[local] Instance msg_laws : MessageLaws msg := Wire.message_laws ParseMap.

(** The message callback of a session with a channel. *)
Definition onMessage : S -> Buffer -> RpcChannel.Channel S msg_type C (service W) * W ->
    res (Buffer * (RpcChannel.Channel S msg_type C (service W) * W)) :=
  RpcChannel.onMessage (Wire.ParseFromArray ParseMap) Run
    (fun s => FindMethodByName (full_name s)) GetRequestPrototype ServiceCall.

(** What fits an RPC frame beside the longest names. *)
Definition fits_frame (m : msg) : Prop := byte_size m <= RpcCodec.kMaxMessageLen - 37.

(** A request for method [i] of a registered service runs the method, and the
    response it hands to its closure goes back under the request's id. *)
Lemma service_answers (ch : RpcChannel.Channel S msg_type C (service W)) conn services svc i name
    req resp id b w w1 :
  RpcChannel.conn_ ch = Some conn -> RpcChannel.services_ ch = Some services ->
  services !! full_name svc = Some svc -> methods svc !! i = Some name ->
  GetRequestPrototype svc (Z.of_nat i) = Ok (type_of req) ->
  msg_ok ParseMap req -> msg_ok ParseMap resp -> fits_frame req -> fits_frame resp -> 0 <= id < 2 ^ 63 ->
  (forall k, ServiceCall svc (Z.of_nat i) req k w = k resp w1) -> sent w1 conn = sent w conn ->
  represents b (RpcChannel.request_bytes id (full_name svc) name req) ->
  exists b' w', onMessage conn b (ch, w) = Ok (b', (ch, w')) /\ represents b' [] /\
    sent w' conn = sent w conn ++ RpcChannel.reply_bytes id (full_name svc) name resp /\
    RpcCodec.send (id + 2 ^ 63) (RpcCodec.full_name (full_name svc) (name ++ [Byte.x00])) conn resp w1
      = Ok w'.
Proof.
  intros Hc Hsv Hs Hn Ht Hq Hr Fq Fr Hid Hk Hw HR. destruct (method_name_ok svc i name Hn) as [Hok Hl].
  unfold onMessage, fits_frame, RpcCodec.kMaxMessageLen in *.
  eapply (RpcChannel.server_answers (Wire.ParseFromArray ParseMap) Run
    (fun s => FindMethodByName (full_name s)) GetRequestPrototype ServiceCall
    ch conn services svc (Z.of_nat i) (type_of req) (full_name svc) name id req req resp b w w1);
    try done.
  - by apply find_method.
  - unfold RpcCodec.kMaxMessageLen. simpl. lia.
  - unfold RpcCodec.kMaxMessageLen. simpl. lia.
  - by apply parse_serialize.
Qed.

(** A method that fails takes the server down. *)
Lemma service_fails (ch : RpcChannel.Channel S msg_type C (service W)) conn services svc i name
    req id b w e :
  RpcChannel.conn_ ch = Some conn -> RpcChannel.services_ ch = Some services ->
  services !! full_name svc = Some svc -> methods svc !! i = Some name ->
  GetRequestPrototype svc (Z.of_nat i) = Ok (type_of req) ->
  msg_ok ParseMap req -> fits_frame req -> 0 <= id < 2 ^ 63 ->
  (forall k, ServiceCall svc (Z.of_nat i) req k w = Err e) ->
  represents b (RpcChannel.request_bytes id (full_name svc) name req) ->
  onMessage conn b (ch, w) = Err e.
Proof.
  intros Hc Hsv Hs Hn Ht Hq Fq Hid Hk HR. destruct (method_name_ok svc i name Hn) as [Hok Hl].
  unfold onMessage, fits_frame, RpcCodec.kMaxMessageLen in *.
  eapply (RpcChannel.server_fails (Wire.ParseFromArray ParseMap) Run
    (fun s => FindMethodByName (full_name s)) GetRequestPrototype ServiceCall
    ch conn services svc (Z.of_nat i) (type_of req) (full_name svc) name id req req b w e);
    try done.
  - by apply find_method.
  - unfold RpcCodec.kMaxMessageLen. simpl. lia.
  - by apply parse_serialize.
Qed.

(** The reply to an outstanding call runs its closure on the response. *)
Lemma reply_completes (ch : RpcChannel.Channel S msg_type C (service W)) conn (svc : service W) i name id
    resp d b w w' :
  RpcChannel.conn_ ch = Some conn ->
  RpcChannel.outstandings_ ch !! id = Some (RpcChannel.mkOut (Some (type_of resp)) (Some d)) ->
  methods svc !! i = Some name -> 0 <= id < 2 ^ 63 -> msg_ok ParseMap resp -> fits_frame resp ->
  Run d resp w = Ok w' -> represents b (RpcChannel.reply_bytes id (full_name svc) name resp) ->
  exists b', onMessage conn b (ch, w) =
      Ok (b', (RpcChannel.mkChannel (RpcChannel.conn_ ch) (RpcChannel.id_ ch)
                 (delete id (RpcChannel.outstandings_ ch)) (RpcChannel.services_ ch), w')) /\
    represents b' [].
Proof.
  intros Hc Ho Hn Hid Hr Fr Hrun HR. destruct (method_name_ok svc i name Hn) as [Hok Hl].
  unfold fits_frame, RpcCodec.kMaxMessageLen in *. unfold onMessage.
  eapply RpcChannel.client_completes; try done.
  - simpl. unfold RpcCodec.kMaxMessageLen. lia.
  - by apply parse_serialize.
Qed.

(** A call on a connected channel: the next id, the frame on the wire. *)
Lemma call_sends (ch : RpcChannel.Channel S msg_type C (service W)) conn (svc : service W) i name req t d w :
  RpcChannel.chan_inv ch -> RpcChannel.id_ ch < 2 ^ 63 - 1 -> RpcChannel.conn_ ch = Some conn ->
  methods svc !! i = Some name -> msg_ok ParseMap req -> fits_frame req ->
  RpcChannel.outstandings_ ch !! RpcChannel.id_ ch = None /\
  exists w', RpcChannel.CallMethod (full_name svc) name req t d ch w =
      Ok (RpcChannel.mkChannel (Some conn) (RpcChannel.id_ ch + 1)
            (<[RpcChannel.id_ ch := RpcChannel.mkOut t d]> (RpcChannel.outstandings_ ch))
            (RpcChannel.services_ ch), w') /\
    RpcCodec.send (RpcChannel.id_ ch) (RpcCodec.full_name (full_name svc) name) conn req w = Ok w' /\
    sent w' conn = sent w conn ++ RpcChannel.request_bytes (RpcChannel.id_ ch) (full_name svc) name req.
Proof.
  intros Hinv Hlt Hc Hn Hq Fq. destruct (method_name_ok svc i name Hn) as [Hok Hl].
  destruct (RpcChannel.call_fresh_and_sent conn (full_name svc) name req t d ch w)
    as (Hf & w' & E & Es & Hs); try done.
  - unfold fits_frame, RpcCodec.kMaxMessageLen in *. simpl. lia.
  - eauto.
Qed.
End calls.

(** The messages whose class is modelled here. *)
Definition without_map (m : msg) : Prop := match m with MMap _ _ => False | _ => True end.

(** C35: Every RPC message without a map field (the three with one are those
    of C28), with numbers in the range of their fields and UTF-8 strings,
    serializes to as many bytes as ByteSize announces; parsing those bytes
    gives the message back, and the serializer to a stream writes the same
    bytes, for every protobuf runtime that reads what it writes. *)
Theorem message_roundtrip `{WireLaws} {O : Type} `{OutputStream O} `{!OutputLaws O} ParseMap m :
  without_map m -> msg_ok ParseMap m ->
  zlen (serialize m) = byte_size m /\ ParseFromArray ParseMap (type_of m) (serialize m) = Some m /\
  exists w : O -> O, stream m = Some w /\ appends w (serialize m).
Proof.
  intros Hm Hok. split; [exact (serialize_size (MessageLaws := Wire.message_laws ParseMap) m Hok)|].
  split; [by apply parse_serialize|].
  assert (exists w : O -> O, stream m = Some w) as [w Hw] by (destruct m; try done; by eexists).
  exists w. split; [done|]. by apply (stream_serialize ParseMap).
Qed.

(** A push of one text to two keys. *)
Definition push_sample : PushMsgReq.PushMsgReq :=
  PushMsgReq.mk [str "k1"; str "k2"] (Some (Proto.mk 0 9 1 (str "hello"))) 9.

Import Leb128.
Lemma message_roundtrip_witness :
  zlen (serialize (MPushMsgReq push_sample)) = 23 /\
  ParseFromArray (fun _ _ => false) TPushMsgReq (serialize (MPushMsgReq push_sample)) =
    Some (MPushMsgReq push_sample) /\
  PushMsgReq.SerializeWithCachedSizes push_sample [] = serialize (MPushMsgReq push_sample).
Proof.
  destruct (message_roundtrip (O := bytes) (fun _ _ => false) (MPushMsgReq push_sample)) as (E1 & E2 & w & [= <-] & E3).
  - exact I.
  - split; [|split; [split; [|reflexivity]|]].
    + apply Forall_cons. split; [by split|]. apply Forall_singleton. by split.
    + unfold Proto.ok, int32_range, bytes_ok. simpl. change (zlen (str "hello")) with 5. lia.
    + unfold int32_range. simpl. lia.
  - split; [rewrite E1; vm_compute; reflexivity|]. split; [exact E2|].
    exact (E3 []).
Defined.
End Services.

