(* ===== verification/MapMessages.v ===== *)
(** * The messages with a map field: OnlineReq and OnlineReply of
    src/protocol/logic.pb.cc, RoomsReply of src/protocol/gate.pb.cc

    A map field is a [gmap].  On the wire it is a repeated message, one entry
    per key; the entry classes are templates of the protobuf library and enter
    through [MapEntry].  The order in which a map is walked is that of its hash
    table, [iteration]; a caller that asks for deterministic output gets the
    entries sorted by key. *)

From Stdlib Require Import ZArith Lia Sorting.Sorted.
From stdpp Require Import base list gmap sorting strings.
From S2P Require Import Prelude StringMap Protobuf Messages Services.
Local Open Scope Z_scope.

(** The entry classes, for values of type [V]: the serialization and the size
    of [NewEntryWrapper(k, v)], and [ReadMessageNoVirtual] with the entry's
    parser, which puts one value into the map. *)
Class MapEntry (V : Type) := {
  EntryToArray : bytes -> V -> bytes;
  EntrySize : bytes -> V -> Z;
  ReadEntry : bytes -> option (bytes * V * bytes);
}.
Class MapEntryLaws (V : Type) (value_ok : V -> Prop) `{WireFormat} `{MapEntry V} : Prop := {
  entry_size k v : zlen k < 2 ^ 31 -> value_ok v -> zlen (EntryToArray k v) = EntrySize k v;
  entry_read f k v r :
    field_number f -> zlen k < 2 ^ 31 -> value_ok v -> EntrySize k v < 2 ^ 31 ->
    exists p, ReadTag (WriteStringToArray f (EntryToArray k v) ++ r) = (8 * f + 2, p) /\
      ReadEntry p = Some (k, v, r);
  entry_shrinks c k v r : ReadEntry c = Some (k, v, r) -> (length r <= length c)%nat;
}.

(** [SerializeWithCachedSizes] of an entry. *)
Class EntryStream (V O : Type) := { EntryToStream : bytes -> V -> O -> O }.
Class EntryStreamLaws (V O : Type) `{MapEntry V} `{OutputStream O} `{EntryStream V O} : Prop := {
  out_entry k v : appends (EntryToStream k v) (EntryToArray k v);
}.

(** The order in which [Map] is walked. *)
Class MapOrder := { iteration : forall {V}, gmap bytes V -> list (bytes * V) }.
Class MapOrderLaws `{MapOrder} : Prop := {
  iteration_perm {V} (m : gmap bytes V) : iteration m ≡ₚ map_to_list m;
}.

(** ** Sorting by key *)
Section sort.
Context {V : Type}.
Implicit Types (e : bytes * V) (l : list (bytes * V)).

(** [CompareByDerefFirst] *)
Definition Less (a b : bytes * V) : bool :=
  match str_compare a.1 b.1 with Lt => true | _ => false end.

Fixpoint insert_item e l : list (bytes * V) :=
  match l with
  | [] => [e]
  | x :: l => if Less e x then e :: x :: l else x :: insert_item e l
  end.
(** [std::sort(&items[0], &items[n], Less())] *)
Definition sort_items l : list (bytes * V) := foldr insert_item [] l.

Definition key_lt (a b : bytes * V) : Prop := str_lt a.1 b.1.

Lemma insert_item_perm e l : insert_item e l ≡ₚ e :: l.
Proof.
  induction l as [|x l IH]; simpl; [done|]. destruct (Less e x); [done|].
  rewrite IH. apply Permutation_swap.
Qed.
Lemma sort_items_perm l : sort_items l ≡ₚ l.
Proof. induction l as [|e l IH]; [done|]. simpl. by rewrite insert_item_perm, IH. Qed.

Lemma insert_item_sorted e l :
  e.1 ∉ l.*1 -> StronglySorted key_lt l -> StronglySorted key_lt (insert_item e l).
Proof.
  intros He Hs. induction Hs as [|x l Hs IH Hx]; simpl; [by repeat constructor|].
  apply not_elem_of_cons in He as [Hne He]. unfold Less. destruct (str_compare e.1 x.1) eqn:E.
  - apply str_compare_eq in E. done.
  - constructor; [by constructor|]. constructor; [done|]. eapply Forall_impl; [exact Hx|].
    intros y Hy. by eapply str_lt_trans.
  - apply str_gt_lt in E. constructor; [by apply IH|]. rewrite insert_item_perm. by constructor.
Qed.
Lemma sort_items_sorted l : NoDup l.*1 -> StronglySorted key_lt (sort_items l).
Proof.
  induction l as [|e l IH]; [constructor|]. intros [He Hl]%NoDup_cons. simpl.
  apply insert_item_sorted; [|by apply IH]. by rewrite sort_items_perm.
Qed.

(** The sorted order does not depend on the order of the hash table. *)
Lemma sort_items_unique l1 l2 : NoDup l1.*1 -> l1 ≡ₚ l2 -> sort_items l1 = sort_items l2.
Proof.
  intros Hnd Hp. apply (StronglySorted_unique_strong key_lt).
  - intros x y _ _ H1 H2. pose proof (str_lt_trans _ _ _ H1 H2) as H. unfold str_lt in H.
    by rewrite str_compare_refl in H.
  - by apply sort_items_sorted.
  - apply sort_items_sorted. by rewrite <- Hp.
  - by rewrite !sort_items_perm.
Qed.
End sort.

(** ** Map fields *)
Section fields.
Context `{WireFormat} `{MapOrder} {V : Type} `{MapEntry V}.

(** [DO_(ReadMessageNoVirtual(input, &parser)); DO_(VerifyUtf8String(parser.key()))] *)
Definition read_entry {M} (set : bytes -> V -> M -> M) (m : M) (input : bytes) : option (M * bytes) :=
  match ReadEntry input with
  | Some (k, v, input) => if VerifyUtf8String k then Some (set k v m, input) else None
  | None => None
  end.

(** The entries in the order they are written. *)
Definition items (deterministic : bool) (m : gmap bytes V) : list (bytes * V) :=
  if deterministic && (1 <? Z.of_nat (size m)) then sort_items (iteration m) else iteration m.

Definition write_map (f : Z) (deterministic : bool) (m : gmap bytes V) : bytes :=
  if bool_decide (m = ∅) then []
  else concat (map (fun e => WriteStringToArray f (EntryToArray e.1 e.2)) (items deterministic m)).

Definition map_byte_size (m : gmap bytes V) : Z :=
  1 * Z.of_nat (size m) +
  foldr (fun e n => LengthDelimitedSize (EntrySize e.1 e.2) + n) 0 (iteration m).

(** To a stream: [WriteMessageMaybeToArray] of each entry. *)
Definition stream_map {O} `{OutputStream O} `{EntryStream V O}
    (f : Z) (deterministic : bool) (m : gmap bytes V) : O -> O :=
  if bool_decide (m = ∅) then id
  else write_each (fun e => WriteMessageMaybeToArray f (EntrySize e.1 e.2) (EntryToArray e.1 e.2)
                              (EntryToStream e.1 e.2)) (items deterministic m).

(** What a map field can carry. *)
Definition map_ok (value_ok : V -> Prop) (m : gmap bytes V) : Prop :=
  forall k v, m !! k = Some v -> utf8_ok k /\ value_ok v /\ EntrySize k v < 2 ^ 31.
End fields.

Section field_laws.
Context `{WireLaws} `{MapOrderLaws} {V : Type} (value_ok : V -> Prop) `{MapEntry V} `{!MapEntryLaws V value_ok}.
Implicit Types m : gmap bytes V.

Lemma items_perm deterministic m : items deterministic m ≡ₚ map_to_list m.
Proof.
  unfold items. rewrite <- iteration_perm. destruct (deterministic && _); [apply sort_items_perm|done].
Qed.
Lemma items_keys deterministic m : NoDup (items deterministic m).*1.
Proof. rewrite items_perm. apply NoDup_fst_map_to_list. Qed.
Lemma items_to_map deterministic m : list_to_map (items deterministic m) = m.
Proof.
  rewrite <- (list_to_map_to_list m) at 2. apply list_to_map_proper; [apply items_keys|apply items_perm].
Qed.
Lemma items_ok deterministic m :
  map_ok value_ok m ->
  Forall (fun e => utf8_ok e.1 /\ value_ok e.2 /\ EntrySize e.1 e.2 < 2 ^ 31) (items deterministic m).
Proof.
  intros Hm. rewrite items_perm. apply Forall_forall. intros [k v] Hin%elem_of_map_to_list. by apply Hm.
Qed.

(** Both branches of the code write nothing for an empty map. *)
Lemma write_map_items f deterministic m :
  write_map f deterministic m =
  concat (map (fun e => WriteStringToArray f (EntryToArray e.1 e.2)) (items deterministic m)).
Proof.
  unfold write_map. case_bool_decide as E; [|done]. subst m.
  assert (items deterministic (∅ : gmap bytes V) = []) as ->; [|done].
  apply Permutation_nil. rewrite items_perm. by rewrite map_to_list_empty.
Qed.

Lemma merge_entries {M} (field : Z -> option (M -> bytes -> option (M * bytes))) f l set (x : M) r :
  field 0 = None ->
  (forall t parse y c y' r, field t = Some parse -> parse y c = Some (y', r) -> (length r <= length c)%nat) ->
  field_number f ->
  Forall (fun e => utf8_ok e.1 /\ value_ok e.2 /\ EntrySize e.1 e.2 < 2 ^ 31) l ->
  field (8 * f + 2) = Some (read_entry set) ->
  merge field x (concat (map (fun e => WriteStringToArray f (EntryToArray e.1 e.2)) l) ++ r) =
  merge field (foldl (fun x e => set e.1 e.2 x) x l) r.
Proof.
  intros F0 Fs Hf Hl Hfd. revert x. induction Hl as [|[k v] l ([Hk Hu] & Hv & Hs) _ IH]; intros x; [done|].
  cbn [map concat foldl fst snd] in *. rewrite <- app_assoc, <- IH.
  edestruct (entry_read f k v) as (p & E1 & E2); [done..|].
  eapply (merge_field field F0 Fs); [exact E1|unfold field_number in Hf; lia|exact Hfd|].
  unfold read_entry. by rewrite E2, Hu.
Qed.

Lemma concat_perm_size {A} (g : A -> bytes) (l1 l2 : list A) :
  l1 ≡ₚ l2 -> zlen (concat (map g l1)) = zlen (concat (map g l2)).
Proof. induction 1; simpl; zlia. Qed.

Lemma write_map_size f deterministic m :
  field_number f -> map_ok value_ok m -> zlen (write_map f deterministic m) = map_byte_size m.
Proof.
  intros Hf Hm. rewrite write_map_items.
  rewrite (concat_perm_size _ _ (iteration m)) by (by rewrite items_perm, iteration_perm).
  unfold map_byte_size. rewrite <- length_map_to_list, <- iteration_perm.
  pose proof (items_ok false m Hm) as HF. change (items false m) with (iteration m) in HF.
  induction HF as [|[k v] l ([Hk _] & Hv & Hs) _ IH]; [done|]. cbn [map concat foldr length fst snd] in *.
  rewrite zlen_app, IH, string_size by (done || by rewrite entry_size).
  unfold StringSize. rewrite entry_size by done. lia.
Qed.

Lemma stream_map_writes {O} `{OutputStream O} `{!OutputLaws O} `{!EntryStream V O} `{!EntryStreamLaws V O} f deterministic m :
  map_ok value_ok m -> appends (stream_map f deterministic m) (write_map f deterministic m).
Proof.
  intros Hm. rewrite write_map_items. unfold stream_map. case_bool_decide as E.
  - subst m. rewrite <- write_map_items. apply appends_nil.
  - pose proof (items_ok deterministic m Hm) as HF. unfold write_each.
    induction HF as [|[k v] l ([Hk _] & Hv & Hs) _ IH]; intros o; simpl; [by rewrite app_nil_r|].
    rewrite IH, <- (entry_size k v) by done. rewrite (out_message f _ _ (out_entry k v)).
    by rewrite <- app_assoc.
Qed.

Lemma read_entry_shrinks {M} (set : bytes -> V -> M -> M) x c x' r :
  read_entry set x c = Some (x', r) -> (length r <= length c)%nat.
Proof.
  unfold read_entry. destruct (ReadEntry c) as [[[k v] c']|] eqn:E; [|done].
  destruct (VerifyUtf8String k); [|done]. intros [= _ <-]. by apply entry_shrinks in E.
Qed.
End field_laws.

(** Every value of a [map<string, bool>]. *)
Definition any_bool (b : bool) : Prop := True.

Module OnlineReq.
Record OnlineReq := mk { server_ : bytes; roomcount_ : gmap bytes Z }.
Definition Clear : OnlineReq := mk [] ∅.
Definition set_server (v : bytes) (m : OnlineReq) : OnlineReq := mk v (roomcount_ m).
Definition clear_roomcount (m : OnlineReq) : OnlineReq := mk (server_ m) ∅.
(** An assignment through [mutable_roomcount()]. *)
Definition put_roomcount (k : bytes) (v : Z) (m : OnlineReq) : OnlineReq := mk (server_ m) (<[k := v]> (roomcount_ m)).
Definition roomcount_size (m : OnlineReq) : Z := Z.of_nat (size (roomcount_ m)).

Section code.
Context `{WireFormat} `{MapOrder} `{MapEntry Z}.
Definition field (tag : Z) : option (OnlineReq -> bytes -> option (OnlineReq * bytes)) :=
  if tag =? 10 then Some (read_then ReadUtf8 set_server) else
  if tag =? 18 then Some (read_entry put_roomcount) else
  None.
Definition MergePartialFromCodedStream : OnlineReq -> bytes -> option (OnlineReq * Z * bytes) := merge field.

Definition SerializeToArray (deterministic : bool) (m : OnlineReq) : bytes :=
  (if 0 <? zlen (server_ m) then WriteStringToArray 1 (server_ m) else []) ++
  write_map 2 deterministic (roomcount_ m).

Definition ByteSize (m : OnlineReq) : Z :=
  (if 0 <? zlen (server_ m) then 1 + StringSize (server_ m) else 0) +
  map_byte_size (roomcount_ m).

Definition SerializeWithCachedSizes {O : Type} `{OutputStream O} `{EntryStream Z O}
    (deterministic : bool) (m : OnlineReq) (output : O) : O :=
  let output := (if 0 <? zlen (server_ m) then WriteStringMaybeAliased 1 (server_ m) else id) output in
  let output := stream_map 2 deterministic (roomcount_ m) output in
  output.

Definition MergeFrom (from m : OnlineReq) : OnlineReq :=
  mk (if 0 <? zlen (server_ from) then server_ from else server_ m)
     (roomcount_ from ∪ roomcount_ m).
Definition CopyFrom (from : OnlineReq) : OnlineReq := MergeFrom from Clear.

Definition ok (m : OnlineReq) : Prop := utf8_ok (server_ m) /\ map_ok int32_range (roomcount_ m).
End code.

Section laws.
Context `{WireLaws} `{MapOrderLaws} `{MapEntry Z} `{!MapEntryLaws Z int32_range}.
Lemma OnlineReq_field_shrinks t parse m c m' r :
  field t = Some parse -> parse m c = Some (m', r) -> (length r <= length c)%nat.
Proof.
  unfold field. destruct (t =? 10); [intros [= <-] Hp; eapply read_then_shrinks; [apply ReadUtf8_shrinks|exact Hp]|].
  destruct (t =? 18); [|done]. intros [= <-]. apply (read_entry_shrinks int32_range).
Qed.

Lemma OnlineReq_size deterministic m : ok m -> zlen (SerializeToArray deterministic m) = ByteSize m.
Proof.
  intros [Hs Hm]. unfold SerializeToArray, ByteSize. rewrite zlen_app, (size_string 1) by (apply Hs || fnum).
  by rewrite (write_map_size int32_range) by (done || fnum).
Qed.

Lemma OnlineReq_parse deterministic m :
  ok m -> merge_entire field Clear (SerializeToArray deterministic m) = Some m.
Proof.
  pose proof (eq_refl : field 0 = None) as F0. pose proof OnlineReq_field_shrinks as Fs.
  intros [Hs Hm]. rewrite <- (app_nil_r (SerializeToArray deterministic m)). unfold SerializeToArray.
  rewrite <- app_assoc. merge_step (merge_string field F0 Fs 1 _ set_server).
  rewrite write_map_items.
  erewrite merge_entire_eq; [|apply (merge_entries int32_range field 2 _ put_roomcount); [done|exact Fs|fnum|by apply items_ok|done]].
  rewrite (merge_entire_end field F0 Fs).
  assert (forall l x, foldl (fun x (e : bytes * Z) => put_roomcount e.1 e.2 x) x l =
    mk (server_ x) (foldl (fun y (e : bytes * Z) => <[e.1 := e.2]> y) (roomcount_ x) l)) as ->
    by (intros l; induction l as [|e l IH]; intros x; [by destruct x|apply IH]).
  rewrite insert_all by apply items_keys. rewrite items_to_map. simpl. rewrite (right_id_L ∅ (∪)). by destruct m.
Qed.

Lemma OnlineReq_stream {O : Type} `{OutputStream O} `{!OutputLaws O} `{!EntryStream Z O} `{!EntryStreamLaws Z O}
    deterministic m :
  ok m -> appends (SerializeWithCachedSizes deterministic m) (SerializeToArray deterministic m).
Proof.
  intros [_ Hm] output. unfold SerializeWithCachedSizes, SerializeToArray.
  rewrite (stream_map_writes int32_range 2 deterministic _ Hm).
  rewrite (appends_if _ _ _ (out_string_aliased 1 (server_ m))). by rewrite <- app_assoc.
Qed.
End laws.
End OnlineReq.

Module OnlineReply.
Record OnlineReply := mk { allroomcount_ : gmap bytes Z }.
Definition Clear : OnlineReply := mk ∅.
Definition clear_allroomcount (m : OnlineReply) : OnlineReply := mk ∅.
(** An assignment through [mutable_allroomcount()]. *)
Definition put_allroomcount (k : bytes) (v : Z) (m : OnlineReply) : OnlineReply := mk (<[k := v]> (allroomcount_ m)).
Definition allroomcount_size (m : OnlineReply) : Z := Z.of_nat (size (allroomcount_ m)).

Section code.
Context `{WireFormat} `{MapOrder} `{MapEntry Z}.
Definition field (tag : Z) : option (OnlineReply -> bytes -> option (OnlineReply * bytes)) :=
  if tag =? 10 then Some (read_entry put_allroomcount) else
  None.
Definition MergePartialFromCodedStream : OnlineReply -> bytes -> option (OnlineReply * Z * bytes) := merge field.

Definition SerializeToArray (deterministic : bool) (m : OnlineReply) : bytes :=
  write_map 1 deterministic (allroomcount_ m).

Definition ByteSize (m : OnlineReply) : Z :=
  map_byte_size (allroomcount_ m).

Definition SerializeWithCachedSizes {O : Type} `{OutputStream O} `{EntryStream Z O}
    (deterministic : bool) (m : OnlineReply) (output : O) : O :=
  let output := stream_map 1 deterministic (allroomcount_ m) output in
  output.

Definition MergeFrom (from m : OnlineReply) : OnlineReply :=
  mk (allroomcount_ from ∪ allroomcount_ m).
Definition CopyFrom (from : OnlineReply) : OnlineReply := MergeFrom from Clear.

Definition ok (m : OnlineReply) : Prop := map_ok int32_range (allroomcount_ m).
End code.

Section laws.
Context `{WireLaws} `{MapOrderLaws} `{MapEntry Z} `{!MapEntryLaws Z int32_range}.
Lemma OnlineReply_field_shrinks t parse m c m' r :
  field t = Some parse -> parse m c = Some (m', r) -> (length r <= length c)%nat.
Proof.
  unfold field.
  destruct (t =? 10); [|done]. intros [= <-]. apply (read_entry_shrinks int32_range).
Qed.

Lemma OnlineReply_size deterministic m : ok m -> zlen (SerializeToArray deterministic m) = ByteSize m.
Proof.
  intros Hm. by apply (write_map_size int32_range); [fnum|].
Qed.

Lemma OnlineReply_parse deterministic m :
  ok m -> merge_entire field Clear (SerializeToArray deterministic m) = Some m.
Proof.
  pose proof (eq_refl : field 0 = None) as F0. pose proof OnlineReply_field_shrinks as Fs.
  intros Hm. rewrite <- (app_nil_r (SerializeToArray deterministic m)). unfold SerializeToArray.
  rewrite write_map_items.
  erewrite merge_entire_eq; [|apply (merge_entries int32_range field 1 _ put_allroomcount); [done|exact Fs|fnum|by apply items_ok|done]].
  rewrite (merge_entire_end field F0 Fs).
  assert (forall l x, foldl (fun x (e : bytes * Z) => put_allroomcount e.1 e.2 x) x l =
    mk (foldl (fun y (e : bytes * Z) => <[e.1 := e.2]> y) (allroomcount_ x) l)) as ->
    by (intros l; induction l as [|e l IH]; intros x; [by destruct x|apply IH]).
  rewrite insert_all by apply items_keys. rewrite items_to_map. simpl. rewrite (right_id_L ∅ (∪)). by destruct m.
Qed.

Lemma OnlineReply_stream {O : Type} `{OutputStream O} `{!OutputLaws O} `{!EntryStream Z O} `{!EntryStreamLaws Z O}
    deterministic m :
  ok m -> appends (SerializeWithCachedSizes deterministic m) (SerializeToArray deterministic m).
Proof.
  intros Hm. by apply (stream_map_writes int32_range).
Qed.
End laws.
End OnlineReply.

Module RoomsReply.
Record RoomsReply := mk { rooms_ : gmap bytes bool }.
Definition Clear : RoomsReply := mk ∅.
Definition clear_rooms (m : RoomsReply) : RoomsReply := mk ∅.
(** An assignment through [mutable_rooms()]. *)
Definition put_rooms (k : bytes) (v : bool) (m : RoomsReply) : RoomsReply := mk (<[k := v]> (rooms_ m)).
Definition rooms_size (m : RoomsReply) : Z := Z.of_nat (size (rooms_ m)).

Section code.
Context `{WireFormat} `{MapOrder} `{MapEntry bool}.
Definition field (tag : Z) : option (RoomsReply -> bytes -> option (RoomsReply * bytes)) :=
  if tag =? 10 then Some (read_entry put_rooms) else
  None.
Definition MergePartialFromCodedStream : RoomsReply -> bytes -> option (RoomsReply * Z * bytes) := merge field.

Definition SerializeToArray (deterministic : bool) (m : RoomsReply) : bytes :=
  write_map 1 deterministic (rooms_ m).

Definition ByteSize (m : RoomsReply) : Z :=
  map_byte_size (rooms_ m).

Definition SerializeWithCachedSizes {O : Type} `{OutputStream O} `{EntryStream bool O}
    (deterministic : bool) (m : RoomsReply) (output : O) : O :=
  let output := stream_map 1 deterministic (rooms_ m) output in
  output.

Definition MergeFrom (from m : RoomsReply) : RoomsReply :=
  mk (rooms_ from ∪ rooms_ m).
Definition CopyFrom (from : RoomsReply) : RoomsReply := MergeFrom from Clear.

Definition ok (m : RoomsReply) : Prop := map_ok any_bool (rooms_ m).
End code.

Section laws.
Context `{WireLaws} `{MapOrderLaws} `{MapEntry bool} `{!MapEntryLaws bool any_bool}.
Lemma RoomsReply_field_shrinks t parse m c m' r :
  field t = Some parse -> parse m c = Some (m', r) -> (length r <= length c)%nat.
Proof.
  unfold field.
  destruct (t =? 10); [|done]. intros [= <-]. apply (read_entry_shrinks any_bool).
Qed.

Lemma RoomsReply_size deterministic m : ok m -> zlen (SerializeToArray deterministic m) = ByteSize m.
Proof.
  intros Hm. by apply (write_map_size any_bool); [fnum|].
Qed.

Lemma RoomsReply_parse deterministic m :
  ok m -> merge_entire field Clear (SerializeToArray deterministic m) = Some m.
Proof.
  pose proof (eq_refl : field 0 = None) as F0. pose proof RoomsReply_field_shrinks as Fs.
  intros Hm. rewrite <- (app_nil_r (SerializeToArray deterministic m)). unfold SerializeToArray.
  rewrite write_map_items.
  erewrite merge_entire_eq; [|apply (merge_entries any_bool field 1 _ put_rooms); [done|exact Fs|fnum|by apply items_ok|done]].
  rewrite (merge_entire_end field F0 Fs).
  assert (forall l x, foldl (fun x (e : bytes * bool) => put_rooms e.1 e.2 x) x l =
    mk (foldl (fun y (e : bytes * bool) => <[e.1 := e.2]> y) (rooms_ x) l)) as ->
    by (intros l; induction l as [|e l IH]; intros x; [by destruct x|apply IH]).
  rewrite insert_all by apply items_keys. rewrite items_to_map. simpl. rewrite (right_id_L ∅ (∪)). by destruct m.
Qed.

Lemma RoomsReply_stream {O : Type} `{OutputStream O} `{!OutputLaws O} `{!EntryStream bool O} `{!EntryStreamLaws bool O}
    deterministic m :
  ok m -> appends (SerializeWithCachedSizes deterministic m) (SerializeToArray deterministic m).
Proof.
  intros Hm. by apply (stream_map_writes any_bool).
Qed.
End laws.
End RoomsReply.

(** ** The three types together *)
Inductive map_msg :=
  | MOnlineReq (m : OnlineReq.OnlineReq)
  | MOnlineReply (m : OnlineReply.OnlineReply)
  | MRoomsReply (m : RoomsReply.RoomsReply).

Module MapMsg.
Definition type_of (m : map_msg) : Wire.msg_type :=
  match m with
  | MOnlineReq _ => Wire.TOnlineReq | MOnlineReply _ => Wire.TOnlineReply | MRoomsReply _ => Wire.TRoomsReply
  end.

Section code.
Context `{WireFormat} `{MapOrder} `{MapEntry Z} `{MapEntry bool}.
Definition serialize (deterministic : bool) (m : map_msg) : bytes :=
  match m with
  | MOnlineReq m => OnlineReq.SerializeToArray deterministic m
  | MOnlineReply m => OnlineReply.SerializeToArray deterministic m
  | MRoomsReply m => RoomsReply.SerializeToArray deterministic m
  end.
Definition byte_size (m : map_msg) : Z :=
  match m with
  | MOnlineReq m => OnlineReq.ByteSize m
  | MOnlineReply m => OnlineReply.ByteSize m
  | MRoomsReply m => RoomsReply.ByteSize m
  end.
Definition stream {O} `{OutputStream O} `{EntryStream Z O} `{EntryStream bool O}
    (deterministic : bool) (m : map_msg) : O -> O :=
  match m with
  | MOnlineReq m => OnlineReq.SerializeWithCachedSizes deterministic m
  | MOnlineReply m => OnlineReply.SerializeWithCachedSizes deterministic m
  | MRoomsReply m => RoomsReply.SerializeWithCachedSizes deterministic m
  end.
Definition ParseFromArray (t : Wire.msg_type) (d : bytes) : option map_msg :=
  match t with
  | Wire.TOnlineReq => MOnlineReq <$> merge_entire OnlineReq.field OnlineReq.Clear d
  | Wire.TOnlineReply => MOnlineReply <$> merge_entire OnlineReply.field OnlineReply.Clear d
  | Wire.TRoomsReply => MRoomsReply <$> merge_entire RoomsReply.field RoomsReply.Clear d
  | _ => None
  end.
(** The test the RPC layer leaves open for these types. *)
Definition ParseMap (t : Wire.msg_type) (d : bytes) : bool := bool_decide (is_Some (ParseFromArray t d)).
Definition ok (m : map_msg) : Prop :=
  match m with
  | MOnlineReq m => OnlineReq.ok m | MOnlineReply m => OnlineReply.ok m | MRoomsReply m => RoomsReply.ok m
  end.
End code.

(** C28: Each of the three messages with a map field, with numbers in the
    range of their fields, UTF-8 strings and entries below 2^31 bytes,
    serializes, sorted or in the order of its hash table, to as many bytes as
    ByteSize announces; the bytes parse back to the message, a stream is given
    the same bytes, and the RPC layer accepts them. *)
Theorem map_messages_roundtrip `{WireLaws} `{MapOrderLaws} `{MapEntry Z} `{MapEntry bool}
    `{!MapEntryLaws Z int32_range} `{!MapEntryLaws bool any_bool} {O : Type} `{OutputStream O} `{!OutputLaws O}
    `{!EntryStream Z O} `{!EntryStreamLaws Z O} `{!EntryStream bool O} `{!EntryStreamLaws bool O} deterministic m :
  ok m ->
  let d := serialize deterministic m in
  zlen d = byte_size m /\ ParseFromArray (type_of m) d = Some m /\
  appends (stream deterministic m) d /\ Wire.msg_ok ParseMap (Wire.MMap (type_of m) d).
Proof.
  intros Hm d.
  assert (ParseFromArray (type_of m) d = Some m) as Hp.
  { subst d. destruct m; simpl in *.
    - by rewrite OnlineReq.OnlineReq_parse.
    - by rewrite OnlineReply.OnlineReply_parse.
    - by rewrite RoomsReply.RoomsReply_parse. }
  split; [|split; [exact Hp|split]].
  - destruct m; [by apply OnlineReq.OnlineReq_size|by apply OnlineReply.OnlineReply_size
                |by apply RoomsReply.RoomsReply_size].
  - destruct m; [by apply OnlineReq.OnlineReq_stream|by apply OnlineReply.OnlineReply_stream
                |by apply RoomsReply.RoomsReply_stream].
  - split; [destruct m; simpl; auto|]. unfold ParseMap. apply bool_decide_eq_true. rewrite Hp. by eexists.
Qed.

(** Sorted output does not depend on the order of the hash tables. *)
Lemma items_deterministic {V} (o1 o2 : MapOrder) (m : gmap bytes V) :
  @MapOrderLaws o1 -> @MapOrderLaws o2 -> @items o1 V true m = @items o2 V true m.
Proof.
  intros L1 L2. unfold items. cbn [andb].
  pose proof (@iteration_perm o1 L1 V m) as P1. pose proof (@iteration_perm o2 L2 V m) as P2.
  assert (@iteration o1 V m ≡ₚ @iteration o2 V m) as Hp by (by rewrite P1, P2).
  destruct (Z.ltb_spec 1 (Z.of_nat (size m))) as [Hs|Hs].
  - apply sort_items_unique; [|done]. rewrite P1. apply NoDup_fst_map_to_list.
  - rewrite <- length_map_to_list, <- P1 in Hs. destruct (@iteration o1 V m) as [|e [|]]; simpl in Hs; [| |lia].
    + by apply Permutation_nil_l in Hp.
    + by apply Permutation_singleton_l in Hp.
Qed.

(** The deterministic serialization of a message with a map field is the
    same bytes for every order in which its hash table is walked. *)
Theorem deterministic_serialization `{WireFormat} `{MapEntry Z} `{MapEntry bool} (o1 o2 : MapOrder) m :
  @MapOrderLaws o1 -> @MapOrderLaws o2 ->
  serialize (H0 := o1) true m = serialize (H0 := o2) true m.
Proof.
  intros L1 L2.
  assert (forall V (E : MapEntry V) f (x : gmap bytes V),
    @write_map _ o1 V E f true x = @write_map _ o2 V E f true x) as Hw.
  { intros V E f x. unfold write_map. by rewrite (items_deterministic o1 o2). }
  destruct m; simpl; unfold OnlineReq.SerializeToArray; by rewrite <- Hw || apply Hw.
Qed.
End MapMsg.

(** ** Entries as messages

    The protobuf language guide gives the encoding of a map field: a repeated
    message with the key as field 1 and the value as field 2.  On any runtime
    that satisfies the laws, such entries satisfy theirs. *)
Module Entries.
Section entries.
Context `{WireLaws} {V : Type} (value_ok : V -> Prop) (none : V).
Context (write : Z -> V -> bytes) (reader : bytes -> option (V * bytes)) (vsize : V -> Z).
Context (write_size : forall f v, field_number f -> value_ok v -> zlen (write f v) = 1 + vsize v).
Context (read_write : forall f v r, field_number f -> value_ok v ->
  exists p, ReadTag (write f v ++ r) = (8 * f, p) /\ reader p = Some (v, r)).
Context (reader_shrinks : forall c v r, reader c = Some (v, r) -> (length r <= length c)%nat).

Definition entry_field (tag : Z) : option (bytes * V -> bytes -> option (bytes * V * bytes)) :=
  if tag =? 10 then Some (read_then ReadString (fun k e => (k, e.2))) else
  if tag =? 16 then Some (read_then reader (fun v e => (e.1, v))) else
  None.
Definition entry : MapEntry V := {|
  EntryToArray k v := WriteStringToArray 1 k ++ write 2 v;
  EntrySize k v := 1 + StringSize k + (1 + vsize v);
  ReadEntry c := match ReadString c with
                 | Some (d, c) =>
                     match merge_entire entry_field ([], none) d with
                     | Some (k, v) => Some (k, v, c)
                     | None => None
                     end
                 | None => None
                 end;
|}.

Lemma entry_field_shrinks t parse m c m' r :
  entry_field t = Some parse -> parse m c = Some (m', r) -> (length r <= length c)%nat.
Proof using All.
  unfold entry_field. destruct (t =? 10); [intros [= <-]; apply read_then_shrinks, read_string_shrinks|].
  destruct (t =? 16); [intros [= <-]; by apply read_then_shrinks|done].
Qed.

Lemma entry_parse k v :
  zlen k < 2 ^ 31 -> value_ok v ->
  merge_entire entry_field ([], none) (WriteStringToArray 1 k ++ write 2 v) = Some (k, v).
Proof using All.
  intros Hk Hv. pose proof (eq_refl : entry_field 0 = None) as F0.
  pose proof entry_field_shrinks as Fs.
  destruct (read_string 1 k (write 2 v) ltac:(fnum) Hk) as (p & E1 & E2).
  destruct (read_write 2 v [] ltac:(fnum) Hv) as (q & E3 & E4). rewrite app_nil_r in E3.
  rewrite <- (merge_entire_end entry_field F0 Fs (k, v)). apply merge_entire_eq.
  etransitivity; [eapply (merge_field entry_field F0 Fs); [exact E1|lia|reflexivity|]|].
  - unfold read_then. by rewrite E2.
  - rewrite <- (app_nil_r (write 2 v)).
    eapply (merge_field entry_field F0 Fs); [rewrite app_nil_r; exact E3|lia|reflexivity|].
    unfold read_then. by rewrite E4.
Qed.

Lemma entry_laws : @MapEntryLaws V value_ok _ entry.
Proof using All.
  assert (forall k v, zlen k < 2 ^ 31 -> value_ok v ->
    zlen (WriteStringToArray 1 k ++ write 2 v) = 1 + StringSize k + (1 + vsize v)) as Hsz.
  { intros k v Hk Hv. by rewrite zlen_app, string_size, write_size by (done || fnum). }
  split; simpl.
  - exact Hsz.
  - intros f k v r Hf Hk Hv Hs.
    destruct (read_string f (WriteStringToArray 1 k ++ write 2 v) r Hf) as (p & E1 & E2); [by rewrite Hsz|].
    exists p. split; [done|]. by rewrite E2, entry_parse.
  - intros c k v r. destruct (ReadString c) as [[d c']|] eqn:E; [|done].
    destruct (merge_entire _ _ d) as [[k' v']|]; [|done]. intros [= _ _ <-].
    by apply read_string_shrinks in E.
Qed.
End entries.

Section instances.
Context `{WireLaws}.
#[export] Instance int_entry : MapEntry Z := entry 0 WriteInt32ToArray ReadInt32 Int32Size.
#[export] Instance bool_entry : MapEntry bool := entry false WriteBoolToArray ReadBool (fun _ => 1).
#[export] Instance int_entry_laws : MapEntryLaws Z int32_range.
Proof. apply entry_laws; [apply int32_size|apply read_int32|apply read_int32_shrinks]. Qed.
#[export] Instance bool_entry_laws : MapEntryLaws bool any_bool.
Proof.
  apply entry_laws; [intros f v Hf _; by apply bool_size|intros f v r Hf _; by apply read_bool
                    |apply read_bool_shrinks].
Qed.
End instances.
End Entries.

(** A room count with two rooms, and two orders of a hash table. *)
Module MapDemo.
Import Leb128 Entries.
#[export] Instance entry_out {V} `{MapEntry V} : EntryStream V bytes := {| EntryToStream k v o := o ++ EntryToArray k v |}.
#[export] Instance entry_out_laws {V} `{MapEntry V} : EntryStreamLaws V bytes.
Proof. by split. Qed.
#[export] Instance forward : MapOrder := {| iteration V := map_to_list |}.
#[export] Instance forward_laws : MapOrderLaws.
Proof. by split. Qed.
Definition backward : MapOrder := {| iteration V m := rev (map_to_list m) |}.
Lemma backward_laws : @MapOrderLaws backward.
Proof. split. intros V m. simpl. by rewrite <- Permutation_rev. Qed.

Definition rooms2 : gmap bytes Z := <[str "b" := 7]> {[ str "a" := 1000 ]}.
Definition online : map_msg := MOnlineReq (OnlineReq.mk (str "gate-1") rooms2).
Lemma online_ok : MapMsg.ok online.
Proof.
  split; [by split|]. intros k v. unfold rooms2. cbn [OnlineReq.roomcount_]. intros [[<- <-]|[_ [<- <-]%lookup_singleton_Some]]%lookup_insert_Some;
    (split; [by split|split; [unfold int32_range; lia|vm_compute; reflexivity]]).
Qed.
End MapDemo.
Import MapDemo Leb128 Entries.

Lemma map_messages_roundtrip_witness :
  zlen (MapMsg.serialize true online) = MapMsg.byte_size online /\
  MapMsg.ParseFromArray Wire.TOnlineReq (MapMsg.serialize true online) = Some online /\
  MapMsg.stream true online [] = MapMsg.serialize true online.
Proof.
  destruct (MapMsg.map_messages_roundtrip true online online_ok) as (E1 & E2 & E3 & _).
  split; [exact E1|]. split; [exact E2|]. exact (E3 []).
Defined.

Lemma deterministic_serialization_witness :
  MapMsg.serialize (H0 := forward) true online = MapMsg.serialize (H0 := backward) true online /\
  MapMsg.serialize (H0 := forward) false online <> MapMsg.serialize (H0 := backward) false online.
Proof.
  split; [|vm_compute; discriminate].
  apply (MapMsg.deterministic_serialization forward backward online); [exact forward_laws|exact backward_laws].
Defined.
