(* ===== verification/Gate.v ===== *)
(** * The gate server: src/gateserver

    A gate holds the client connections.  A client that authenticates is asked
    for at the logic server ([LogicRpcClient]); the reply gives it a key and a
    room, and the gate keeps the session in [channels_] under the key and in
    [rooms_] under the room.  The job server pushes through [GateServiceImpl]
    to one key, a room or everybody.

    [GateServer] is the state the handlers share, [Process] adds the TCP
    server and the RPC channel to the logic server.  Handlers are atomic here;
    the code runs them on several loop threads without taking [mutex_]. *)

From Stdlib Require Import ZArith Lia.
From stdpp Require Import base list gmap strings.
From S2P Require Import Prelude Endian Buffer Framing Interfaces Text Session.
From S2P Require Import ClientCodec RpcCodec RpcChannel Protobuf Messages Services Net.
Import Wire.
Local Open Scope Z_scope.

#[local] Arguments ClientCodec.send : simpl never.
#[local] Arguments ClientCodec.encode : simpl never.
#[local] Arguments RpcCodec.send : simpl never.
#[local] Arguments RpcChannel.CallMethod : simpl never.
#[local] Arguments RpcChannel.request_bytes : simpl never.
#[local] Arguments RpcChannel.reply_bytes : simpl never.
#[local] Arguments str : simpl never.
#[local] Arguments Z.pow : simpl never.

Lemma size_insert_new (X : gset bytes) (k : bytes) : k ∉ X -> size ({[k]} ∪ X) = Datatypes.S (size X).
Proof. intros Hk. rewrite size_union by set_solver. by rewrite size_singleton. Qed.

(** src/gateserver/UserSession.h: what a session of the gate has beside
    [Session]. *)
Module UserSession.
Record UserSession := mk { key_ : bytes; mid_ : Z; room_ : bytes }.
(** The constructor leaves [mid_] with whatever the memory held. *)
Definition UserSession_new (garbage : Z) : UserSession := mk [] (s32 garbage) [].
Definition getKey (u : UserSession) : bytes := key_ u.
Definition setKey (key : bytes) (u : UserSession) : UserSession := mk key (mid_ u) (room_ u).
Definition getMid (u : UserSession) : Z := mid_ u.
Definition setMid (mid : Z) (u : UserSession) : UserSession := mk (key_ u) (s32 mid) (room_ u).
Definition getRoom (u : UserSession) : bytes := room_ u.
Definition setRoom (room : bytes) (u : UserSession) : UserSession := mk (key_ u) (mid_ u) room.
End UserSession.
Import UserSession.

Module GateServer.

Section gate.
Context `{WireFormat} (ParseMap : msg_type -> bytes -> bool).
Context {S N : Type} `{Countable S} `{SessionOps S N}.
#[local] Instance gate_message : Message msg := Wire.message ParseMap.

(** The closures given to the logic RPC client. *)
Inductive closure :=
  | HandleConnectCb (session : S)
  | HandleHeartbeatCb (session : S).

Record GateServer := mkGate {
  serverid_ : bytes;
  channels_ : gmap bytes S;
  rooms_ : gmap bytes (gset S);
  users : gmap S UserSession;      (** the sessions of the TCP server *)
  net : N;
}.

Definition set_net (n : N) (g : GateServer) : GateServer :=
  mkGate (serverid_ g) (channels_ g) (rooms_ g) (users g) n.
Definition set_user (s : S) (u : UserSession) (g : GateServer) : GateServer :=
  mkGate (serverid_ g) (channels_ g) (rooms_ g) (<[s := u]> (users g)) (net g).
(** [static_pointer_cast<UserSession>]. *)
Definition get_user (s : S) (g : GateServer) : res UserSession :=
  match users g !! s with Some u => Ok u | None => Err UB end.

#[global] Instance gate_session_ops : SessionOps S GateServer := {|
  session_send s b g := let* n := session_send s b (net g) in Ok (set_net n g);
  session_close s g := let* n := session_close s (net g) in Ok (set_net n g);
  sent g s := sent (net g) s;
|}.

Definition HandleConnect (response : ConnectReply.ConnectReply) (session : S) (g : GateServer)
    : res GateServer :=
  let mid := ConnectReply.mid_ response in
  let key := ConnectReply.key_ response in
  let roomid := ConnectReply.roomid_ response in
  let* usersession := get_user session g in
  let usersession := setRoom roomid (setMid mid (setKey key usersession)) in
  let channels := match channels_ g !! key with
                  | Some _ => channels_ g
                  | None => <[key := session]> (channels_ g)
                  end in
  let rooms := <[roomid := {[session]} ∪ default ∅ (rooms_ g !! roomid)]> (rooms_ g) in
  let g := mkGate (serverid_ g) channels rooms (<[session := usersession]> (users g)) (net g) in
  ClientCodec.send session 8 0 (str "success") g.

Definition HandleHeartbeat (response : HeartbeatReply.HeartbeatReply) (session : S) (g : GateServer)
    : res GateServer := Ok g.

(** [Closure::Run], the response object being the parsed one. *)
Definition Run (c : closure) (response : msg) (g : GateServer) : res GateServer :=
  match c, response with
  | HandleConnectCb s, MConnectReply r => HandleConnect r s g
  | HandleHeartbeatCb s, MHeartbeatReply r => HandleHeartbeat r s g
  | _, _ => Err UB
  end.

Definition SendToClient (key : bytes) (msg : Proto.Proto) (g : GateServer) : res GateServer :=
  match channels_ g !! key with
  | Some session => ClientCodec.send session (Proto.op_ msg) (Proto.seq_ msg) (Proto.body_ msg) g
  | None => Ok g
  end.

(** A loop over an unordered container, in some order. *)
Definition SendToRoom (roomid : bytes) (msg : Proto.Proto) (g : GateServer) : res GateServer :=
  match rooms_ g !! roomid with
  | Some room =>
      foldM (fun session => ClientCodec.send session (Proto.op_ msg) (Proto.seq_ msg) (Proto.body_ msg))
        (elements room) g
  | None => Ok g
  end.

Definition BroadCast (msg : Proto.Proto) (g : GateServer) : res GateServer :=
  foldM (fun session : bytes * S =>
           ClientCodec.send session.2 (Proto.op_ msg) (Proto.seq_ msg) (Proto.body_ msg))
    (map_to_list (channels_ g)) g.

(** ** src/gateserver/GateServiceImpl.cc *)
Definition PushMsg : Services.handler PushMsgReq.PushMsgReq PushMsgReply.PushMsgReply GateServer :=
  fun _ request done g =>
    let* g := foldM (fun key => SendToClient key (PushMsgReq.proto request))
                (PushMsgReq.keys_ request) g in
    done PushMsgReply.Clear g.

Definition Broadcast : Services.handler BroadcastReq.BroadcastReq BroadcastReply.BroadcastReply GateServer :=
  fun _ request done g =>
    let* g := BroadCast (BroadcastReq.proto request) g in
    done BroadcastReply.Clear g.

Definition BroadcastRoom
    : Services.handler BroadcastRoomReq.BroadcastRoomReq BroadcastRoomReply.BroadcastRoomReply GateServer :=
  fun _ request done g =>
    let* g := SendToRoom (BroadcastRoomReq.roomid_ request) (BroadcastRoomReq.proto request) g in
    done BroadcastRoomReply.Clear g.

(** The service object; [Ping], [Close] and [Rooms] are inherited. *)
Definition GateServiceImpl : Gate.Gate GateServer :=
  Gate.mk (Gate.Ping Gate.base) (Gate.Close Gate.base) PushMsg Broadcast BroadcastRoom
    (Gate.Rooms Gate.base).

(** ** The client side: src/gateserver/LogicRpcClient.cc, GateServer.cc *)
Definition channel : Type := RpcChannel.Channel S msg_type closure (Services.service GateServer).

Definition LogicRpcClient_Connect (request : ConnectReq.ConnectReq) (done : option closure)
    (p : channel * GateServer) : res (channel * GateServer) :=
  Logic.Stub_Connect request done p.1 p.2.
Definition LogicRpcClient_HeartBeat (request : HeartbeatReq.HeartbeatReq) (done : option closure)
    (p : channel * GateServer) : res (channel * GateServer) :=
  Logic.Stub_Heartbeat request done p.1 p.2.
Definition LogicRpcClient_Disconnect (request : DisconnectReq.DisconnectReq) (done : option closure)
    (p : channel * GateServer) : res (channel * GateServer) :=
  Logic.Stub_Disconnect request done p.1 p.2.
(** [onConnection] of the session to the logic server. *)
Definition LogicRpcClient_onConnection (conn : S) (p : channel * GateServer) : channel * GateServer :=
  (RpcChannel.setConnection conn p.1, p.2).

Definition HandleDisconnect (session : S) (p : channel * GateServer) : res (channel * GateServer) :=
  let* usersession := get_user session p.2 in
  let request := DisconnectReq.set_key (getKey usersession)
    (DisconnectReq.set_mid (getMid usersession)
       (DisconnectReq.set_server (serverid_ p.2) DisconnectReq.Clear)) in
  let* (ch, g) := LogicRpcClient_Disconnect request None p in
  let channels := match channels_ g !! getKey usersession with
                  | Some _ => delete (getKey usersession) (channels_ g)
                  | None => channels_ g
                  end in
  let rooms := match rooms_ g !! getRoom usersession with
               | Some roomsession => <[getRoom usersession := roomsession ∖ {[session]}]> (rooms_ g)
               | None => rooms_ g
               end in
  Ok (ch, mkGate (serverid_ g) channels rooms (users g) (net g)).

Context (make_shared : nat -> Z -> S) (session_id : S -> Z).

Record Process := mkProcess {
  tcpserver_ : TcpServer.TcpServer S;
  rpcclient_ : channel;
  core : GateServer;
}.
Definition set_core (g : GateServer) (p : Process) : Process :=
  mkProcess (tcpserver_ p) (rpcclient_ p) g.

(** [newSession<UserSession>]. *)
Definition newClient (garbage : Z) (p : Process) : res (S * Process) :=
  let* (s, t) := TcpServer.newSession make_shared (tcpserver_ p) in
  Ok (s, mkProcess t (rpcclient_ p) (set_user s (UserSession_new garbage) (core p))).

(** [Session::close] of a client: the callback of the TCP server, which calls
    [HandleDisconnect], then the socket. *)
Definition closeClient (s : S) (p : Process) : res Process :=
  let* (t, cg) := TcpServer.session_closes session_id (Some HandleDisconnect) s (tcpserver_ p)
                    (rpcclient_ p, core p) in
  let '(ch, g) := cg in
  let* n := session_close s (net g) in
  Ok (mkProcess t ch (set_net n g)).

#[global] Instance process_session_ops : SessionOps S Process := {|
  session_send s b p := let* g := session_send s b (core p) in Ok (set_core g p);
  session_close s p := closeClient s p;
  sent p s := sent (core p) s;
|}.

Definition onClientMessageCallback (session : S) (op id : Z) (body : bytes) (p : Process) : res Process :=
  let* usersession := get_user session (core p) in
  match op with
  | 7 =>
      let request := ConnectReq.set_token body
        (ConnectReq.set_server (serverid_ (core p)) ConnectReq.Clear) in
      let* (ch, g) := LogicRpcClient_Connect request (Some (HandleConnectCb session))
                        (rpcclient_ p, core p) in
      Ok (mkProcess (tcpserver_ p) ch g)
  | 2 =>
      let request := HeartbeatReq.set_key (getKey usersession)
        (HeartbeatReq.set_mid (getMid usersession)
           (HeartbeatReq.set_server (serverid_ (core p)) HeartbeatReq.Clear)) in
      let* (ch, g) := LogicRpcClient_HeartBeat request (Some (HandleHeartbeatCb session))
                        (rpcclient_ p, core p) in
      Ok (mkProcess (tcpserver_ p) ch g)
  | _ => ClientCodec.send session 1 1 (str "test") p
  end.

(** The message callbacks: of a client session, and of the session to the
    logic server. *)
Definition onClientData (session : S) (buf : Buffer) (p : Process) : res (Buffer * Process) :=
  ClientCodec.onMessage onClientMessageCallback session buf p.

Context `{Services.Descriptors}.
Definition onLogicData (session : S) (buf : Buffer) (p : Process) : res (Buffer * Process) :=
  let* (buf, cg) := Services.onMessage ParseMap Run session buf (rpcclient_ p, core p) in
  let '(ch, g) := cg in Ok (buf, mkProcess (tcpserver_ p) ch g).

(** A session of the RPC server, with its channel. *)
Definition onRpcData (session : S) (buf : Buffer) (cp : channel * Process)
    : res (Buffer * (channel * Process)) :=
  let '(ch, p) := cp in
  let* (buf, cg) := Services.onMessage ParseMap Run session buf (ch, core p) in
  let '(ch, g) := cg in Ok (buf, (ch, set_core g p)).
End gate.
Arguments closure : clear implicits.
Arguments GateServer S N {_ _}.
Arguments Process S N {_ _}.
Arguments channel S N {_ _}.

(** ** Sending to clients *)
Section sending.
Context {S N : Type} `{Countable S} `{SessionLaws S N}.
Implicit Types g : GateServer S N.

Definition frame_of (msg : Proto.Proto) : ClientCodec.frame :=
  ClientCodec.mkFrame (Proto.op_ msg) (Proto.seq_ msg) (Proto.body_ msg).
Definition send_frame (f : ClientCodec.frame) (s : S) : GateServer S N -> res (GateServer S N) :=
  ClientCodec.send s (ClientCodec.f_op f) (ClientCodec.f_id f) (ClientCodec.f_body f).
Definition body_fits (f : ClientCodec.frame) : Prop := zlen (ClientCodec.f_body f) + 16 < 2 ^ 31.

(** What session [x] gets when the frame [f] goes to each session of [l]. *)
Definition share (x : S) (l : list S) (f : ClientCodec.frame) : bytes :=
  concat (map (fun s => if decide (s = x) then ClientCodec.encode f else []) l).

#[global] Instance gate_session_laws : SessionLaws S (GateServer S N).
Proof.
  split; simpl.
  - intros s b c g HR. destruct (session_send_spec s b c (net g) HR) as (n & -> & Hs & Ho).
    mstep. exists (set_net n g). by repeat split.
  - intros s g. destruct (session_close_spec s (net g)) as (n & -> & Ho). mstep.
    exists (set_net n g). by split.
Qed.

Lemma send_frame_spec f s g :
  body_fits f ->
  exists n, send_frame f s g = Ok (set_net n g) /\
    sent n s = sent (net g) s ++ ClientCodec.encode f /\ forall x, x <> s -> sent n x = sent (net g) x.
Proof.
  intros Hf. unfold send_frame, ClientCodec.send. rewrite Buffer_new_default. mstep.
  destruct (ClientCodec.client_fillEmptyBuffer_encode newBuffer (ClientCodec.f_op f)
    (ClientCodec.f_id f) (ClientCodec.f_body f)) as (b & -> & HR);
    [apply newBuffer_represents|done|done|]. mstep. simpl.
  destruct (session_send_spec s b _ (net g) HR) as (n & -> & Hs & Ho). mstep.
  exists n. destruct f. by repeat split.
Qed.

Lemma send_all f l g :
  body_fits f ->
  exists n, foldM (send_frame f) l g = Ok (set_net n g) /\
    forall x, sent n x = sent (net g) x ++ share x l f.
Proof.
  intros Hf. revert g. induction l as [|s l IH]; intros g.
  - exists (net g). split; [by destruct g|]. intros x. by rewrite app_nil_r.
  - destruct (send_frame_spec f s g Hf) as (n1 & E & Hs & Ho). cbn [foldM]. rewrite E. mstep.
    destruct (IH (set_net n1 g)) as (n & -> & Hn). exists n. split; [done|].
    intros x. rewrite Hn. simpl. unfold share. cbn [map concat]. case_decide as Hx.
    + subst x. by rewrite Hs, <- app_assoc.
    + by rewrite Ho.
Qed.

(** The sessions of a list of keys. *)
Lemma push_all msg keys g :
  foldM (fun key => SendToClient key msg) keys g =
  foldM (send_frame (frame_of msg)) (omap (fun k => channels_ g !! k) keys) g.
Proof.
  enough (forall m g, channels_ g = m ->
    foldM (fun key => SendToClient key msg) keys g =
    foldM (send_frame (frame_of msg)) (omap (fun k => m !! k) keys) g) as E.
  { by apply E. }
  clear g. induction keys as [|k keys IH]; intros m g Hm; [done|]. cbn [foldM].
  unfold SendToClient at 1. rewrite Hm. cbn [omap list_omap]. destruct (m !! k) as [s|] eqn:Ek.
  - cbn [foldM]. change (ClientCodec.send s (Proto.op_ msg) (Proto.seq_ msg) (Proto.body_ msg) g)
      with (send_frame (frame_of msg) s g).
    destruct (send_frame (frame_of msg) s g) as [g'|] eqn:Es; [|done]. mstep. apply IH.
    unfold send_frame, ClientCodec.send in Es.
    apply bind_Ok_inv in Es as (b1 & _ & Es). apply bind_Ok_inv in Es as (b2 & _ & Es).
    cbn [session_send gate_session_ops] in Es. by apply bind_Ok_inv in Es as (n & _ & [= <-]).
  - cbn [bind]. by apply IH.
Qed.
End sending.

(** ** Pushes from the job server *)
Section rpc.
Context `{WireLaws} `{Services.DescriptorLaws} (ParseMap : msg_type -> bytes -> bool).
Context {S N : Type} `{Countable S} `{SessionLaws S N}.

#[local] Instance rpc_message : Message msg := Wire.message ParseMap.
#[local] Instance rpc_message_laws : MessageLaws msg := Wire.message_laws ParseMap.

(** A session of the RPC server: its channel knows the gate service. *)
Definition serves_gate (conn : S) (ch : channel S N) : Prop :=
  RpcChannel.conn_ ch = Some conn /\
  exists services, RpcChannel.services_ ch = Some services /\
    services !! str "gate.Gate" = Some (Services.SGate GateServiceImpl).

(** The process after each session [x] was sent [gets x] and the RPC peer
    was sent its reply. *)
Definition delivered (conn : S) (gets : S -> bytes) (reply : bytes) (p p' : Process S N) : Prop :=
  tcpserver_ p' = tcpserver_ p /\ rpcclient_ p' = rpcclient_ p /\
  (exists n, core p' = set_net n (core p)) /\
  sent (core p') conn = sent (core p) conn ++ reply /\
  forall x, x <> conn -> sent (core p') x = sent (core p) x ++ gets x.

(** Sending an RPC message changes nothing but the network. *)
Lemma rpc_send_net id name conn m (g g' : GateServer S N) :
  RpcCodec.send id name conn m g = Ok g' -> exists n, g' = set_net n g.
Proof.
  unfold RpcCodec.send. intros (b0 & _ & Hs)%bind_Ok_inv.
  apply bind_Ok_inv in Hs as (b1 & _ & Hs). simpl in Hs.
  apply bind_Ok_inv in Hs as (n & _ & [= <-]). by exists n.
Qed.

Lemma gate_rpc conn ch i name req resp l f id b p :
  serves_gate conn ch -> gate_methods !! i = Some name ->
  Gate.GetRequestPrototype (Z.of_nat i) = Ok (type_of req) ->
  msg_ok ParseMap req -> msg_ok ParseMap resp -> Services.fits_frame req -> Services.fits_frame resp ->
  0 <= id < 2 ^ 63 -> body_fits f -> conn ∉ l ->
  (forall done, Gate.CallMethod GateServiceImpl (Z.of_nat i) NullController req done (core p) =
     (let* g := foldM (send_frame f) l (core p) in done resp g)) ->
  represents b (RpcChannel.request_bytes id (str "gate.Gate") name req) ->
  exists b' p', onRpcData ParseMap conn b (ch, p) = Ok (b', (ch, p')) /\ represents b' [] /\
    delivered conn (fun x => share x l f)
      (RpcChannel.reply_bytes id (str "gate.Gate") name resp) p p'.
Proof.
  intros (Hc & services & Hsv & Hs) Hn Ht Hq Hr Fq Fr Hid Hf Hl Hcall HR.
  destruct (send_all f l (core p) Hf) as (n & Es & Hx).
  assert (share conn l f = []) as Hconn.
  { clear -Hl. unfold share. induction l as [|s l IH]; [done|]. apply not_elem_of_cons in Hl as [? ?].
    simpl. rewrite decide_False by done. by apply IH. }
  destruct (Services.service_answers ParseMap Run ch conn services
    (Services.SGate GateServiceImpl) i name req resp id b (core p) (set_net n (core p)))
    as (b' & g' & E & HR' & Hg & Hsend); try done.
  { intros k. simpl. by rewrite Hcall, Es. }
  { simpl. by rewrite Hx, Hconn, app_nil_r. }
  exists b', (set_core g' p). unfold onRpcData, channel in *. cbv beta iota. rewrite E. mstep.
  split; [done|]. split; [done|]. do 2 (split; [done|]).
  split; [destruct (rpc_send_net _ _ _ _ _ _ Hsend) as [n' ->]; by exists n'|]. split; [exact Hg|]. intros x Hne.
  destruct (Services.method_name_ok (Services.SGate GateServiceImpl) i name Hn) as [_ Hlen].
  simpl in Hlen. unfold Services.fits_frame, RpcCodec.kMaxMessageLen in *.
  destruct (RpcCodec.send_encodes (id + 2 ^ 63)
    (RpcCodec.full_name (str "gate.Gate") (name ++ [Byte.x00])) conn resp (set_net n (core p)))
    as (w' & E' & _ & Ho); [done|unfold RpcCodec.full_name; simpl; zlia|].
  assert (Ok w' = Ok g') as [= ->] by (rewrite <- E'; exact Hsend).
  cbn [core set_core]. rewrite Ho by done. apply Hx.
Qed.

Lemma delivered_ext conn gets gets' reply p p' :
  (forall x, gets x = gets' x) -> delivered conn gets reply p p' -> delivered conn gets' reply p p'.
Proof.
  intros E (? & ? & ? & ? & Hd). do 4 (split; [done|]). intros x Hx. by rewrite Hd, E.
Qed.

Lemma share_keys (m : gmap bytes S) (x : S) keys f :
  share x (omap (fun k => m !! k) keys) f =
  concat (map (fun k => if decide (m !! k = Some x) then ClientCodec.encode f else []) keys).
Proof.
  unfold share. induction keys as [|k keys IH]; [done|]. simpl.
  destruct (m !! k) as [s|] eqn:Ek; simpl; [|exact IH].
  f_equal; [|exact IH]. by repeat case_decide; simplify_eq.
Qed.

(** A PushMsg request makes every client session receive one frame for each
    requested key it is registered under, and no other bytes. *)
Theorem gate_push_delivers conn ch req id b p :
  serves_gate conn ch -> msg_ok ParseMap (MPushMsgReq req) -> Services.fits_frame (MPushMsgReq req) ->
  0 <= id < 2 ^ 63 -> body_fits (frame_of (PushMsgReq.proto req)) ->
  (forall k, channels_ (core p) !! k <> Some conn) ->
  represents b (RpcChannel.request_bytes id (str "gate.Gate") (str "PushMsg") (MPushMsgReq req)) ->
  exists b' p', onRpcData ParseMap conn b (ch, p) = Ok (b', (ch, p')) /\ represents b' [] /\
    delivered conn
      (fun x => concat (map (fun k => if decide (channels_ (core p) !! k = Some x)
                                      then ClientCodec.encode (frame_of (PushMsgReq.proto req)) else [])
                          (PushMsgReq.keys_ req)))
      (RpcChannel.reply_bytes id (str "gate.Gate") (str "PushMsg") (MPushMsgReply PushMsgReply.Clear)) p p'.
Proof.
  intros Hs Hok Hfit Hid Hf Hconn HR.
  destruct (gate_rpc conn ch 2 (str "PushMsg") (MPushMsgReq req) (MPushMsgReply PushMsgReply.Clear)
    (omap (fun k => channels_ (core p) !! k) (PushMsgReq.keys_ req))
    (frame_of (PushMsgReq.proto req)) id b p) as (b' & p' & E & HR' & Hd); try done.
  - intros (k & _ & Hk)%list_elem_of_omap. by apply (Hconn k).
  - intros done. simpl. unfold PushMsg. by rewrite push_all.
  - exists b', p'. split; [done|]. split; [done|]. eapply delivered_ext; [|exact Hd].
    intros x. apply share_keys.
Qed.

Lemma share_NoDup (x : S) l f :
  NoDup l -> share x l f = if decide (x ∈ l) then ClientCodec.encode f else [].
Proof.
  unfold share. induction 1 as [|s l Hs _ IH]; [done|]. simpl. rewrite IH.
  repeat case_decide; subst; rewrite ?app_nil_r; set_solver.
Qed.

(** The bytes of a BroadcastRoom request make every session in the room
    receive the frame exactly once and every other session nothing. *)
Theorem gate_room_broadcast conn ch req id b p :
  serves_gate conn ch -> msg_ok ParseMap (MBroadcastRoomReq req) ->
  Services.fits_frame (MBroadcastRoomReq req) -> 0 <= id < 2 ^ 63 ->
  body_fits (frame_of (BroadcastRoomReq.proto req)) ->
  let room := default ∅ (rooms_ (core p) !! BroadcastRoomReq.roomid_ req) in
  conn ∉ room ->
  represents b (RpcChannel.request_bytes id (str "gate.Gate") (str "BroadcastRoom") (MBroadcastRoomReq req)) ->
  exists b' p', onRpcData ParseMap conn b (ch, p) = Ok (b', (ch, p')) /\ represents b' [] /\
    delivered conn
      (fun x => if decide (x ∈ room) then ClientCodec.encode (frame_of (BroadcastRoomReq.proto req)) else [])
      (RpcChannel.reply_bytes id (str "gate.Gate") (str "BroadcastRoom")
         (MBroadcastRoomReply BroadcastRoomReply.Clear)) p p'.
Proof.
  intros Hs Hok Hfit Hid Hf room Hconn HR.
  destruct (gate_rpc conn ch 4 (str "BroadcastRoom") (MBroadcastRoomReq req)
    (MBroadcastRoomReply BroadcastRoomReply.Clear) (elements room)
    (frame_of (BroadcastRoomReq.proto req)) id b p) as (b' & p' & E & HR' & Hd); try done.
  - by rewrite elem_of_elements.
  - intros done. simpl. unfold BroadcastRoom, SendToRoom. subst room.
    destruct (rooms_ (core p) !! _); simpl; [done|]. by rewrite elements_empty.
  - exists b', p'. split; [done|]. split; [done|]. eapply delivered_ext; [|exact Hd].
    intros x. cbv beta. rewrite share_NoDup by apply NoDup_elements.
    apply decide_ext. by rewrite elem_of_elements.
Qed.

(** ** The entries of the live sessions *)

(** What [HandleConnect] and [HandleDisconnect] make of the maps. *)
Lemma HandleConnect_Ok r s (g g' : GateServer S N) :
  HandleConnect r s g = Ok g' ->
  exists u n, users g !! s = Some u /\
    g' = mkGate (serverid_ g)
           (match channels_ g !! ConnectReply.key_ r with
            | Some _ => channels_ g | None => <[ConnectReply.key_ r := s]> (channels_ g) end)
           (<[ConnectReply.roomid_ r := {[s]} ∪ default ∅ (rooms_ g !! ConnectReply.roomid_ r)]> (rooms_ g))
           (<[s := UserSession.mk (ConnectReply.key_ r) (s32 (ConnectReply.mid_ r)) (ConnectReply.roomid_ r)]>
              (users g)) n.
Proof.
  unfold HandleConnect, get_user. destruct (users g !! s) as [u|] eqn:Eu; [|done]. mstep. cbv zeta.
  unfold ClientCodec.send. intros (b0 & _ & Hs)%bind_Ok_inv.
  apply bind_Ok_inv in Hs as (b1 & _ & Hs). simpl in Hs.
  apply bind_Ok_inv in Hs as (n & _ & [= <-]). by exists u, n.
Qed.

Lemma stub_net sn mn req t d (ch ch' : channel S N) (g g' : GateServer S N) :
  RpcChannel.CallMethod sn mn req t d ch g = Ok (ch', g') -> exists n, g' = set_net n g.
Proof.
  unfold RpcChannel.CallMethod, RpcChannel.codec_send. simpl.
  destruct (RpcChannel.conn_ ch) as [conn|]; [|done].
  intros (g1 & Hs & [= _ <-])%bind_Ok_inv. by eapply rpc_send_net.
Qed.

Lemma HandleDisconnect_Ok s (ch ch' : channel S N) (g g' : GateServer S N) :
  HandleDisconnect ParseMap s (ch, g) = Ok (ch', g') ->
  exists u n, users g !! s = Some u /\
    g' = mkGate (serverid_ g) (delete (key_ u) (channels_ g))
           (alter (fun room => room ∖ {[s]}) (room_ u) (rooms_ g)) (users g) n.
Proof.
  unfold HandleDisconnect, get_user. simpl. destruct (users g !! s) as [u|] eqn:Eu; [|done]. mstep.
  unfold LogicRpcClient_Disconnect, Logic.Stub_Disconnect, Logic.stub_call. simpl.
  intros ([ch1 g1] & Hs & [= _ <-])%bind_Ok_inv. apply stub_net in Hs as [n ->].
  exists u, n. split; [done|]. unfold set_net, getKey, getRoom. simpl. f_equal.
  - destruct (channels_ g !! key_ u) eqn:E; [done|]. by rewrite delete_id.
  - destruct (rooms_ g !! room_ u) as [m|] eqn:E.
    + apply map_eq. intros r. destruct (decide (r = room_ u)) as [->|Hr].
      * by rewrite lookup_insert_eq, lookup_alter_eq, E.
      * by rewrite lookup_insert_ne, lookup_alter_ne.
    + symmetry. by apply alter_id; intros m Hm; rewrite E in Hm.
Qed.

(** The state with two histories: who has authenticated, who has gone. *)
Record View := mkView { v_gate : GateServer S N; v_in : gset S; v_gone : gset S }.

(** Sessions authenticate at most once, while connected, under a key that is
    new; they disconnect once; frames are sent at any time. *)
Inductive gstep : View -> View -> Prop :=
  | gstep_new s garbage g a d :
      s ∉ dom (users g) -> s ∉ d -> gstep (mkView g a d) (mkView (set_user s (UserSession_new garbage) g) a d)
  | gstep_connect r s g g' a d :
      s ∉ a -> s ∉ d -> ConnectReply.key_ r <> [] -> channels_ g !! ConnectReply.key_ r = None ->
      HandleConnect r s g = Ok g' ->
      gstep (mkView g a d) (mkView g' ({[s]} ∪ a) d)
  | gstep_disconnect s ch ch' g g' a d :
      s ∉ d -> HandleDisconnect ParseMap s (ch, g) = Ok (ch', g') ->
      gstep (mkView g a d) (mkView g' a ({[s]} ∪ d))
  | gstep_net n g a d : gstep (mkView g a d) (mkView (set_net n g) a d).

(** The maps hold exactly the sessions that are authenticated and not gone,
    each under its own key and room. *)
Definition live (v : View) (s : S) (u : UserSession) : Prop :=
  (s ∈ v_in v) /\ (s ∉ v_gone v) /\ users (v_gate v) !! s = Some u.
Record gate_inv (v : View) : Prop := {
  gi_users s : s ∈ v_in v -> s ∈ dom (users (v_gate v));
  gi_keys s u : users (v_gate v) !! s = Some u -> (key_ u = [] <-> s ∉ v_in v);
  gi_channels k s : channels_ (v_gate v) !! k = Some s <-> exists u, live v s u /\ key_ u = k;
  gi_rooms r s : s ∈ default ∅ (rooms_ (v_gate v) !! r) <-> exists u, live v s u /\ room_ u = r;
}.

Lemma gate_inv_connect r s g g' a d :
  gate_inv (mkView g a d) -> s ∉ a -> s ∉ d -> ConnectReply.key_ r <> [] -> channels_ g !! ConnectReply.key_ r = None ->
  HandleConnect r s g = Ok g' -> gate_inv (mkView g' ({[s]} ∪ a) d).
Proof.
  intros [Hu Hk0 Hc Hr] Ha Hd Hne0 Hk (u & n & Eu & ->)%HandleConnect_Ok. rewrite Hk.
  split; unfold live in *; simpl in *.
  - intros x [Hx|Hx]%elem_of_union; rewrite dom_insert; set_solver.
  - intros x y [[<- <-]|[Hne Ey]]%lookup_insert_Some; simpl; [set_solver|].
    rewrite (Hk0 _ _ Ey). set_solver.
  - intros k x. rewrite lookup_insert_Some, Hc. setoid_rewrite elem_of_union.
    setoid_rewrite elem_of_singleton. split.
    + intros [[<- <-]|(Hne & y & (Hx & Hxd & Ey) & <-)].
      * eexists. rewrite lookup_insert_eq. eauto.
      * exists y. rewrite lookup_insert_ne by set_solver. auto.
    + intros (y & (Hx & Hxd & Ey) & <-). destruct (decide (x = s)) as [->|Hne].
      * rewrite lookup_insert_eq in Ey. injection Ey as <-. by left.
      * rewrite lookup_insert_ne in Ey by done. right. destruct Hx as [?|Hx]; [done|].
        assert (channels_ g !! key_ y = Some x) as E by (apply Hc; eauto).
        split; [congruence|eauto].
  - intros rm x. setoid_rewrite elem_of_union. setoid_rewrite elem_of_singleton.
    destruct (decide (rm = ConnectReply.roomid_ r)) as [->|Hrm].
    + rewrite lookup_insert_eq. simpl. rewrite elem_of_union, elem_of_singleton, Hr. split.
      * intros [->|(y & (Hx & Hxd & Ey) & Hy)]; [eexists; rewrite lookup_insert_eq; eauto|].
        exists y. rewrite lookup_insert_ne by set_solver. auto.
      * intros (y & (Hx & Hxd & Ey) & Hy). destruct (decide (x = s)) as [->|Hne]; [by left|].
        rewrite lookup_insert_ne in Ey by done. right. naive_solver.
    + rewrite lookup_insert_ne by done. rewrite Hr. split.
      * intros (y & (Hx & Hxd & Ey) & Hy). exists y. rewrite lookup_insert_ne by set_solver. auto.
      * intros (y & (Hx & Hxd & Ey) & Hy). destruct (decide (x = s)) as [->|Hne].
        { rewrite lookup_insert_eq in Ey. naive_solver. }
        rewrite lookup_insert_ne in Ey by done. naive_solver.
Qed.

Lemma gate_inv_disconnect s ch ch' g g' a d :
  gate_inv (mkView g a d) -> s ∉ d -> HandleDisconnect ParseMap s (ch, g) = Ok (ch', g') ->
  gate_inv (mkView g' a ({[s]} ∪ d)).
Proof.
  intros [Hu Hk Hc Hr] Hd (u & n & Eu & ->)%HandleDisconnect_Ok.
  split; unfold live in *; simpl in *; [done|done| |].
  - intros k x. rewrite lookup_delete_Some, Hc. setoid_rewrite not_elem_of_union.
    setoid_rewrite not_elem_of_singleton. split.
    + intros (Hne & y & (Hx & Hxd & Ey) & <-). exists y. repeat split; auto. intros ->. congruence.
    + intros (y & (Hx & [Hxs Hxd] & Ey) & <-). split; [|eauto 6]. intros Ek. apply Hxs.
      assert (s ∈ a) as Hsa.
      { destruct (decide (s ∈ a)) as [|Hsa]; [done|]. apply (Hk _ _ Eu) in Hsa.
        rewrite Hsa in Ek. symmetry in Ek. apply (Hk _ _ Ey) in Ek. done. }
      assert (channels_ g !! key_ y = Some x) as E1 by (apply Hc; eauto).
      assert (channels_ g !! key_ u = Some s) as E2 by (apply Hc; eauto). congruence.
  - intros rm x. setoid_rewrite not_elem_of_union. setoid_rewrite not_elem_of_singleton.
    destruct (decide (rm = room_ u)) as [->|Hrm].
    + rewrite lookup_alter_eq. trans (x <> s /\ x ∈ default ∅ (rooms_ g !! room_ u)).
      { destruct (rooms_ g !! room_ u); simpl; set_solver. }
      rewrite Hr. naive_solver.
    + rewrite lookup_alter_ne by done. rewrite Hr. naive_solver.
Qed.

Lemma gate_steps_inv v v' : rtc gstep v v' -> gate_inv v -> gate_inv v'.
Proof.
  induction 1 as [|v v1 v' Hs _ IH]; [done|]. intros Hi. apply IH.
  destruct Hs as [s gb g a d Hn Hd|r s g g' a d Ha Hd Hne Hk E|s ch ch' g g' a d Hd E|n g a d].
  - destruct Hi as [Hu Hk Hc Hr]. unfold live in Hc, Hr. simpl in *.
    assert (s ∉ a) as Hsa by (intros ?%Hu; done).
    assert (forall x u, x ∈ a -> <[s := UserSession_new gb]> (users g) !! x = Some u <->
      users g !! x = Some u) as Hx by (intros; rewrite lookup_insert_ne by set_solver; done).
    split; unfold live; simpl.
    + intros x Hxa. rewrite dom_insert. set_solver.
    + intros x u [[<- <-]|[Hne Ex]]%lookup_insert_Some; simpl; [done|auto].
    + intros k x. rewrite Hc. naive_solver.
    + intros r x. rewrite Hr. naive_solver.
  - by eapply gate_inv_connect.
  - by eapply gate_inv_disconnect.
  - by destruct Hi.
Qed.

Lemma gate_inv_start id n : gate_inv (mkView (mkGate id ∅ ∅ ∅ n) ∅ ∅).
Proof.
  split; unfold live; simpl.
  - set_solver.
  - intros s u. by rewrite lookup_empty.
  - intros k s. rewrite lookup_empty. set_solver.
  - intros r s. rewrite lookup_empty. set_solver.
Qed.

(** C6: In every run in which sessions authenticate at most once, under new
    non-empty keys and before they disconnect, channels_ and rooms_ hold
    exactly the sessions that are authenticated and not gone, each under its
    own key and room. *)
Theorem gate_tracks_live_sessions id n v :
  rtc gstep (mkView (mkGate id ∅ ∅ ∅ n) ∅ ∅) v ->
  (forall k s, channels_ (v_gate v) !! k = Some s <-> exists u, live v s u /\ key_ u = k) /\
  (forall r s, s ∈ default ∅ (rooms_ (v_gate v) !! r) <-> exists u, live v s u /\ room_ u = r).
Proof. intros Hs. apply gate_steps_inv in Hs; [|apply gate_inv_start]. split; apply Hs. Qed.

Lemma broadcast_all msg (g : GateServer S N) :
  BroadCast msg g = foldM (send_frame (frame_of msg)) (map_to_list (channels_ g)).*2 g.
Proof.
  unfold BroadCast. generalize (map_to_list (channels_ g)). intros l. revert g.
  induction l as [|[k s] l IH]; intros g; [done|]. cbn [foldM fmap list_fmap snd]. unfold send_frame at 1.
  cbn [ClientCodec.f_op ClientCodec.f_id ClientCodec.f_body frame_of].
  destruct (ClientCodec.send _ _ _ _ g); [apply IH|done].
Qed.

(** The keys a session is registered under. *)
Definition held (g : GateServer S N) (x : S) : gset bytes := dom (filter (fun e => e.2 = x) (channels_ g)).
Lemma elem_of_held g x k : k ∈ held g x <-> channels_ g !! k = Some x.
Proof.
  unfold held. rewrite elem_of_dom. split.
  - intros [s [Hs Hx]%map_lookup_filter_Some]. simpl in Hx. by subst s.
  - intros Hs. exists x. by apply map_lookup_filter_Some.
Qed.

(** [n] copies of the frame [f], the share of a session whose keys occur [n]
    times. *)
Definition copies (n : nat) (f : bytes) : bytes := concat (replicate n f).
Lemma held_copies g x f L :
  NoDup L ->
  concat (map (fun k => if decide (channels_ g !! k = Some x) then f else []) L) =
  copies (size (held g x ∩ list_to_set L)) f.
Proof.
  induction 1 as [|k L Hk _ IH]; cbn [map concat list_to_set].
  - by rewrite (right_absorb_L ∅ (∩)), size_empty.
  - rewrite IH. case_decide as E.
    + apply elem_of_held in E. replace (held g x ∩ ({[k]} ∪ list_to_set L))
        with ({[k]} ∪ (held g x ∩ list_to_set L)) by (apply set_eq; set_solver).
      by rewrite size_insert_new by (rewrite elem_of_intersection, elem_of_list_to_set; by intros [_ ?]).
    + rewrite <- elem_of_held in E. simpl.
      by replace (held g x ∩ ({[k]} ∪ list_to_set L)) with (held g x ∩ list_to_set L) by (apply set_eq; set_solver).
Qed.

Lemma share_channels g x f :
  share x (map_to_list (channels_ g)).*2 f = copies (size (held g x)) (ClientCodec.encode f).
Proof.
  trans (share x (omap (fun k => channels_ g !! k) (map_to_list (channels_ g)).*1) f).
  - f_equal. assert (Forall (fun e => channels_ g !! e.1 = Some e.2) (map_to_list (channels_ g))) as HF.
    { apply Forall_forall. intros [k s]. apply elem_of_map_to_list. }
    induction HF as [|e l He _ IH]; [done|]. simpl. rewrite He. by f_equal.
  - rewrite share_keys, held_copies by apply NoDup_fst_map_to_list. f_equal. f_equal.
    apply set_eq. intros k. rewrite elem_of_intersection, elem_of_list_to_set. split; [by intros [? _]|].
    intros Hk. split; [done|]. apply elem_of_held in Hk. apply list_elem_of_fmap. exists (k, x).
    split; [done|]. by apply elem_of_map_to_list.
Qed.

(** In the runs in which sessions authenticate once, a session holds one key
    while it is live and none otherwise. *)
Lemma held_live id n v x :
  rtc gstep (mkView (mkGate id ∅ ∅ ∅ n) ∅ ∅) v ->
  (forall u, live v x u -> held (v_gate v) x = {[key_ u]}) /\ size (held (v_gate v) x) = if decide (x ∈ v_in v ∖ v_gone v) then 1%nat else 0%nat.
Proof.
  intros Hrun. apply gate_steps_inv in Hrun as Hi; [|apply gate_inv_start].
  assert (forall u, live v x u -> held (v_gate v) x = {[key_ u]}) as Hone.
  { intros u Hl. apply set_eq. intros k. rewrite elem_of_held, elem_of_singleton, (gi_channels v Hi). split.
    - intros (u' & (_ & _ & E') & <-). destruct Hl as (_ & _ & E). congruence.
    - intros ->. by exists u. }
  split; [done|]. case_decide as Hx.
  - apply elem_of_difference in Hx as [Ha Hd]. pose proof (gi_users v Hi _ Ha) as [u Eu]%elem_of_dom.
    rewrite (Hone u) by done. apply size_singleton.
  - replace (held (v_gate v) x) with (∅ : gset bytes); [apply size_empty|]. apply set_eq. intros k.
    rewrite elem_of_held, (gi_channels v Hi). split; [set_solver|].
    intros (u & (? & ? & _) & _). set_solver.
Qed.

(** The bytes of a Broadcast request make every session receive the frame once
    for each key it is registered under, and nothing else. *)
Theorem gate_broadcast_reaches_all conn ch req id b p :
  serves_gate conn ch -> msg_ok ParseMap (MBroadcastReq req) ->
  Services.fits_frame (MBroadcastReq req) -> 0 <= id < 2 ^ 63 ->
  body_fits (frame_of (BroadcastReq.proto req)) ->
  (forall k, channels_ (core p) !! k <> Some conn) ->
  represents b (RpcChannel.request_bytes id (str "gate.Gate") (str "Broadcast") (MBroadcastReq req)) ->
  exists b' p', onRpcData ParseMap conn b (ch, p) = Ok (b', (ch, p')) /\ represents b' [] /\
    delivered conn
      (fun x => copies (size (held (core p) x)) (ClientCodec.encode (frame_of (BroadcastReq.proto req))))
      (RpcChannel.reply_bytes id (str "gate.Gate") (str "Broadcast")
         (MBroadcastReply BroadcastReply.Clear)) p p'.
Proof.
  intros Hs Hok Hfit Hid Hf Hconn HR.
  destruct (gate_rpc conn ch 3 (str "Broadcast") (MBroadcastReq req)
    (MBroadcastReply BroadcastReply.Clear) (map_to_list (channels_ (core p))).*2
    (frame_of (BroadcastReq.proto req)) id b p) as (b' & p' & E & HR' & Hd); try done.
  - intros ([k s] & -> & Hk%elem_of_map_to_list)%list_elem_of_fmap. by apply (Hconn k).
  - intros done. simpl. unfold Broadcast. by rewrite broadcast_all.
  - exists b', p'. split; [done|]. split; [done|]. eapply delivered_ext; [|exact Hd].
    intros x. apply share_channels.
Qed.
End rpc.

(** ** Authentication *)
Section auth.
Context `{WireLaws} `{Services.DescriptorLaws} (ParseMap : msg_type -> bytes -> bool).
Context {S N : Type} `{Countable S} `{SessionLaws S N} (session_id : S -> Z).
#[local] Instance auth_message : Message msg := Wire.message ParseMap.
#[local] Instance auth_message_laws : MessageLaws msg := Wire.message_laws ParseMap.

#[local] Instance auth_ops : SessionOps S (Process S N) := process_session_ops ParseMap session_id.

(** The RPC client is connected to the logic server over [lg]. *)
Definition connected (lg : S) (p : Process S N) : Prop :=
  RpcChannel.chan_inv (rpcclient_ p) /\ RpcChannel.id_ (rpcclient_ p) < 2 ^ 63 - 1 /\
  RpcChannel.conn_ (rpcclient_ p) = Some lg.

Lemma logic_call lg p i name req t d :
  connected lg p -> logic_methods !! i = Some name -> msg_ok ParseMap req -> Services.fits_frame req ->
  let ch := rpcclient_ p in
  exists n, Logic.stub_call i req t d ch (core p) =
      Ok (RpcChannel.mkChannel (Some lg) (RpcChannel.id_ ch + 1)
            (<[RpcChannel.id_ ch := RpcChannel.mkOut t d]> (RpcChannel.outstandings_ ch))
            (RpcChannel.services_ ch), set_net n (core p)) /\
    RpcChannel.outstandings_ ch !! RpcChannel.id_ ch = None /\
    sent n lg = sent (core p) lg ++
      RpcChannel.request_bytes (RpcChannel.id_ ch) (str "logic.Logic") name req /\
    forall x, x <> lg -> sent n x = sent (core p) x.
Proof.
  intros (Hinv & Hlt & Hc) Hn Hok Hfit ch.
  pose (svc := Services.SLogic (@Logic.base (GateServer S N))).
  destruct (Services.method_name_ok svc i name Hn) as [_ Hlen].
  destruct (Services.call_sends ParseMap ch lg svc i name req t d (core p))
    as (Hfresh & g' & E & Hsend & Hs); try done.
  destruct (rpc_send_net ParseMap _ _ _ _ _ _ Hsend) as [n ->].
  exists n. split; [unfold Logic.stub_call; rewrite Hn; exact E|]. split; [done|]. split; [exact Hs|].
  intros x Hx. unfold Services.fits_frame, RpcCodec.kMaxMessageLen in *. cbn [Services.full_name svc] in Hlen.
  destruct (RpcCodec.send_encodes (RpcChannel.id_ ch)
    (RpcCodec.full_name (str "logic.Logic") name) lg req (core p))
    as (w' & E' & _ & Ho); [done|unfold RpcCodec.full_name; simpl; zlia|].
  assert (Ok w' = Ok (set_net n (core p))) as [= ->] by (rewrite <- E'; exact Hsend).
  by apply Ho.
Qed.

Lemma in_room_insert (m : gmap bytes (gset S)) r (s : S) (X : gset S) :
  s ∈ default ∅ (<[r := {[s]} ∪ X]> m !! r).
Proof. rewrite lookup_insert_eq. simpl. set_solver. Qed.

(** The request the gate makes of a token. *)
Definition connect_request (server token : bytes) : ConnectReq.ConnectReq := ConnectReq.mk server [] token.

(** A client frame with operation 7 makes the gate call Logic.Connect; the
    reply registers the session under its key and room, and the client is told
    so. *)
Theorem gate_authenticates p lg session u seq token b :
  connected lg p -> users (core p) !! session = Some u -> session <> lg ->
  ClientCodec.frame_ok (ClientCodec.mkFrame 7 seq token) ->
  msg_ok ParseMap (MConnectReq (connect_request (serverid_ (core p)) token)) ->
  Services.fits_frame (MConnectReq (connect_request (serverid_ (core p)) token)) ->
  represents b (ClientCodec.encode (ClientCodec.mkFrame 7 seq token)) ->
  exists b' p1, onClientData ParseMap session_id session b p = Ok (b', p1) /\ represents b' [] /\
    sent (core p1) lg = sent (core p) lg ++
      RpcChannel.request_bytes (RpcChannel.id_ (rpcclient_ p)) (str "logic.Logic") (str "Connect")
        (MConnectReq (connect_request (serverid_ (core p)) token)) /\
    (forall x, x <> lg -> sent (core p1) x = sent (core p) x) /\
    channels_ (core p1) = channels_ (core p) /\
    forall reply b2, msg_ok ParseMap (MConnectReply reply) -> Services.fits_frame (MConnectReply reply) ->
      channels_ (core p) !! ConnectReply.key_ reply = None ->
      represents b2 (RpcChannel.reply_bytes (RpcChannel.id_ (rpcclient_ p)) (str "logic.Logic")
        (str "Connect") (MConnectReply reply)) ->
      exists b2' p2, onLogicData ParseMap lg b2 p1 = Ok (b2', p2) /\ represents b2' [] /\
        channels_ (core p2) = <[ConnectReply.key_ reply := session]> (channels_ (core p)) /\
        session ∈ default ∅ (rooms_ (core p2) !! ConnectReply.roomid_ reply) /\
        users (core p2) !! session =
          Some (UserSession.mk (ConnectReply.key_ reply) (s32 (ConnectReply.mid_ reply))
                  (ConnectReply.roomid_ reply)) /\
        sent (core p2) session = sent (core p) session ++
          ClientCodec.encode (ClientCodec.mkFrame 8 0 (str "success")) /\
        RpcChannel.outstandings_ (rpcclient_ p2) = RpcChannel.outstandings_ (rpcclient_ p).
Proof.
  intros Hcon Hu Hne Hf Hok Hfit HR. pose proof Hcon as (Hinv & Hlt & Hc).
  destruct (logic_call lg p 2 (str "Connect") _ (Some TConnectReply) (Some (HandleConnectCb session))
    Hcon eq_refl Hok Hfit) as (n & E & Hfresh & Hs & Ho).
  set (p1 := mkProcess (tcpserver_ p) (RpcChannel.mkChannel (Some lg)
    (RpcChannel.id_ (rpcclient_ p) + 1) (<[RpcChannel.id_ (rpcclient_ p) :=
       RpcChannel.mkOut (Some TConnectReply) (Some (HandleConnectCb session))]>
       (RpcChannel.outstandings_ (rpcclient_ p))) (RpcChannel.services_ (rpcclient_ p)))
    (set_net n (core p))).
  destruct (ClientCodec.client_onMessage_frame (onClientMessageCallback ParseMap session_id)
    session b _ p p1 HR Hf) as (b' & E1 & HR1).
  { unfold onClientMessageCallback, get_user. simpl. rewrite Hu. mstep.
    exact (f_equal (fun x => bind x (fun '(ch, g) => Ok (mkProcess (tcpserver_ p) ch g))) E). }
  exists b', p1. do 3 (split; [done|]). split; [exact Ho|]. split; [done|].
  intros reply b2 Hr Fr Hk HR2.
  set (g2 := mkGate (serverid_ (core p)) (<[ConnectReply.key_ reply := session]> (channels_ (core p)))
       (<[ConnectReply.roomid_ reply :=
          {[session]} ∪ default ∅ (rooms_ (core p) !! ConnectReply.roomid_ reply)]> (rooms_ (core p)))
       (<[session := UserSession.mk (ConnectReply.key_ reply) (s32 (ConnectReply.mid_ reply))
          (ConnectReply.roomid_ reply)]> (users (core p))) n).
  destruct (send_frame_spec (ClientCodec.mkFrame 8 0 (str "success")) session g2)
    as (n2 & E2 & Hs2 & _); [done|].
  destruct (Services.reply_completes ParseMap Run (rpcclient_ p1) lg
    (Services.SLogic Logic.base) 2 (str "Connect") (RpcChannel.id_ (rpcclient_ p)) (MConnectReply reply)
    (HandleConnectCb session) b2 (core p1) (set_net n2 g2)) as (b2' & E3 & HR3);
    [done|apply lookup_insert_eq|done|apply Hinv|done|done| |done|].
  { cbn [Run]. unfold HandleConnect, get_user. cbn [core p1 users set_net]. rewrite Hu. mstep.
    cbv zeta. cbn [channels_ set_net]. rewrite Hk. exact E2. }
  eexists b2', _. unfold onLogicData, channel in *. rewrite E3. split; [reflexivity|]. split; [done|]. simpl.
  split; [done|]. split; [apply in_room_insert|].
  split; [by rewrite lookup_insert_eq|]. split.
  - simpl in Hs2. rewrite Hs2. f_equal. by apply Ho.
  - by rewrite delete_insert_id.
Qed.
End auth.

(** ** What the handlers do not guard against *)
Section unguarded.
Context `{WireLaws} `{Services.DescriptorLaws} (ParseMap : msg_type -> bytes -> bool).
Context {S N : Type} `{Countable S} `{SessionLaws S N}.
#[local] Instance unguarded_message : Message msg := Wire.message ParseMap.

(** A session that authenticates a second time under another key keeps
    its first entry in channels_ after it has disconnected. *)
Theorem gate_second_auth_leaks s r1 r2 (g0 g1 g2 g3 : GateServer S N) ch ch' :
  channels_ g0 !! ConnectReply.key_ r1 = None -> ConnectReply.key_ r1 <> ConnectReply.key_ r2 ->
  HandleConnect r1 s g0 = Ok g1 -> HandleConnect r2 s g1 = Ok g2 ->
  HandleDisconnect ParseMap s (ch, g2) = Ok (ch', g3) ->
  channels_ g3 !! ConnectReply.key_ r1 = Some s.
Proof.
  intros Hk Hne (u1 & n1 & _ & ->)%HandleConnect_Ok. rewrite Hk.
  intros (u2 & n2 & _ & ->)%HandleConnect_Ok. intros (u3 & n3 & Hu & ->)%HandleDisconnect_Ok.
  cbn [channels_ users] in *. rewrite lookup_insert_eq in Hu. injection Hu as <-. cbn [key_].
  rewrite lookup_delete_ne by done. rewrite (lookup_insert_ne _ _ (ConnectReply.key_ r2)) by done.
  destruct (channels_ g0 !! ConnectReply.key_ r2).
  - by rewrite lookup_insert_eq.
  - rewrite lookup_insert_ne by done. by rewrite lookup_insert_eq.
Qed.

(** A request for Ping, Close or Rooms runs the inherited method, which
    dereferences the NULL controller. *)
Theorem gate_unimplemented_rpc_crashes conn (ch : channel S N) i name req id b p :
  serves_gate conn ch -> (i = 0 \/ i = 1 \/ i = 5)%nat -> gate_methods !! i = Some name ->
  Gate.GetRequestPrototype (Z.of_nat i) = Ok (type_of req) ->
  msg_ok ParseMap req -> Services.fits_frame req -> 0 <= id < 2 ^ 63 ->
  represents b (RpcChannel.request_bytes id (str "gate.Gate") name req) ->
  onRpcData ParseMap conn b (ch, p) = Err UB.
Proof.
  intros (Hc & services & Hsv & Hs) Hi Hn Ht Hq Fq Hid HR.
  pose proof (Services.service_fails ParseMap Run ch conn services
    (Services.SGate GateServiceImpl) i name req id b (core p) UB
    Hc Hsv Hs Hn Ht Hq Fq Hid) as Hfail.
  unfold onRpcData, channel in *. rewrite Hfail; [done| |done].
  intros k. destruct Hi as [->|[->| ->]], req; try discriminate Ht; reflexivity.
Qed.
End unguarded.

(** ** A small gate: sessions are numbers, 100 is an RPC session, 99 the
       session to the logic server. *)
Module Demo.
Import Leb128.
#[export] Instance descriptors : Services.Descriptors := Services.c_lookup.
#[export] Instance descriptor_laws : Services.DescriptorLaws := Services.c_lookup_laws.
Definition no_map (t : msg_type) (d : bytes) : bool := false.
#[export] Instance demo_message : Message msg := Wire.message no_map.

Definition gate : Type := GateServer nat Log.net.
Definition g0 : gate := mkGate (str "gate-1") ∅ ∅ ∅ Log.empty.
Definition reply1 : ConnectReply.ConnectReply := ConnectReply.mk 7 (str "k1") (str "live://1") [] 0.
Definition reply2 : ConnectReply.ConnectReply := ConnectReply.mk 7 (str "k2") (str "live://1") [] 0.
Definition ok_or {A} (d : A) (x : res A) : A := match x with Ok a => a | Err _ => d end.

Definition is_ok {A} (x : res A) : bool := match x with Ok _ => true | Err _ => false end.

(** Session 1 has connected; then it authenticates under [k1]. *)
Definition g1 : gate := set_user 1%nat (UserSession_new 0) g0.
Definition g2 : gate := ok_or g1 (HandleConnect reply1 1%nat g1).
Definition rpc_ch : channel nat Log.net :=
  RpcChannel.setServices {[ str "gate.Gate" := Services.SGate GateServiceImpl ]}
    (RpcChannel.RpcChannel_new (Some 100%nat)).
Definition logic_ch : channel nat Log.net := RpcChannel.RpcChannel_new (Some 99%nat).
Definition tcp : TcpServer.TcpServer nat := TcpServer.mkTcp (LoopMgr.LoopMgr_new 1) ∅ 2.
Definition proc (g : gate) : Process nat Log.net := mkProcess tcp logic_ch g.

Lemma rpc_ch_serves : serves_gate 100%nat rpc_ch.
Proof. split; [done|]. eexists. split; [done|]. apply lookup_singleton_eq. Defined.

Lemma demo_connect : HandleConnect reply1 1%nat g1 = Ok g2.
Proof. vm_compute. reflexivity. Qed.
Lemma demo_maps : channels_ g2 = {[ str "k1" := 1%nat ]} /\ rooms_ g2 = {[ str "live://1" := {[1%nat]} ]}.
Proof.
  destruct (HandleConnect_Ok _ _ _ _ demo_connect) as (u & n & _ & E). rewrite E.
  split; [reflexivity|]. cbn [rooms_ ConnectReply.roomid_ reply1]. unfold g1, set_user, g0. cbn [rooms_].
  rewrite lookup_empty, insert_empty. simpl. by rewrite (right_id_L ∅ (∪)).
Qed.
Lemma demo_run : rtc (gstep no_map) (mkView g0 ∅ ∅) (mkView g2 {[1%nat]} ∅).
Proof.
  eapply rtc_l; [apply (gstep_new _ 1%nat 0); set_solver|].
  eapply rtc_l; [apply (gstep_connect _ reply1 1%nat g1 g2 ∅ ∅);
    [set_solver|set_solver|done|reflexivity|exact demo_connect]|].
  rewrite (right_id_L ∅ (∪)). apply rtc_refl.
Qed.

Definition text : Proto.Proto := Proto.mk 0 9 1 (str "hello").
Definition push_req : PushMsgReq.PushMsgReq := PushMsgReq.mk [str "k1"; str "k3"] (Some text) 9.
Definition room_req : BroadcastRoomReq.BroadcastRoomReq := BroadcastRoomReq.mk (str "live://1") (Some text).
Definition all_req : BroadcastReq.BroadcastReq := BroadcastReq.mk 9 (Some text) 0.
Lemma text_ok : Proto.ok text.
Proof.
  unfold Proto.ok, int32_range, bytes_ok. cbn [text Proto.ver_ Proto.op_ Proto.seq_ Proto.body_].
  change (zlen (str "hello")) with 5. lia.
Qed.
Definition text_frame : bytes := ClientCodec.encode (frame_of text).
End Demo.
Import Demo Leb128.

Lemma push_req_ok : msg_ok no_map (MPushMsgReq push_req).
Proof.
  split; [|split; [split; [exact text_ok|reflexivity]|unfold int32_range; simpl; lia]].
  apply Forall_cons. split; [by split|]. apply Forall_singleton. by split.
Qed.
Lemma room_req_ok : msg_ok no_map (MBroadcastRoomReq room_req).
Proof. split; [by split|split; [exact text_ok|reflexivity]]. Qed.
Lemma all_req_ok : msg_ok no_map (MBroadcastReq all_req).
Proof.
  split; [unfold int32_range; simpl; lia|].
  split; [split; [exact text_ok|reflexivity]|unfold int32_range; simpl; lia].
Qed.
Lemma demo_buffer c : (zlen c <? 1000) = true -> represents (buffer_of c) c.
Proof. intros H%Z.ltb_lt. apply buffer_of_represents. lia. Qed.
Lemma demo_channels k : channels_ (core (proc g2)) !! k <> Some 100%nat.
Proof.
  cbn [core proc]. rewrite (proj1 demo_maps). by intros [_ ?]%lookup_singleton_Some.
Qed.

Lemma gate_push_delivers_witness :
  exists b' p', onRpcData no_map 100%nat
      (buffer_of (RpcChannel.request_bytes 5 (str "gate.Gate") (str "PushMsg") (MPushMsgReq push_req)))
      (rpc_ch, proc g2) = Ok (b', (rpc_ch, p')) /\
    sent (core p') 1%nat = sent g2 1%nat ++ text_frame.
Proof.
  destruct (gate_push_delivers no_map 100%nat rpc_ch push_req 5
    (buffer_of (RpcChannel.request_bytes 5 (str "gate.Gate") (str "PushMsg") (MPushMsgReq push_req)))
    (proc g2)) as (b' & p' & E & _ & _ & _ & _ & _ & Hd);
    [exact rpc_ch_serves|exact push_req_ok|vm_compute; discriminate|lia|vm_compute; reflexivity
    |exact demo_channels|apply demo_buffer; vm_compute; reflexivity|].
  exists b', p'. split; [exact E|]. exact (Hd 1%nat ltac:(done)).
Defined.

Lemma gate_room_broadcast_witness :
  exists b' p', onRpcData no_map 100%nat
      (buffer_of (RpcChannel.request_bytes 5 (str "gate.Gate") (str "BroadcastRoom")
         (MBroadcastRoomReq room_req)))
      (rpc_ch, proc g2) = Ok (b', (rpc_ch, p')) /\
    sent (core p') 1%nat = sent g2 1%nat ++ text_frame.
Proof.
  destruct (gate_room_broadcast no_map 100%nat rpc_ch room_req 5
    (buffer_of (RpcChannel.request_bytes 5 (str "gate.Gate") (str "BroadcastRoom")
       (MBroadcastRoomReq room_req)))
    (proc g2)) as (b' & p' & E & _ & _ & _ & _ & _ & Hd);
    [exact rpc_ch_serves|exact room_req_ok|vm_compute; discriminate|lia|vm_compute; reflexivity
    | |apply demo_buffer; vm_compute; reflexivity|].
  - cbn [core proc room_req BroadcastRoomReq.roomid_]. rewrite (proj2 demo_maps), lookup_singleton_eq.
    simpl. set_solver.
  - exists b', p'. split; [exact E|]. rewrite (Hd 1%nat) by done.
    cbn [core proc room_req BroadcastRoomReq.roomid_]. rewrite (proj2 demo_maps), lookup_singleton_eq.
    rewrite decide_True by (simpl; set_solver). reflexivity.
Defined.

Lemma gate_broadcast_reaches_all_witness :
  exists b' p', onRpcData no_map 100%nat
      (buffer_of (RpcChannel.request_bytes 5 (str "gate.Gate") (str "Broadcast") (MBroadcastReq all_req)))
      (rpc_ch, proc g2) = Ok (b', (rpc_ch, p')) /\
    sent (core p') 1%nat = sent g2 1%nat ++ text_frame.
Proof.
  destruct (gate_broadcast_reaches_all no_map 100%nat rpc_ch all_req 5
    (buffer_of (RpcChannel.request_bytes 5 (str "gate.Gate") (str "Broadcast") (MBroadcastReq all_req)))
    (proc g2)) as (b' & p' & E & _ & _ & _ & _ & _ & Hd);
    [exact rpc_ch_serves|exact all_req_ok|vm_compute; discriminate|lia|vm_compute; reflexivity
    |exact demo_channels|apply demo_buffer; vm_compute; reflexivity|].
  exists b', p'. split; [exact E|]. rewrite (Hd 1%nat) by done. cbn [core proc].
  pose proof (proj2 (held_live no_map _ _ _ 1%nat demo_run)) as Hone. cbn [v_gate] in Hone. rewrite Hone.
  rewrite decide_True by (simpl; set_solver). reflexivity.
Defined.

Lemma gate_tracks_live_sessions_witness :
  channels_ g2 !! str "k1" = Some 1%nat /\
  exists u, live (mkView g2 {[1%nat]} ∅) 1%nat u /\ key_ u = str "k1".
Proof.
  assert (channels_ g2 !! str "k1" = Some 1%nat) as E
    by (rewrite (proj1 demo_maps); apply lookup_singleton_eq).
  split; [exact E|].
  destruct (gate_tracks_live_sessions no_map (str "gate-1") Log.empty _ demo_run) as [Hc _].
  by apply Hc.
Defined.

Lemma gate_authenticates_witness :
  exists b' p1, onClientData no_map Z.of_nat 1%nat
      (buffer_of (ClientCodec.encode (ClientCodec.mkFrame 7 0 (str "token")))) (proc g1) = Ok (b', p1) /\
    sent (core p1) 99%nat =
      RpcChannel.request_bytes 0 (str "logic.Logic") (str "Connect")
        (MConnectReq (connect_request (str "gate-1") (str "token"))).
Proof.
  destruct (gate_authenticates no_map Z.of_nat (proc g1) 99%nat 1%nat (UserSession_new 0) 0 (str "token")
    (buffer_of (ClientCodec.encode (ClientCodec.mkFrame 7 0 (str "token")))))
    as (b' & p1 & E & _ & Hs & _);
    [ |apply lookup_insert_eq|done| | |vm_compute; discriminate
    |apply demo_buffer; vm_compute; reflexivity|].
  - split; [apply RpcChannel.chan_inv_new|]. split; [simpl; lia|reflexivity].
  - unfold ClientCodec.frame_ok. cbn [ClientCodec.f_op ClientCodec.f_id ClientCodec.f_body].
    change (zlen (str "token")) with 5. lia.
  - split; [by split|]. split; [by split|reflexivity].
  - exists b', p1. split; [exact E|exact Hs].
Defined.

(** Session 1 authenticates again and then goes. *)
Definition g3 : gate := ok_or g2 (HandleConnect reply2 1%nat g2).
Lemma gate_second_auth_leaks_witness :
  exists ch' g4, HandleDisconnect no_map 1%nat (logic_ch, g3) = Ok (ch', g4) /\
    channels_ g4 !! str "k1" = Some 1%nat.
Proof.
  assert (is_ok (HandleDisconnect no_map 1%nat (logic_ch, g3)) = true) as Hok by (vm_compute; reflexivity).
  destruct (HandleDisconnect no_map 1%nat (logic_ch, g3)) as [[ch' g4]|e] eqn:E; [|discriminate Hok].
  exists ch', g4. split; [reflexivity|].
  apply (gate_second_auth_leaks no_map 1%nat reply1 reply2 g1 g2 g3 g4 logic_ch ch');
    [reflexivity|vm_compute; discriminate|exact demo_connect|vm_compute; reflexivity|exact E].
Defined.

Lemma gate_unimplemented_rpc_crashes_witness :
  onRpcData no_map 100%nat
    (buffer_of (RpcChannel.request_bytes 5 (str "gate.Gate") (str "Ping") (MEmpty Empty.Clear)))
    (rpc_ch, proc g2) = Err UB.
Proof.
  apply (gate_unimplemented_rpc_crashes no_map 100%nat rpc_ch 0 (str "Ping") (MEmpty Empty.Clear) 5);
    [exact rpc_ch_serves|by left|reflexivity|reflexivity|exact I|vm_compute; discriminate|lia
    |apply demo_buffer; vm_compute; reflexivity].
Defined.
End GateServer.
