(* ===== verification/Redis.v ===== *)
(** * The Redis client: src/redis/RedisClient.h, src/redis/RedisClient.cc

    A synchronous client on top of hiredis.  The calls of the library are the
    parameters of [Hiredis]: a context is a number, a reply is [None] for a
    null pointer.  [mutex_] is part of the state: locking it while it is
    locked never returns. *)

From Stdlib Require Import ZArith Lia.
From stdpp Require Import base list gmap strings.
From S2P Require Import Prelude Endian Buffer Text.
Local Open Scope Z_scope.

(** [redisReply], by its [type]. *)
Inductive redisReply :=
  | ReplyString (s : bytes)
  | ReplyArray (element : list redisReply)
  | ReplyInteger (integer : Z)
  | ReplyNil
  | ReplyStatus (s : bytes)
  | ReplyError (s : bytes).

(** What a function sees of a string given as [c_str()]. *)
Definition c_str (s : bytes) : bytes := ztake (strlen s) s.

(** The arguments of a format. *)
Inductive fmt_arg := ArgS (s : bytes) | ArgD (d : Z).

Class Hiredis (W : Type) := {
  redisConnectWithTimeout : bytes -> Z -> W -> option nat * W;
  redis_err : nat -> W -> bool;      (** [context_->err] *)
  redisFree : nat -> W -> W;
  redisCommand : nat -> bytes -> list fmt_arg -> W -> option redisReply * W;
  redisCommandArgv : nat -> list bytes -> W -> option redisReply * W;
  (** A conversion in the format: it reads an argument. *)
  fmt_reads_args : bytes -> bool;
  redisAppendCommand : nat -> bytes -> W -> W;
  (** [None]: REDIS_ERR, and the reply pointer is not written. *)
  redisGetReply : nat -> W -> option (option redisReply) * W;
}.

Definition lower (b : byte) : byte :=
  let z := byte_to_Z b in if (65 <=? z) && (z <=? 90) then byte_of_Z (z + 32) else b.
Definition strcaseeq (a b : bytes) : bool := bool_decide (map lower a = map lower b).

(** A byte that is in no field is not in the joined text. *)
Lemma not_in_join b c (l : list bytes) : b <> c -> Forall (fun f => b ∉ f) l -> b ∉ join c l.
Proof.
  intros Hb HF. induction HF as [|f l Hf Hl IH]; [set_solver|]. destruct l as [|g l]; [done|].
  change (join c (f :: g :: l)) with (f ++ (c :: join c (g :: l))).
  rewrite elem_of_app, elem_of_cons. naive_solver.
Qed.

(** [split] at blanks gives the words back. *)
Lemma split_words c l :
  l <> [] -> Forall (fun f => f <> [] /\ c ∉ f) l -> split (join c l) [c] = l.
Proof.
  intros Hn HF. rewrite split_fields. rewrite decide_False.
  - apply fields_join; [done|]. eapply Forall_impl; [done|]. by intros f [_ ?].
  - destruct HF as [|f l [Hf _] _]; [done|]. destruct f; [done|]. by destruct l.
Qed.

Module RedisClient.

Record RedisClient := mkClient {
  mutex_ : bool;
  context_ : option nat;
  ip_ : bytes;
  port_ : Z;
  passwd_ : bytes;
  db_ : Z;
}.

Definition RedisClient_new (ip : bytes) (port : Z) (passwd : bytes) (db : Z) : RedisClient :=
  mkClient false None ip port passwd db.

Section client.
Context {W : Type} `{Hiredis W}.
Implicit Types (c : RedisClient) (w : W).

Definition set_context (x : option nat) c : RedisClient :=
  mkClient (mutex_ c) x (ip_ c) (port_ c) (passwd_ c) (db_ c).
Definition set_mutex (x : bool) c : RedisClient :=
  mkClient x (context_ c) (ip_ c) (port_ c) (passwd_ c) (db_ c).

(** [mutex_.lock()] *)
Definition lock c : res RedisClient :=
  if mutex_ c then Err Deadlock else Ok (set_mutex true c).
Definition unlock c : RedisClient := set_mutex false c.

Definition Reset c w : RedisClient * W :=
  match context_ c with
  | Some x => (set_context None c, redisFree x w)
  | None => (c, w)
  end.

(** The destructor. *)
Definition RedisClient_delete c w : W :=
  match context_ c with Some x => redisFree x w | None => w end.

(** The three commands after a connect run on a live context. *)
Definition command (fmt : bytes) (args : list fmt_arg) c w : res (option redisReply * W) :=
  match context_ c with
  | Some x => Ok (redisCommand x fmt args w)
  | None => Err UB
  end.

Definition Auth c w : res (bool * W) :=
  if bool_decide (passwd_ c = []) then Ok (true, w) else
  let* (reply, w) := command (str "AUTH %s") [ArgS (passwd_ c)] c w in
  match reply with
  | None => Ok (false, w)
  | Some (ReplyStatus s) => Ok (strcaseeq s (str "OK"), w)
  | Some _ => Ok (false, w)
  end.

Definition Ping c w : res (bool * W) :=
  let* (reply, w) := command (str "PING") [] c w in
  match reply with
  | None => Ok (false, w)
  | Some _ => Ok (true, w)
  end.

Definition Select c w : res (bool * W) :=
  let* (reply, w) := command (str "SELECT %d") [ArgD (db_ c)] c w in
  match reply with
  | None => Ok (false, w)
  | Some _ => Ok (true, w)
  end.

Definition Connect c w : res (bool * RedisClient * W) :=
  let '(x, w) := redisConnectWithTimeout (ip_ c) (port_ c) w in
  let c := set_context x c in
  if (match x with None => true | Some x => redis_err x w end) then
    let '(c, w) := Reset c w in Ok (false, c, w)
  else
    let* (ok, w) := Auth c w in
    if negb ok then Ok (false, c, w) else
    let* (ok, w) := Ping c w in
    if negb ok then Ok (false, c, w) else
    let* (ok, w) := Select c w in
    Ok (ok, c, w).

(** The loop of [Active]; [n] attempts are left before it gives up. *)
Fixpoint connect_loop (n : nat) c w : res (bool * RedisClient * W) :=
  match context_ c with
  | Some _ => Ok (true, c, w)
  | None =>
      let* (r, w) := Connect c w in
      let '(_, c) := r in
      match n with
      | O => Ok (false, c, w)        (** [++count > 3] *)
      | S n => connect_loop n c w
      end
  end.

Definition Active c w : res (bool * RedisClient * W) :=
  match context_ c with
  | Some x => if negb (redis_err x w) then Ok (true, c, w)
              else let '(c, w) := Reset c w in connect_loop 3 c w
  | None => let '(c, w) := Reset c w in connect_loop 3 c w
  end.

(** [Execute] in its two forms; [None] is a null pointer, from either return.
    The command is the format: a conversion in it reads an argument that was
    not passed. *)
Definition Execute_fmt (cmd : bytes) c w : res (option redisReply * RedisClient * W) :=
  let* c := lock c in
  let* (r, w) := Active c w in
  let '(active, c) := r in
  if negb active then Ok (None, c, w) else
  if fmt_reads_args (c_str cmd) then Err UB else
  let* (reply, w) := command (c_str cmd) [] c w in
  Ok (reply, unlock c, w).

Definition Execute (cmd : list bytes) c w : res (option redisReply * RedisClient * W) :=
  let* c := lock c in
  let* (r, w) := Active c w in
  let '(active, c) := r in
  if negb active then Ok (None, c, w) else
  match context_ c with
  | Some x => let '(reply, w) := redisCommandArgv x cmd w in Ok (reply, unlock c, w)
  | None => Err UB
  end.

(** The local [reply] of [PipeLine]: not written, null, or freed. *)
Inductive reply_ptr := Indeterminate | Null | Freed.

Fixpoint read_replies (n : nat) (x : nat) (reply : reply_ptr) w : res W :=
  match n with
  | O => Ok w
  | S n =>
      let '(r, w) := redisGetReply x w in
      match r with
      | Some (Some _) => read_replies n x Freed w       (** logged, then freed *)
      | Some None => read_replies n x Null w
      | None =>
          match reply with
          | Null => read_replies n x Null w
          | _ => Err UB
          end
      end
  end.

Definition append_command (x : nat) (it : bytes) w : res W :=
  if fmt_reads_args (c_str it) then Err UB else Ok (redisAppendCommand x (c_str it) w).

Definition PipeLine (cmd : list bytes) c w : res (RedisClient * W) :=
  let* c := lock c in
  match context_ c, cmd with
  | _, [] => Ok (unlock c, w)
  | Some x, _ =>
      let* w := foldM (append_command x) cmd w in
      let* w := read_replies (length cmd) x Indeterminate w in
      Ok (unlock c, w)
  | None, _ => Err UB
  end.

(** What [MGet] makes of an element. *)
Definition mget_elem (r : redisReply) : option bytes :=
  match r with
  | ReplyString s => Some s
  | ReplyInteger z => Some (to_string z)
  | _ => None
  end.

Definition MGet (cmd : list bytes) c w : res (list bytes * RedisClient * W) :=
  let* (r, w) := Execute (str "MGET" :: cmd) c w in
  let '(reply, c) := r in
  match reply with
  | Some (ReplyArray element) => Ok (omap mget_elem element, c, w)
  | _ => Ok ([], c, w)
  end.

(** The loop of [HGetAll]: a key or value of another type keeps the previous
    one; an odd number of elements reads past the end. *)
Fixpoint hgetall_loop (element : list redisReply) (key value : bytes) (hmap : gmap bytes bytes)
    : res (gmap bytes bytes) :=
  match element with
  | [] => Ok hmap
  | [_] => Err UB
  | rk :: rv :: element =>
      let key := match rk with ReplyString s => s | _ => key end in
      let value := match rv with
                   | ReplyString s => s
                   | ReplyInteger z => to_string z
                   | _ => value
                   end in
      hgetall_loop element key value
        (match hmap !! key with Some _ => hmap | None => <[key := value]> hmap end)
  end.

Definition HGetAll (cmd : bytes) c w : res (gmap bytes bytes * RedisClient * W) :=
  let* (r, w) := Execute [str "HGETALL"; cmd] c w in
  let '(reply, c) := r in
  match reply with
  | Some (ReplyArray element) =>
      let* hmap := hgetall_loop element [] [] ∅ in Ok (hmap, c, w)
  | _ => Ok (∅, c, w)
  end.

(** ** Connecting *)

(** What a step may change of the client. *)
Definition same_settings c c' : Prop :=
  mutex_ c' = mutex_ c /\ ip_ c' = ip_ c /\ port_ c' = port_ c /\ passwd_ c' = passwd_ c /\ db_ c' = db_ c.

Lemma same_settings_trans c1 c2 c3 : same_settings c1 c2 -> same_settings c2 c3 -> same_settings c1 c3.
Proof. unfold same_settings. intuition congruence. Qed.

Lemma Connect_total c w : exists ok c' w', Connect c w = Ok (ok, c', w') /\ same_settings c c'.
Proof.
  unfold Connect, Auth, Ping, Select, Reset, command.
  destruct (redisConnectWithTimeout (ip_ c) (port_ c) w) as [[x|] w1]; simpl; [|by repeat eexists].
  destruct (redis_err x w1); simpl; [by repeat eexists|].
  repeat match goal with
  | |- context [bool_decide ?P] => destruct (bool_decide P); simpl
  | |- context [redisCommand ?a ?b ?d ?e] => destruct (redisCommand a b d e) as [[[]|] ?]; simpl
  | |- context [strcaseeq ?a ?b] => destruct (strcaseeq a b); simpl
  end; by repeat eexists.
Qed.

Lemma connect_loop_total n c w :
  exists ok c' w', connect_loop n c w = Ok (ok, c', w') /\ same_settings c c' /\
    (ok = true -> context_ c' <> None).
Proof.
  revert c w. induction n as [|n IH]; intros c w; cbn [connect_loop];
    (destruct (context_ c) as [x|] eqn:Ex;
     [exists true, c, w; repeat split; congruence|]);
    destruct (Connect_total c w) as (ok & c1 & w1 & -> & Hs); mstep.
  - by exists false, c1, w1.
  - destruct (IH c1 w1) as (ok' & c2 & w2 & -> & Hs2 & Hx). exists ok', c2, w2.
    repeat split; [| | | | |done]; by apply (same_settings_trans c c1 c2).
Qed.

Lemma Active_total c w :
  exists ok c' w', Active c w = Ok (ok, c', w') /\ same_settings c c' /\
    (ok = true -> context_ c' <> None).
Proof.
  unfold Active, Reset. destruct (context_ c) as [x|] eqn:Ex; [|apply connect_loop_total].
  destruct (redis_err x w); simpl; [apply (connect_loop_total 3 (set_context None c))|].
  exists true, c, w. repeat split; congruence.
Qed.

(** A connection that works. *)
Definition healthy (x : nat) c w : Prop :=
  mutex_ c = false /\ context_ c = Some x /\ redis_err x w = false.

Lemma Execute_healthy x cmd c w :
  healthy x c w -> Execute cmd c w = Ok ((redisCommandArgv x cmd w).1, c, (redisCommandArgv x cmd w).2).
Proof.
  intros (Hm & Hx & He). unfold Execute, lock, Active. rewrite Hm. mstep. simpl. rewrite Hx, He. simpl.
  rewrite Hx. destruct (redisCommandArgv x cmd w). simpl. destruct c; simpl in *. by subst.
Qed.

Lemma Execute_locked cmd c w : mutex_ c = true -> Execute cmd c w = Err Deadlock.
Proof. intros Hm. unfold Execute, lock. by rewrite Hm. Qed.
End client.

(** A command that finds no connection returns with the mutex locked:
    every later call of the client blocks for ever. *)
Theorem redis_failed_execute_deadlocks {W} `{Hiredis W} cmd c (w w' : W) c' :
  mutex_ c = false -> Active (set_mutex true c) w = Ok (false, c', w') ->
  Execute cmd c w = Ok (None, c', w') /\
  forall cmd' key w2, Execute cmd' c' w2 = Err Deadlock /\ MGet cmd' c' w2 = Err Deadlock /\
    HGetAll key c' w2 = Err Deadlock /\ PipeLine cmd' c' w2 = Err Deadlock.
Proof.
  intros Hm Ha. destruct (Active_total (set_mutex true c) w) as (ok & c1 & w1 & E & (Hm' & _) & _).
  rewrite Ha in E. injection E as <- <- <-. simpl in Hm'.
  split; [unfold Execute, lock; rewrite Hm; mstep; by rewrite Ha|].
  intros cmd' key w2. unfold MGet, HGetAll, PipeLine, lock.
  by rewrite !Execute_locked, Hm' by done.
Qed.

(** ** What Redis does with the commands of the program *)
Inductive value := VString (s : bytes) | VHash (h : gmap bytes bytes).
Abbreviation database := (gmap bytes value).

(** An element of an [MGET]: nil for a key that holds no string. *)
Definition get_string (d : database) (k : bytes) : option bytes :=
  match d !! k with Some (VString s) => Some s | _ => None end.
Definition get_hash (d : database) (k : bytes) : gmap bytes bytes :=
  match d !! k with Some (VHash h) => h | _ => ∅ end.

(** The effect of a command of the pipelines; one on a value of another type
    is an error and has none.  Time is not modelled: keys do not expire. *)
Definition exec (d : database) (argv : list bytes) : database :=
  match argv with
  | [cmd; k] => if decide (cmd = str "DEL") then delete k d else d
  | [cmd; k; v] =>
      if decide (cmd = str "SET") then <[k := VString v]> d
      else if decide (cmd = str "HDEL") then
        match d !! k with
        | Some (VHash h) => if decide (delete v h = ∅) then delete k d else <[k := VHash (delete v h)]> d
        | _ => d
        end
      else d
  | [cmd; k; f; v] =>
      if decide (cmd = str "HSET") then
        match d !! k with
        | Some (VString _) => d
        | _ => <[k := VHash (<[f := v]> (get_hash d k))]> d
        end
      else d
  | _ => d
  end.

(** The commands one by one. *)
Ltac exec_tac := unfold exec;
  repeat match goal with
  | |- context [decide (str ?a = str ?a)] => rewrite (decide_True (P := str a = str a)) by done
  | |- context [decide (str ?a = str ?b)] =>
      rewrite (decide_False (P := str a = str b)) by (vm_compute; discriminate)
  end.
Lemma exec_hset d k f v :
  (forall s, d !! k <> Some (VString s)) ->
  exec d [str "HSET"; k; f; v] = <[k := VHash (<[f := v]> (get_hash d k))]> d.
Proof. intros Hk. exec_tac. destruct (d !! k) as [[s|h]|] eqn:E; [by destruct (Hk s)|done|done]. Qed.
Lemma exec_expire d k v : exec d [str "EXPIRE"; k; v] = d.
Proof. by exec_tac. Qed.
Lemma exec_set d k v : exec d [str "SET"; k; v] = <[k := VString v]> d.
Proof. by exec_tac. Qed.
Lemma exec_del d k : exec d [str "DEL"; k] = delete k d.
Proof. by exec_tac. Qed.
Lemma exec_hdel d k f h :
  d !! k = Some (VHash h) ->
  exec d [str "HDEL"; k; f] =
    if decide (delete f h = ∅) then delete k d else <[k := VHash (delete f h)]> d.
Proof. intros E. exec_tac. by rewrite E. Qed.

Definition string_or_nil (v : option bytes) : redisReply :=
  match v with Some s => ReplyString s | None => ReplyNil end.
Definition pairs (l : list (bytes * bytes)) : list redisReply :=
  mjoin (map (fun kv : bytes * bytes => [ReplyString kv.1; ReplyString kv.2]) l).
(** The reply to [HGETALL]; the order of the fields is not specified. *)
Definition hgetall_reply (v : option value) (r : redisReply) : Prop :=
  match v with
  | Some (VHash h) => exists l, l ≡ₚ map_to_list h /\ r = ReplyArray (pairs l)
  | None => r = ReplyArray []
  | Some (VString _) => exists e, r = ReplyError e
  end.

(** A word of a command text: it is sent as one argument, as it is. *)
Definition clean (s : bytes) : Prop := (Byte.x20 ∉ s) /\ (Byte.x25 ∉ s) /\ (Byte.x00 ∉ s).
Definition word (s : bytes) : Prop := s <> [] /\ clean s.
Lemma word_app p s : word p -> clean s -> word (p ++ s).
Proof.
  intros (Hp & H1 & H2 & H3) (G1 & G2 & G3). split; [by destruct p|]. unfold clean.
  rewrite !elem_of_app. naive_solver.
Qed.
Lemma word_to_string n : - 2 ^ 64 < n < 2 ^ 64 -> word (to_string n).
Proof.
  assert (forall m, 0 <= m < 2 ^ 64 -> word (to_string m)) as Hpos.
  { intros m Hm. split; [|repeat split; (apply to_string_no; [lia|by intros [Hb _]; apply Hb])].
    rewrite to_string_pos by lia. cbn [digits]. destruct (m <? 10); [done|]. by intros [_ ?]%app_nil. }
  intros Hn. destruct (Z.ltb_spec n 0); [|apply Hpos; lia].
  assert (to_string n = str "-" ++ to_string (- n)) as ->.
  { unfold to_string. rewrite (proj2 (Z.ltb_lt n 0)), (proj2 (Z.ltb_ge (- n) 0)) by lia. done. }
  apply word_app; [|apply Hpos; lia]. apply (bool_decide_unpack _). vm_compute. exact I.
Qed.
Definition text_of (argv : list bytes) : bytes := join Byte.x20 argv.

(** hiredis connected to a Redis: [db] is the database, [unread x] the replies
    that connection [x] has not read. *)
Class RedisLaws (W : Type) `{Hiredis W} := {
  db : W -> database;
  unread : nat -> W -> list redisReply;
  mget_spec x keys w : redis_err x w = false -> unread x w = [] ->
    exists w', redisCommandArgv x (str "MGET" :: keys) w =
        (Some (ReplyArray (map (fun k => string_or_nil (get_string (db w) k)) keys)), w') /\
      db w' = db w /\ forall y, redis_err y w' = redis_err y w /\ unread y w' = unread y w;
  hgetall_spec x k w : redis_err x w = false -> unread x w = [] ->
    exists r w', redisCommandArgv x [str "HGETALL"; k] w = (Some r, w') /\
      hgetall_reply (db w !! k) r /\
      db w' = db w /\ forall y, redis_err y w' = redis_err y w /\ unread y w' = unread y w;
  plain_format argv : Forall word argv -> fmt_reads_args (text_of argv) = false;
  append_spec x argv w : redis_err x w = false -> argv <> [] -> Forall word argv ->
    exists r, let w' := redisAppendCommand x (text_of argv) w in
      db w' = exec (db w) argv /\ unread x w' = unread x w ++ [r] /\
      forall y, redis_err y w' = redis_err y w /\ (y <> x -> unread y w' = unread y w);
  reply_spec x r l w : redis_err x w = false -> unread x w = r :: l ->
    exists w', redisGetReply x w = (Some (Some r), w') /\ db w' = db w /\ unread x w' = l /\
      forall y, redis_err y w' = redis_err y w /\ (y <> x -> unread y w' = unread y w);
}.

Section database.
Context {W : Type} `{RedisLaws W}.
Implicit Types (c : RedisClient) (w : W).

(** A client at rest: connected, unlocked, every reply read. *)
Definition ready (x : nat) c w : Prop := healthy x c w /\ unread x w = [].
(** The other connections are as they were. *)
Definition others (x : nat) w w' : Prop :=
  forall y, redis_err y w' = redis_err y w /\ (y <> x -> unread y w' = unread y w).

Lemma others_refl x w : others x w w.
Proof. done. Qed.
Lemma others_trans x w1 w2 w3 : others x w1 w2 -> others x w2 w3 -> others x w1 w3.
Proof.
  intros H1 H2 y. destruct (H1 y) as [E1 U1], (H2 y) as [E2 U2]. split; [congruence|].
  intros Hy. rewrite U2, U1; done.
Qed.

(** What [x] does leaves another client ready. *)
Lemma ready_others x y c w w' : others x w w' -> ready y c w -> unread x w' = [] -> ready y c w'.
Proof.
  intros Ho [(Hm & Hx & He) Hu] Hx'. destruct (Ho y) as [E U]. split; [by rewrite <- E in He|].
  destruct (decide (y = x)) as [->|Hne]; [done|]. by rewrite U.
Qed.

Lemma append_all x argvs w :
  redis_err x w = false -> Forall (fun argv => argv <> [] /\ Forall word argv) argvs ->
  exists w' rs, foldM (append_command x) (map text_of argvs) w = Ok w' /\
    db w' = foldl exec (db w) argvs /\ unread x w' = unread x w ++ rs /\ length rs = length argvs /\
    others x w w'.
Proof.
  intros He HF. revert w He. induction HF as [|argv argvs [Hn Hw] _ IH]; intros w He.
  - exists w, []. rewrite app_nil_r. by repeat split.
  - cbn [map foldM]. unfold append_command at 1.
    assert (c_str (text_of argv) = text_of argv) as ->.
    { unfold c_str. apply ztake_all. unfold strlen.
      assert (Byte.x00 ∉ text_of argv) as Hz; [|apply find_byte_None in Hz as ->; lia].
      apply not_in_join; [done|]. eapply Forall_impl; [exact Hw|]. by intros a (_ & _ & _ & ?). }
    rewrite plain_format by done. mstep.
    destruct (append_spec x argv w He Hn Hw) as (r & Hd & Hu & Ho). cbv zeta in *.
    destruct (IH (redisAppendCommand x (text_of argv) w)) as (w' & rs & -> & Hd' & Hu' & Hl & Ho').
    { destruct (Ho x) as [-> _]. done. }
    exists w', (r :: rs). split; [done|]. split; [by rewrite Hd', Hd|].
    split; [by rewrite Hu', Hu, <- app_assoc|]. split; [simpl; lia|]. by eapply others_trans.
Qed.

Lemma read_all x rs p w :
  redis_err x w = false -> unread x w = rs ->
  exists w', read_replies (length rs) x p w = Ok w' /\ db w' = db w /\ unread x w' = [] /\ others x w w'.
Proof.
  revert p w. induction rs as [|r rs IH]; intros p w He Hu; [by exists w|].
  destruct (reply_spec x r rs w He Hu) as (w1 & E & Hd & Hu1 & Ho). cbn [length read_replies]. rewrite E.
  destruct (IH Freed w1) as (w' & -> & Hd' & Hu' & Ho'); [by rewrite (proj1 (Ho x))|done|].
  exists w'. split; [done|]. split; [congruence|]. split; [done|]. by eapply others_trans.
Qed.

Lemma PipeLine_executes x argvs c w :
  ready x c w -> Forall (fun argv => argv <> [] /\ Forall word argv) argvs ->
  exists w', PipeLine (map text_of argvs) c w = Ok (c, w') /\ db w' = foldl exec (db w) argvs /\
    ready x c w' /\ others x w w'.
Proof.
  intros [(Hm & Hx & He) Hu] HF. unfold PipeLine, lock. rewrite Hm. mstep. simpl. rewrite Hx.
  assert (unlock (set_mutex true c) = c) as Hc by (destruct c; simpl in *; by subst).
  destruct argvs as [|a argvs]; [rewrite Hc; exists w; by repeat split|].
  destruct (append_all x (a :: argvs) w He HF) as (w1 & rs & E & Hd & Hu1 & Hl & Ho).
  cbn [map] in *. rewrite E. mstep. rewrite Hu in Hu1.
  destruct (read_all x rs Indeterminate w1) as (w' & E' & Hd' & Hu' & Ho');
    [by rewrite (proj1 (Ho x))|done|].
  replace (length (text_of a :: map text_of argvs)) with (length rs) by (simpl in *; rewrite length_map; lia).
  rewrite E', Hc. mstep. exists w'. split; [done|]. split; [congruence|].
  pose proof (others_trans _ _ _ _ Ho Ho') as Ho2.
  split; [|done]. split; [|done]. split; [done|]. split; [done|]. by rewrite (proj1 (Ho2 x)).
Qed.

Lemma hgetall_loop_pairs (l : list (bytes * bytes)) (k v : bytes) (acc : gmap bytes bytes) :
  NoDup l.*1 -> (forall f, f ∈ l.*1 -> acc !! f = None) ->
  hgetall_loop (pairs l) k v acc = Ok (acc ∪ list_to_map l).
Proof.
  unfold pairs. revert k v acc. induction l as [|[f x] l IH]; intros k v acc Hnd Hacc; simpl.
  - by rewrite (right_id_L ∅ (∪)).
  - apply NoDup_cons in Hnd as [Hf Hnd]. simpl in *. rewrite (Hacc f) by set_solver. rewrite IH; [|done|].
    + f_equal. rewrite <- insert_union_r, <- insert_union_l; [done|]. apply Hacc. set_solver.
    + intros g Hg. rewrite lookup_insert_ne by set_solver. apply Hacc. set_solver.
Qed.

Lemma HGetAll_hash x k c w :
  ready x c w ->
  exists w', HGetAll k c w = Ok (get_hash (db w) k, c, w') /\ db w' = db w /\ ready x c w' /\ others x w w'.
Proof.
  intros [Hh Hu]. unfold HGetAll. rewrite (Execute_healthy x) by done.
  destruct Hh as (Hm & Hx & He). destruct (hgetall_spec x k w He Hu) as (r & w' & -> & Hr & Hd & Ho).
  mstep. simpl. exists w'. assert (ready x c w') as Hw'.
  { destruct (Ho x) as [E U]. split; [|by rewrite U]. split; [done|]. by rewrite E. }
  assert (others x w w') as Ho' by (intros y; split; [|intros _]; apply Ho).
  unfold get_hash. destruct (db w !! k) as [[s|h]|]; simpl in Hr.
  - destruct Hr as [e ->]. by repeat split; try apply Hw'; try apply Ho'.
  - destruct Hr as (l & Hl & ->). assert (NoDup l.*1) as Hnd.
    { rewrite Hl. apply NoDup_fst_map_to_list. }
    rewrite hgetall_loop_pairs; [|done|set_solver]. mstep. rewrite (left_id_L ∅ (∪)).
    split; [|by repeat split; try apply Hw'; try apply Ho']. do 3 f_equal.
    rewrite <- (list_to_map_to_list h). by apply list_to_map_proper.
  - subst r. by repeat split; try apply Hw'; try apply Ho'.
Qed.
Lemma MGet_strings x keys c w :
  ready x c w ->
  exists w', MGet keys c w = Ok (omap (get_string (db w)) keys, c, w') /\ db w' = db w /\ ready x c w'.
Proof.
  intros [Hh Hu]. unfold MGet. rewrite (Execute_healthy x) by done.
  destruct Hh as (Hm & Hx & He). destruct (mget_spec x keys w He Hu) as (w' & -> & Hd & Ho).
  mstep. simpl. exists w'. destruct (Ho x) as [E U]. split; [|split; [done|]].
  - do 3 f_equal. clear. induction keys as [|k l IH]; simpl; [done|].
    destruct (get_string (db w) k); simpl; [f_equal|]; apply IH.
  - split; [|by rewrite U]. split; [done|]. by rewrite E.
Qed.
End database.

(** C-R2. *)
Theorem redis_mget_skips_missing {W} `{RedisLaws W} x keys c (w : W) :
  ready x c w ->
  exists w', MGet keys c w = Ok (omap (get_string (db w)) keys, c, w') /\ db w' = db w /\ ready x c w'.
Proof. apply MGet_strings. Qed.

(** C14: A connected client implements a database: PipeLine applies its
    commands in order, reads all their replies, and HGetAll then returns the
    hash the commands left. *)
Theorem redis_pipeline_then_hgetall {W} `{RedisLaws W} x argvs k c (w : W) :
  ready x c w -> Forall (fun argv => argv <> [] /\ Forall word argv) argvs ->
  exists w1 w2, PipeLine (map text_of argvs) c w = Ok (c, w1) /\
    db w1 = foldl exec (db w) argvs /\
    HGetAll k c w1 = Ok (get_hash (foldl exec (db w) argvs) k, c, w2) /\ db w2 = db w1 /\ ready x c w2.
Proof.
  intros Hr HF. destruct (PipeLine_executes x argvs c w Hr HF) as (w1 & E1 & Hd1 & Hr1 & _).
  destruct (HGetAll_hash x k c w1 Hr1) as (w2 & E2 & Hd2 & Hr2 & _). rewrite Hd1 in E2.
  by exists w1, w2.
Qed.

(** A Redis in memory that keeps these laws; [false] in [up] refuses
    connections. *)
Module Store.
Record store := mkStore {
  up : bool;
  data : database;
  pending : gmap nat (list redisReply);
}.
Definition empty : store := mkStore true ∅ ∅.

Definition reply_to (argv : list bytes) (d : database) : redisReply :=
  match argv with
  | cmd :: args =>
      if decide (cmd = str "MGET") then ReplyArray (map (fun k => string_or_nil (get_string d k)) args)
      else match args with
      | [k] =>
          if decide (cmd = str "HGETALL") then
            match d !! k with
            | Some (VHash h) => ReplyArray (pairs (map_to_list h))
            | Some (VString _) => ReplyError (str "WRONGTYPE")
            | None => ReplyArray []
            end
          else ReplyInteger 1
      | _ => ReplyInteger 1
      end
  | [] => ReplyError (str "ERR")
  end.

#[export] Instance hiredis : Hiredis store := {|
  redisConnectWithTimeout _ _ w := (if up w then Some 0%nat else None, w);
  redis_err _ w := negb (up w);
  redisFree x w := mkStore (up w) (data w) (delete x (pending w));
  redisCommand _ fmt _ w := (Some (if decide (fmt = str "PING") then ReplyStatus (str "PONG")
                                   else ReplyStatus (str "OK")), w);
  redisCommandArgv _ argv w := (Some (reply_to argv (data w)), mkStore (up w) (exec (data w) argv) (pending w));
  fmt_reads_args cmd := bool_decide (Byte.x25 ∈ cmd);
  redisAppendCommand x cmd w :=
    let argv := split cmd [Byte.x20] in
    mkStore (up w) (exec (data w) argv)
      (<[x := default [] (pending w !! x) ++ [reply_to argv (data w)]]> (pending w));
  redisGetReply x w :=
    match default [] (pending w !! x) with
    | r :: l => (Some (Some r), mkStore (up w) (data w) (<[x := l]> (pending w)))
    | [] => (None, w)
    end;
|}.

Lemma exec_read cmd args d : In cmd [str "MGET"; str "HGETALL"] -> exec d (cmd :: args) = d.
Proof.
  intros [<-|[<-|[]]]; destruct args as [|a [|b [|e [|f l]]]]; simpl; try done;
    by repeat (rewrite decide_False by (vm_compute; discriminate)).
Qed.

#[local] Arguments exec : simpl never.
#[export] Program Instance redis_laws : RedisLaws store := {|
  db := data;
  unread x w := default [] (pending w !! x);
|}.
Next Obligation.
  intros x keys w _ Hu. eexists. split; [reflexivity|]. simpl. rewrite exec_read by (simpl; auto). by repeat split.
Qed.
Next Obligation.
  intros x k w _ Hu. eexists _, _. split; [reflexivity|]. simpl. rewrite exec_read by (simpl; auto).
  split; [|by repeat split]. destruct (data w !! k) as [[s|h]|]; simpl; eauto.
Qed.
Next Obligation.
  intros argv HF. simpl. apply bool_decide_eq_false, not_in_join; [done|].
  eapply Forall_impl; [exact HF|]. by intros a (_ & _ & ? & _).
Qed.
Next Obligation.
  intros x argv w _ Hn HF. eexists. simpl. unfold text_of.
  rewrite split_words; [|done|]. 2: { eapply Forall_impl; [done|]. by intros a (? & ? & _). }
  rewrite lookup_insert_eq. simpl. split; [done|]. split; [done|]. intros y. split; [done|].
  intros Hy. by rewrite lookup_insert_ne.
Qed.
Next Obligation.
  intros x r l w _ Hu. simpl in *. rewrite Hu. eexists. split; [done|]. simpl. rewrite lookup_insert_eq.
  split; [done|]. split; [done|]. intros y. split; [done|]. intros Hy. by rewrite lookup_insert_ne.
Qed.
Definition client : RedisClient := mkClient false (Some 0%nat) (str "127.0.0.1") 6379 [] 0.
Definition data1 : database := {[ str "b" := VString (str "v") ]}.
Lemma client_ready d : ready 0%nat Store.client (mkStore true d ∅).
Proof. by repeat split. Qed.
End Store.
Import Store.

Lemma redis_failed_execute_deadlocks_witness :
  exists c', Execute [str "MGET"; str "a"] Store.client (mkStore false ∅ ∅) = Ok (None, c', mkStore false ∅ ∅) /\
    MGet [str "a"] c' Store.empty = Err Deadlock.
Proof.
  destruct (redis_failed_execute_deadlocks [str "MGET"; str "a"] Store.client
    (mkStore false ∅ ∅) (mkStore false ∅ ∅)
    (mkClient true None (str "127.0.0.1") 6379 [] 0)) as [E Hd];
    [reflexivity|vm_compute; reflexivity|].
  eexists. split; [exact E|]. apply (Hd [str "a"] [] Store.empty).
Defined.

Lemma redis_mget_skips_missing_witness :
  exists w', MGet [str "a"; str "b"] Store.client (mkStore true data1 ∅) = Ok ([str "v"], Store.client, w').
Proof.
  destruct (redis_mget_skips_missing 0%nat [str "a"; str "b"] Store.client (mkStore true data1 ∅))
    as (w' & E & _); [apply client_ready|].
  exists w'. exact E.
Defined.

Definition sample_commands : list (list bytes) :=
  [[str "HSET"; str "mid_7"; str "k1"; str "gate1"]; [str "EXPIRE"; str "mid_7"; str "1800"];
   [str "HSET"; str "mid_7"; str "k2"; str "gate2"]; [str "HDEL"; str "mid_7"; str "k1"]].
Lemma redis_pipeline_then_hgetall_witness :
  exists w1 w2, PipeLine (map text_of sample_commands) Store.client Store.empty = Ok (Store.client, w1) /\
    HGetAll (str "mid_7") Store.client w1 = Ok ({[ str "k2" := str "gate2" ]}, Store.client, w2).
Proof.
  destruct (redis_pipeline_then_hgetall 0%nat sample_commands (str "mid_7") Store.client Store.empty)
    as (w1 & w2 & E1 & _ & E2 & _).
  - apply client_ready.
  - apply (bool_decide_unpack _). vm_compute. exact I.
  - exists w1, w2. split; [exact E1|]. exact E2.
Defined.
End RedisClient.
