(* ===== verification/Keys.v ===== *)
(** * The keys of the logic server: [LogicServer::generateKey] of
    src/logicserver/LogicServer.cc

    A key is the decimal text of 64 bits: 42 of the time in milliseconds, 10 of
    the server's id, 12 of a sequence number within the millisecond.  The
    readings of the system clock are the input: [clock] lists the ones to come,
    and a call that has used them all has not returned yet ([OutOfFuel]). *)

From Stdlib Require Import ZArith Lia Sorting.Sorted.
From stdpp Require Import base list sets.
From S2P Require Import Prelude Text.
Local Open Scope Z_scope.
#[local] Arguments uwrap : simpl never.
#[local] Arguments Z.pow : simpl never.
#[local] Arguments Z.land : simpl never.

Module Keys.

(** The two function-local statics, and the clock. *)
Record state := mkState {
  lastTimestamp : option Z;     (** set by the first call *)
  seqID : Z;
  clock : list Z;
}.
Definition state_new (readings : list Z) : state := mkState None 0 readings.

(** [uint64_t t = getMilliSecond()] *)
Definition getMilliSecond (clock : list Z) : res (Z * list Z) :=
  match clock with t :: clock => Ok (uwrap 64 t, clock) | [] => Err OutOfFuel end.

(** [while (lastTimestamp == timestamp) timestamp = getMilliSecond();] *)
Fixpoint next_millisecond (last : Z) (clock : list Z) : res (Z * list Z) :=
  match clock with
  | [] => Err OutOfFuel
  | t :: clock => if last =? uwrap 64 t then next_millisecond last clock else Ok (uwrap 64 t, clock)
  end.

Definition id_of (timestamp serverid seq : Z) : Z :=
  Z.lor (Z.lor (uwrap 64 (Z.shiftl (Z.land timestamp 0x3FFFFFFFFFF) 22))
               (Z.shiftl (Z.land serverid 0x3FF) 12)) seq.

Definition generateKey (serverid_ : Z) (st : state) : res (bytes * state) :=
  let* (last, clock) := match lastTimestamp st with
                        | Some t => Ok (t, clock st)
                        | None => getMilliSecond (clock st)
                        end in
  let* (timestamp, clock) := getMilliSecond clock in
  let* (timestamp, seq, clock) :=
    if last =? timestamp then
      let seq := Z.land (seqID st + 1) 0xFFF in
      if seq =? 0 then
        let* (timestamp, clock) := next_millisecond last clock in Ok (timestamp, seq, clock)
      else Ok (timestamp, seq, clock)
    else Ok (timestamp, 0, clock) in
  Ok (to_string (id_of timestamp serverid_ seq), mkState (Some timestamp) seq clock).

(** [n] calls, one after the other. *)
Fixpoint generate (n : nat) (serverid_ : Z) (st : state) : res (list bytes * state) :=
  match n with
  | O => Ok ([], st)
  | S n =>
      let* (key, st) := generateKey serverid_ st in
      let* (keys, st) := generate n serverid_ st in
      Ok (key :: keys, st)
  end.

(** ** The number behind a key *)
Lemma id_fields t s q :
  0 <= q < 2 ^ 12 -> id_of t s q = t mod 2 ^ 42 * 2 ^ 22 + s mod 2 ^ 10 * 2 ^ 12 + q.
Proof.
  intros Hq. unfold id_of.
  change 0x3FFFFFFFFFF with (Z.ones 42). change 0x3FF with (Z.ones 10).
  rewrite !Z.land_ones, !Z.shiftl_mul_pow2 by lia.
  pose proof (Z.mod_pos_bound t (2 ^ 42) ltac:(lia)) as Ht.
  pose proof (Z.mod_pos_bound s (2 ^ 10) ltac:(lia)) as Hs.
  rewrite uwrap_small by nia.
  rewrite (lor_low (t mod 2 ^ 42) (s mod 2 ^ 10 * 2 ^ 12) 22) by lia.
  replace (t mod 2 ^ 42 * 2 ^ 22 + s mod 2 ^ 10 * 2 ^ 12)
    with ((t mod 2 ^ 42 * 2 ^ 10 + s mod 2 ^ 10) * 2 ^ 12) at 1 by lia.
  rewrite lor_low by lia. lia.
Qed.

Lemma id_range t s q : 0 <= q < 2 ^ 12 -> 0 <= id_of t s q < 2 ^ 64.
Proof.
  intros Hq. rewrite id_fields by done.
  pose proof (Z.mod_pos_bound t (2 ^ 42) ltac:(lia)). pose proof (Z.mod_pos_bound s (2 ^ 10) ltac:(lia)). lia.
Qed.
Lemma generateKey_text s st key st' :
  0 <= seqID st -> generateKey s st = Ok (key, st') -> exists i, 0 <= i < 2 ^ 64 /\ key = to_string i.
Proof.
  intros Hq. unfold generateKey. intros ([last c1] & _ & E)%bind_Ok_inv.
  apply bind_Ok_inv in E as ([t c2] & _ & E). apply bind_Ok_inv in E as ([[t' q] c3] & E & [= <- _]).
  assert (0 <= q < 2 ^ 12) as Hq'; [|eexists; split; [by apply id_range|done]].
  destruct (last =? t); [|injection E as <- <- <-; lia].
  assert (0 <= Z.land (seqID st + 1) 0xFFF < 2 ^ 12) as Hl.
  { change 0xFFF with (Z.ones 12). rewrite Z.land_ones by lia. apply Z.mod_pos_bound. lia. }
  destruct (_ =? 0); [|by injection E as <- <- <-].
  by apply bind_Ok_inv in E as ([t'' c4] & _ & [= <- <- <-]).
Qed.

(** ** Keys are not repeated *)

(** The clock does not go back, and 42 bits hold its readings. *)
Record steady (st : state) : Prop := {
  st_seq : 0 <= seqID st < 2 ^ 12;
  st_readings : Forall (fun t => 0 <= t < 2 ^ 42) (option_list (lastTimestamp st) ++ clock st);
  st_sorted : StronglySorted Z.le (option_list (lastTimestamp st) ++ clock st);
}.

Lemma steady_suffix t q pre l :
  0 <= q < 2 ^ 12 -> Forall (fun t => 0 <= t < 2 ^ 42) (pre ++ t :: l) ->
  StronglySorted Z.le (pre ++ t :: l) -> steady (mkState (Some t) q l).
Proof.
  intros Hq HF HS. split; simpl; [done|by apply Forall_app in HF as [_ ?]|].
  induction pre as [|x pre IH]; [done|]. apply IH; [by apply Forall_cons in HF as [_ ?]|].
  by apply StronglySorted_inv in HS as [? _].
Qed.

Lemma next_millisecond_spec last l t l' :
  Forall (fun t => 0 <= t < 2 ^ 42) l -> next_millisecond last l = Ok (t, l') ->
  t <> last /\ exists pre, l = pre ++ t :: l'.
Proof.
  induction 1 as [|x l Hx _ IH]; simpl; [done|]. rewrite uwrap_small by lia.
  destruct (Z.eqb_spec last x) as [->|Hne].
  - intros E. destruct (IH E) as (Ht & pre & ->). split; [done|]. by exists (x :: pre).
  - intros [= <- <-]. split; [done|]. by exists [].
Qed.

Lemma next_millisecond_returns last l t :
  Forall (fun t => 0 <= t < 2 ^ 42) l -> t ∈ l -> t <> last ->
  exists t' l', next_millisecond last l = Ok (t', l').
Proof.
  induction 1 as [|x l Hx _ IH]; [set_solver|]. intros Ht Hne. simpl. rewrite uwrap_small by lia.
  destruct (Z.eqb_spec last x) as [->|]; [|eauto]. apply IH; [|done]. set_solver.
Qed.

(** One call, from a state where the statics are set: a later reading, or the
    same one with the next sequence number. *)
Lemma generateKey_step s last q l key st' :
  steady (mkState (Some last) q l) -> generateKey s (mkState (Some last) q l) = Ok (key, st') ->
  exists t q', lastTimestamp st' = Some t /\ seqID st' = q' /\ steady st' /\
    key = to_string (id_of t s q') /\ (last < t /\ q' = 0 \/ t = last /\ q' = q + 1).
Proof.
  intros [Hq HF HS]. unfold generateKey. simpl in *.
  destruct l as [|t l]; [done|]. cbn [getMilliSecond bind]. pose proof HF as HF'. rewrite !Forall_cons in HF'.
  destruct HF' as (Hl & Ht & HFl). rewrite uwrap_small by lia.
  assert (forall x pre l', l = pre ++ x :: l' -> last <= x) as Hle.
  { intros x pre l' ->. apply StronglySorted_inv in HS as [_ HS]. rewrite Forall_cons, Forall_app, Forall_cons in HS.
    by destruct HS as (_ & _ & ? & _). }
  destruct (Z.eqb_spec last t) as [<-|Hne].
  - change 0xFFF with (Z.ones 12). rewrite Z.land_ones by lia.
    destruct (Z.eqb_spec ((q + 1) mod 2 ^ 12) 0) as [E0|E0].
    + rewrite E0. destruct (next_millisecond last l) as [[t' l']|] eqn:En; [|done]. mstep. intros [= <- <-].
      apply next_millisecond_spec in En as (Hne & pre & ->); [|done].
      exists t', 0. split; [done|]. split; [done|]. split.
      { apply (steady_suffix t' 0 (last :: last :: pre) l'); [lia|done|done]. }
      split; [done|]. left. pose proof (Hle t' pre l' eq_refl). lia.
    + mstep. intros [= <- <-]. assert (q + 1 < 2 ^ 12) as Hq1.
      { destruct (Z.eq_dec (q + 1) (2 ^ 12)) as [E|]; [|lia]. by rewrite E, Z.mod_same in E0. }
      rewrite Z.mod_small by lia. exists last, (q + 1). split; [done|]. split; [done|].
      split; [apply (steady_suffix last (q + 1) [last] l); [lia|done|done]|]. split; [done|]. by right.
  - mstep. intros [= <- <-]. exists t, 0. split; [done|]. split; [done|].
    split; [apply (steady_suffix t 0 [last] l); [lia|done|done]|]. split; [done|]. left.
    apply StronglySorted_inv in HS as [_ HS]. rewrite Forall_cons in HS. lia.
Qed.

(** The first call reads the clock once more. *)
Lemma generateKey_first s q t l :
  generateKey s (mkState None q (t :: l)) = generateKey s (mkState (Some (uwrap 64 t)) q l).
Proof. done. Qed.

Lemma steady_first q t l : steady (mkState None q (t :: l)) -> steady (mkState (Some (uwrap 64 t)) q l).
Proof.
  intros [Hq HF HS]. simpl in *. pose proof HF as HF'. rewrite Forall_cons in HF'.
  by rewrite uwrap_small by lia.
Qed.

(** The ids of the calls, and the one the statics stand for. *)
Definition ids_after (s t q : Z) (ids : list Z) : Prop :=
  StronglySorted Z.lt (id_of t s q :: ids) /\
  Forall (fun i => exists t' q', i = id_of t' s q' /\ 0 <= q' < 2 ^ 12) ids.

Lemma generate_ids n s last q l keys st' :
  steady (mkState (Some last) q l) -> generate n s (mkState (Some last) q l) = Ok (keys, st') ->
  exists ids, keys = map to_string ids /\ ids_after s last q ids.
Proof.
  revert last q l keys. induction n as [|n IH]; intros last q l keys Hst; simpl.
  { intros [= <- <-]. exists []. by repeat constructor. }
  intros ([key st1] & E1 & E)%bind_Ok_inv. apply bind_Ok_inv in E as ([keys' st2] & E2 & [= <- <-]).
  apply (generateKey_step _ _ _ _ _ _ Hst) in E1 as (t & q' & Et & Eq & Hst1 & -> & Hstep).
  destruct st1 as [lt sq ck]. simpl in *. subst.
  destruct (IH t q' ck keys' Hst1 E2) as (ids & -> & HS & HF).
  exists (id_of t s q' :: ids). split; [done|]. destruct Hst as [Hq HFr _], Hst1 as [Hq1 HFr1 _]. simpl in *.
  apply Forall_cons in HFr as [Hl _]. apply Forall_cons in HFr1 as [Ht _].
  assert (id_of last s q < id_of t s q') as Hlt.
  { rewrite !id_fields by lia. rewrite !(Z.mod_small _ (2 ^ 42)) by lia. lia. }
  split; [|constructor; [by exists t, q'|done]].
  constructor; [done|]. constructor; [done|]. apply StronglySorted_inv in HS as [_ HF'].
  eapply Forall_impl; [exact HF'|]. simpl. intros. lia.
Qed.

Lemma generate_numbers n s st keys st' :
  steady st -> generate n s st = Ok (keys, st') ->
  exists ids, keys = map to_string ids /\ StronglySorted Z.lt ids /\
    Forall (fun i => exists t q, i = id_of t s q /\ 0 <= q < 2 ^ 12) ids.
Proof.
  intros Hst E. destruct st as [[last|] q l].
  - destruct (generate_ids n s last q l keys st' Hst E) as (ids & ? & HS & ?).
    apply StronglySorted_inv in HS as [? _]. by exists ids.
  - destruct n as [|n]; [simpl in E; injection E as <- <-; exists []; by repeat constructor|].
    destruct l as [|t l]; [done|]. cbn [generate] in E. rewrite generateKey_first in E.
    destruct (generate_ids (S n) s (uwrap 64 t) q l keys st' (steady_first _ _ _ Hst) E)
      as (ids & ? & HS & ?). apply StronglySorted_inv in HS as [? _]. by exists ids.
Qed.

Lemma sorted_NoDup (l : list Z) : StronglySorted Z.lt l -> NoDup l.
Proof.
  induction 1 as [|x l HS IH HF]; constructor; [|done]. intros Hx.
  rewrite Forall_forall in HF. specialize (HF x Hx). lia.
Qed.

(** C12: Keys generated by two servers whose ids differ in the ten bits that
    are used, each with a clock that does not go back, are all different. *)
Theorem keys_never_repeat s1 s2 n1 n2 st1 st2 keys1 keys2 st1' st2' :
  s1 mod 2 ^ 10 <> s2 mod 2 ^ 10 -> steady st1 -> steady st2 ->
  generate n1 s1 st1 = Ok (keys1, st1') -> generate n2 s2 st2 = Ok (keys2, st2') ->
  NoDup (keys1 ++ keys2).
Proof.
  intros Hs H1 H2 (ids1 & -> & S1 & F1)%generate_numbers (ids2 & -> & S2 & F2)%generate_numbers; [|done|done].
  rewrite <- map_app. assert (NoDup (ids1 ++ ids2)) as Hnd.
  { apply NoDup_app. split; [by apply sorted_NoDup|]. split; [|by apply sorted_NoDup].
    intros i Hi1 Hi2. rewrite Forall_forall in F1, F2.
    destruct (F1 i Hi1) as (t1 & q1 & -> & Hq1), (F2 _ Hi2) as (t2 & q2 & E & Hq2).
    rewrite !id_fields in E by done. apply Hs.
    pose proof (Z.mod_pos_bound s1 (2 ^ 10) ltac:(lia)). pose proof (Z.mod_pos_bound s2 (2 ^ 10) ltac:(lia)). lia. }
  assert (Forall (fun i => 0 <= i < 2 ^ 64) (ids1 ++ ids2)) as HF.
  { apply Forall_app; split; eapply Forall_impl; try done; simpl; intros i (t & q & -> & Hq); by apply id_range. }
  clear -Hnd HF. induction Hnd as [|i l Hi Hnd IH]; [constructor|]. apply Forall_cons in HF as [Hr HF].
  constructor; [|by apply IH]. intros (j & E & Hj)%list_elem_of_fmap. apply Hi.
  rewrite Forall_forall in HF. by rewrite (to_string_inj i j Hr (HF j Hj) E).
Qed.

(** C13: generateKey returns as soon as a later reading of the clock differs
    from the last one, also when the 4096 keys of the millisecond are used up,
    and leaves the generator in a good state. *)
Theorem keys_returned_when_clock_ticks s last q t0 l t :
  steady (mkState (Some last) q (t0 :: l)) -> t ∈ l -> t <> last ->
  exists key st', generateKey s (mkState (Some last) q (t0 :: l)) = Ok (key, st') /\ steady st'.
Proof.
  intros Hst Ht Hne. enough (exists r, generateKey s (mkState (Some last) q (t0 :: l)) = Ok r) as [[key st'] E].
  { exists key, st'. split; [done|]. by apply (generateKey_step _ _ _ _ _ _ Hst) in E as (? & ? & _ & _ & ? & _). }
  destruct Hst as [_ HF _]. simpl in HF. rewrite !Forall_cons in HF. destruct HF as (Hl & Ht0 & HF).
  unfold generateKey. simpl. cbn [getMilliSecond bind]. destruct (last =? uwrap 64 t0); [|eauto].
  destruct (Z.land (q + 1) 0xFFF =? 0); [|eauto].
  destruct (next_millisecond_returns last l t HF Ht Hne) as (t' & l' & ->). eauto.
Qed.

(** Twelve readings of one millisecond and three of the next. *)
Definition sample_clock (t : Z) : list Z := replicate 12 t ++ replicate 3 (t + 1).
Lemma sample_steady q : 0 <= q < 2 ^ 12 -> steady (mkState None q (sample_clock 1577836800000)).
Proof.
  intros Hq. split; [done| |].
  - apply (bool_decide_unpack _). vm_compute. exact I.
  - simpl. repeat (constructor; [|apply (bool_decide_unpack _); vm_compute; exact I]). constructor.
Qed.

Lemma keys_never_repeat_witness :
  exists k1 k2 st1 st2, let st := state_new (sample_clock 1577836800000) in
    generate 10 1 st = Ok (k1, st1) /\ generate 3 2 st = Ok (k2, st2) /\ NoDup (k1 ++ k2).
Proof.
  pose (st := state_new (sample_clock 1577836800000)).
  pose (g n s := match generate n s st with Ok r => r | Err _ => ([], st) end).
  exists (g 10%nat 1).1, (g 3%nat 2).1, (g 10%nat 1).2, (g 3%nat 2).2.
  split; [vm_compute; reflexivity|]. split; [vm_compute; reflexivity|].
  apply (keys_never_repeat 1 2 10 3 st st (g 10%nat 1).1 (g 3%nat 2).1 (g 10%nat 1).2 (g 3%nat 2).2).
  - vm_compute. discriminate.
  - apply sample_steady. lia.
  - apply sample_steady. lia.
  - vm_compute. reflexivity.
  - vm_compute. reflexivity.
Defined.

Lemma keys_returned_when_clock_ticks_witness :
  exists key st', generateKey 1 (mkState (Some 1577836800000) 4095 (tail (sample_clock 1577836800000))) = Ok (key, st').
Proof.
  destruct (keys_returned_when_clock_ticks 1 1577836800000 4095 1577836800000
    (drop 2 (sample_clock 1577836800000)) 1577836800001) as (key & st' & E & _).
  - apply (steady_first 4095 1577836800000 (tail (sample_clock 1577836800000))), sample_steady. lia.
  - apply (bool_decide_unpack _). vm_compute. exact I.
  - lia.
  - exists key, st'. exact E.
Defined.

(** When the clock goes back a millisecond and forth, a key is given twice. *)
Theorem keys_repeat_when_clock_goes_back :
  exists key other st, generate 3 1 (state_new [1000; 1001; 1000; 1001]) = Ok ([key; other; key], st).
Proof. repeat eexists. Qed.
End Keys.
