(* ===== verification/Json.v ===== *)
(** * JSON values: [basic_json] of src/opt/nlohmann/json.hpp

    The kinds of a value, and the operations the logic server calls on one:
    [find], [operator[]] with a string, and the conversions to [int], string
    and vector of [int].  Doubles are those of the Standard Library's
    [SpecFloat].  [None] is a thrown [json::exception]. *)

From Stdlib Require Import ZArith Lia Floats.SpecFloat.
From stdpp Require Import base list gmap.
From S2P Require Import Prelude.
Local Open Scope Z_scope.

Module Json.

Inductive json :=
  | JNull
  | JBoolean (b : bool)
  | JUnsigned (n : Z)
  | JInteger (n : Z)
  | JFloat (f : spec_float)
  | JString (s : bytes)
  | JArray (l : list json)
  | JObject (m : gmap bytes json).

(** [static_cast<int>] of a double, towards zero; [None] when the value does
    not fit, which the language leaves undefined. *)
Definition float_to_int (d : spec_float) : option Z :=
  match d with
  | S754_zero _ => Some 0
  | S754_finite s m e =>
      let a := if 0 <=? e then Zpos m * 2 ^ e else Zpos m / 2 ^ (- e) in
      let v := if s then - a else a in
      if (- 2 ^ 31 <=? v) && (v <? 2 ^ 31) then Some v else None
  | _ => None
  end.

Definition is_number (j : json) : bool :=
  match j with JUnsigned _ | JInteger _ | JFloat _ => true | _ => false end.

(** [find]: only an object has members. *)
Definition find (key : bytes) (j : json) : option json :=
  match j with JObject m => m !! key | _ => None end.

(** [operator[]]: the member, null if it is new, and the json afterwards. *)
Definition subscript (key : bytes) (j : json) : option (json * json) :=
  match j with
  | JNull => Some (JNull, JObject {[key := JNull]})
  | JObject m =>
      match m !! key with
      | Some v => Some (v, j)
      | None => Some (JNull, JObject (<[key := JNull]> m))
      end
  | _ => None
  end.

Definition get_int (j : json) : res (option Z) :=
  match j with
  | JUnsigned n | JInteger n => Ok (Some (s32 n))
  | JFloat f => match float_to_int f with Some n => Ok (Some n) | None => Err UB end
  | JBoolean b => Ok (Some (if b then 1 else 0))
  | _ => Ok None
  end.

Definition get_string (j : json) : option bytes :=
  match j with JString s => Some s | _ => None end.

Fixpoint get_all (l : list json) : res (option (list Z)) :=
  match l with
  | [] => Ok (Some [])
  | j :: l =>
      let* n := get_int j in
      match n with
      | None => Ok None
      | Some n =>
          let* ns := get_all l in
          Ok (match ns with Some ns => Some (n :: ns) | None => None end)
      end
  end.
Definition get_ints (j : json) : res (option (list Z)) :=
  match j with JArray l => get_all l | _ => Ok None end.

Lemma get_all_ints l : get_all (map JInteger l) = Ok (Some (map s32 l)).
Proof. induction l as [|n l IH]; [done|]. cbn [map get_all get_int bind]. by rewrite IH. Qed.
End Json.
