(* ===== verification/JsonSpec.v ===== *)
(** * JSON texts

    What a JSON text is and which value it denotes, as a grammar in the style
    of RFC 8259: UTF-8, strings with their escapes, numbers, and values.  The
    parser of src/opt/nlohmann/json.hpp is proved against it in JsonParser.v.
    The C library's conversions of numbers are here too. *)

From Stdlib Require Import ZArith Lia Floats.SpecFloat.
From stdpp Require Import base list gmap strings.
From S2P Require Import Prelude Text Json.
Local Open Scope Z_scope.

(** ** [strtod], [strtoull] and [strtoll] on decimal texts

    The number [m * 10 ^ e], rounded to the nearest double: below one unit the
    quotient is computed with at least two bits more than a double has, the
    last of them sticky. *)
Definition dbl_of_decimal (neg : bool) (m e : Z) : spec_float :=
  let signed z := if neg then - z else z in
  if 0 <=? e then binary_normalize 53 1024 (signed (m * 10 ^ e)) 0 neg
  else
    let d := 10 ^ (- e) in
    let k := Z.max 0 (Z.log2 d - Z.log2 m + 56) in
    let q := (m * 2 ^ k) / d in
    let sticky := if (m * 2 ^ k) mod d =? 0 then 0 else 1 in
    binary_normalize 53 1024 (signed (2 * q + sticky)) (- k - 1) neg.

Definition is_digit (b : byte) : bool := match digit_value 10 b with Some _ => true | None => false end.
Fixpoint span_digits (l : bytes) : bytes * bytes :=
  match l with
  | b :: l' => if is_digit b then let '(ds, r) := span_digits l' in (b :: ds, r) else ([], l)
  | [] => ([], [])
  end.

(** The value of an exponent part, if there is one, and what follows it. *)
Definition exponent_part (l : bytes) : Z * bytes :=
  match l with
  | Byte.x65 :: l' | Byte.x45 :: l' =>
      let '(neg, l') := scan_sign l' in
      match span_digits l' with
      | ([], _) => (0, l)
      | (ds, r) => (if neg then - scan 10 0 ds else scan 10 0 ds, r)
      end
  | _ => (0, l)
  end.

(** The value, and the text from [endptr] on. *)
Definition strtod (s : bytes) : spec_float * bytes :=
  let '(neg, l) := scan_sign s in
  let '(whole, l) := span_digits l in
  let '(frac, l) := match l with
                    | Byte.x2e :: l => span_digits l
                    | _ => ([], l)
                    end in
  let '(e, l) := exponent_part l in
  (dbl_of_decimal neg (scan 10 0 (whole ++ frac)) (e - zlen frac), l).

(** The value, [None] for [ERANGE], and the text from [endptr] on. *)
Definition strtoll10 (lo hi : Z) (s : bytes) : option Z * bytes :=
  let '(neg, l) := scan_sign s in
  let '(ds, r) := span_digits l in
  let v := if neg then - scan 10 0 ds else scan 10 0 ds in
  (if (lo <=? v) && (v <=? hi) then Some v else None, r).

Definition isfinite (d : spec_float) : bool :=
  match d with S754_zero _ | S754_finite _ _ _ => true | _ => false end.

Module JsonSpec.
Import Json.

(** ** UTF-8 *)
Definition scalar (cp : Z) : Prop := 0 <= cp < 0xD800 \/ 0xE000 <= cp <= 0x10FFFF.
Definition utf8_encode (cp : Z) : bytes :=
  map byte_of_Z
    (if cp <? 0x80 then [cp]
     else if cp <? 0x800 then [0xC0 + cp / 64; 0x80 + cp mod 64]
     else if cp <? 0x10000 then [0xE0 + cp / 4096; 0x80 + cp / 64 mod 64; 0x80 + cp mod 64]
     else [0xF0 + cp / 262144; 0x80 + cp / 4096 mod 64; 0x80 + cp / 64 mod 64; 0x80 + cp mod 64]).
Inductive utf8 : bytes -> Prop :=
  | utf8_nil : utf8 []
  | utf8_char cp s : scalar cp -> utf8 s -> utf8 (utf8_encode cp ++ s).

(** ** Strings *)
Definition hex4 (h : bytes) (cp : Z) : Prop :=
  length h = 4%nat /\ Forall (fun b => is_Some (digit_value 16 b)) h /\ cp = scan 16 0 h.

Definition escape_of (e : byte) : option byte :=
  match e with
  | Byte.x22 => Some Byte.x22 | Byte.x5c => Some Byte.x5c | Byte.x2f => Some Byte.x2f
  | Byte.x62 => Some Byte.x08 | Byte.x66 => Some Byte.x0c | Byte.x6e => Some Byte.x0a
  | Byte.x72 => Some Byte.x0d | Byte.x74 => Some Byte.x09
  | _ => None
  end.

(** A character of a string, and the bytes it stands for. *)
Inductive char_text : bytes -> bytes -> Prop :=
  | ct_plain cp : scalar cp -> 0x20 <= cp -> cp <> 0x22 -> cp <> 0x5C ->
      char_text (utf8_encode cp) (utf8_encode cp)
  | ct_escape e c : escape_of e = Some c -> char_text [Byte.x5c; e] [c]
  | ct_unicode h cp : hex4 h cp -> scalar cp -> char_text (Byte.x5c :: Byte.x75 :: h) (utf8_encode cp)
  | ct_pair h1 h2 hi lo :
      hex4 h1 hi -> 0xD800 <= hi < 0xDC00 -> hex4 h2 lo -> 0xDC00 <= lo < 0xE000 ->
      char_text (Byte.x5c :: Byte.x75 :: h1 ++ Byte.x5c :: Byte.x75 :: h2)
        (utf8_encode (0x10000 + (hi - 0xD800) * 0x400 + (lo - 0xDC00))).
Inductive chars_text : bytes -> bytes -> Prop :=
  | cs_nil : chars_text [] []
  | cs_cons t s t' s' : char_text t s -> chars_text t' s' -> chars_text (t ++ t') (s ++ s').
Definition string_text (t s : bytes) : Prop := exists b, t = Byte.x22 :: b ++ [Byte.x22] /\ chars_text b s.

(** ** Numbers *)
Definition all_digits (ds : bytes) : Prop := Forall (fun b => is_digit b = true) ds.
Definition int_text (t : bytes) : Prop :=
  all_digits t /\ (t = [Byte.x30] \/ exists d ds, t = d :: ds /\ d <> Byte.x30).
Definition frac_text (t : bytes) : Prop := t = [] \/ exists ds, t = Byte.x2e :: ds /\ ds <> [] /\ all_digits ds.
Definition exp_text (t : bytes) : Prop :=
  t = [] \/ exists e sign ds, t = e :: sign ++ ds /\ (e = Byte.x65 \/ e = Byte.x45) /\
    (sign = [] \/ sign = [Byte.x2b] \/ sign = [Byte.x2d]) /\ ds <> [] /\ all_digits ds.

(** An integer becomes a double when it does not fit its 64 bits; a double
    must be finite. *)
Definition integer_value (neg : bool) (int : bytes) : option json :=
  let n := scan 10 0 int in
  if neg then (if n <=? 2 ^ 63 then Some (JInteger (- n)) else None)
  else if n <? 2 ^ 64 then Some (JUnsigned n) else None.
Definition minus (neg : bool) : bytes := if neg then [Byte.x2d] else [].
Inductive number_lexeme : bytes -> json -> Prop :=
  | nl_integer neg int v :
      int_text int -> integer_value neg int = Some v -> number_lexeme (minus neg ++ int) v
  | nl_float neg int frac exp t :
      t = minus neg ++ int ++ frac ++ exp -> int_text int -> frac_text frac -> exp_text exp ->
      (frac = [] -> exp = [] -> integer_value neg int = None) -> number_lexeme t (JFloat (strtod t).1).
Definition finite_number (v : json) : Prop := match v with JFloat d => isfinite d = true | _ => True end.
Definition number_text (t : bytes) (v : json) : Prop := number_lexeme t v /\ finite_number v.

(** ** Values *)
Definition space (b : byte) : Prop := b = Byte.x20 \/ b = Byte.x09 \/ b = Byte.x0a \/ b = Byte.x0d.
Definition spaces (w : bytes) : Prop := Forall space w.

(** Later members of an object replace earlier ones. *)
Definition object_of (l : list (bytes * json)) : gmap bytes json :=
  foldl (fun m (e : bytes * json) => <[e.1 := e.2]> m) ∅ l.

Inductive value_text : bytes -> json -> Prop :=
  | vt_null : value_text (str "null") JNull
  | vt_true : value_text (str "true") (JBoolean true)
  | vt_false : value_text (str "false") (JBoolean false)
  | vt_string t s : string_text t s -> value_text t (JString s)
  | vt_number t v : number_text t v -> value_text t v
  | vt_empty_array w : spaces w -> value_text (Byte.x5b :: w ++ [Byte.x5d]) (JArray [])
  | vt_array t l : elements_text t l -> value_text (Byte.x5b :: t ++ [Byte.x5d]) (JArray l)
  | vt_empty_object w : spaces w -> value_text (Byte.x7b :: w ++ [Byte.x7d]) (JObject ∅)
  | vt_object t l : members_text t l -> value_text (Byte.x7b :: t ++ [Byte.x7d]) (JObject (object_of l))
with elements_text : bytes -> list json -> Prop :=
  | et_one w1 t w2 v : spaces w1 -> value_text t v -> spaces w2 -> elements_text (w1 ++ t ++ w2) [v]
  | et_cons w1 t w2 v t' l :
      spaces w1 -> value_text t v -> spaces w2 -> elements_text t' l ->
      elements_text (w1 ++ t ++ w2 ++ Byte.x2c :: t') (v :: l)
with members_text : bytes -> list (bytes * json) -> Prop :=
  | mt_one w1 k s w2 w3 t w4 v :
      spaces w1 -> string_text k s -> spaces w2 -> spaces w3 -> value_text t v -> spaces w4 ->
      members_text (w1 ++ k ++ w2 ++ Byte.x3a :: w3 ++ t ++ w4) [(s, v)]
  | mt_cons w1 k s w2 w3 t w4 v t' l :
      spaces w1 -> string_text k s -> spaces w2 -> spaces w3 -> value_text t v -> spaces w4 ->
      members_text t' l ->
      members_text (w1 ++ k ++ w2 ++ Byte.x3a :: w3 ++ t ++ w4 ++ Byte.x2c :: t') ((s, v) :: l).

(** A whole text: an optional byte order mark, and the parser takes a NUL for
    the end of the text. *)
Definition text_end (r : bytes) : Prop := r = [] \/ exists r', r = Byte.x00 :: r'.
Definition json_text (text : bytes) (v : json) : Prop :=
  exists bom w1 t w2 r, text = bom ++ w1 ++ t ++ w2 ++ r /\
    (bom = [] \/ bom = [Byte.xef; Byte.xbb; Byte.xbf]) /\
    spaces w1 /\ value_text t v /\ spaces w2 /\ text_end r.

Scheme value_text_mut := Minimality for value_text Sort Prop
  with elements_text_mut := Minimality for elements_text Sort Prop
  with members_text_mut := Minimality for members_text Sort Prop.
Combined Scheme json_text_ind from value_text_mut, elements_text_mut, members_text_mut.

(** ** The values a text can denote *)
Inductive well_typed : json -> Prop :=
  | wt_null : well_typed JNull
  | wt_boolean b : well_typed (JBoolean b)
  | wt_unsigned n : 0 <= n < 2 ^ 64 -> well_typed (JUnsigned n)
  | wt_integer n : - 2 ^ 63 <= n <= 0 -> well_typed (JInteger n)
  | wt_float d : isfinite d = true -> well_typed (JFloat d)
  | wt_string s : utf8 s -> well_typed (JString s)
  | wt_array l : (forall v, v ∈ l -> well_typed v) -> well_typed (JArray l)
  | wt_object m :
      (forall k v, m !! k = Some v -> utf8 k) -> (forall k v, m !! k = Some v -> well_typed v) ->
      well_typed (JObject m).
End JsonSpec.
