(* ===== verification/JsonLexer.v ===== *)
(** * The JSON lexer: [class lexer] of src/opt/nlohmann/json.hpp

    The logic server parses the token of a connecting client as JSON.  This is
    the scanner underneath: it reads the bytes of the text one at a time, with
    one character of push-back, and cuts them into tokens.  Characters are
    [int]s from 0 to 255, the end of the input is -1.  The program runs in the
    C locale, whose decimal point is a dot. *)

From Stdlib Require Import ZArith Lia Floats.SpecFloat.
From stdpp Require Import base list gmap strings.
From S2P Require Import Prelude Text Json JsonSpec.
Local Open Scope Z_scope.

Module Lexer.

Inductive token_type :=
  | uninitialized
  | literal_true
  | literal_false
  | literal_null
  | value_string
  | value_unsigned
  | value_integer
  | value_float
  | begin_array
  | begin_object
  | end_array
  | end_object
  | name_separator
  | value_separator
  | parse_error
  | end_of_input
  | literal_or_value.
#[export] Instance token_type_eq_dec : EqDecision token_type.
Proof. solve_decision. Defined.

Definition token_type_name (t : token_type) : bytes :=
  match t with
  | uninitialized => str "<uninitialized>"
  | literal_true => str "true literal"
  | literal_false => str "false literal"
  | literal_null => str "null literal"
  | value_string => str "string literal"
  | value_unsigned | value_integer | value_float => str "number literal"
  | begin_array => str "'['"
  | begin_object => str "'{'"
  | end_array => str "']'"
  | end_object => str "'}'"
  | name_separator => str "':'"
  | value_separator => str "','"
  | parse_error => str "<parse error>"
  | end_of_input => str "end of input"
  | literal_or_value => str "'[', '{', or a literal"
  end.

(** The counters count the characters of a text in memory and do not wrap. *)
Record position_t := mkPos {
  chars_read_total : Z;
  chars_read_current_line : Z;
  lines_read : Z;
}.

Record lexer := mkLexer {
  ia : bytes;                     (** what the input adapter has left *)
  current : Z;
  next_unget : bool;
  position : position_t;
  token_string : bytes;
  token_buffer : bytes;
  error_message : bytes;
  v_integer : Z;                  (** [value_integer] and the like *)
  v_unsigned : Z;
  v_float : spec_float;
}.
Implicit Types lx : lexer.

Definition eof := -1.

Definition lexer_new (text : bytes) : lexer :=
  mkLexer text eof false (mkPos 0 0 0) [] [] [] 0 0 (S754_zero false).

Definition set_error (m : bytes) lx : lexer :=
  mkLexer (ia lx) (current lx) (next_unget lx) (position lx) (token_string lx) (token_buffer lx) m
    (v_integer lx) (v_unsigned lx) (v_float lx).
Definition set_buffer (b : bytes) lx : lexer :=
  mkLexer (ia lx) (current lx) (next_unget lx) (position lx) (token_string lx) b (error_message lx)
    (v_integer lx) (v_unsigned lx) (v_float lx).
Definition set_values (i u : Z) (f : spec_float) lx : lexer :=
  mkLexer (ia lx) (current lx) (next_unget lx) (position lx) (token_string lx) (token_buffer lx)
    (error_message lx) i u f.

(** [to_char_type] *)
Definition to_char (c : Z) : byte := byte_of_Z c.

(** [input_buffer_adapter::get_character] *)
Definition get_character (cursor : bytes) : Z * bytes :=
  match cursor with
  | b :: cursor => (byte_to_Z b, cursor)
  | [] => (eof, [])
  end.

Definition reset lx : lexer :=
  mkLexer (ia lx) (current lx) (next_unget lx) (position lx) [to_char (current lx)] [] (error_message lx)
    (v_integer lx) (v_unsigned lx) (v_float lx).

Definition get lx : Z * lexer :=
  let p := position lx in
  let total := chars_read_total p + 1 in
  let line := chars_read_current_line p + 1 in
  let '(c, rest) := if next_unget lx then (current lx, ia lx) else get_character (ia lx) in
  let ts := if c =? eof then token_string lx else token_string lx ++ [to_char c] in
  let p := if c =? 10 then mkPos total 0 (lines_read p + 1) else mkPos total line (lines_read p) in
  (c, mkLexer rest c false p ts (token_buffer lx) (error_message lx) (v_integer lx) (v_unsigned lx) (v_float lx)).

Definition unget lx : res lexer :=
  let p := position lx in
  let total := chars_read_total p - 1 in
  let p := if chars_read_current_line p =? 0
           then mkPos total (chars_read_current_line p)
                  (if 0 <? lines_read p then lines_read p - 1 else lines_read p)
           else mkPos total (chars_read_current_line p - 1) (lines_read p) in
  let* ts := (if current lx =? eof then Ok (token_string lx)
              else let* _ := assert (negb (bool_decide (token_string lx = []))) in
                   Ok (removelast (token_string lx))) in
  Ok (mkLexer (ia lx) (current lx) true p ts (token_buffer lx) (error_message lx)
        (v_integer lx) (v_unsigned lx) (v_float lx)).

Definition add (c : Z) lx : lexer := set_buffer (token_buffer lx ++ [to_char c]) lx.

(** ** Strings *)
Definition between (lo c hi : Z) : bool := (lo <=? c) && (c <=? hi).

(** The value of a hex digit as [get_codepoint] computes it. *)
Definition hex_value (c : Z) : option Z :=
  if between 48 c 57 then Some (c - 0x30)
  else if between 65 c 70 then Some (c - 0x37)
  else if between 97 c 102 then Some (c - 0x57)
  else None.

Fixpoint codepoint_loop (factors : list Z) (codepoint : Z) lx : Z * lexer :=
  match factors with
  | [] => (codepoint, lx)
  | factor :: factors =>
      let '(c, lx) := get lx in
      match hex_value c with
      | Some v => codepoint_loop factors (codepoint + Z.shiftl v factor) lx
      | None => (-1, lx)
      end
  end.

Definition get_codepoint lx : res (Z * lexer) :=
  let* _ := assert (current lx =? 117) in
  let '(codepoint, lx) := codepoint_loop [12; 8; 4; 0] 0 lx in
  let* _ := assert ((codepoint =? -1) || between 0 codepoint 0xFFFF) in
  Ok (codepoint, lx).

Fixpoint bytes_in_range (ranges : list (Z * Z)) lx : bool * lexer :=
  match ranges with
  | [] => (true, lx)
  | (lo, hi) :: ranges =>
      let '(c, lx) := get lx in
      if between lo c hi then bytes_in_range ranges (add c lx)
      else (false, set_error (str "invalid string: ill-formed UTF-8 byte") lx)
  end.
(** The ranges as pairs. *)
Definition next_byte_in_range (ranges : list (Z * Z)) lx : bool * lexer :=
  bytes_in_range ranges (add (current lx) lx).

(** The bytes of a code point. *)
Definition codepoint_bytes (codepoint : Z) : list Z :=
  if codepoint <? 0x80 then [codepoint]
  else if codepoint <=? 0x7FF then
    [Z.lor 0xC0 (Z.shiftr codepoint 6); Z.lor 0x80 (Z.land codepoint 0x3F)]
  else if codepoint <=? 0xFFFF then
    [Z.lor 0xE0 (Z.shiftr codepoint 12); Z.lor 0x80 (Z.land (Z.shiftr codepoint 6) 0x3F);
     Z.lor 0x80 (Z.land codepoint 0x3F)]
  else
    [Z.lor 0xF0 (Z.shiftr codepoint 18); Z.lor 0x80 (Z.land (Z.shiftr codepoint 12) 0x3F);
     Z.lor 0x80 (Z.land (Z.shiftr codepoint 6) 0x3F); Z.lor 0x80 (Z.land codepoint 0x3F)].
Definition add_all (cs : list Z) lx : lexer := foldl (fun lx c => add c lx) lx cs.

Definition hex_error : bytes := str "invalid string: '\u' must be followed by 4 hex digits".
Definition low_error : bytes :=
  str "invalid string: surrogate U+DC00..U+DFFF must be followed by U+DC00..U+DFFF".
Definition high_error : bytes :=
  str "invalid string: surrogate U+DC00..U+DFFF must follow U+D800..U+DBFF".

(** The second half of a surrogate pair: the code point, or [None] with the
    error message set. *)
Definition scan_surrogate (codepoint1 : Z) lx : res (option Z * lexer) :=
  let '(c, lx) := get lx in
  if c =? 92 then
    let '(c, lx) := get lx in
    if c =? 117 then
      let* (codepoint2, lx) := get_codepoint lx in
      if codepoint2 =? -1 then Ok (None, set_error hex_error lx)
      else if between 0xDC00 codepoint2 0xDFFF then
        Ok (Some (u32 (Z.shiftl codepoint1 10 + codepoint2 - 0x35FDC00)), lx)
      else Ok (None, set_error low_error lx)
    else Ok (None, set_error low_error lx)
  else Ok (None, set_error low_error lx).

(** [case 'u'] *)
Definition scan_unicode lx : res (bool * lexer) :=
  let* (codepoint1, lx) := get_codepoint lx in
  if codepoint1 =? -1 then Ok (false, set_error hex_error lx)
  else
    let* (codepoint, lx) :=
      (if between 0xD800 codepoint1 0xDBFF then scan_surrogate codepoint1 lx
       else if between 0xDC00 codepoint1 0xDFFF then Ok (None, set_error high_error lx)
       else Ok (Some codepoint1, lx)) in
    match codepoint with
    | None => Ok (false, lx)
    | Some codepoint =>
        let* _ := assert (between 0 codepoint 0x10FFFF) in
        Ok (true, add_all (codepoint_bytes codepoint) lx)
    end.

(** [case '\\']: whether the escape was good. *)
Definition scan_escape lx : res (bool * lexer) :=
  let '(c, lx) := get lx in
  if c =? 34 then Ok (true, add 34 lx)
  else if c =? 92 then Ok (true, add 92 lx)
  else if c =? 47 then Ok (true, add 47 lx)
  else if c =? 98 then Ok (true, add 8 lx)
  else if c =? 102 then Ok (true, add 12 lx)
  else if c =? 110 then Ok (true, add 10 lx)
  else if c =? 114 then Ok (true, add 13 lx)
  else if c =? 116 then Ok (true, add 9 lx)
  else if c =? 117 then scan_unicode lx
  else Ok (false, set_error (str "invalid string: forbidden character after backslash") lx).

(** The names of the control characters, by code, and the short escapes their
    messages mention: U+0000 to U+000F, and U+0010 to U+001F. *)
Definition control_names_0 : list (bytes * bytes) :=
  [(str "NUL", []); (str "SOH", []); (str "STX", []); (str "ETX", []); (str "EOT", []); (str "ENQ", []);
   (str "ACK", []); (str "BEL", []); (str "BS", str " or \b"); (str "HT", str " or \t"); (str "LF", str " or \n");
   (str "VT", []); (str "FF", str " or \f"); (str "CR", str " or \r"); (str "SO", []); (str "SI", [])].
Definition control_names_1 : list (bytes * bytes) :=
  [(str "DLE", []); (str "DC1", []); (str "DC2", []); (str "DC3", []); (str "DC4", []); (str "NAK", []);
   (str "SYN", []); (str "ETB", []); (str "CAN", []); (str "EM", []); (str "SUB", []); (str "ESC", []);
   (str "FS", []); (str "GS", []); (str "RS", []); (str "US", [])].
Definition hex_upper (n : Z) : byte := byte_of_Z (if n <? 10 then 48 + n else 55 + n).
Definition hex4_upper (n : Z) : bytes :=
  [hex_upper (n / 4096 mod 16); hex_upper (n / 256 mod 16); hex_upper (n / 16 mod 16); hex_upper (n mod 16)].
Definition control_message (c : Z) : bytes :=
  let '(name, alt) := default ([], []) ((control_names_0 ++ control_names_1) !! Z.to_nat c) in
  str "invalid string: control character U+" ++ hex4_upper c ++ str " (" ++ name ++ str ") must be escaped to \u" ++
  hex4_upper c ++ alt.

(** The ranges of the bytes that must follow a byte of a string; [None] for a
    byte that cannot start a character. *)
Definition utf8_ranges (c : Z) : option (list (Z * Z)) :=
  if between 0xC2 c 0xDF then Some [(0x80, 0xBF)]
  else if c =? 0xE0 then Some [(0xA0, 0xBF); (0x80, 0xBF)]
  else if between 0xE1 c 0xEC || between 0xEE c 0xEF then Some [(0x80, 0xBF); (0x80, 0xBF)]
  else if c =? 0xED then Some [(0x80, 0x9F); (0x80, 0xBF)]
  else if c =? 0xF0 then Some [(0x90, 0xBF); (0x80, 0xBF); (0x80, 0xBF)]
  else if between 0xF1 c 0xF3 then Some [(0x80, 0xBF); (0x80, 0xBF); (0x80, 0xBF)]
  else if c =? 0xF4 then Some [(0x80, 0x8F); (0x80, 0xBF); (0x80, 0xBF)]
  else None.

(** The characters copied as they are. *)
Definition is_plain (c : Z) : bool := between 0x20 c 0x7F && negb (c =? 34) && negb (c =? 92).

Fixpoint scan_string_loop (fuel : nat) lx : res (token_type * lexer) :=
  match fuel with
  | O => Err OutOfFuel
  | S fuel =>
      let '(c, lx) := get lx in
      if c =? eof then Ok (parse_error, set_error (str "invalid string: missing closing quote") lx)
      else if c =? 34 then Ok (value_string, lx)
      else if c =? 92 then
        let* (ok, lx) := scan_escape lx in
        if ok then scan_string_loop fuel lx else Ok (parse_error, lx)
      else if between 0x00 c 0x1F then Ok (parse_error, set_error (control_message c) lx)
      else if is_plain c then scan_string_loop fuel (add c lx)
      else match utf8_ranges c with
           | Some ranges =>
               let '(ok, lx) := next_byte_in_range ranges lx in
               if ok then scan_string_loop fuel lx else Ok (parse_error, lx)
           | None => Ok (parse_error, set_error (str "invalid string: ill-formed UTF-8 byte") lx)
           end
  end.

(** Each round reads a character, and the end of the input ends the loop. *)
Definition scan_string lx : res (token_type * lexer) :=
  let lx := reset lx in
  let* _ := assert (current lx =? 34) in
  scan_string_loop (S (S (length (ia lx)))) lx.

(** ** Numbers: one state per label of [scan_number] *)
Inductive number_state :=
  | number_minus
  | number_zero
  | number_any1
  | number_decimal1
  | number_decimal2
  | number_exponent
  | number_sign
  | number_any2
  | number_done.
#[export] Instance number_state_eq_dec : EqDecision number_state.
Proof. solve_decision. Defined.

Definition digit_1_9 (c : Z) : bool := between 49 c 57.
Definition digit_0_9 (c : Z) : bool := between 48 c 57.
Definition is_e (c : Z) : bool := (c =? 101) || (c =? 69).

(** What follows a character in a state: [inl m] is the error [m]. *)
Definition next_minus (c : Z) : bytes + number_state :=
  if c =? 48 then inr number_zero
  else if digit_1_9 c then inr number_any1
  else inl (str "invalid number; expected digit after '-'").
Definition next_zero (c : Z) : bytes + number_state :=
  if c =? 46 then inr number_decimal1
  else if is_e c then inr number_exponent
  else inr number_done.
Definition next_any1 (c : Z) : bytes + number_state :=
  if digit_0_9 c then inr number_any1
  else if c =? 46 then inr number_decimal1
  else if is_e c then inr number_exponent
  else inr number_done.
Definition next_decimal1 (c : Z) : bytes + number_state :=
  if digit_0_9 c then inr number_decimal2
  else inl (str "invalid number; expected digit after '.'").
Definition next_decimal2 (c : Z) : bytes + number_state :=
  if digit_0_9 c then inr number_decimal2
  else if is_e c then inr number_exponent
  else inr number_done.
Definition next_exponent (c : Z) : bytes + number_state :=
  if (c =? 43) || (c =? 45) then inr number_sign
  else if digit_0_9 c then inr number_any2
  else inl (str "invalid number; expected '+', '-', or digit after exponent").
Definition next_sign (c : Z) : bytes + number_state :=
  if digit_0_9 c then inr number_any2
  else inl (str "invalid number; expected digit after exponent sign").
Definition next_any2 (c : Z) : bytes + number_state :=
  if digit_0_9 c then inr number_any2 else inr number_done.
Definition number_next (st : number_state) : Z -> bytes + number_state :=
  match st with
  | number_minus => next_minus
  | number_zero => next_zero
  | number_any1 => next_any1
  | number_decimal1 => next_decimal1
  | number_decimal2 => next_decimal2
  | number_exponent => next_exponent
  | number_sign => next_sign
  | number_any2 => next_any2
  | number_done => fun _ => inr number_done
  end.

(** What entering a state does to [number_type]. *)
Definition number_enter (st : number_state) (number_type : token_type) : token_type :=
  match st with
  | number_minus => value_integer
  | number_decimal1 | number_exponent => value_float
  | _ => number_type
  end.

(** [None]: a [parse_error]. *)
Fixpoint scan_number_loop (fuel : nat) (st : number_state) (number_type : token_type) lx
    : res (option token_type * lexer) :=
  match st with
  | number_done => Ok (Some number_type, lx)
  | _ =>
      match fuel with
      | O => Err OutOfFuel
      | S fuel =>
          let number_type := number_enter st number_type in
          let '(c, lx) := get lx in
          match number_next st c with
          | inl m => Ok (None, set_error m lx)
          | inr number_done => Ok (Some number_type, lx)
          | inr st' => scan_number_loop fuel st' number_type (add c lx)
          end
      end
  end.

(** [scan_number_done]: the conversion with [strtof], and the whole. *)
Definition number_as_float lx : res (token_type * lexer) :=
  let '(x, rest) := strtod (token_buffer lx) in
  let* _ := assert (bool_decide (rest = [])) in
  Ok (value_float, set_values (v_integer lx) (v_unsigned lx) x lx).
Definition scan_number_done (number_type : token_type) lx : res (token_type * lexer) :=
  let* lx := unget lx in
  match number_type with
  | value_unsigned =>
      let '(x, rest) := strtoll10 0 (2 ^ 64 - 1) (token_buffer lx) in
      let* _ := assert (bool_decide (rest = [])) in
      match x with
      | Some x => Ok (value_unsigned, set_values (v_integer lx) x (v_float lx) lx)
      | None => number_as_float lx
      end
  | value_integer =>
      let '(x, rest) := strtoll10 (- 2 ^ 63) (2 ^ 63 - 1) (token_buffer lx) in
      let* _ := assert (bool_decide (rest = [])) in
      match x with
      | Some x => Ok (value_integer, set_values x (v_unsigned lx) (v_float lx) lx)
      | None => number_as_float lx
      end
  | _ => number_as_float lx
  end.

Definition scan_number lx : res (token_type * lexer) :=
  let lx := reset lx in
  let* st := (if current lx =? 45 then Ok number_minus
              else if current lx =? 48 then Ok number_zero
              else if digit_1_9 (current lx) then Ok number_any1
              else Err AssertFailed) in
  let lx := add (current lx) lx in
  let* (t, lx) := scan_number_loop (S (S (length (ia lx)))) st value_unsigned lx in
  match t with
  | Some number_type => scan_number_done number_type lx
  | None => Ok (parse_error, lx)
  end.

(** ** Literals and the scanner *)
Fixpoint literal_loop (text : bytes) lx : bool * lexer :=
  match text with
  | [] => (true, lx)
  | b :: text =>
      let '(c, lx) := get lx in
      if c =? byte_to_Z b then literal_loop text lx else (false, set_error (str "invalid literal") lx)
  end.
Definition scan_literal (literal_text : bytes) (return_type : token_type) lx : res (token_type * lexer) :=
  match literal_text with
  | [] => Err UB
  | b :: text =>
      let* _ := assert (current lx =? byte_to_Z b) in
      let '(ok, lx) := literal_loop text lx in
      Ok (if ok then return_type else parse_error, lx)
  end.

Definition skip_bom lx : res (bool * lexer) :=
  let '(c, lx) := get lx in
  if c =? 0xEF then
    let '(c, lx) := get lx in
    if c =? 0xBB then
      let '(c, lx) := get lx in Ok (c =? 0xBF, lx)
    else Ok (false, lx)
  else
    let* lx := unget lx in Ok (true, lx).

Definition is_space (c : Z) : bool := (c =? 32) || (c =? 9) || (c =? 10) || (c =? 13).
Fixpoint skip_space (fuel : nat) lx : res lexer :=
  match fuel with
  | O => Err OutOfFuel
  | S fuel => let '(c, lx) := get lx in if is_space c then skip_space fuel lx else Ok lx
  end.

(** The switch on the first character of a token. *)
Definition scan_token lx : res (token_type * lexer) :=
  let c := current lx in
  if c =? 91 then Ok (begin_array, lx)
  else if c =? 93 then Ok (end_array, lx)
  else if c =? 123 then Ok (begin_object, lx)
  else if c =? 125 then Ok (end_object, lx)
  else if c =? 58 then Ok (name_separator, lx)
  else if c =? 44 then Ok (value_separator, lx)
  else if c =? 116 then scan_literal (str "true") literal_true lx
  else if c =? 102 then scan_literal (str "false") literal_false lx
  else if c =? 110 then scan_literal (str "null") literal_null lx
  else if c =? 34 then scan_string lx
  else if (c =? 45) || digit_0_9 c then scan_number lx
  else if (c =? 0) || (c =? eof) then Ok (end_of_input, lx)
  else Ok (parse_error, set_error (str "invalid literal") lx).

Definition scan lx : res (token_type * lexer) :=
  let* (bom_ok, lx) := (if chars_read_total (position lx) =? 0 then skip_bom lx else Ok (true, lx)) in
  if negb bom_ok then
    Ok (parse_error, set_error (str "invalid BOM; must be 0xEF 0xBB 0xBF if given") lx)
  else
    let* lx := skip_space (S (S (length (ia lx)))) lx in
    scan_token lx.

(** [get_token_string]: the raw text of the token, for error messages; [char]
    is signed. *)
Definition get_token_string lx : bytes :=
  concat (map (fun b => if byte_to_Z b <=? 0x1F then str "<U+" ++ hex4_upper (byte_to_Z b) ++ str ">" else [b])
            (token_string lx)).

(** ** UTF-8: the tables of the code are the encoding of the scalar values *)
Section utf8.
Import JsonSpec.
#[local] Ltac Zify.zify_post_hook ::= Z.to_euclidean_division_equations.

Lemma between_spec lo c hi : between lo c hi = true <-> lo <= c <= hi.
Proof. unfold between. rewrite andb_true_iff, !Z.leb_le. done. Qed.

Definition in_range (r : Z * Z) (b : byte) : Prop := r.1 <= byte_to_Z b <= r.2.

Lemma codepoint_bytes_encode cp : 0 <= cp <= 0x10FFFF -> map to_char (codepoint_bytes cp) = utf8_encode cp.
Proof.
  intros Hcp. unfold codepoint_bytes, utf8_encode, to_char.
  assert (forall x, Z.lor 0x80 (Z.land x 0x3F) = 0x80 + x mod 64) as H6.
  { intros x. change 0x3F with (Z.ones 6). rewrite (Z.land_ones x 6) by lia.
    apply (lor_low 2 _ 6); [lia|apply Z.mod_pos_bound; lia]. }
  rewrite !H6, !Z.shiftr_div_pow2 by lia.
  change (2 ^ 6) with 64. change (2 ^ 12) with 4096. change (2 ^ 18) with 262144.
  destruct (Z.ltb_spec cp 0x80); [done|].
  destruct (Z.leb_spec cp 0x7FF), (Z.ltb_spec cp 0x800); try lia.
  { by rewrite (lor_low 6 (cp / 64) 5 ltac:(lia) ltac:(lia) : Z.lor 0xC0 _ = _). }
  destruct (Z.leb_spec cp 0xFFFF), (Z.ltb_spec cp 0x10000); try lia.
  { by rewrite (lor_low 14 (cp / 4096) 4 ltac:(lia) ltac:(lia) : Z.lor 0xE0 _ = _). }
  by rewrite (lor_low 30 (cp / 262144) 3 ltac:(lia) ltac:(lia) : Z.lor 0xF0 _ = _).
Qed.

Lemma bytes_eq l1 l2 : map byte_to_Z l1 = l2 -> l1 = map byte_of_Z l2.
Proof.
  intros <-. rewrite map_map. rewrite <- (map_id l1) at 1. apply map_ext. intros b. by rewrite byte_of_to_Z.
Qed.

#[local] Ltac encode :=
  unfold utf8_encode;
  repeat match goal with |- context [?a <? ?b] => destruct (Z.ltb_spec a b); try lia end;
  symmetry; apply bytes_eq; cbn [map]; repeat f_equal; lia.

Lemma encode2 b y :
  0xC2 <= byte_to_Z b <= 0xDF -> 0x80 <= byte_to_Z y <= 0xBF ->
  utf8_encode ((byte_to_Z b - 0xC0) * 64 + (byte_to_Z y - 0x80)) = [b; y].
Proof. intros Hb Hy. encode. Qed.
Lemma encode3 b y z :
  0xE0 <= byte_to_Z b <= 0xEF -> 0x80 <= byte_to_Z y <= 0xBF -> 0x80 <= byte_to_Z z <= 0xBF ->
  (byte_to_Z b = 0xE0 -> 0xA0 <= byte_to_Z y) ->
  utf8_encode ((byte_to_Z b - 0xE0) * 4096 + (byte_to_Z y - 0x80) * 64 + (byte_to_Z z - 0x80)) = [b; y; z].
Proof. intros Hb Hy Hz H0. encode. Qed.
Lemma encode4 b y z w :
  0xF0 <= byte_to_Z b <= 0xF4 -> 0x80 <= byte_to_Z y <= 0xBF -> 0x80 <= byte_to_Z z <= 0xBF ->
  0x80 <= byte_to_Z w <= 0xBF -> (byte_to_Z b = 0xF0 -> 0x90 <= byte_to_Z y) ->
  utf8_encode ((byte_to_Z b - 0xF0) * 262144 + (byte_to_Z y - 0x80) * 4096 + (byte_to_Z z - 0x80) * 64 +
    (byte_to_Z w - 0x80)) = [b; y; z; w].
Proof. intros Hb Hy Hz Hw H0. encode. Qed.

Lemma utf8_ranges_shape c ranges :
  utf8_ranges c = Some ranges ->
  (0xC2 <= c <= 0xDF /\ ranges = [(0x80, 0xBF)]) \/
  (0xE0 <= c <= 0xEF /\
   ranges = [(if c =? 0xE0 then 0xA0 else 0x80, if c =? 0xED then 0x9F else 0xBF); (0x80, 0xBF)]) \/
  (0xF0 <= c <= 0xF4 /\
   ranges = [(if c =? 0xF0 then 0x90 else 0x80, if c =? 0xF4 then 0x8F else 0xBF); (0x80, 0xBF); (0x80, 0xBF)]).
Proof.
  unfold utf8_ranges. intros Hr.
  repeat case_match; simplify_eq; rewrite ?orb_true_iff, ?between_spec in *; simplify_eq; eauto with lia;
    rewrite ?Z.eqb_neq in *; try lia; eauto with lia.
Qed.

(** A first byte and bytes in its ranges are the encoding of a scalar value. *)
Lemma ranges_encode b bs ranges :
  utf8_ranges (byte_to_Z b) = Some ranges -> Forall2 in_range ranges bs ->
  exists cp, scalar cp /\ 0x80 <= cp /\ b :: bs = utf8_encode cp.
Proof.
  intros [[Hb ->]|[[Hb ->]|[Hb ->]]]%utf8_ranges_shape HF; unfold in_range in HF; decompose_Forall_hyps;
    match goal with
    | |- context [[b; ?y]] => rewrite <- (encode2 b y) by lia
    | |- context [[b; ?y; ?z]] =>
        rewrite <- (encode3 b y z) by (try destruct (Z.eqb_spec (byte_to_Z b) 0xE0); case_match; lia)
    | |- context [[b; ?y; ?z; ?w]] =>
        rewrite <- (encode4 b y z w) by (try destruct (Z.eqb_spec (byte_to_Z b) 0xF0); case_match; lia)
    end; eexists; (split; [|split; [|reflexivity]]); unfold scalar;
    repeat match goal with H : context [byte_to_Z b =? ?k] |- _ => destruct (Z.eqb_spec (byte_to_Z b) k) end; lia.
Qed.

(** And the encoding of a scalar value is accepted. *)
Lemma encode_ranges cp :
  scalar cp -> 0x80 <= cp ->
  exists b bs, utf8_encode cp = b :: bs /\ 0x80 <= byte_to_Z b /\
    match utf8_ranges (byte_to_Z b) with Some ranges => Forall2 in_range ranges bs | None => False end.
Proof.
  intros Hs Hcp. unfold scalar in Hs. unfold utf8_encode.
  destruct (Z.ltb_spec cp 0x80); [lia|].
  destruct (Z.ltb_spec cp 0x800); [|destruct (Z.ltb_spec cp 0x10000)]; cbn [map];
    eexists _, _; (split; [reflexivity|]); rewrite byte_to_of_Z, Z.mod_small by lia;
    (split; [lia|]); unfold utf8_ranges, between;
    repeat match goal with
    | |- context [?a <=? ?b] => destruct (Z.leb_spec a b); try lia; cbn [andb orb]
    | |- context [?a =? ?b] => destruct (Z.eqb_spec a b); try lia
    end; repeat constructor; unfold in_range; rewrite ?byte_to_of_Z; cbn [fst snd];
    rewrite Z.mod_small; lia.
Qed.
Lemma encode_ascii cp : cp < 0x80 -> utf8_encode cp = [byte_of_Z cp].
Proof. intros H. unfold utf8_encode. by rewrite (proj2 (Z.ltb_lt cp 0x80)). Qed.
End utf8.
End Lexer.
