(* ===== verification/JsonScan.v ===== *)
(** * The JSON lexer is right

    The scanner of JsonLexer.v against the grammar of JsonSpec.v: on every text
    it ends without a failed assertion, a token it accepts is the lexeme of the
    grammar with the value the grammar gives it, and a lexeme is accepted. *)

From Stdlib Require Import ZArith Lia Floats.SpecFloat.
From stdpp Require Import base list gmap strings.
From S2P Require Import Prelude Text Json JsonSpec JsonLexer.
Local Open Scope Z_scope.

Module Scan.
Import Json JsonSpec Lexer.
Implicit Types lx : lexer.

(** ** The state of the lexer

    [ready n r buf lx]: the next characters are [r], the one pushed back
    included, [n] were read, and [buf] is the value of the string so far;
    [seen c n r buf lx]: the same just after the character [c] was read. *)
Definition ready (n : Z) (r buf : bytes) lx : Prop :=
  token_buffer lx = buf /\ chars_read_total (position lx) = n /\
  if next_unget lx
  then match r with [] => current lx = eof /\ ia lx = [] | b :: r => current lx = byte_to_Z b /\ ia lx = r end
  else ia lx = r.
Definition seen (c n : Z) (r buf : bytes) lx : Prop :=
  current lx = c /\ (c = eof \/ token_string lx <> []) /\ next_unget lx = false /\ ready n r buf lx.

Lemma byte_not_eof b : (byte_to_Z b =? eof) = false.
Proof. apply Z.eqb_neq. pose proof (byte_to_Z_range b). unfold eof. lia. Qed.

Lemma get_cons n b r buf lx :
  ready n (b :: r) buf lx -> exists lx', get lx = (byte_to_Z b, lx') /\ seen (byte_to_Z b) (n + 1) r buf lx'.
Proof.
  intros (Hb & Hn & Hr). unfold get.
  assert ((if next_unget lx then (current lx, ia lx) else get_character (ia lx)) = (byte_to_Z b, r)) as ->.
  { destruct (next_unget lx); [by destruct Hr as [-> ->]|]. by rewrite Hr. }
  eexists. split; [reflexivity|]. rewrite byte_not_eof.
  destruct (byte_to_Z b =? 10); unfold seen, ready; cbn; rewrite Hb, <- Hn; 
    (split; [done|]); (split; [right; by destruct (token_string lx)|]); auto.
Qed.
Lemma get_nil n buf lx :
  ready n [] buf lx -> exists lx', get lx = (eof, lx') /\ seen eof (n + 1) [] buf lx'.
Proof.
  intros (Hb & Hn & Hr). unfold get.
  assert ((if next_unget lx then (current lx, ia lx) else get_character (ia lx)) = (eof, [])) as ->.
  { destruct (next_unget lx); [by destruct Hr as [-> ->]|]. by rewrite Hr. }
  eexists. split; [reflexivity|]. unfold seen, ready. cbn. rewrite Hn. auto 7.
Qed.

(** The next character, as the code sees it. *)
Definition head_char (r : bytes) : Z := match r with [] => eof | b :: _ => byte_to_Z b end.
Lemma get_head n r buf lx :
  ready n r buf lx -> exists lx', get lx = (head_char r, lx') /\ seen (head_char r) (n + 1) (tail r) buf lx'.
Proof. destruct r; [apply get_nil|apply get_cons]. Qed.
Lemma head_char_byte r b : head_char r = byte_to_Z b <-> exists r', r = b :: r'.
Proof.
  split; [|by intros [? ->]]. destruct r as [|b' r]; simpl; intros H.
  - pose proof (byte_to_Z_range b). unfold eof in H. lia.
  - apply byte_to_Z_inj in H as ->. eauto.
Qed.

Lemma seen_ready c n r buf lx : seen c n r buf lx -> ready n r buf lx.
Proof. by intros (_ & _ & _ & H). Qed.
Lemma seen_current c n r buf lx : seen c n r buf lx -> current lx = c.
Proof. by intros (H & _). Qed.
Lemma seen_ia c n r buf lx : seen c n r buf lx -> ia lx = r.
Proof. intros (_ & _ & Hu & _ & _ & H). by rewrite Hu in H. Qed.
Lemma seen_total c n r buf lx : seen c n r buf lx -> chars_read_total (position lx) = n.
Proof. by intros (_ & _ & _ & _ & H & _). Qed.
Lemma seen_buffer c n r buf lx : seen c n r buf lx -> token_buffer lx = buf.
Proof. by intros (_ & _ & _ & H & _). Qed.
Lemma add_seen c' c n r buf lx : seen c n r buf lx -> seen c n r (buf ++ [to_char c']) (add c' lx).
Proof. intros (Hc & Ht & Hu & Hb & Hn & Hr). unfold seen, ready. cbn. rewrite Hb. auto 7. Qed.
Lemma add_all_seen cs c n r buf lx :
  seen c n r buf lx -> seen c n r (buf ++ map to_char cs) (add_all cs lx).
Proof.
  revert buf lx. induction cs as [|c' cs IH]; intros buf lx H; [by rewrite app_nil_r|].
  cbn [map]. rewrite cons_middle, app_assoc. by apply IH, add_seen.
Qed.
Lemma reset_seen c n r buf lx : seen c n r buf lx -> seen c n r [] (reset lx).
Proof. intros (Hc & Ht & Hu & Hb & Hn & Hr). unfold seen, ready. cbn. auto 7. Qed.

Lemma unget_seen c n r r0 buf lx :
  seen c n r buf lx -> c = head_char r0 -> r = tail r0 ->
  exists lx', unget lx = Ok lx' /\ ready (n - 1) r0 buf lx'.
Proof.
  intros (Hc & Ht & Hu & Hb & Hn & Hr) -> ->. rewrite Hu in Hr. unfold unget. rewrite Hc.
  destruct r0 as [|b r0]; cbn [head_char tail] in *.
  - eexists. split; [reflexivity|]. unfold ready. cbn [token_buffer position next_unget current ia].
    rewrite <- Hn. split; [done|]. split; [by case_match|done].
  - rewrite byte_not_eof. rewrite bool_decide_eq_false_2.
    2:{ destruct Ht as [Ht|Ht]; [|done]. pose proof (byte_not_eof b) as Hb'. rewrite Ht in Hb'. done. }
    eexists. split; [reflexivity|]. unfold ready. cbn [token_buffer position next_unget current ia].
    rewrite <- Hn. split; [done|]. split; [by case_match|done].
Qed.
Lemma ready_set_values n r buf i u f lx : ready n r buf lx -> ready n r buf (set_values i u f lx).
Proof. done. Qed.
Create HintDb lex.
#[export] Hint Resolve seen_ready add_seen add_all_seen reset_seen : lex.

(** Read a character. *)
Ltac step_with H :=
  let lx' := fresh "lx" in let E := fresh "E" in let Hs := fresh "Hs" in
  destruct (get_head _ _ _ _ H) as (lx' & E & Hs); rewrite E; cbn [head_char tail app] in Hs |- *; clear E.
Ltac step := match goal with
  | H : ready _ _ _ ?lx |- context [get ?lx] => step_with H
  | H : seen _ _ _ _ ?lx |- context [get ?lx] => step_with (seen_ready _ _ _ _ _ H)
  end.

(** ** Strings *)
Lemma hex_value_digit b : hex_value (byte_to_Z b) = digit_value 16 b.
Proof. by destruct b. Qed.
Lemma hex_value_eof : hex_value eof = None.
Proof. done. Qed.

Definition hex_prefix (r : bytes) : Prop := exists h r' cp, r = h ++ r' /\ hex4 h cp.

Lemma hex_digits fs cp0 c n r buf lx :
  seen c n r buf lx ->
  exists lx',
    (exists h r' vs c, r = h ++ r' /\ length h = length fs /\ Forall2 (fun b v => digit_value 16 b = Some v) h vs /\
      codepoint_loop fs cp0 lx = (foldl (fun cp vf => cp + Z.shiftl vf.1 vf.2) cp0 (zip vs fs), lx') /\
      seen c (n + zlen h) r' buf lx') \/
    (codepoint_loop fs cp0 lx = (-1, lx') /\
     ~ exists h r', r = h ++ r' /\ length h = length fs /\ Forall (fun b => is_Some (digit_value 16 b)) h).
Proof.
  revert cp0 c n r lx. induction fs as [|f fs IH]; intros cp0 c n r lx H.
  - exists lx. left. exists [], r, [], c. cbn. rewrite Z.add_0_r. auto 7.
  - cbn [codepoint_loop]. step. destruct r as [|b r]; cbn [head_char tail] in *.
    + rewrite hex_value_eof. eexists. right. split; [done|]. intros (h & r' & Hr & Hl & _). by destruct h.
    + rewrite hex_value_digit. destruct (digit_value 16 b) as [v|] eqn:Ev.
      * destruct (IH (cp0 + Z.shiftl v f) _ _ _ _ Hs) as
          (lx' & [(h & r' & vs & c' & -> & Hl & HF & -> & Hc)|[-> Hno]]); exists lx'; [left|right].
        -- exists (b :: h), r', (v :: vs), c'. cbn [length zip foldl fst snd]. rewrite Hl, zlen_cons.
           replace (n + (1 + zlen h)) with (n + 1 + zlen h) by lia. auto 7.
        -- split; [done|]. intros (h & r' & Hr & Hl & HF). destruct h as [|b' h]; [done|]. simplify_list_eq.
           inversion HF. apply Hno. eauto.
      * eexists. right. split; [done|]. intros (h & r' & Hr & Hl & HF). destruct h as [|b' h]; [done|]. simplify_list_eq.
        inversion HF as [|? ? [? Hd]]. congruence.
Qed.

Lemma digit_value_range base b v : 0 < base -> digit_value base b = Some v -> 0 <= v < base.
Proof.
  unfold digit_value. pose proof (byte_to_Z_range b). intros Hb. cbv zeta.
  destruct (Z.leb_spec 48 (byte_to_Z b)), (Z.leb_spec (byte_to_Z b) 57), (Z.leb_spec 97 (byte_to_Z b)),
    (Z.leb_spec (byte_to_Z b) 102), (Z.leb_spec 65 (byte_to_Z b)), (Z.leb_spec (byte_to_Z b) 70); cbn [andb];
    match goal with |- context [?a <? ?b] => destruct (Z.ltb_spec a b); intros; simplify_eq; lia end.
Qed.

Lemma hex4_range h cp : hex4 h cp -> 0 <= cp < 65536.
Proof.
  intros (Hl & HF & ->). do 5 (destruct h as [|? h]; [try done|]); [|done]. decompose_Forall_hyps.
  cbn [Text.scan]. repeat match goal with
  | H : is_Some (digit_value 16 ?b) |- _ =>
      let v := fresh "v" in let E := fresh "E" in destruct H as [v E]; rewrite E;
      pose proof (digit_value_range 16 _ _ eq_refl E)
  end. lia.
Qed.

Lemma hex4_value h vs :
  length h = 4%nat -> Forall2 (fun b v => digit_value 16 b = Some v) h vs ->
  hex4 h (foldl (fun cp vf => cp + Z.shiftl vf.1 vf.2) 0 (zip vs [12; 8; 4; 0])).
Proof.
  intros Hl HF. split; [done|]. split.
  - by eapply Forall2_Forall_l; [exact HF|]; eapply Forall_true; eauto.
  - do 5 (destruct h as [|? h]; [try done|]); [|done]. decompose_Forall_hyps. cbn [Text.scan zip foldl fst snd].
    repeat match goal with E : digit_value 16 _ = _ |- _ => rewrite E; clear E end.
    rewrite !Z.shiftl_mul_pow2 by lia. lia.
Qed.

(** [get_codepoint] reads four hex digits, or fails when there are none. *)
Lemma get_codepoint_spec n r buf lx :
  seen 117 n r buf lx ->
  exists cp lx', get_codepoint lx = Ok (cp, lx') /\
    ((exists h r' c, r = h ++ r' /\ hex4 h cp /\ seen c (n + zlen h) r' buf lx') \/ (cp = -1 /\ ~ hex_prefix r)).
Proof.
  intros H. unfold get_codepoint. rewrite (seen_current _ _ _ _ _ H).
  destruct (hex_digits [12; 8; 4; 0] 0 _ _ _ _ _ H) as
    (lx' & [(h & r' & vs & c & -> & Hl & HF & -> & Hc)|[-> Hno]]); cbn [bind assert Z.eqb Pos.eqb].
  - pose proof (hex4_value _ _ Hl HF) as Hh. pose proof (hex4_range _ _ Hh) as Hr.
    rewrite (proj2 (between_spec 0 _ 0xFFFF)), orb_true_r by lia. eexists _, _. split; [reflexivity|]. left. eauto 7.
  - eexists _, _. split; [reflexivity|]. right. split; [done|]. intros (h & r' & cp & -> & Hl & HF & _). apply Hno. eauto.
Qed.
Lemma get_codepoint_hex h cp n r buf lx :
  hex4 h cp -> seen 117 n (h ++ r) buf lx ->
  exists c lx', get_codepoint lx = Ok (cp, lx') /\ seen c (n + zlen h) r buf lx'.
Proof.
  intros Hh H. destruct (get_codepoint_spec _ _ _ _ H) as (cp' & lx' & -> & [(h' & r' & c & Hr & Hh' & Hs)|[_ Hno]]).
  - destruct Hh as (Hl & _ & ->), Hh' as (Hl' & _ & ->).
    apply app_inj_1 in Hr as [<- <-]; [|congruence]. eauto.
  - exfalso. apply Hno. unfold hex_prefix. eauto.
Qed.

(** [reads P n r buf o]: the outcome [o] is not a failure, and a success reads
    a text [t] off [r] and appends a value [s] with [P t s]. *)
Definition reads (P : bytes -> bytes -> Prop) (n : Z) (r buf : bytes) (o : res (bool * lexer)) : Prop :=
  exists ok lx', o = Ok (ok, lx') /\
    (ok = true -> exists t s r' c, r = t ++ r' /\ P t s /\ seen c (n + zlen t) r' (buf ++ s) lx').
Lemma reads_false P n r buf lx : reads P n r buf (Ok (false, lx)).
Proof. by exists false, lx. Qed.
Lemma reads_true (P : bytes -> bytes -> Prop) n t s r' buf c lx n' :
  P t s -> n' = n + zlen t -> seen c n' r' (buf ++ s) lx -> reads P n (t ++ r') buf (Ok (true, lx)).
Proof. intros HP -> Hs. exists true, lx. split; [done|]. intros _. eauto 8. Qed.
Lemma reads_mono (P Q : bytes -> bytes -> Prop) n pre r buf o :
  (forall t s, P t s -> Q (pre ++ t) s) -> reads P (n + zlen pre) r buf o -> reads Q n (pre ++ r) buf o.
Proof.
  intros HPQ (ok & lx' & -> & H). exists ok, lx'. split; [done|]. intros Hok.
  destruct (H Hok) as (t & s & r' & c & -> & Ht & Hs). exists (pre ++ t), s, r', c.
  split; [by rewrite app_assoc|]. split; [auto|]. rewrite zlen_app, Z.add_assoc. done.
Qed.

Definition surrogates (hi lo : Z) : Z := 0x10000 + (hi - 0xD800) * 0x400 + (lo - 0xDC00).
Lemma surrogates_code hi lo :
  0xD800 <= hi <= 0xDBFF -> 0xDC00 <= lo <= 0xDFFF ->
  u32 (Z.shiftl hi 10 + lo - 0x35FDC00) = surrogates hi lo /\ 0x10000 <= surrogates hi lo <= 0x10FFFF.
Proof.
  intros Hhi Hlo. rewrite Z.shiftl_mul_pow2 by lia. unfold u32, uwrap, surrogates.
  rewrite Z.mod_small by lia. lia.
Qed.

Definition unicode_text (t s : bytes) : Prop := char_text (Byte.x5c :: Byte.x75 :: t) s.
Definition low_text (hi : Z) (t : bytes) (cp : Z) : Prop :=
  exists h lo, t = Byte.x5c :: Byte.x75 :: h /\ hex4 h lo /\ 0xDC00 <= lo < 0xE000 /\ cp = surrogates hi lo.

Lemma scan_surrogate_spec hi c n r buf lx :
  0xD800 <= hi <= 0xDBFF -> seen c n r buf lx ->
  exists o lx', scan_surrogate hi lx = Ok (o, lx') /\
    match o with
    | Some cp => exists t r' c, r = t ++ r' /\ low_text hi t cp /\ seen c (n + zlen t) r' buf lx'
    | None => True
    end.
Proof.
  intros Hhi H. unfold scan_surrogate. step. destruct (Z.eqb_spec (head_char r) 92) as [E|]; [|by eexists None, _].
  apply (head_char_byte _ Byte.x5c) in E as [r1 ->]. step. cbn [head_char tail] in *.
  destruct (Z.eqb_spec (head_char r1) 117) as [E|]; [|by eexists None, _].
  apply (head_char_byte _ Byte.x75) in E as [r2 ->]. cbn [head_char tail] in *.
  destruct (get_codepoint_spec _ _ _ _ Hs0) as (lo & lx' & -> & [(h & r' & c' & -> & Hh & Hs')|[-> _]]); cbn [bind]; [|by eexists None, _].
  pose proof (hex4_range _ _ Hh). destruct (Z.eqb_spec lo (-1)); [lia|].
  destruct (between 0xDC00 lo 0xDFFF) eqn:Eb; [|by eexists None, _]. apply between_spec in Eb.
  destruct (surrogates_code hi lo) as [-> _]; [lia..|]. eexists _, _. split; [done|].
  exists (Byte.x5c :: Byte.x75 :: h), r', c'. split; [done|]. split; [exists h, lo; auto with lia|].
  rewrite !zlen_cons. by replace (n + (1 + (1 + zlen h))) with (n + 1 + 1 + zlen h) by lia.
Qed.

Lemma scan_surrogate_low hi t cp c n r buf lx :
  0xD800 <= hi <= 0xDBFF -> low_text hi t cp -> seen c n (t ++ r) buf lx ->
  exists c' lx', scan_surrogate hi lx = Ok (Some cp, lx') /\ seen c' (n + zlen t) r buf lx'.
Proof.
  intros Hhi (h & lo & -> & Hh & Hlo & ->) H. unfold scan_surrogate. step. cbn [Z.eqb]. step.
  destruct (get_codepoint_hex _ _ _ _ _ _ Hh Hs0) as (c' & lx' & E & Hs'). cbn. rewrite E. cbn [bind].
  pose proof (hex4_range _ _ Hh). destruct (Z.eqb_spec lo (-1)); [lia|].
  rewrite (proj2 (between_spec 0xDC00 lo 0xDFFF)) by lia.
  destruct (surrogates_code hi lo) as [-> _]; [lia..|]. eexists _, _. split; [done|].
  rewrite !zlen_cons. by replace (n + (1 + (1 + zlen h))) with (n + 1 + 1 + zlen h) by lia.
Qed.

Lemma unicode_scalar h cp : hex4 h cp -> scalar cp -> unicode_text h (utf8_encode cp).
Proof. apply ct_unicode. Qed.
Lemma unicode_pair h t hi cp :
  hex4 h hi -> 0xD800 <= hi <= 0xDBFF -> low_text hi t cp -> unicode_text (h ++ t) (utf8_encode cp).
Proof. intros Hh Hhi (h2 & lo & -> & Hh2 & Hlo & ->). apply ct_pair; [done|lia|done|lia]. Qed.

Lemma add_codepoint cp c n r buf lx :
  0 <= cp <= 0x10FFFF -> seen c n r buf lx ->
  seen c n r (buf ++ utf8_encode cp) (add_all (codepoint_bytes cp) lx).
Proof. intros Hcp H. rewrite <- codepoint_bytes_encode by done. by apply add_all_seen. Qed.

Lemma scan_unicode_sound n r buf lx : seen 117 n r buf lx -> reads unicode_text n r buf (scan_unicode lx).
Proof.
  intros H. unfold scan_unicode.
  destruct (get_codepoint_spec _ _ _ _ H) as (cp & lx' & -> & [(h & r' & c & -> & Hh & Hs)|[-> _]]); cbn [bind];
    [|apply reads_false].
  pose proof (hex4_range _ _ Hh). destruct (Z.eqb_spec cp (-1)); [lia|].
  destruct (between 0xD800 cp 0xDBFF) eqn:Ehi.
  - apply between_spec in Ehi.
    destruct (scan_surrogate_spec cp _ _ _ _ _ Ehi Hs) as ([cp'|] & lx2 & -> & Ho); cbn [bind]; [|apply reads_false].
    destruct Ho as (t & r2 & c2 & -> & Ht & Hs2).
    assert (0 <= cp' <= 0x10FFFF) as Hcp'.
    { destruct Ht as (? & lo & _ & _ & Hlo & ->). pose proof (surrogates_code cp lo). lia. }
    rewrite (proj2 (between_spec 0 cp' _)) by done. cbn [assert bind]. rewrite app_assoc.
    eapply reads_true; [by eapply unicode_pair| |by apply add_codepoint]. rewrite zlen_app. lia.
  - destruct (between 0xDC00 cp 0xDFFF) eqn:Elo; cbn [bind]; [apply reads_false|].
    rewrite (proj2 (between_spec 0 cp _)) by lia. cbn [assert bind].
    eapply reads_true; [apply unicode_scalar; [done|]|done|apply add_codepoint; [lia|done]].
    rewrite <- not_true_iff_false, between_spec in Ehi, Elo. unfold scalar. lia.
Qed.

(** A character that is not copied as it is starts with a backslash. *)
Lemma plain_first cp b t : scalar cp -> cp <> byte_to_Z b -> byte_to_Z b < 0x80 -> utf8_encode cp <> b :: t.
Proof.
  intros Hs Hne Hb Heq. destruct (Z.ltb_spec cp 0x80).
  - rewrite encode_ascii in Heq by done. injection Heq as <- _. rewrite byte_to_of_Z in Hne.
    rewrite Z.mod_small in Hne; unfold scalar in Hs; lia.
  - destruct (encode_ranges cp Hs) as (b' & bs & E & Hb' & _); [done|]. rewrite E in Heq. simplify_eq. lia.
Qed.
Lemma escape_inv t s :
  char_text (Byte.x5c :: t) s -> (exists e c, t = [e] /\ s = [c] /\ escape_of e = Some c) \/
    exists t', t = Byte.x75 :: t' /\ unicode_text t' s.
Proof.
  intros H. inversion H as [cp Hs H1 H2 H3 E1 E2|e c E|h cp Hh Hs|h1 h2 hi lo]; subst.
  - exfalso. by apply (plain_first cp Byte.x5c t Hs).
  - left. eauto.
  - right. eexists. split; [done|]. by apply unicode_scalar.
  - right. eexists. split; [done|]. eapply unicode_pair; [done|lia|]. unfold low_text. eauto 7.
Qed.

Lemma scan_unicode_complete t s n r buf lx :
  unicode_text t s -> seen 117 n (t ++ r) buf lx ->
  exists c lx', scan_unicode lx = Ok (true, lx') /\ seen c (n + zlen t) r (buf ++ s) lx'.
Proof.
  intros Ht H. unfold scan_unicode.
  inversion Ht as [cp Hs _ _ Hne E1 E2|e c E|h cp Hh Hsc|h1 h2 hi lo Hh Hhi Hh2 Hlo E1]; subst.
  - exfalso. by eapply (plain_first cp Byte.x5c).
  - done.
  - destruct (get_codepoint_hex _ _ _ _ _ _ Hh H) as (c' & lx' & -> & Hs'). cbn [bind].
    pose proof (hex4_range _ _ Hh). destruct (Z.eqb_spec cp (-1)); [lia|]. unfold scalar in Hsc.
    destruct (between 0xD800 cp 0xDBFF) eqn:Ehi; [apply between_spec in Ehi; lia|].
    destruct (between 0xDC00 cp 0xDFFF) eqn:Elo; [apply between_spec in Elo; lia|]. cbn [bind].
    rewrite (proj2 (between_spec 0 cp _)) by lia. eexists _, _. split; [done|]. apply add_codepoint; [lia|done].
  - rewrite <- app_assoc in H.
    destruct (get_codepoint_hex _ _ _ _ _ _ Hh H) as (c' & lx' & -> & Hs'). cbn [bind].
    destruct (Z.eqb_spec hi (-1)); [lia|]. rewrite (proj2 (between_spec 0xD800 hi 0xDBFF)) by lia.
    destruct (scan_surrogate_low hi (Byte.x5c :: Byte.x75 :: h2) (surrogates hi lo) _ _ _ _ _ ltac:(lia) ltac:(unfold low_text; eauto 7) Hs')
      as (c2 & lx2 & -> & Hs2). cbn [bind].
    pose proof (surrogates_code hi lo). rewrite (proj2 (between_spec 0 _ _)) by lia. eexists _, _. split; [done|].
    rewrite zlen_app, Z.add_assoc. apply add_codepoint; [lia|done].
Qed.

Definition escaped_text (t s : bytes) : Prop := char_text (Byte.x5c :: t) s.
Lemma reads_escape e c n r buf lx :
  escape_of e = Some (to_char c) -> seen (byte_to_Z e) (n + 1) r buf lx ->
  reads escaped_text n (e :: r) buf (Ok (true, add c lx)).
Proof.
  intros E H. apply (reads_true _ _ [e] [to_char c] r _ (byte_to_Z e) _ (n + 1)); [by apply ct_escape|done|].
  by apply add_seen.
Qed.
Lemma scan_escape_sound c n r buf lx : seen c n r buf lx -> reads escaped_text n r buf (scan_escape lx).
Proof.
  intros H. unfold scan_escape. step.
  destruct r as [|e r]; [apply reads_false|]. cbn [head_char tail] in *.
  repeat match goal with
  | |- reads _ _ _ _ (if byte_to_Z e =? ?k then Ok (true, _) else _) =>
      destruct (Z.eqb_spec (byte_to_Z e) k) as [E|_];
      [apply reads_escape; [by rewrite <- (byte_of_to_Z e), E|done]|]
  end.
  destruct (Z.eqb_spec (byte_to_Z e) 117) as [E|_]; [|apply reads_false].
  apply (byte_to_Z_inj e Byte.x75) in E as ->. apply (reads_mono unicode_text escaped_text n [Byte.x75]); [done|].
  apply scan_unicode_sound. done.
Qed.
Lemma scan_escape_complete t s c n r buf lx :
  escaped_text t s -> seen c n (t ++ r) buf lx ->
  exists c' lx', scan_escape lx = Ok (true, lx') /\ seen c' (n + zlen t) r (buf ++ s) lx'.
Proof.
  intros [(e & c' & -> & -> & E)|(t' & -> & Ht)]%escape_inv H; unfold scan_escape; step.
  - destruct e; try discriminate E; injection E as <-; eexists _, _; (split; [reflexivity|]); apply add_seen, Hs.
  - cbn. destruct (scan_unicode_complete _ _ _ _ _ _ Ht Hs) as (c' & lx' & -> & Hs'). eexists _, _. split; [done|].
    rewrite zlen_cons, Z.add_assoc. done.
Qed.

Definition range_text (ranges : list (Z * Z)) (t s : bytes) : Prop := Forall2 in_range ranges t /\ s = t.
Lemma bytes_in_range_sound ranges c n r buf lx :
  Forall (fun r => 0 <= r.1) ranges -> seen c n r buf lx ->
  reads (range_text ranges) n r buf (Ok (bytes_in_range ranges lx)).
Proof.
  intros HF. revert c n r buf lx. induction HF as [|[lo hi] ranges Hlo _ IH]; intros c n r buf lx H; cbn [bytes_in_range].
  - apply (reads_true _ _ [] [] r _ c _ n); [by split|by rewrite zlen_nil; lia|]. by rewrite app_nil_r.
  - step. destruct (between lo (head_char r) hi) eqn:E; [|apply reads_false]. apply between_spec in E.
    destruct r as [|b r]; cbn [head_char tail fst] in *; [unfold eof in E; lia|].
    destruct (IH _ _ _ _ _ (add_seen (byte_to_Z b) _ _ _ _ _ Hs)) as (ok & lx' & [= ->] & Hok).
    exists ok, lx'. split; [done|]. intros Hok'. destruct (Hok Hok') as (t & s & r' & c' & -> & [HF ->] & Hs').
    unfold to_char in Hs'. rewrite byte_of_to_Z, <- app_assoc in Hs'. exists (b :: t), (b :: t), r', c'.
    split; [done|]. split; [split; [by constructor|done]|]. rewrite zlen_cons, Z.add_assoc. done.
Qed.
Lemma bytes_in_range_complete ranges t c n r buf lx :
  Forall2 in_range ranges t -> seen c n (t ++ r) buf lx ->
  exists c' lx', bytes_in_range ranges lx = (true, lx') /\ seen c' (n + zlen t) r (buf ++ t) lx'.
Proof.
  intros HF. revert c n buf lx. induction HF as [|[lo hi] b ranges t Hb _ IH]; intros c n buf lx H; cbn [bytes_in_range].
  - eexists _, _. split; [done|]. rewrite app_nil_r, zlen_nil, Z.add_0_r. done.
  - step. unfold in_range in Hb. rewrite (proj2 (between_spec lo _ hi)) by done.
    destruct (IH _ _ _ _ (add_seen (byte_to_Z b) _ _ _ _ _ Hs)) as (c' & lx' & -> & Hs').
    unfold to_char in Hs'. rewrite byte_of_to_Z, <- app_assoc in Hs'. eexists _, _. split; [done|].
    rewrite zlen_cons, Z.add_assoc. done.
Qed.

Lemma utf8_ranges_low c ranges : utf8_ranges c = Some ranges -> Forall (fun r => 0 <= r.1) ranges.
Proof. intros [[_ ->]|[[_ ->]|[_ ->]]]%utf8_ranges_shape; rewrite ?Forall_cons; cbn [fst]; repeat case_match; repeat split; try lia; by constructor. Qed.

(** A character that does not start with a backslash. *)
Lemma is_plain_spec c :
  is_plain c = true -> 0x20 <= c < 0x80 /\ c <> 0x22 /\ c <> 0x5C.
Proof.
  unfold is_plain. rewrite !andb_true_iff, !negb_true_iff, between_spec, !Z.eqb_neq. lia.
Qed.
Lemma ascii_plain b : is_plain (byte_to_Z b) = true -> char_text [b] [b].
Proof.
  intros H%is_plain_spec. rewrite <- (byte_of_to_Z b), <- encode_ascii by lia.
  apply ct_plain; [unfold scalar|..]; lia.
Qed.
Lemma range_char b ranges t s :
  utf8_ranges (byte_to_Z b) = Some ranges -> range_text ranges t s -> char_text (b :: t) (b :: s).
Proof.
  intros Hr [HF ->]. destruct (ranges_encode _ _ _ Hr HF) as (cp & Hs & Hcp & ->). apply ct_plain; [done|lia..].
Qed.

Definition string_body (r : bytes) (n : Z) (buf : bytes) lx' : Prop :=
  exists body s r', r = body ++ Byte.x22 :: r' /\ chars_text body s /\ seen 34 (n + zlen body + 1) r' (buf ++ s) lx'.
Definition string_scanned (r : bytes) (n : Z) (buf : bytes) (o : res (token_type * lexer)) : Prop :=
  exists t lx', o = Ok (t, lx') /\ (t = parse_error \/ t = value_string /\ string_body r n buf lx').
Lemma scanned_error r n buf lx : string_scanned r n buf (Ok (parse_error, lx)).
Proof. exists parse_error, lx. auto. Qed.
Lemma string_body_cons t s r n buf o :
  char_text t s -> string_scanned r (n + zlen t) (buf ++ s) o -> string_scanned (t ++ r) n buf o.
Proof.
  intros Hc (tk & lx' & -> & [->|[-> (body & s' & r' & -> & Hb & Hs)]]); eexists _, _; (split; [done|]); [auto|].
  right. split; [done|]. exists (t ++ body), (s ++ s'), r'. split; [by rewrite app_assoc|].
  split; [by constructor|]. rewrite zlen_app, Z.add_assoc, app_assoc. done.
Qed.

Lemma scan_string_loop_sound fuel c n r buf lx :
  (length r < fuel)%nat -> seen c n r buf lx -> string_scanned r n buf (scan_string_loop fuel lx).
Proof.
  revert c n r buf lx. induction fuel as [|fuel IH]; intros c n r buf lx Hf H; [lia|]. cbn [scan_string_loop]. step.
  destruct r as [|b r]; cbn [head_char tail] in *; [apply scanned_error|]. rewrite byte_not_eof.
  cbn [length] in Hf.
  destruct (Z.eqb_spec (byte_to_Z b) 34) as [E|_].
  { apply (byte_to_Z_inj b Byte.x22) in E as ->. eexists _, _. split; [done|]. right. split; [done|].
    exists [], [], r. split; [done|]. split; [constructor|]. rewrite app_nil_r, zlen_nil, Z.add_0_r. done. }
  destruct (Z.eqb_spec (byte_to_Z b) 92) as [E|_].
  { apply (byte_to_Z_inj b Byte.x5c) in E as ->.
    destruct (scan_escape_sound _ _ _ _ _ Hs) as ([|] & lx' & -> & Hok); cbn [bind]; [|apply scanned_error].
    destruct (Hok eq_refl) as (t & s & r' & c' & -> & Ht & Hs'). rewrite length_app in Hf.
    apply (string_body_cons (Byte.x5c :: t) s _ _ _ _ Ht). eapply IH; [lia|]. rewrite zlen_cons, Z.add_assoc. done. }
  destruct (between 0 (byte_to_Z b) 31); [apply scanned_error|].
  destruct (is_plain (byte_to_Z b)) eqn:Ep.
  { apply (string_body_cons [b] [b] _ _ _ _ (ascii_plain _ Ep)). eapply IH; [lia|].
    pose proof (add_seen (byte_to_Z b) _ _ _ _ _ Hs) as Ha. unfold to_char in Ha. rewrite byte_of_to_Z in Ha. done. }
  destruct (utf8_ranges (byte_to_Z b)) as [ranges|] eqn:Er; [|apply scanned_error].
  unfold next_byte_in_range. rewrite (seen_current _ _ _ _ _ Hs).
  pose proof (add_seen (byte_to_Z b) _ _ _ _ _ Hs) as Ha. unfold to_char in Ha. rewrite byte_of_to_Z in Ha.
  destruct (bytes_in_range_sound ranges _ _ _ _ _ (utf8_ranges_low _ _ Er) Ha) as (ok & lx' & [= ->] & Hok).
  destruct ok; [|apply scanned_error]. destruct (Hok eq_refl) as (t & s & r' & c' & -> & Ht & Hs').
  rewrite length_app in Hf. apply (string_body_cons (b :: t) (b :: s) _ _ _ _ (range_char _ _ _ _ Er Ht)).
  eapply IH; [lia|]. rewrite <- app_assoc in Hs'. rewrite zlen_cons, Z.add_assoc. done.
Qed.

Lemma char_inv t s :
  char_text t s ->
  (exists t', t = Byte.x5c :: t' /\ escaped_text t' s) \/
  (exists b, t = [b] /\ s = [b] /\ is_plain (byte_to_Z b) = true) \/
  (exists b t' ranges, t = b :: t' /\ s = b :: t' /\ 0x80 <= byte_to_Z b /\
     utf8_ranges (byte_to_Z b) = Some ranges /\ Forall2 in_range ranges t').
Proof.
  intros H. destruct H as [cp Hs Hlo Hq Hbs| | |]; [right|left; eexists; (split; [reflexivity|])..].
  - destruct (Z.ltb_spec cp 0x80); [left|right].
    + rewrite encode_ascii by done. eexists. split; [done|]. split; [done|].
      rewrite byte_to_of_Z, Z.mod_small by lia. unfold is_plain.
      rewrite !andb_true_iff, !negb_true_iff, between_spec, !Z.eqb_neq. lia.
    + destruct (encode_ranges cp Hs) as (b & bs & -> & Hb & Hr); [done|].
      destruct (utf8_ranges (byte_to_Z b)) as [ranges|] eqn:E; [|done]. exists b, bs, ranges. auto.
  - by apply ct_escape.
  - by apply ct_unicode.
  - by apply ct_pair.
Qed.

Lemma between_false lo c hi : ~ (lo <= c <= hi) -> between lo c hi = false.
Proof. rewrite <- between_spec. apply not_true_is_false. Qed.

Lemma scan_string_char t s fuel c n r buf lx :
  char_text t s -> seen c n (t ++ r) buf lx ->
  exists c' lx', seen c' (n + zlen t) r (buf ++ s) lx' /\ scan_string_loop (S fuel) lx = scan_string_loop fuel lx'.
Proof.
  intros [(t' & -> & Ht)|[(b & -> & -> & Hp)|(b & t' & ranges & -> & -> & Hb & Hr & HF)]]%char_inv H;
    cbn [scan_string_loop]; step.
  - destruct (scan_escape_complete _ _ _ _ _ _ _ Ht Hs) as (c' & lx' & E & Hs'). cbn. rewrite E. cbn [bind].
    eexists _, _. split; [|done]. rewrite zlen_cons, Z.add_assoc. done.
  - pose proof (is_plain_spec _ Hp). rewrite byte_not_eof, Hp.
    rewrite (proj2 (Z.eqb_neq _ 34)), (proj2 (Z.eqb_neq _ 92)), between_false by lia. eexists _, _. split; [|done].
    pose proof (add_seen (byte_to_Z b) _ _ _ _ _ Hs) as Ha. unfold to_char in Ha. rewrite byte_of_to_Z in Ha. done.
  - rewrite byte_not_eof. rewrite (proj2 (Z.eqb_neq _ 34)), (proj2 (Z.eqb_neq _ 92)), between_false by lia.
    replace (is_plain (byte_to_Z b)) with false by (unfold is_plain; by rewrite between_false by lia). rewrite Hr.
    unfold next_byte_in_range. rewrite (seen_current _ _ _ _ _ Hs).
    pose proof (add_seen (byte_to_Z b) _ _ _ _ _ Hs) as Ha. unfold to_char in Ha. rewrite byte_of_to_Z in Ha.
    destruct (bytes_in_range_complete _ _ _ _ _ _ _ HF Ha) as (c' & lx' & -> & Hs').
    eexists _, _. split; [|done]. rewrite <- app_assoc in Hs'. rewrite zlen_cons, Z.add_assoc. done.
Qed.
Lemma char_text_length t s : char_text t s -> (0 < length t)%nat.
Proof.
  intros [(t' & -> & Ht)|[(b & -> & -> & Hp)|(b & t' & ranges & -> & -> & Hb & Hr & HF)]]%char_inv; cbn; lia.
Qed.

Lemma scan_string_loop_complete body s fuel c n r buf lx :
  chars_text body s -> (length body < fuel)%nat -> seen c n (body ++ Byte.x22 :: r) buf lx ->
  exists lx', scan_string_loop fuel lx = Ok (value_string, lx') /\ seen 34 (n + zlen body + 1) r (buf ++ s) lx'.
Proof.
  intros Hb. revert fuel c n buf lx. induction Hb as [|t s t' s' Ht _ IH]; intros fuel c n buf lx Hf H.
  - destruct fuel as [|fuel]; [cbn in Hf; lia|]. cbn [scan_string_loop]. step. eexists. split; [done|].
    rewrite app_nil_r, zlen_nil, Z.add_0_r. done.
  - pose proof (char_text_length _ _ Ht). rewrite length_app in Hf. destruct fuel as [|fuel]; [lia|].
    rewrite <- app_assoc in H.
    destruct (scan_string_char _ _ fuel _ _ _ _ _ Ht H) as (c' & lx' & Hs & ->).
    destruct (IH fuel _ _ _ _ ltac:(lia) Hs) as (lx2 & -> & Hs2). eexists. split; [done|].
    rewrite zlen_app, app_assoc, Z.add_assoc. done.
Qed.

Lemma scan_string_sound n r buf lx :
  seen 34 n r buf lx -> string_scanned r n [] (scan_string lx).
Proof.
  intros H%reset_seen. unfold scan_string. rewrite (seen_current _ _ _ _ _ H). cbn [Z.eqb assert bind].
  rewrite Pos.eqb_refl. eapply scan_string_loop_sound; [|done]. rewrite (seen_ia _ _ _ _ _ H). cbn. lia.
Qed.
Lemma scan_string_complete body s n r buf lx :
  chars_text body s -> seen 34 n (body ++ Byte.x22 :: r) buf lx ->
  exists lx', scan_string lx = Ok (value_string, lx') /\ seen 34 (n + zlen body + 1) r s lx'.
Proof.
  intros Hb H%reset_seen. unfold scan_string. rewrite (seen_current _ _ _ _ _ H). cbn [Z.eqb assert bind].
  rewrite Pos.eqb_refl. eapply (scan_string_loop_complete _ _ _ _ _ _ []); [done| |done].
  rewrite (seen_ia _ _ _ _ _ H), length_app. cbn. lia.
Qed.

(** ** Numbers

    The texts that complete a number from a state of [scan_number], with the
    type of the number before and after. *)
Definition float_if (frac exp : bytes) (ty : token_type) : token_type :=
  match frac, exp with [], [] => ty | _, _ => value_float end.
Definition number_rest (st : number_state) (ty : token_type) (t : bytes) (ty' : token_type) : Prop :=
  match st with
  | number_minus => exists int frac exp, t = int ++ frac ++ exp /\ int_text int /\ frac_text frac /\ exp_text exp /\
      ty' = float_if frac exp value_integer
  | number_zero => exists frac exp, t = frac ++ exp /\ frac_text frac /\ exp_text exp /\ ty' = float_if frac exp ty
  | number_any1 => exists ds frac exp, t = ds ++ frac ++ exp /\ all_digits ds /\ frac_text frac /\ exp_text exp /\
      ty' = float_if frac exp ty
  | number_decimal1 => exists ds exp, t = ds ++ exp /\ ds <> [] /\ all_digits ds /\ exp_text exp /\ ty' = value_float
  | number_decimal2 => exists ds exp, t = ds ++ exp /\ all_digits ds /\ exp_text exp /\ ty' = float_if [] exp ty
  | number_exponent => exists sign ds, t = sign ++ ds /\
      (sign = [] \/ sign = [Byte.x2b] \/ sign = [Byte.x2d]) /\ ds <> [] /\ all_digits ds /\ ty' = value_float
  | number_sign => t <> [] /\ all_digits t /\ ty' = ty
  | number_any2 => all_digits t /\ ty' = ty
  | number_done => False
  end.

Lemma digit_byte b : digit_0_9 (byte_to_Z b) = is_digit b.
Proof. by destruct b. Qed.
Lemma digit_1_9_byte b : digit_1_9 (byte_to_Z b) = true -> is_digit b = true /\ b <> Byte.x30.
Proof. by destruct b. Qed.
Lemma is_e_byte b : is_e (byte_to_Z b) = true -> b = Byte.x65 \/ b = Byte.x45.
Proof. destruct b; try discriminate; auto. Qed.
Lemma dot_byte b : (byte_to_Z b =? 46) = true -> b = Byte.x2e.
Proof. by destruct b. Qed.
Lemma exp_text_nil : exp_text [].
Proof. by left. Qed.
Lemma frac_text_nil : frac_text [].
Proof. by left. Qed.
Lemma all_digits_nil : all_digits [].
Proof. constructor. Qed.
#[export] Hint Resolve exp_text_nil frac_text_nil all_digits_nil : lex.

Lemma all_digits_cons b ds : all_digits (b :: ds) <-> is_digit b = true /\ all_digits ds.
Proof. unfold all_digits. by rewrite Forall_cons. Qed.

(** The text from an exponent on, and from a dot on. *)
Lemma exponent_rest b ty t ty' :
  b = Byte.x65 \/ b = Byte.x45 -> number_rest number_exponent ty t ty' -> exp_text (b :: t) /\ ty' = value_float.
Proof. intros Hb (sign & ds & -> & Hs & Hne & Hd & ->). split; [|done]. right. exists b, sign, ds. auto. Qed.
Lemma decimal_rest ty t ty' :
  number_rest number_decimal1 ty t ty' ->
  exists ds exp, t = ds ++ exp /\ frac_text (Byte.x2e :: ds) /\ exp_text exp /\ ty' = value_float.
Proof. intros (ds & exp & -> & Hne & Hd & He & ->). exists ds, exp. repeat split; auto. right. eauto. Qed.
Lemma float_if_dot ds exp ty : float_if (Byte.x2e :: ds) exp ty = value_float.
Proof. done. Qed.
Lemma float_if_exp frac b t ty : float_if frac (b :: t) ty = value_float.
Proof. by destruct frac. Qed.

(** A character that does not end the number. *)
#[local] Ltac next_cases Hn :=
  repeat match type of Hn with
  | (if ?c then _ else _) = _ => let E := fresh "E" in destruct c eqn:E
  end; try discriminate Hn; injection Hn as <-;
  repeat match goal with
  | E : (byte_to_Z _ =? 46) = true |- _ => apply dot_byte in E as ->
  | E : is_e (byte_to_Z _) = true |- _ => apply is_e_byte in E
  | E : digit_0_9 (byte_to_Z _) = true |- _ => rewrite digit_byte in E
  | E : digit_1_9 (byte_to_Z _) = true |- _ => apply digit_1_9_byte in E as [? ?]
  end.
Lemma rest_minus b st' ty t ty' :
  next_minus (byte_to_Z b) = inr st' -> number_rest st' value_integer t ty' -> number_rest number_minus ty (b :: t) ty'.
Proof.
  unfold next_minus. intros Hn Hr. next_cases Hn; cbn [number_rest] in *.
  - assert (b = Byte.x30) as -> by (by apply byte_to_Z_inj, Z.eqb_eq). destruct Hr as (frac & exp & -> & Hf & He & ->).
    exists [Byte.x30], frac, exp. repeat split; auto. by repeat constructor.
  - destruct Hr as (ds & frac & exp & -> & Hd & Hf & He & ->). exists (b :: ds), frac, exp.
    repeat split; auto; [by apply all_digits_cons|]. right. eauto.
Qed.
Lemma rest_zero b st' ty t ty' :
  next_zero (byte_to_Z b) = inr st' -> number_rest st' ty t ty' -> number_rest number_zero ty (b :: t) ty'.
Proof.
  unfold next_zero. intros Hn Hr. next_cases Hn; [| |done]; cbn [number_rest].
  - apply decimal_rest in Hr as (ds & exp & -> & Hf & He & ->). exists (Byte.x2e :: ds), exp. auto.
  - eapply exponent_rest in Hr as [He ->]; [|done]. exists [], (b :: t). auto with lex.
Qed.
Lemma rest_any1 b st' ty t ty' :
  next_any1 (byte_to_Z b) = inr st' -> number_rest st' ty t ty' -> number_rest number_any1 ty (b :: t) ty'.
Proof.
  unfold next_any1. intros Hn Hr. next_cases Hn; [| | |done].
  - destruct Hr as (ds & frac & exp & -> & Hd & Hf & He & ->). exists (b :: ds), frac, exp.
    repeat split; auto. by apply all_digits_cons.
  - apply decimal_rest in Hr as (ds & exp & -> & Hf & He & ->). exists [], (Byte.x2e :: ds), exp. auto 6 with lex.
  - eapply exponent_rest in Hr as [He ->]; [|done]. exists [], [], (b :: t). repeat split; auto with lex.
Qed.
Lemma rest_decimal2 b st' ty t ty' :
  next_decimal2 (byte_to_Z b) = inr st' -> number_rest st' ty t ty' -> number_rest number_decimal2 ty (b :: t) ty'.
Proof.
  unfold next_decimal2. intros Hn Hr. next_cases Hn; [| |done].
  - destruct Hr as (ds & exp & -> & Hd & He & ->). exists (b :: ds), exp. repeat split; auto. by apply all_digits_cons.
  - eapply exponent_rest in Hr as [He ->]; [|done]. exists [], (b :: t). repeat split; auto with lex.
Qed.
Lemma rest_exponent b st' ty t ty' :
  next_exponent (byte_to_Z b) = inr st' -> number_rest st' value_float t ty' -> number_rest number_exponent ty (b :: t) ty'.
Proof.
  unfold next_exponent. intros Hn Hr. next_cases Hn.
  - destruct Hr as (Hne & Hd & ->). exists [b], t. repeat split; auto. right.
    apply orb_true_iff in E as [E|E]; apply Z.eqb_eq in E;
      [left; by rewrite (byte_to_Z_inj b Byte.x2b E)|right; by rewrite (byte_to_Z_inj b Byte.x2d E)].
  - destruct Hr as (Hd & ->). exists [], (b :: t). repeat split; auto. by apply all_digits_cons.
Qed.

Lemma number_rest_step st b st' ty t ty' :
  number_next st (byte_to_Z b) = inr st' -> number_rest st' (number_enter st ty) t ty' -> number_rest st ty (b :: t) ty'.
Proof.
  destruct st; cbn [number_next number_enter].
  - apply rest_minus.
  - apply rest_zero.
  - apply rest_any1.
  - unfold next_decimal1. intros Hn Hr. next_cases Hn. destruct Hr as (ds & exp & -> & Hd & He & ->).
    exists (b :: ds), exp. repeat split; auto; [by apply all_digits_cons|]. by destruct exp.
  - apply rest_decimal2.
  - apply rest_exponent.
  - unfold next_sign. intros Hn Hr. next_cases Hn. destruct Hr as (Hd & ->). repeat split; auto. by apply all_digits_cons.
  - unfold next_any2. intros Hn Hr. next_cases Hn; [|done]. destruct Hr as (Hd & ->). split; [by apply all_digits_cons|done].
  - by intros [= <-].
Qed.

(** The number may end in a state whose rest may be empty. *)
Lemma number_rest_end st c ty : st <> number_done -> number_next st c = inr number_done -> number_rest st ty [] (number_enter st ty).
Proof.
  intros Hst Hn. destruct st; cbn [number_next number_enter] in *; try done;
    unfold next_minus, next_decimal1, next_exponent, next_sign in Hn; repeat case_match; try done; cbn [number_rest].
  - exists [], []. auto with lex.
  - exists [], [], []. auto 6 with lex.
  - exists [], []. auto with lex.
  - auto with lex.
Qed.

Lemma number_next_eof st st' : number_next st eof = inr st' -> st' = number_done.
Proof. by destruct st; intros [= <-]. Qed.

Lemma scan_number_loop_S fuel st ty lx :
  st <> number_done ->
  scan_number_loop (S fuel) st ty lx =
    let '(c, lx) := get lx in
    match number_next st c with
    | inl m => Ok (None, set_error m lx)
    | inr st' => if decide (st' = number_done) then Ok (Some (number_enter st ty), lx)
                 else scan_number_loop fuel st' (number_enter st ty) (add c lx)
    end.
Proof.
  intros Hst. destruct st; try done; cbn [scan_number_loop]; destruct (get lx); case_match; try done;
    destruct n; case_decide; try done; by destruct fuel.
Qed.

Lemma scan_number_loop_sound fuel st ty c n r buf lx :
  (length r < fuel)%nat -> st <> number_done -> seen c n r buf lx ->
  exists o lx', scan_number_loop fuel st ty lx = Ok (o, lx') /\
    match o with
    | None => True
    | Some ty' => exists t r', r = t ++ r' /\ number_rest st ty t ty' /\
        seen (head_char r') (n + zlen t + 1) (tail r') (buf ++ t) lx'
    end.
Proof.
  revert st ty c n r buf lx. induction fuel as [|fuel IH]; intros st ty c n r buf lx Hf Hst H; [lia|].
  rewrite scan_number_loop_S by done. step.
  destruct (number_next st (head_char r)) as [m|st'] eqn:En; [by eexists None, _|].
  case_decide as Hd.
  { subst. eexists _, _. split; [done|]. exists [], r. rewrite app_nil_r, zlen_nil, Z.add_0_r. split; [done|].
    split; [by eapply number_rest_end|done]. }
  destruct r as [|b r]; cbn [head_char tail length] in *; [by apply number_next_eof in En|].
  apply (add_seen (byte_to_Z b)) in Hs. unfold to_char in Hs. rewrite byte_of_to_Z in Hs.
  destruct (IH st' (number_enter st ty) _ _ r _ _ ltac:(lia) Hd Hs) as (o & lx' & -> & Ho).
  eexists _, _. split; [done|]. destruct o as [ty'|]; [|done]. destruct Ho as (t & r' & -> & Ht & Hs').
  exists (b :: t), r'. split; [done|]. split; [by eapply number_rest_step|].
  rewrite <- app_assoc in Hs'. rewrite zlen_cons. replace (n + (1 + zlen t) + 1) with (n + 1 + zlen t + 1) by lia. done.
Qed.

(** The other way. *)
Definition ends_number (c : Z) : Prop := digit_0_9 c = false /\ is_e c = false /\ c <> 46.
Lemma number_rest_nil st ty ty' c :
  ends_number c -> number_rest st ty [] ty' -> number_next st c = inr number_done /\ ty' = number_enter st ty.
Proof.
  intros (Hd & He & Hdot). apply Z.eqb_neq in Hdot.
  destruct st; cbn [number_rest number_next number_enter]; unfold next_zero, next_any1, next_decimal2, next_any2;
    rewrite ?Hd, ?He, ?Hdot.
  - intros (int & ? & ? & H & (_ & Hi) & _). apply symmetry, app_eq_nil in H as [-> _].
    destruct Hi as [?|(? & ? & ? & _)]; done.
  - intros (frac & exp & H & _ & _ & ->). by apply symmetry, app_eq_nil in H as [-> ->].
  - intros (ds & frac & exp & H & _ & _ & _ & ->). apply symmetry, app_eq_nil in H as [_ H].
    by apply app_eq_nil in H as [-> ->].
  - intros (ds & exp & H & Hne & _). by apply symmetry, app_eq_nil in H as [-> _].
  - intros (ds & exp & H & _ & _ & ->). by apply symmetry, app_eq_nil in H as [-> ->].
  - intros (sign & ds & H & _ & Hne & _). by apply symmetry, app_eq_nil in H as [_ ->].
  - by intros (? & _).
  - by intros [_ ->].
  - done.
Qed.

Lemma exp_text_cons b t ty : exp_text (b :: t) -> (b = Byte.x65 \/ b = Byte.x45) /\ number_rest number_exponent ty t value_float.
Proof.
  intros [?|(e & sign & ds & E & He & Hs & Hne & Hd)]; [done|]. simplify_eq. split; [done|]. exists sign, ds. auto.
Qed.
Lemma frac_text_cons b ds exp ty :
  frac_text (b :: ds) -> exp_text exp -> b = Byte.x2e /\ number_rest number_decimal1 ty (ds ++ exp) value_float.
Proof. intros [?|(ds' & E & Hne & Hd)] He; [done|]. simplify_eq. split; [done|]. exists ds', exp. auto. Qed.

(** [frac ++ exp] begins with a dot, or with an exponent. *)
Lemma frac_exp_cons frac exp b t ty :
  frac ++ exp = b :: t -> frac_text frac -> exp_text exp ->
  (b = Byte.x2e /\ number_rest number_decimal1 ty t (float_if frac exp ty)) \/
  ((b = Byte.x65 \/ b = Byte.x45) /\ number_rest number_exponent ty t (float_if frac exp ty)).
Proof.
  intros E Hf He. destruct frac as [|b' frac]; cbn in E.
  - subst exp. right. destruct (exp_text_cons b t ty He). auto.
  - simplify_eq. left. by apply frac_text_cons.
Qed.

Definition continues st b ty t ty' : Prop :=
  exists st', number_next st (byte_to_Z b) = inr st' /\ st' <> number_done /\ number_rest st' (number_enter st ty) t ty'.
Lemma minus_continues b t ty ty' : number_rest number_minus ty (b :: t) ty' -> continues number_minus b ty t ty'.
Proof.
  intros (int & frac & exp & E & [Hd [->|(d & ds & -> & Hne)]] & Hf & He & ->); simplify_list_eq.
  - exists number_zero. split; [done|]. split; [done|]. exists frac, exp. auto.
  - apply all_digits_cons in Hd as [Hb Hd]. exists number_any1. split.
    + cbn. unfold next_minus. rewrite <- digit_byte in Hb. unfold digit_0_9, digit_1_9 in *.
      destruct (Z.eqb_spec (byte_to_Z d) 48) as [E|E]; [by apply (byte_to_Z_inj d Byte.x30) in E|].
      apply between_spec in Hb. by rewrite (proj2 (between_spec 49 _ 57)) by lia.
    + split; [done|]. exists ds, frac, exp. auto.
Qed.
Lemma any1_continues b t ty ty' : number_rest number_any1 ty (b :: t) ty' -> continues number_any1 b ty t ty'.
Proof.
  intros (ds & frac & exp & E & Hd & Hf & He & ->). destruct ds as [|d ds]; cbn in E.
  - destruct (frac_exp_cons _ _ _ _ ty (symmetry E) Hf He) as [[-> H]|[Hb H]]; [exists number_decimal1; auto|].
    exists number_exponent. destruct Hb as [-> | ->]; auto.
  - simplify_eq. apply all_digits_cons in Hd as [Hb Hd]. exists number_any1.
    cbn. unfold next_any1. rewrite digit_byte, Hb. split; [done|]. split; [done|]. exists ds, frac, exp. auto.
Qed.
Lemma exponent_continues b t ty ty' : number_rest number_exponent ty (b :: t) ty' -> continues number_exponent b ty t ty'.
Proof.
  intros (sign & ds & E & Hs & Hne & Hd & ->). destruct Hs as [-> |Hs].
  - cbn in E. subst ds. apply all_digits_cons in Hd as [Hb Hd]. exists number_any2. split; [|done].
    cbn. unfold next_exponent. rewrite digit_byte, Hb. destruct b; done.
  - exists number_sign. destruct Hs as [-> | ->]; simplify_list_eq; auto.
Qed.

Lemma number_rest_cons st ty b t ty' : number_rest st ty (b :: t) ty' -> continues st b ty t ty'.
Proof.
  destruct st; cbn [number_rest].
  - apply minus_continues.
  - intros (frac & exp & E & Hf & He & ->).
    destruct (frac_exp_cons _ _ _ _ ty (symmetry E) Hf He) as [[-> H]|[Hb H]]; [exists number_decimal1; auto|].
    exists number_exponent. destruct Hb as [-> | ->]; auto.
  - apply any1_continues.
  - intros (ds & exp & E & Hne & Hd & He & ->). destruct ds as [|d ds]; simplify_list_eq.
    apply all_digits_cons in Hd as [Hb Hd]. exists number_decimal2. cbn. unfold next_decimal1.
    rewrite digit_byte, Hb. split; [done|]. split; [done|]. exists ds, exp. repeat split; auto. by destruct exp.
  - intros (ds & exp & E & Hd & He & ->). destruct ds as [|d ds]; simplify_list_eq.
    + destruct (exp_text_cons b t ty He) as [Hb H]. exists number_exponent. destruct Hb as [-> | ->]; auto.
    + apply all_digits_cons in Hd as [Hb Hd]. exists number_decimal2. cbn. unfold next_decimal2.
      rewrite digit_byte, Hb. split; [done|]. split; [done|]. exists ds, exp. auto.
  - apply exponent_continues.
  - intros (_ & Hd & ->). apply all_digits_cons in Hd as [Hb Hd]. exists number_any2. cbn. unfold next_sign.
    by rewrite digit_byte, Hb.
  - intros (Hd & ->). apply all_digits_cons in Hd as [Hb Hd]. exists number_any2. cbn. unfold next_any2.
    by rewrite digit_byte, Hb.
  - done.
Qed.

Lemma scan_number_loop_complete t fuel st ty ty' c n r buf lx :
  (length t < fuel)%nat -> number_rest st ty t ty' -> ends_number (head_char r) -> seen c n (t ++ r) buf lx ->
  exists lx', scan_number_loop fuel st ty lx = Ok (Some ty', lx') /\
    seen (head_char r) (n + zlen t + 1) (tail r) (buf ++ t) lx'.
Proof.
  revert fuel st ty c n buf lx. induction t as [|b t IH]; intros fuel st ty c n buf lx Hf Ht Hr H;
    (destruct fuel as [|fuel]; [cbn in Hf; lia|]);
    (assert (st <> number_done) as Hst by (by intros ->)); rewrite scan_number_loop_S by done; step.
  - destruct (number_rest_nil _ _ _ _ Hr Ht) as [-> ->]. eexists. split; [done|].
    rewrite app_nil_r, zlen_nil, Z.add_0_r. done.
  - apply number_rest_cons in Ht as (st' & -> & Hst' & Ht). rewrite decide_False by done.
    apply (add_seen (byte_to_Z b)) in Hs. unfold to_char in Hs. rewrite byte_of_to_Z in Hs. cbn [length] in Hf.
    destruct (IH fuel st' _ _ _ _ _ ltac:(lia) Ht Hr Hs) as (lx' & -> & Hs'). eexists. split; [done|].
    rewrite <- app_assoc in Hs'. rewrite zlen_cons. replace (n + (1 + zlen t) + 1) with (n + 1 + zlen t + 1) by lia. done.
Qed.

(** *** The conversions use up the whole number *)
Definition no_digit (r : bytes) : Prop := match r with b :: _ => is_digit b = false | [] => True end.
Lemma span_digits_app ds r : all_digits ds -> no_digit r -> span_digits (ds ++ r) = (ds, r).
Proof.
  intros Hd Hr. induction Hd as [|b ds Hb _ IH]; cbn [app span_digits].
  - destruct r as [|b r]; [done|]. cbn in *. by rewrite Hr.
  - by rewrite Hb, IH.
Qed.
Lemma span_digits_all ds : all_digits ds -> span_digits ds = (ds, []).
Proof. intros Hd. rewrite <- (app_nil_r ds) at 1. by apply span_digits_app. Qed.
Lemma exp_no_digit exp : exp_text exp -> no_digit exp.
Proof. by intros [-> |(e & sign & ds & -> & [-> | ->] & _)]. Qed.
Lemma frac_exp_no_digit frac exp : frac_text frac -> exp_text exp -> no_digit (frac ++ exp).
Proof. intros [-> |(ds & -> & _)] He; [by apply exp_no_digit|done]. Qed.

Lemma exponent_part_text exp : exp_text exp -> (exponent_part exp).2 = [].
Proof.
  intros [-> |(e & sign & ds & -> & He & Hs & Hne & Hd)]; [done|].
  assert (scan_sign (sign ++ ds) = (bool_decide (sign = [Byte.x2d]), ds)) as Esign.
  { destruct Hs as [-> |[-> | ->]]; [|done..]. destruct ds as [|d ds]; [done|].
    apply all_digits_cons in Hd as [Hb _]. cbn. repeat case_decide; subst; done. }
  destruct He as [-> | ->]; cbn; rewrite Esign, span_digits_all by done; by destruct ds.
Qed.

Lemma int_text_first int : int_text int -> exists d ds, int = d :: ds /\ is_digit d = true.
Proof.
  intros [Hd Hi]. destruct int as [|d ds]; [by destruct Hi as [?|(? & ? & ? & _)]|].
  apply all_digits_cons in Hd as [Hb _]. eauto.
Qed.
Lemma scan_sign_number neg int r : int_text int -> scan_sign (minus neg ++ int ++ r) = (neg, int ++ r).
Proof.
  intros (d & ds & -> & Hd)%int_text_first. destruct neg; [done|]. cbn. repeat case_decide; subst; done.
Qed.

Lemma strtod_number neg int frac exp :
  int_text int -> frac_text frac -> exp_text exp -> (strtod (minus neg ++ int ++ frac ++ exp)).2 = [].
Proof.
  intros Hi Hf He. unfold strtod. rewrite scan_sign_number by done.
  rewrite span_digits_app by (by apply Hi || by apply frac_exp_no_digit).
  pose proof (exponent_part_text _ He) as Hx. destruct Hf as [-> |(ds & -> & Hne & Hd)]; cbn [app].
  - destruct exp as [|b exp]; [done|]. destruct (exp_text_cons _ _ value_float He) as [[-> | ->] _];
      destruct (exponent_part _); by simpl in *.
  - rewrite span_digits_app by (done || by apply exp_no_digit). destruct (exponent_part exp). by simpl in *.
Qed.
Lemma strtoll_number neg int lo hi :
  int_text int ->
  strtoll10 lo hi (minus neg ++ int) =
    (let v := if neg then - Text.scan 10 0 int else Text.scan 10 0 int in
     if (lo <=? v) && (v <=? hi) then Some v else None, []).
Proof.
  intros Hi. unfold strtoll10. rewrite <- (app_nil_r int) at 1.
  rewrite scan_sign_number, app_nil_r, span_digits_all by (done || by apply Hi). done.
Qed.
Lemma scan_nonneg base acc l : 0 < base -> 0 <= acc -> 0 <= Text.scan base acc l.
Proof.
  intros Hb. revert acc. induction l as [|b l IH]; intros acc Ha; cbn [Text.scan]; [done|].
  destruct (digit_value base b) eqn:E; [|done]. apply digit_value_range in E; [|done]. apply IH. lia.
Qed.

(** The value a token stands for. *)
Definition token_value (t : token_type) lx : json :=
  match t with
  | literal_true => JBoolean true
  | literal_false => JBoolean false
  | value_string => JString (token_buffer lx)
  | value_unsigned => JUnsigned (v_unsigned lx)
  | value_integer => JInteger (v_integer lx)
  | value_float => JFloat (v_float lx)
  | _ => JNull
  end.
Definition is_number_token (t : token_type) : bool :=
  match t with value_unsigned | value_integer | value_float => true | _ => false end.

Definition number_kind (v : json) : token_type :=
  match v with JUnsigned _ => value_unsigned | JInteger _ => value_integer | _ => value_float end.
Lemma number_kind_value tk lx : is_number_token tk = true -> number_kind (token_value tk lx) = tk.
Proof. by destruct tk. Qed.

Definition number_value (neg : bool) (int frac exp : bytes) : json :=
  let f := JFloat (strtod (minus neg ++ int ++ frac ++ exp)).1 in
  match frac, exp with [], [] => default f (integer_value neg int) | _, _ => f end.
Lemma number_value_lexeme neg int frac exp :
  int_text int -> frac_text frac -> exp_text exp ->
  number_lexeme (minus neg ++ int ++ frac ++ exp) (number_value neg int frac exp).
Proof.
  intros Hi Hf He. unfold number_value.
  destruct frac as [|b frac]; [destruct exp as [|b exp]|]; [|by eapply nl_float..].
  destruct (integer_value neg int) eqn:E; cbn [default]; [rewrite app_nil_r; by apply nl_integer|by eapply nl_float].
Qed.
Lemma number_lexeme_value t v :
  number_lexeme t v -> exists neg int frac exp,
    t = minus neg ++ int ++ frac ++ exp /\ int_text int /\ frac_text frac /\ exp_text exp /\
    v = number_value neg int frac exp.
Proof.
  intros [neg int v' Hi Hv|neg int frac exp t' -> Hi Hf He Hn].
  - exists neg, int, [], []. unfold number_value. rewrite app_nil_r, Hv. auto 7 with lex.
  - exists neg, int, frac, exp. do 4 (split; [done|]). unfold number_value. destruct frac, exp; try done. by rewrite Hn.
Qed.

(** *** What the end of the number makes of it *)
Lemma number_as_float_spec neg int frac exp n r lx :
  int_text int -> frac_text frac -> exp_text exp -> ready n r (minus neg ++ int ++ frac ++ exp) lx ->
  exists lx', number_as_float lx = Ok (value_float, lx') /\ ready n r (minus neg ++ int ++ frac ++ exp) lx' /\
    token_value value_float lx' = JFloat (strtod (minus neg ++ int ++ frac ++ exp)).1.
Proof.
  intros Hi Hf He H. unfold number_as_float. replace (token_buffer lx) with (minus neg ++ int ++ frac ++ exp) by (symmetry; apply H).
  pose proof (strtod_number neg int frac exp Hi Hf He) as Hd. destruct (strtod _) as [x rest]. cbn in Hd. subst rest.
  rewrite bool_decide_eq_true_2 by done. eexists. done.
Qed.
Lemma integer_in_range neg int :
  integer_value neg int =
    if neg
    then (if (- 2 ^ 63 <=? - Text.scan 10 0 int) && (- Text.scan 10 0 int <=? 2 ^ 63 - 1)
          then Some (JInteger (- Text.scan 10 0 int)) else None)
    else (if (0 <=? Text.scan 10 0 int) && (Text.scan 10 0 int <=? 2 ^ 64 - 1)
          then Some (JUnsigned (Text.scan 10 0 int)) else None).
Proof.
  unfold integer_value. pose proof (scan_nonneg 10 0 int ltac:(lia) ltac:(lia)). destruct neg.
  - destruct (Z.leb_spec (Text.scan 10 0 int) (2 ^ 63)).
    + by rewrite !(proj2 (Z.leb_le _ _)) by lia.
    + by rewrite (proj2 (Z.leb_gt (- 2 ^ 63) _)) by lia.
  - destruct (Z.ltb_spec (Text.scan 10 0 int) (2 ^ 64)).
    + by rewrite !(proj2 (Z.leb_le _ _)) by lia.
    + by rewrite (proj2 (Z.leb_gt _ (2 ^ 64 - 1))), andb_false_r by lia.
Qed.

Lemma scan_number_done_spec neg int frac exp n r lx :
  int_text int -> frac_text frac -> exp_text exp ->
  seen (head_char r) n (tail r) (minus neg ++ int ++ frac ++ exp) lx ->
  exists t lx', scan_number_done (float_if frac exp (if neg then value_integer else value_unsigned)) lx = Ok (t, lx') /\
    token_value t lx' = number_value neg int frac exp /\ is_number_token t = true /\
    ready (n - 1) r (minus neg ++ int ++ frac ++ exp) lx'.
Proof.
  intros Hi Hf He H. unfold scan_number_done.
  destruct (unget_seen _ _ _ r _ _ H eq_refl eq_refl) as (lx1 & -> & H1). cbn [bind].
  destruct (number_as_float_spec _ _ _ _ _ _ _ Hi Hf He H1) as (lx' & Ef & Hr & Hv).
  destruct (decide (frac = [] /\ exp = [])) as [[-> ->]|Hne].
  - cbn [float_if]. replace (token_buffer lx1) with (minus neg ++ int) by (destruct H1 as [-> _]; by rewrite app_nil_r).
    pose proof (integer_in_range neg int) as Hin.
    destruct neg; rewrite strtoll_number by done; cbn [assert bind]; rewrite bool_decide_eq_true_2 by done;
      cbv zeta; unfold number_value; (destruct (_ && _); rewrite Hin; cbn [default]; [by eexists _, _|rewrite Ef; eauto 6]).
  - assert (float_if frac exp (if neg then value_integer else value_unsigned) = value_float /\
      number_value neg int frac exp = JFloat (strtod (minus neg ++ int ++ frac ++ exp)).1) as [-> ->]
      by (destruct frac, exp; try done; tauto).
    rewrite Ef. eauto 6.
Qed.

(** *** The whole number *)
Definition number_start (b : byte) : option number_state :=
  if byte_to_Z b =? 45 then Some number_minus
  else if byte_to_Z b =? 48 then Some number_zero
  else if digit_1_9 (byte_to_Z b) then Some number_any1
  else None.
Lemma number_start_sound b st t ty' :
  number_start b = Some st -> number_rest st value_unsigned t ty' ->
  exists neg int frac exp, b :: t = minus neg ++ int ++ frac ++ exp /\ int_text int /\ frac_text frac /\ exp_text exp /\
    ty' = float_if frac exp (if neg then value_integer else value_unsigned).
Proof.
  unfold number_start. intros Hst Ht.
  destruct (Z.eqb_spec (byte_to_Z b) 45) as [E|_]; [|destruct (Z.eqb_spec (byte_to_Z b) 48) as [E|_];
    [|destruct (digit_1_9 (byte_to_Z b)) eqn:E]]; simplify_eq.
  - apply (byte_to_Z_inj b Byte.x2d) in E as ->.
    destruct Ht as (int & frac & exp & -> & Hi & Hf & He & ->). exists true, int, frac, exp. auto 6.
  - apply (byte_to_Z_inj b Byte.x30) in E as ->. destruct Ht as (frac & exp & -> & Hf & He & ->).
    exists false, [Byte.x30], frac, exp. split; [done|]. split; [|auto]. split; [by repeat constructor|by left].
  - apply digit_1_9_byte in E as [Hb Hne]. destruct Ht as (ds & frac & exp & -> & Hd & Hf & He & ->).
    exists false, (b :: ds), frac, exp. split; [done|]. split; [|auto]. split; [by apply all_digits_cons|right; eauto].
Qed.
Lemma number_start_complete neg int frac exp :
  int_text int -> frac_text frac -> exp_text exp ->
  exists b t st, minus neg ++ int ++ frac ++ exp = b :: t /\ number_start b = Some st /\
    number_rest st value_unsigned t (float_if frac exp (if neg then value_integer else value_unsigned)).
Proof.
  intros Hi Hf He. destruct neg.
  - eexists _, _, _. split; [done|]. split; [done|]. exists int, frac, exp. auto.
  - destruct Hi as [Hd [-> |(d & ds & -> & Hne)]].
    + eexists _, _, _. split; [done|]. split; [done|]. exists frac, exp. auto.
    + apply all_digits_cons in Hd as [Hb Hd]. exists d, (ds ++ frac ++ exp), number_any1. split; [done|].
      split; [destruct d; done|]. exists ds, frac, exp. auto.
Qed.

Lemma scan_number_start b st n r buf lx :
  number_start b = Some st -> seen (byte_to_Z b) n r buf lx ->
  exists lx', seen (byte_to_Z b) n r [b] lx' /\ scan_number lx =
    let* (t, lx') := scan_number_loop (S (S (length r))) st value_unsigned lx' in
    match t with
    | Some number_type => scan_number_done number_type lx'
    | None => Ok (parse_error, lx')
    end.
Proof.
  intros Hst H%reset_seen. unfold scan_number. rewrite (seen_current _ _ _ _ _ H).
  pose proof (add_seen (byte_to_Z b) _ _ _ _ _ H) as Ha. unfold to_char in Ha. rewrite byte_of_to_Z in Ha.
  exists (add (byte_to_Z b) (reset lx)). split; [done|]. rewrite (seen_ia _ _ _ _ _ Ha). unfold number_start in Hst.
  repeat case_match; simplify_eq; done.
Qed.

Definition number_scanned (b : byte) (r : bytes) (n : Z) (o : res (token_type * lexer)) : Prop :=
  exists t lx', o = Ok (t, lx') /\
    (t = parse_error \/ exists tx r', b :: r = tx ++ r' /\ number_lexeme tx (token_value t lx') /\
       is_number_token t = true /\ ready (n - 1 + zlen tx) r' tx lx').
Lemma scan_number_sound b st n r buf lx :
  number_start b = Some st -> seen (byte_to_Z b) n r buf lx -> number_scanned b r n (scan_number lx).
Proof.
  intros Hst H. destruct (scan_number_start _ _ _ _ _ _ Hst H) as (lx1 & H1 & ->).
  destruct (scan_number_loop_sound (S (S (length r))) st value_unsigned _ _ r _ _ ltac:(lia)
    ltac:(by intros ->; unfold number_start in Hst; repeat case_match) H1) as (o & lx2 & -> & Ho). cbn [bind].
  destruct o as [ty'|]; [|eexists _, _; auto]. destruct Ho as (t & r' & -> & Ht & Hs).
  destruct (number_start_sound _ _ _ _ Hst Ht) as (neg & int & frac & exp & Heq & Hi & Hf & He & ->).
  change ([b] ++ t) with (b :: t) in Hs. rewrite Heq in Hs.
  destruct (scan_number_done_spec _ _ _ _ _ _ _ Hi Hf He Hs) as (tk & lx' & -> & Hv & Hk & Hr).
  eexists _, _. split; [done|]. right. exists (b :: t), r'. split; [done|]. rewrite Hv, Heq.
  split; [by apply number_value_lexeme|]. split; [done|].
  rewrite <- Heq, zlen_cons. replace (n - 1 + (1 + zlen t)) with (n + zlen t + 1 - 1) by lia. by rewrite Heq.
Qed.
Lemma scan_number_complete tx v n r b r0 buf lx :
  number_lexeme tx v -> ends_number (head_char r) -> tx ++ r = b :: r0 -> seen (byte_to_Z b) n r0 buf lx ->
  exists t lx', scan_number lx = Ok (t, lx') /\ token_value t lx' = v /\ is_number_token t = true /\
    ready (n - 1 + zlen tx) r tx lx'.
Proof.
  intros (neg & int & frac & exp & -> & Hi & Hf & He & ->)%number_lexeme_value Hr Heq H.
  destruct (number_start_complete neg int frac exp Hi Hf He) as (b' & t & st & Et & Hst & Ht).
  rewrite Et in Heq. injection Heq as <- <-.
  destruct (scan_number_start _ _ _ _ _ _ Hst H) as (lx1 & H1 & ->).
  destruct (scan_number_loop_complete t (S (S (length (t ++ r)))) st _ _ _ _ r _ _
    ltac:(rewrite length_app; lia) Ht Hr H1) as (lx2 & -> & Hs). cbn [bind].
  change ([b'] ++ t) with (b' :: t) in Hs. rewrite <- Et in Hs.
  destruct (scan_number_done_spec _ _ _ _ _ _ _ Hi Hf He Hs) as (tk & lx' & -> & Hv & Hk & Hr').
  eexists _, _. split; [done|]. split; [done|]. split; [done|]. rewrite Et, zlen_cons.
  replace (n - 1 + (1 + zlen t)) with (n + zlen t + 1 - 1) by lia. by rewrite <- Et.
Qed.

(** ** Tokens *)
Inductive token_text : token_type -> bytes -> json -> Prop :=
  | tt_begin_array : token_text begin_array [Byte.x5b] JNull
  | tt_end_array : token_text end_array [Byte.x5d] JNull
  | tt_begin_object : token_text begin_object [Byte.x7b] JNull
  | tt_end_object : token_text end_object [Byte.x7d] JNull
  | tt_name_separator : token_text name_separator [Byte.x3a] JNull
  | tt_value_separator : token_text value_separator [Byte.x2c] JNull
  | tt_true : token_text literal_true (str "true") (JBoolean true)
  | tt_false : token_text literal_false (str "false") (JBoolean false)
  | tt_null : token_text literal_null (str "null") JNull
  | tt_string t s : string_text t s -> token_text value_string t (JString s)
  | tt_number t v : number_lexeme t v -> token_text (number_kind v) t v.

(** A number is read to its end only when what follows cannot continue it. *)
Definition separated (tk : token_type) (r : bytes) : Prop := is_number_token tk = true -> ends_number (head_char r).

Lemma literal_loop_sound text c n r buf lx :
  seen c n r buf lx ->
  exists ok lx', literal_loop text lx = (ok, lx') /\
    (ok = true -> exists r' c', r = text ++ r' /\ seen c' (n + zlen text) r' buf lx').
Proof.
  revert c n r lx. induction text as [|b text IH]; intros c n r lx H; cbn [literal_loop].
  - eexists _, _. split; [done|]. intros _. exists r, c. rewrite zlen_nil, Z.add_0_r. done.
  - step. destruct (Z.eqb_spec (head_char r) (byte_to_Z b)) as [E|_]; [|by eexists false, _].
    apply head_char_byte in E as [r1 ->]. cbn [head_char tail] in Hs.
    destruct (IH _ _ _ _ Hs) as (ok & lx' & -> & Hok). eexists _, _. split; [done|]. intros Ht.
    destruct (Hok Ht) as (r' & c' & -> & Hs'). exists r', c'. split; [done|]. rewrite zlen_cons, Z.add_assoc. done.
Qed.
Lemma literal_loop_complete text c n r buf lx :
  seen c n (text ++ r) buf lx ->
  exists c' lx', literal_loop text lx = (true, lx') /\ seen c' (n + zlen text) r buf lx'.
Proof.
  revert c n lx. induction text as [|b text IH]; intros c n lx H; cbn [literal_loop].
  - eexists _, _. split; [done|]. rewrite zlen_nil, Z.add_0_r. done.
  - step. rewrite Z.eqb_refl. destruct (IH _ _ _ Hs) as (c' & lx' & -> & Hs'). eexists _, _. split; [done|].
    rewrite zlen_cons, Z.add_assoc. done.
Qed.

(** The outcome of reading a token off [r] once [n] characters are read: an
    error, the end of the input, or a token. *)
Definition token_read (r : bytes) (n : Z) (o : res (token_type * lexer)) : Prop :=
  exists tk lx', o = Ok (tk, lx') /\
    (tk = parse_error \/ tk = end_of_input /\ text_end r \/
     exists t r' n' buf, r = t ++ r' /\ token_text tk t (token_value tk lx') /\ n <= n' /\ ready n' r' buf lx').
Definition token_is (tk : token_type) (v : json) (n : Z) (r : bytes) (o : res (token_type * lexer)) : Prop :=
  exists lx', o = Ok (tk, lx') /\ token_value tk lx' = v /\ exists n' buf, n <= n' /\ ready n' r buf lx'.

Lemma scan_literal_sound b text tk n r buf lx :
  (forall lx', token_text tk (b :: text) (token_value tk lx')) -> seen (byte_to_Z b) n r buf lx ->
  token_read (b :: r) n (scan_literal (b :: text) tk lx).
Proof.
  intros Htk H. unfold scan_literal. rewrite (seen_current _ _ _ _ _ H), Z.eqb_refl. cbn [assert bind].
  destruct (literal_loop_sound text _ _ _ _ _ H) as ([|] & lx' & -> & Hok); eexists _, _; (split; [done|]); [|auto].
  right. right. destruct (Hok eq_refl) as (r' & c' & -> & Hs). exists (b :: text), r', (n + zlen text), buf.
  pose proof (zlen_nonneg text). split; [done|]. split; [done|]. split; [lia|eauto with lex].
Qed.
Lemma scan_literal_complete b text tk v n r buf lx :
  (forall lx', token_value tk lx' = v) -> seen (byte_to_Z b) n (text ++ r) buf lx ->
  token_is tk v n r (scan_literal (b :: text) tk lx).
Proof.
  intros Htk H. unfold scan_literal. rewrite (seen_current _ _ _ _ _ H), Z.eqb_refl. cbn [assert bind].
  destruct (literal_loop_complete text _ _ _ _ _ H) as (c' & lx' & -> & Hs). eexists. split; [done|]. split; [done|].
  pose proof (zlen_nonneg text). eexists _, _. split; [|by eapply seen_ready]. lia.
Qed.

Lemma token_read_one tk b n r buf lx :
  token_text tk [b] (token_value tk lx) -> seen (byte_to_Z b) n r buf lx -> token_read (b :: r) n (Ok (tk, lx)).
Proof.
  intros Htk H. eexists _, _. split; [done|]. right. right. exists [b], r, n, buf. split; [done|]. split; [done|].
  split; [lia|eauto with lex].
Qed.

Lemma number_start_some b : (byte_to_Z b =? 45) || digit_0_9 (byte_to_Z b) = true -> is_Some (number_start b).
Proof. destruct b; intros H; try discriminate H; by eexists. Qed.
Lemma scan_token_sound b n r buf lx :
  seen (byte_to_Z b) n r buf lx -> token_read (b :: r) n (scan_token lx).
Proof.
  intros H. unfold scan_token. rewrite (seen_current _ _ _ _ _ H).
  repeat match goal with
  | |- token_read _ _ (if byte_to_Z b =? ?k then Ok _ else _) =>
      destruct (Z.eqb_spec (byte_to_Z b) k) as [E|_];
      [assert (b = byte_of_Z k) as -> by (by rewrite <- (byte_of_to_Z b), E);
       eapply token_read_one; [constructor|exact H]|]
  | |- token_read _ _ (if byte_to_Z b =? ?k then scan_literal _ _ _ else _) =>
      destruct (Z.eqb_spec (byte_to_Z b) k) as [E|_];
      [assert (b = byte_of_Z k) as -> by (by rewrite <- (byte_of_to_Z b), E);
       eapply scan_literal_sound; [intros ?; constructor|exact H]|]
  end.
  destruct (Z.eqb_spec (byte_to_Z b) 34) as [E|_].
  { apply (byte_to_Z_inj b Byte.x22) in E as ->.
    destruct (scan_string_sound _ _ _ _ H) as (tk & lx' & -> & [-> |[-> Hb]]); eexists _, _; (split; [done|]); [auto|].
    destruct Hb as (body & s & r' & -> & Hb & Hs). right. right.
    exists (Byte.x22 :: body ++ [Byte.x22]), r', (n + zlen body + 1), s. pose proof (zlen_nonneg body).
    split; [by rewrite <- app_comm_cons, <- app_assoc|]. split; [|split; [lia|eauto with lex]].
    cbn [token_value]. rewrite (seen_buffer _ _ _ _ _ Hs). constructor. by exists body. }
  destruct (_ || digit_0_9 _) eqn:E.
  { destruct (number_start_some _ E) as [st Hst].
    destruct (scan_number_sound _ _ _ _ _ _ Hst H) as (tk & lx' & -> & [-> |(tx & r' & Heq & Hl & Hk & Hr)]);
      eexists _, _; (split; [done|]); [auto|].
    right. right. exists tx, r', (n - 1 + zlen tx), tx. split; [done|]. split; [rewrite <- (number_kind_value tk lx' Hk) at 1; by apply tt_number|]. split; [|done].
    destruct tx; [|rewrite zlen_cons; pose proof (zlen_nonneg tx); lia].
    apply number_lexeme_value in Hl as (neg & int & frac & exp & Htx & Hi & _).
    destruct (int_text_first _ Hi) as (d & ds & -> & _). by destruct neg. }
  destruct (Z.eqb_spec (byte_to_Z b) 0) as [E0|_]; cbn [orb]; [|rewrite byte_not_eof; eexists _, _; auto].
  apply (byte_to_Z_inj b Byte.x00) in E0 as ->. eexists _, _. split; [done|]. right. left. split; [done|]. right. eauto.
Qed.

Lemma token_text_first tk t v : token_text tk t v -> exists b t', t = b :: t'.
Proof.
  intros []; try by eexists _, _.
  - destruct H as (b & -> & _). eauto.
  - apply number_lexeme_value in H as (neg & int & frac & exp & -> & Hi & _).
    destruct (int_text_first _ Hi) as (d & ds & -> & _). destruct neg; by eexists _, _.
Qed.
Lemma token_is_one tk v b n r buf lx :
  token_value tk lx = v -> seen (byte_to_Z b) n r buf lx -> token_is tk v n r (Ok (tk, lx)).
Proof. intros Hv H. eexists. split; [done|]. split; [done|]. exists n, buf. split; [lia|eauto with lex]. Qed.
Lemma is_number_kind v : is_number_token (number_kind v) = true.
Proof. by destruct v. Qed.
Lemma number_first neg int r b r0 :
  int_text int -> minus neg ++ int ++ r = b :: r0 -> byte_to_Z b = 45 \/ 48 <= byte_to_Z b <= 57.
Proof.
  intros (d & ds & -> & Hd)%int_text_first E. destruct neg; cbn in E; injection E as <- _; [by left|].
  right. rewrite <- digit_byte in Hd. by apply between_spec in Hd.
Qed.

Lemma scan_token_complete tk t v b r0 n r buf lx :
  token_text tk t v -> separated tk r -> t ++ r = b :: r0 -> seen (byte_to_Z b) n r0 buf lx ->
  token_is tk v n r (scan_token lx).
Proof.
  intros Ht Hsep Heq H. unfold scan_token. rewrite (seen_current _ _ _ _ _ H).
  destruct Ht as [| | | | | | | | |t s Hstr|t v Hl];
    try (injection Heq as <- <-; cbn [byte_to_Z Z.eqb];
         first [eapply scan_literal_complete; [done|exact H]|by eapply token_is_one]).
  - destruct Hstr as (body & -> & Hb). rewrite <- app_comm_cons, <- app_assoc in Heq. cbn in Heq.
    injection Heq as <- <-. cbn. destruct (scan_string_complete _ _ _ _ _ _ Hb H) as (lx' & -> & Hs).
    eexists. split; [done|]. cbn [token_value]. rewrite (seen_buffer _ _ _ _ _ Hs).
    split; [done|]. pose proof (zlen_nonneg body). eexists _, _. split; [|by eapply seen_ready]. lia.
  - pose proof (scan_number_complete _ _ _ _ _ _ _ _ Hl (Hsep (is_number_kind v)) Heq H) as (tk' & lx' & E & Hv & Hk' & Hr).
    destruct (number_lexeme_value _ _ Hl) as (neg & int & frac & exp & -> & Hi & _).
    rewrite <- !app_assoc in Heq. pose proof (number_first _ _ _ _ _ Hi Heq) as Hb.
    repeat match goal with |- context [if byte_to_Z b =? ?k then _ else _] => rewrite (proj2 (Z.eqb_neq (byte_to_Z b) k)) by lia end.
    replace (_ || digit_0_9 _) with true.
    2:{ symmetry. apply orb_true_iff. destruct Hb; [left; by apply Z.eqb_eq|right; by apply between_spec]. }
    rewrite E. rewrite <- Hv at 1. rewrite number_kind_value by done. eexists. split; [done|]. split; [done|].
    eexists _, _. split; [|done].
    destruct (int_text_first _ Hi) as (d & ds & -> & _). rewrite !zlen_app, zlen_cons.
    pose proof (zlen_nonneg (minus neg)). pose proof (zlen_nonneg ds). pose proof (zlen_nonneg frac). pose proof (zlen_nonneg exp). lia.
Qed.

(** ** The whole scanner *)
Lemma is_space_spec r : is_space (head_char r) = true -> exists b r', r = b :: r' /\ space b.
Proof.
  destruct r as [|b r]; [done|]. cbn [head_char]. intros H. exists b, r. split; [done|]. unfold space.
  destruct b; try discriminate H; auto.
Qed.
Lemma space_is_space b r : space b -> is_space (head_char (b :: r)) = true.
Proof. by intros [-> |[-> |[-> | ->]]]. Qed.

(** Blanks are skipped, and the first character after them is read. *)
Lemma skip_space_sound fuel n r buf lx :
  (length r < fuel)%nat -> ready n r buf lx ->
  exists w r' lx', skip_space fuel lx = Ok lx' /\ r = w ++ r' /\ spaces w /\ is_space (head_char r') = false /\
    seen (head_char r') (n + zlen w + 1) (tail r') buf lx'.
Proof.
  revert n r lx. induction fuel as [|fuel IH]; intros n r lx Hf H; [lia|]. cbn [skip_space]. step.
  destruct (is_space (head_char r)) eqn:E.
  - apply is_space_spec in E as (b & r' & -> & Hb). cbn [tail head_char length] in *.
    destruct (IH _ r' _ ltac:(lia) (seen_ready _ _ _ _ _ Hs)) as (w & r2 & lx' & -> & -> & Hw & Hns & Hs').
    exists (b :: w), r2, lx'. split; [done|]. split; [done|]. split; [by constructor|]. split; [done|].
    rewrite zlen_cons. replace (n + (1 + zlen w) + 1) with (n + 1 + zlen w + 1) by lia. done.
  - exists [], r. eexists. split; [done|]. split; [done|]. split; [constructor|]. split; [done|].
    rewrite zlen_nil, Z.add_0_r. done.
Qed.
Lemma spaces_unique w1 r1 w2 r2 :
  spaces w1 -> spaces w2 -> is_space (head_char r1) = false -> is_space (head_char r2) = false ->
  w1 ++ r1 = w2 ++ r2 -> w1 = w2 /\ r1 = r2.
Proof.
  intros H1. revert w2. induction H1 as [|b w1 Hb _ IH]; intros w2 H2 E1 E2 Heq.
  - destruct H2 as [|b w2 Hb _]; [done|]. cbn in Heq. subst r1. by rewrite space_is_space in E1.
  - destruct H2 as [|b' w2 Hb' H2]; cbn in Heq; [subst r2; by rewrite space_is_space in E2|].
    simplify_eq. destruct (IH w2 H2 E1 E2) as [-> ->]; done.
Qed.
Lemma ready_length n r buf lx : ready n r buf lx -> (length r < S (S (length (ia lx))))%nat.
Proof. intros (_ & _ & H). destruct (next_unget lx); [|subst; lia]. destruct r; cbn; [lia|]. destruct H as [_ ->]. lia. Qed.

(** After the blanks [w], the rest [r] is scanned. *)
Lemma skip_then w n r buf lx :
  spaces w -> is_space (head_char r) = false -> ready n (w ++ r) buf lx ->
  exists lx', skip_space (S (S (length (ia lx)))) lx = Ok lx' /\ seen (head_char r) (n + zlen w + 1) (tail r) buf lx'.
Proof.
  intros Hw Hr H. destruct (skip_space_sound _ _ _ _ _ (ready_length _ _ _ _ H) H) as (w' & r' & lx' & E & Heq & Hw' & Hns & Hs).
  destruct (spaces_unique w r w' r' Hw Hw' Hr Hns Heq) as [<- <-]. eauto.
Qed.

Lemma scan_started lx : chars_read_total (position lx) <> 0 ->
  scan lx = let* lx := skip_space (S (S (length (ia lx)))) lx in scan_token lx.
Proof. intros H. unfold scan. by rewrite (proj2 (Z.eqb_neq _ _) H). Qed.

(** Reading a token off [r], blanks first. *)
Definition scanned (r : bytes) (n : Z) (o : res (token_type * lexer)) : Prop :=
  exists tk lx', o = Ok (tk, lx') /\
    (tk = parse_error \/ tk = end_of_input /\ (exists w r', r = w ++ r' /\ spaces w /\ text_end r') \/
     exists w t r' n' buf, r = w ++ t ++ r' /\ spaces w /\ token_text tk t (token_value tk lx') /\ n < n' /\ ready n' r' buf lx').
Lemma skip_token_sound n r buf lx :
  ready n r buf lx -> scanned r n (let* lx := skip_space (S (S (length (ia lx)))) lx in scan_token lx).
Proof.
  intros H. destruct (skip_space_sound _ _ _ _ _ (ready_length _ _ _ _ H) H) as (w & r' & lx1 & -> & -> & Hw & Hns & Hs).
  cbn [bind]. pose proof (zlen_nonneg w). destruct r' as [|b r']; cbn [head_char tail] in *.
  - unfold scan_token. rewrite (seen_current _ _ _ _ _ Hs). cbn. eexists _, _. split; [done|]. right. left.
    split; [done|]. exists w, []. split; [done|]. split; [done|by left].
  - destruct (scan_token_sound _ _ _ _ _ Hs) as (tk & lx' & -> & [-> |[[-> He]|(t & r2 & n' & buf' & Ht & Htk & Hn & Hr)]]);
      eexists _, _; (split; [done|]); [auto|right; left; eauto 6|].
    right. right. exists w, t, r2, n', buf'. rewrite Ht. do 3 (split; [done|]). split; [lia|done].
Qed.
Lemma text_end_head r : text_end r -> head_char r = eof \/ head_char r = 0.
Proof. intros [-> |[r' ->]]; [by left|by right]. Qed.
Lemma skip_token_end w n r buf lx :
  spaces w -> text_end r -> ready n (w ++ r) buf lx ->
  exists lx', (let* lx := skip_space (S (S (length (ia lx)))) lx in scan_token lx) = Ok (end_of_input, lx').
Proof.
  intros Hw He H. apply text_end_head in He.
  destruct (skip_then w n r buf lx Hw) as (lx' & -> & Hs); [by destruct He as [-> | ->]|done|].
  cbn [bind]. unfold scan_token. rewrite (seen_current _ _ _ _ _ Hs). destruct He as [-> | ->]; by eexists.
Qed.
Lemma token_not_space tk t v r : token_text tk t v -> is_space (head_char (t ++ r)) = false.
Proof.
  intros []; try done; [by destruct H as (b & -> & _)|].
  apply number_lexeme_value in H as (neg & int & frac & exp & -> & Hi & _).
  destruct (int_text_first _ Hi) as (d & ds & -> & Hd). destruct neg; [done|]. cbn. destruct d; done.
Qed.
Lemma skip_token_complete w tk t v n r buf lx :
  spaces w -> token_text tk t v -> separated tk r -> ready n (w ++ t ++ r) buf lx ->
  token_is tk v (n + 1) r (let* lx := skip_space (S (S (length (ia lx)))) lx in scan_token lx).
Proof.
  intros Hw Ht Hsep H.
  destruct (skip_then w n (t ++ r) buf lx Hw (token_not_space _ _ _ _ Ht) H) as (lx' & -> & Hs). cbn [bind].
  destruct (token_text_first _ _ _ Ht) as (b & t' & Heq). pose proof (zlen_nonneg w).
  rewrite Heq in Hs. cbn [head_char tail app] in Hs.
  destruct (scan_token_complete tk t v b (t' ++ r) _ r _ _ Ht Hsep ltac:(by rewrite Heq) Hs)
    as (lx2 & E & Hv & n' & buf' & Hn & Hr). exists lx2. split; [done|]. split; [done|]. exists n', buf'. split; [lia|done].
Qed.

(** *** Scanning in the middle of a text, and at its start *)
Lemma scan_sound n r buf lx : ready n r buf lx -> 0 < n -> scanned r n (scan lx).
Proof. intros H Hn. rewrite scan_started; [by eapply skip_token_sound|]. destruct H as (_ & -> & _). lia. Qed.
Lemma scan_end w n r buf lx :
  spaces w -> text_end r -> ready n (w ++ r) buf lx -> 0 < n -> exists lx', scan lx = Ok (end_of_input, lx').
Proof.
  intros Hw He H Hn. rewrite scan_started; [by eapply skip_token_end|]. destruct H as (_ & -> & _). lia.
Qed.
Lemma scan_complete w tk t v n r buf lx :
  spaces w -> token_text tk t v -> separated tk r -> ready n (w ++ t ++ r) buf lx -> 0 < n ->
  token_is tk v (n + 1) r (scan lx).
Proof.
  intros Hw Ht Hsep H Hn. rewrite scan_started; [by eapply skip_token_complete|]. destruct H as (_ & -> & _). lia.
Qed.

Definition bom : bytes := [Byte.xef; Byte.xbb; Byte.xbf].
Lemma skip_bom_some r buf lx : ready 0 (bom ++ r) buf lx -> exists lx', skip_bom lx = Ok (true, lx') /\ ready 3 r buf lx'.
Proof. intros H. unfold skip_bom. step. cbn. step. cbn. step. eexists. split; [done|]. by eapply seen_ready. Qed.
Lemma skip_bom_none n r buf lx :
  head_char r <> 0xEF -> ready n r buf lx -> exists lx', skip_bom lx = Ok (true, lx') /\ ready n r buf lx'.
Proof.
  intros Hne H. unfold skip_bom. step. rewrite (proj2 (Z.eqb_neq _ _) Hne).
  destruct (unget_seen _ _ _ r _ _ Hs eq_refl eq_refl) as (lx' & -> & Hr). eexists. split; [done|].
  by replace (n + 1 - 1) with n in Hr by lia.
Qed.
Lemma skip_bom_sound r buf lx :
  ready 0 r buf lx ->
  exists ok lx', skip_bom lx = Ok (ok, lx') /\
    (ok = true -> exists m r' n, r = m ++ r' /\ (m = [] \/ m = bom) /\ 0 <= n /\ ready n r' buf lx').
Proof.
  intros H. destruct (decide (head_char r = 0xEF)) as [E|Hne].
  - apply (head_char_byte _ Byte.xef) in E as [r1 ->]. unfold skip_bom. step. cbn. step.
    destruct (Z.eqb_spec (head_char r1) 0xBB) as [E|_]; [|by eexists false, _].
    apply (head_char_byte _ Byte.xbb) in E as [r2 ->]. cbn [tail head_char] in *. step. eexists _, _. split; [done|].
    intros E%Z.eqb_eq. apply (head_char_byte _ Byte.xbf) in E as [r3 ->]. exists bom, r3, (0 + 1 + 1 + 1).
    split; [done|]. split; [by right|]. split; [lia|]. by eapply seen_ready.
  - destruct (skip_bom_none _ _ _ _ Hne H) as (lx' & -> & Hr). eexists _, _. split; [done|]. intros _.
    exists [], r, 0. split; [done|]. split; [by left|]. split; [lia|done].
Qed.

Lemma scan_at_start lx : chars_read_total (position lx) = 0 ->
  scan lx = let* (bom_ok, lx) := skip_bom lx in
    if negb bom_ok then
      Ok (parse_error, set_error (str "invalid BOM; must be 0xEF 0xBB 0xBF if given") lx)
    else let* lx := skip_space (S (S (length (ia lx)))) lx in scan_token lx.
Proof. intros H. unfold scan. by rewrite H. Qed.
Lemma scan_first_sound text :
  exists m r, text = m ++ r /\ (m = [] \/ m = bom) /\ scanned r 0 (scan (lexer_new text)).
Proof.
  assert (ready 0 text [] (lexer_new text)) as H by done. rewrite scan_at_start by done.
  destruct (skip_bom_sound _ _ _ H) as ([|] & lx' & -> & Hok); cbn [bind negb].
  - destruct (Hok eq_refl) as (m & r & n & -> & Hm & Hn & Hr). exists m, r. split; [done|]. split; [done|].
    destruct (skip_token_sound _ _ _ _ Hr) as (tk & lx2 & -> & Ho). eexists _, _. split; [done|].
    destruct Ho as [Ho|[Ho|(w & t & r' & n' & buf' & E & Hw & Ht & Hn' & Hr')]]; [by left|right; by left|].
    right. right. exists w, t, r', n', buf'. do 3 (split; [done|]). split; [lia|done].
  - exists [], text. split; [done|]. split; [by left|]. eexists _, _. auto.
Qed.
Lemma bom_head m r : m = [] \/ m = bom -> head_char r <> 0xEF \/ m = bom ->
  exists lx', skip_bom (lexer_new (m ++ r)) = Ok (true, lx') /\ exists n, 0 <= n /\ ready n r [] lx'.
Proof.
  intros Hm Hr. destruct (decide (m = bom)) as [-> |Hne].
  - destruct (skip_bom_some r [] (lexer_new (bom ++ r))) as (lx' & -> & H); [done|]. eexists. split; [done|]. by exists 3.
  - destruct Hm as [-> |?]; [|done]. destruct Hr as [Hr|?]; [|done]. cbn [app].
    destruct (skip_bom_none 0 r [] (lexer_new r) Hr) as (lx' & -> & H); [done|]. eexists. split; [done|]. by exists 0.
Qed.
Lemma spaces_not_bom w r : spaces w -> head_char r <> 0xEF -> head_char (w ++ r) <> 0xEF.
Proof. by intros [|b w' [-> |[-> |[-> | ->]]]]. Qed.
Lemma token_not_bom tk t v r : token_text tk t v -> head_char (t ++ r) <> 0xEF.
Proof.
  intros []; try done; [by destruct H as (b & -> & _)|].
  apply number_lexeme_value in H as (neg & int & frac & exp & -> & Hi & _).
  destruct (int_text_first _ Hi) as (d & ds & -> & Hd). destruct neg; [done|]. cbn. destruct d; done.
Qed.
Lemma scan_first_complete m w tk t v r :
  m = [] \/ m = bom -> spaces w -> token_text tk t v -> separated tk r ->
  token_is tk v 1 r (scan (lexer_new (m ++ w ++ t ++ r))).
Proof.
  intros Hm Hw Ht Hsep. rewrite scan_at_start by done.
  destruct (bom_head m (w ++ t ++ r) Hm) as (lx' & -> & n & Hn & Hr).
  { left. apply spaces_not_bom; [done|]. by eapply token_not_bom. }
  cbn [bind negb]. destruct (skip_token_complete _ _ _ _ _ _ _ _ Hw Ht Hsep Hr) as (lx2 & E & Hv & n' & buf' & Hn' & Hr').
  exists lx2. split; [done|]. split; [done|]. exists n', buf'. split; [lia|done].
Qed.
End Scan.
