(* ===== verification/JsonParser.v ===== *)
(** * The JSON parser: [class parser] and [json_sax_dom_parser] of
      src/opt/nlohmann/json.hpp

    [basic_json::parse] without a callback.  The parser keeps an explicit stack
    of the arrays and objects it is in, and builds the value through pointers
    into it: [root] is the value built so far and a pointer is a path from the
    root.  A pointer to an element of an array is good only while the element
    is the last one, because [emplace_back] may move the others. *)

From Stdlib Require Import ZArith Lia Floats.SpecFloat.
From stdpp Require Import base list gmap strings.
From S2P Require Import Prelude Text Json JsonSpec JsonLexer.
Local Open Scope Z_scope.

Module Parser.
Import Json.
Import (hints) Lexer.
Abbreviation token_type := Lexer.token_type.
Abbreviation lexer := Lexer.lexer.

(** ** Exceptions *)
Record exception := mkException {
  id : Z;
  what : bytes;
  byte_ : Z;                      (** 0 where the class has no [byte] *)
}.
Definition exception_name (ename : bytes) (id_ : Z) : bytes :=
  str "[json.exception." ++ ename ++ str "." ++ to_string id_ ++ str "] ".
Definition position_string (pos : Lexer.position_t) : bytes :=
  str " at line " ++ to_string (Lexer.lines_read pos + 1) ++
  str ", column " ++ to_string (Lexer.chars_read_current_line pos).
Definition parse_error_create (id_ : Z) (pos : Lexer.position_t) (what_arg : bytes) : exception :=
  mkException id_
    (exception_name (str "parse_error") id_ ++ str "parse error" ++ position_string pos ++ str ": " ++ what_arg)
    (Lexer.chars_read_total pos).
Definition out_of_range_create (id_ : Z) (what_arg : bytes) : exception :=
  mkException id_ (exception_name (str "out_of_range") id_ ++ what_arg) 0.

(** ** The state: the parser and the builder

    [states] of [sax_parse_internal] is an argument of the loop. *)
Inductive step :=
  | AtIndex (i : nat)
  | AtKey (k : bytes).
Abbreviation path := (list step).

Record dom := mkDom {
  root : json;
  ref_stack : list path;          (** innermost first *)
  object_element : option path;
  errored : bool;
  allow_exceptions : bool;
}.
Record parser := mkParser {
  last_token : token_type;
  m_lexer : lexer;
  sdp : dom;
}.

(** Computations with failures, exceptions and the state. *)
Definition M (A : Type) : Type := parser -> res (exception + A * parser).
Definition ret {A} (a : A) : M A := fun p => Ok (inr (a, p)).
Definition pbind {A B} (m : M A) (k : A -> M B) : M B := fun p =>
  let* o := m p in match o with inl e => Ok (inl e) | inr (a, p) => k a p end.
Definition throw {A} (e : exception) : M A := fun _ => Ok (inl e).
Definition fail {A} (e : exn) : M A := fun _ => Err e.
Definition gets {A} (f : parser -> A) : M A := fun p => Ok (inr (f p, p)).
Definition lift {A} (c : res A) : M A := fun p => let* a := c in Ok (inr (a, p)).
Definition put_dom (d : dom) : M unit := fun p => Ok (inr (tt, mkParser (last_token p) (m_lexer p) d)).
Declare Scope parser_scope.
Delimit Scope parser_scope with parser.
Notation "x <- m ;; k" := (pbind m (fun x => k)) (at level 90, m at next level, right associativity) : parser_scope.
Notation "m ;;; k" := (pbind m (fun _ => k)) (at level 90, right associativity) : parser_scope.
Local Open Scope parser_scope.

(** ** Pointers into the value *)
Fixpoint deref (p : path) (v : json) : option json :=
  match p, v with
  | [], _ => Some v
  | AtIndex i :: p, JArray l => if (S i =? length l)%nat then l !! i ≫= deref p else None
  | AtKey k :: p, JObject m => m !! k ≫= deref p
  | _, _ => None
  end.
Fixpoint assign (p : path) (w v : json) : option json :=
  match p, v with
  | [], _ => Some w
  | AtIndex i :: p, JArray l =>
      if (S i =? length l)%nat then
        x ← l !! i; x ← assign p w x; Some (JArray (<[i := x]> l))
      else None
  | AtKey k :: p, JObject m => x ← m !! k; x ← assign p w x; Some (JObject (<[k := x]> m))
  | _, _ => None
  end.
Definition of_pointer {A} (o : option A) : res A := match o with Some a => Ok a | None => Err UB end.

(** ** The builder *)
Definition is_array (v : json) : bool := match v with JArray _ => true | _ => false end.
Definition is_object (v : json) : bool := match v with JObject _ => true | _ => false end.
Definition set_root (v : json) (d : dom) : dom :=
  mkDom v (ref_stack d) (object_element d) (errored d) (allow_exceptions d).
Definition set_stack (s : list path) (d : dom) : dom :=
  mkDom (root d) s (object_element d) (errored d) (allow_exceptions d).

(** The pointer to the new value, and the builder. *)
Definition handle_value (v : json) (d : dom) : res (path * dom) :=
  match ref_stack d with
  | [] => Ok ([], set_root v d)
  | back :: _ =>
      let* c := of_pointer (deref back (root d)) in
      let* _ := assert (is_array c || is_object c) in
      match c with
      | JArray l =>
          let* r := of_pointer (assign back (JArray (l ++ [v])) (root d)) in
          Ok (back ++ [AtIndex (length l)], set_root r d)
      | _ =>
          let* _ := assert (bool_decide (is_Some (object_element d))) in
          let* e := of_pointer (object_element d) in
          let* r := of_pointer (assign e v (root d)) in
          Ok (e, set_root r d)
      end
  end.

(** [null], [boolean], [number_integer], [number_unsigned], [number_float] and
    [string]. *)
Definition dom_value (v : json) (d : dom) : res (bool * dom) :=
  let* (_, d) := handle_value v d in Ok (true, d).
(** [start_object] and [start_array], whose [len] is always -1. *)
Definition start_container (v : json) (d : dom) : res (bool * dom) :=
  let* (p, d) := handle_value v d in Ok (true, set_stack (p :: ref_stack d) d).
(** [end_object] and [end_array] *)
Definition end_container (d : dom) : res (bool * dom) :=
  match ref_stack d with
  | [] => Err UB
  | _ :: s => Ok (true, set_stack s d)
  end.
Definition key (val : bytes) (d : dom) : res (bool * dom) :=
  match ref_stack d with
  | [] => Err UB
  | back :: _ =>
      let* c := of_pointer (deref back (root d)) in
      match c with
      | JObject m =>
          let m := match m !! val with Some _ => m | None => <[val := JNull]> m end in
          let* r := of_pointer (assign back (JObject m) (root d)) in
          Ok (true, mkDom r (ref_stack d) (Some (back ++ [AtKey val])) (errored d) (allow_exceptions d))
      | _ => Err UB
      end
  end.

Definition sax (f : dom -> res (bool * dom)) : M bool := fun p =>
  let* (b, d) := f (sdp p) in Ok (inr (b, mkParser (last_token p) (m_lexer p) d)).

(** [json_sax_dom_parser::parse_error]: rethrow by the class of the id. *)
Definition dom_parse_error (ex : exception) : M bool :=
  d <- gets sdp ;;
  put_dom (mkDom (root d) (ref_stack d) (object_element d) true (allow_exceptions d)) ;;;
  if allow_exceptions d then
    let kind := (id ex / 100) mod 100 in
    if (1 <=? kind) && (kind <=? 5) then throw ex else fail AssertFailed
  else ret false.

(** ** The parser *)
Definition get_token : M token_type := fun p =>
  let* (t, lx) := Lexer.scan (m_lexer p) in Ok (inr (t, mkParser t lx (sdp p))).

Definition exception_message (expected : token_type) (context : bytes) (p : parser) : bytes :=
  let lx := m_lexer p in
  str "syntax error " ++
  (if bool_decide (context = []) then [] else str "while parsing " ++ context ++ str " ") ++
  str "- " ++
  (if decide (last_token p = Lexer.parse_error)
   then Lexer.error_message lx ++ str "; last read: '" ++ Lexer.get_token_string lx ++ str "'"
   else str "unexpected " ++ Lexer.token_type_name (last_token p)) ++
  (if decide (expected = Lexer.uninitialized) then [] else str "; expected " ++ Lexer.token_type_name expected).

Definition syntax_error (expected : token_type) (context : bytes) : M bool :=
  p <- gets (fun p => p) ;;
  dom_parse_error (parse_error_create 101 (Lexer.position (m_lexer p)) (exception_message expected context p)).

(** What an iteration decides: return, go on after a value, or parse the first
    value of an array ([true]) or object ([false]). *)
Inductive decision :=
  | Return (b : bool)
  | Evaluate
  | Inside (array : bool)
  | Again
  | Closed.
Definition returning (m : M bool) : M decision := b <- m ;; ret (Return b).
(** [if (not ...) return false; break;] *)
Definition event (f : dom -> res (bool * dom)) : M decision :=
  b <- sax f ;; ret (if b then Evaluate else Return false).

(** A key, its separator and the next token; then [d]. *)
Definition parse_key (d : decision) : M decision :=
  t <- gets last_token ;;
  if negb (bool_decide (t = Lexer.value_string)) then returning (syntax_error Lexer.value_string (str "object key"))
  else
    s <- gets (fun p => Lexer.token_buffer (m_lexer p)) ;;
    b <- sax (key s) ;;
    if negb b then ret (Return false)
    else
      t <- get_token ;;
      if negb (bool_decide (t = Lexer.name_separator)) then
        returning (syntax_error Lexer.name_separator (str "object separator"))
      else get_token ;;; ret d.

Definition parse_begin_object : M decision :=
  b <- sax (start_container (JObject ∅)) ;;
  if negb b then ret (Return false)
  else
    t <- get_token ;;
    if bool_decide (t = Lexer.end_object) then event end_container
    else parse_key (Inside false).

Definition parse_begin_array : M decision :=
  b <- sax (start_container (JArray [])) ;;
  if negb b then ret (Return false)
  else
    t <- get_token ;;
    if bool_decide (t = Lexer.end_array) then event end_container
    else ret (Inside true).

Definition parse_float : M decision :=
  lx <- gets m_lexer ;;
  let res := Lexer.v_float lx in
  if negb (isfinite res) then
    returning (dom_parse_error (out_of_range_create 406
      (str "number overflow parsing '" ++ Lexer.get_token_string lx ++ str "'")))
  else event (dom_value (JFloat res)).

(** The switch on [last_token]. *)
Definition parse_token : M decision :=
  p <- gets (fun p => p) ;;
  let lx := m_lexer p in
  match last_token p with
  | Lexer.begin_object => parse_begin_object
  | Lexer.begin_array => parse_begin_array
  | Lexer.value_float => parse_float
  | Lexer.literal_false => event (dom_value (JBoolean false))
  | Lexer.literal_null => event (dom_value JNull)
  | Lexer.literal_true => event (dom_value (JBoolean true))
  | Lexer.value_integer => event (dom_value (JInteger (Lexer.v_integer lx)))
  | Lexer.value_string => event (dom_value (JString (Lexer.token_buffer lx)))
  | Lexer.value_unsigned => event (dom_value (JUnsigned (Lexer.v_unsigned lx)))
  | Lexer.parse_error => returning (syntax_error Lexer.uninitialized (str "value"))
  | _ => returning (syntax_error Lexer.literal_or_value (str "value"))
  end.

(** After a value inside an array, and inside an object. *)
Definition after_element : M decision :=
  t <- get_token ;;
  if bool_decide (t = Lexer.value_separator) then get_token ;;; ret Again
  else if bool_decide (t = Lexer.end_array) then
    b <- sax end_container ;; ret (if b then Closed else Return false)
  else returning (syntax_error Lexer.end_array (str "array")).

Definition after_member : M decision :=
  t <- get_token ;;
  if bool_decide (t = Lexer.value_separator) then get_token ;;; parse_key Again
  else if bool_decide (t = Lexer.end_object) then
    b <- sax end_container ;; ret (if b then Closed else Return false)
  else returning (syntax_error Lexer.end_object (str "object")).

(** The lower half of the loop, with what [continue] does. *)
Definition evaluate (loop : list bool -> bool -> M bool) (states : list bool) : M bool :=
  match states with
  | [] => ret true
  | array :: rest =>
      d <- (if array then after_element else after_member) ;;
      match d with
      | Return b => ret b
      | Closed => loop rest true
      | _ => loop states false
      end
  end.

Fixpoint sax_parse_internal (fuel : nat) (states : list bool) (skip_to_state_evaluation : bool) : M bool :=
  match fuel with
  | O => fail OutOfFuel
  | S fuel =>
      if skip_to_state_evaluation then evaluate (sax_parse_internal fuel) states
      else
        d <- parse_token ;;
        match d with
        | Return b => ret b
        | Inside array => sax_parse_internal fuel (array :: states) false
        | _ => evaluate (sax_parse_internal fuel) states
        end
  end.

(** In strict mode the input must be completely read. *)
Definition expect_end : M bool :=
  t <- get_token ;;
  if bool_decide (t = Lexer.end_of_input) then ret true
  else syntax_error Lexer.end_of_input (str "value").

(** [parser::parse] without a callback; [None] is the discarded value.  Every
    iteration but the last reads a token, so the length of the text bounds
    them. *)
Definition parser_parse (strict : bool) (fuel : nat) : M (option json) :=
  sax_parse_internal fuel [] false ;;;
  (if strict then expect_end else ret true) ;;;
  d <- gets sdp ;;
  ret (if errored d then None else Some (root d)).

(** The constructor of [parser], which reads the first token. *)
Definition parser_new (text : bytes) (allow_exceptions_ : bool) : res parser :=
  let p := mkParser Lexer.uninitialized (Lexer.lexer_new text) (mkDom JNull [] None false allow_exceptions_) in
  let* o := get_token p in
  match o with inl _ => Err UB | inr (_, p) => Ok p end.

(** [basic_json::parse] *)
Definition parse (text : bytes) (allow_exceptions_ : bool) : res (exception + option json) :=
  let* p := parser_new text allow_exceptions_ in
  let* o := parser_parse true (S (S (length text))) p in
  Ok (match o with inl e => inl e | inr (v, _) => inr v end).
End Parser.
