(* ===== verification/JsonCorrect.v ===== *)
(** * The JSON parser is right

    [Parser.parse] of JsonParser.v against the grammar of JsonSpec.v: on every
    text it returns or throws, never failing an assertion or following a bad
    pointer; it returns a value exactly for the texts of the grammar, and the
    value is the one the grammar gives. *)

From Stdlib Require Import ZArith Lia Floats.SpecFloat.
From stdpp Require Import base list gmap strings.
From S2P Require Import Prelude Text Json JsonSpec JsonLexer JsonScan JsonParser.
Local Open Scope Z_scope.

Module Correct.
Import Json JsonSpec Parser.
Local Open Scope parser_scope.

(** ** The builder

    A frame is an array or an object the parser is in, without the value it is
    about to parse. *)
Inductive frame :=
  | FArr (l : list json)
  | FObj (m : gmap bytes json) (k : bytes).
Implicit Types (fs : list frame) (d : dom).

Definition frame_step (f : frame) : step := match f with FArr l => AtIndex (length l) | FObj _ k => AtKey k end.
Definition fill (f : frame) (v : json) : json :=
  match f with FArr l => JArray (l ++ [v]) | FObj m k => JObject (<[k := v]> m) end.
Definition opened (f : frame) : json := match f with FArr l => JArray l | FObj m k => JObject m end.
Fixpoint put fs (v : json) : json := match fs with [] => v | f :: fs => put fs (fill f v) end.
Fixpoint path_of fs : list step := match fs with [] => [] | f :: fs => path_of fs ++ [frame_step f] end.
Fixpoint refs fs : list (list step) := match fs with [] => [] | f :: fs => path_of fs :: refs fs end.

Lemma deref_fill f p v : deref (frame_step f :: p) (fill f v) = deref p v.
Proof.
  destruct f; cbn.
  - rewrite length_app, Nat.add_1_r, Nat.eqb_refl, lookup_app_r, Nat.sub_diag by lia. done.
  - by rewrite lookup_insert_eq.
Qed.
Lemma assign_fill f p w v : assign (frame_step f :: p) w (fill f v) = fill f <$> assign p w v.
Proof.
  destruct f; cbn.
  - rewrite length_app, Nat.add_1_r, Nat.eqb_refl, lookup_app_r, Nat.sub_diag by lia. cbn.
    destruct (assign p w v); [|done]. cbn. by rewrite insert_app_r_alt, Nat.sub_diag by lia.
  - rewrite lookup_insert_eq. cbn. destruct (assign p w v); [|done]. cbn. by rewrite insert_insert_eq.
Qed.
Lemma deref_put fs p v : deref (path_of fs ++ p) (put fs v) = deref p v.
Proof.
  revert p v. induction fs as [|f fs IH]; intros p v; [done|]. cbn [path_of put]. rewrite <- app_assoc, IH. apply deref_fill.
Qed.
Lemma assign_put fs p w v : assign (path_of fs ++ p) w (put fs v) = put fs <$> assign p w v.
Proof.
  revert p v. induction fs as [|f fs IH]; intros p v; [cbn; by destruct (assign p w v)|].
  cbn [path_of put]. rewrite <- app_assoc, IH. cbn [app]. rewrite assign_fill. by destruct (assign p w v).
Qed.
Lemma deref_at fs v : deref (path_of fs) (put fs v) = Some v.
Proof. rewrite <- (app_nil_r (path_of fs)). by rewrite deref_put. Qed.
Lemma assign_at fs w v : assign (path_of fs) w (put fs v) = Some (put fs w).
Proof. rewrite <- (app_nil_r (path_of fs)). by rewrite assign_put. Qed.

(** The builder before a value is parsed in the frames [fs], and after. *)
Definition throws d : Prop := errored d = false /\ allow_exceptions d = true.
Definition expects fs d : Prop :=
  throws d /\ ref_stack d = refs fs /\
  match fs with
  | [] => True
  | f :: fs' =>
      root d = put fs' (opened f) /\
      match f with
      | FArr _ => True
      | FObj m k => is_Some (m !! k) /\ object_element d = Some (path_of fs' ++ [AtKey k])
      end
  end.
Definition holds fs (v : json) d : Prop := throws d /\ ref_stack d = refs fs /\ root d = put fs v.

Lemma handle_value_ok fs v d :
  expects fs d -> exists d', handle_value v d = Ok (path_of fs, d') /\ holds fs v d'.
Proof.
  intros (Ht & Hs & Hf). unfold handle_value. rewrite Hs. destruct fs as [|f fs]; cbn [refs path_of].
  - eexists. split; [done|]. done.
  - destruct Hf as [Hr Hf]. rewrite Hr, deref_at. cbn [of_pointer bind]. destruct f as [l|m k]; cbn.
    + rewrite assign_at. eexists. split; [done|]. split; [done|]. split; [done|]. done.
    + destruct Hf as [[x Hk] ->]. cbn. rewrite assign_put. cbn. rewrite Hk. cbn. eexists. split; [done|].
      split; [done|]. split; [done|]. done.
Qed.
Lemma dom_value_ok fs v d : expects fs d -> exists d', dom_value v d = Ok (true, d') /\ holds fs v d'.
Proof. intros (d' & E & H)%(handle_value_ok fs v). unfold dom_value. rewrite E. eexists. done. Qed.
Lemma start_array_ok fs d :
  expects fs d -> exists d', start_container (JArray []) d = Ok (true, d') /\ expects (FArr [] :: fs) d'.
Proof.
  intros (d' & E & Ht & Hs & Hr)%(handle_value_ok fs (JArray [])). unfold start_container. rewrite E. cbn.
  eexists. split; [done|]. split; [done|]. cbn. by rewrite Hs.
Qed.

(** Between two members: the object has the members so far. *)
Definition in_object fs (m : gmap bytes json) d : Prop :=
  throws d /\ ref_stack d = path_of fs :: refs fs /\ root d = put fs (JObject m).
Lemma start_object_ok fs d :
  expects fs d -> exists d', start_container (JObject ∅) d = Ok (true, d') /\ in_object fs ∅ d'.
Proof.
  intros (d' & E & Ht & Hs & Hr)%(handle_value_ok fs (JObject ∅)). unfold start_container. rewrite E. cbn.
  eexists. split; [done|]. split; [done|]. cbn. by rewrite Hs.
Qed.

(** [operator[]] of the map: a new member is null. *)
Definition with_key (k : bytes) (m : gmap bytes json) : gmap bytes json :=
  match m !! k with Some _ => m | None => <[k := JNull]> m end.
Lemma insert_with_key k v m : <[k := v]> (with_key k m) = <[k := v]> m.
Proof. unfold with_key. case_match; [done|]. by rewrite insert_insert_eq. Qed.
Lemma with_key_some k m : is_Some (with_key k m !! k).
Proof. unfold with_key. case_match eqn:E; [by rewrite E|]. by rewrite lookup_insert_eq. Qed.
Lemma key_ok fs m k d :
  in_object fs m d -> exists d', key k d = Ok (true, d') /\ expects (FObj (with_key k m) k :: fs) d'.
Proof.
  intros (Ht & Hs & Hr). unfold key. rewrite Hs, Hr, deref_at. cbn. rewrite assign_at. cbn. eexists. split; [done|].
  split; [done|]. split; [done|]. split; [done|]. split; [apply with_key_some|done].
Qed.

(** The end of a value is the beginning of the next, or of the container's end. *)
Lemma holds_next l fs v d : holds (FArr l :: fs) v d -> expects (FArr (l ++ [v]) :: fs) d.
Proof. by intros (Ht & Hs & Hr). Qed.
Lemma holds_member m k fs v d : holds (FObj m k :: fs) v d -> in_object fs (<[k := v]> m) d.
Proof. by intros (Ht & Hs & Hr). Qed.
Lemma end_container_ok f fs v d :
  holds (f :: fs) v d -> exists d', end_container d = Ok (true, d') /\ holds fs (fill f v) d'.
Proof. intros (Ht & Hs & Hr). unfold end_container. rewrite Hs. eexists. split; [done|]. done. Qed.
Lemma end_empty_array fs d :
  expects (FArr [] :: fs) d -> exists d', end_container d = Ok (true, d') /\ holds fs (JArray []) d'.
Proof. intros (Ht & Hs & Hr & _). unfold end_container. rewrite Hs. eexists. split; [done|]. done. Qed.
Lemma end_empty_object fs d :
  in_object fs ∅ d -> exists d', end_container d = Ok (true, d') /\ holds fs (JObject ∅) d'.
Proof. intros (Ht & Hs & Hr). unfold end_container. rewrite Hs. eexists. split; [done|]. done. Qed.

(** ** Steps of the parser *)
Section steps.
Implicit Types p : parser.

Lemma pbind_ok {A B} (m : M A) (k : A -> M B) p a p' : m p = Ok (inr (a, p')) -> pbind m k p = k a p'.
Proof. intros E. unfold pbind. by rewrite E. Qed.
Lemma pbind_throw {A B} (m : M A) (k : A -> M B) p e : m p = Ok (inl e) -> pbind m k p = Ok (inl e).
Proof. intros E. unfold pbind. by rewrite E. Qed.
Lemma gets_ok {A B} (f : parser -> A) (k : A -> M B) p : pbind (gets f) k p = k (f p) p.
Proof. done. Qed.
Lemma ret_ok {A B} (a : A) (k : A -> M B) p : pbind (ret a) k p = k a p.
Proof. done. Qed.
Definition with_dom d p : parser := mkParser (last_token p) (m_lexer p) d.
Lemma sax_ok f p b d : f (sdp p) = Ok (b, d) -> sax f p = Ok (inr (b, with_dom d p)).
Proof. intros E. unfold sax. by rewrite E. Qed.
Lemma event_ok f p d : f (sdp p) = Ok (true, d) -> event f p = Ok (inr (Evaluate, with_dom d p)).
Proof. intros E. unfold event. by rewrite (pbind_ok _ _ _ _ _ (sax_ok _ _ _ _ E)). Qed.

(** A builder that throws turns every error into an exception. *)
Definition good_exception (e : exception) : Prop := id e = 101 \/ id e = 406.
Definition raises {A} (o : res (exception + A * parser)) : Prop := exists e, o = Ok (inl e) /\ good_exception e.
Lemma raises_bind {A B} (m : M A) (k : A -> M B) p : raises (m p) -> raises (pbind m k p).
Proof. intros (e & E & He). exists e. split; [by apply pbind_throw|done]. Qed.
Lemma parse_error_raises e p : throws (sdp p) -> good_exception e -> raises (dom_parse_error e p).
Proof.
  intros [_ Ha] He. unfold dom_parse_error. rewrite gets_ok. unfold pbind. cbn [put_dom bind].
  rewrite Ha. exists e. split; [|done]. by destruct He as [-> | ->].
Qed.
Lemma syntax_error_raises x c p : throws (sdp p) -> raises (syntax_error x c p).
Proof. intros Ht. unfold syntax_error. rewrite gets_ok. apply parse_error_raises; [done|by left]. Qed.
Lemma returning_raises m p : raises (m p) -> raises (returning m p).
Proof. apply raises_bind. Qed.

(** The text the last token was read off. *)
Definition read_off (s : bytes) p : Prop :=
  last_token p = Lexer.parse_error \/
  last_token p = Lexer.end_of_input /\ (exists w r, s = w ++ r /\ spaces w /\ text_end r) \/
  exists w t r n buf, s = w ++ t ++ r /\ spaces w /\
    Scan.token_text (last_token p) t (Scan.token_value (last_token p) (m_lexer p)) /\
    0 < n /\ Scan.ready n r buf (m_lexer p).
Definition reads (s : bytes) p : Prop := exists n buf, 0 < n /\ Scan.ready n s buf (m_lexer p).

Lemma get_token_ok s p :
  reads s p -> exists p', get_token p = Ok (inr (last_token p', p')) /\ sdp p' = sdp p /\ read_off s p'.
Proof.
  intros (n & buf & Hn & Hr). destruct (Scan.scan_sound _ _ _ _ Hr Hn) as (tk & lx & E & Ho).
  exists (mkParser tk lx (sdp p)). unfold get_token. rewrite E. split; [done|]. split; [done|].
  destruct Ho as [Ho|[Ho|(w & t & r' & n' & buf' & Hs & Hw & Ht & Hn' & Hr')]]; [by left|right; by left|].
  right. right. exists w, t, r', n', buf'. do 3 (split; [done|]). split; [lia|done].
Qed.

(** The token that was read, when it is a given one. *)
Lemma read_off_token s p tk :
  read_off s p -> last_token p = tk -> tk <> Lexer.parse_error -> tk <> Lexer.end_of_input ->
  exists w t r, s = w ++ t ++ r /\ spaces w /\ Scan.token_text tk t (Scan.token_value tk (m_lexer p)) /\ reads r p.
Proof.
  intros [H|[[H _]|(w & t & r & n & buf & -> & Hw & Ht & Hn & Hr)]] <- H1 H2; [done..|].
  exists w, t, r. do 3 (split; [done|]). exists n, buf. done.
Qed.
Lemma token_length tk t v : Scan.token_text tk t v -> (0 < length t)%nat.
Proof. intros (b & t' & ->)%Scan.token_text_first. cbn. lia. Qed.

Definition lexeme (tk : token_type) (t : bytes) (v : json) : Prop :=
  match tk with
  | Lexer.begin_array => t = [Byte.x5b]
  | Lexer.end_array => t = [Byte.x5d]
  | Lexer.begin_object => t = [Byte.x7b]
  | Lexer.end_object => t = [Byte.x7d]
  | Lexer.name_separator => t = [Byte.x3a]
  | Lexer.value_separator => t = [Byte.x2c]
  | Lexer.literal_true => t = str "true"
  | Lexer.literal_false => t = str "false"
  | Lexer.literal_null => t = str "null"
  | Lexer.value_string => exists s, v = JString s /\ string_text t s
  | Lexer.value_unsigned | Lexer.value_integer | Lexer.value_float => number_lexeme t v
  | _ => False
  end.
Lemma token_lexeme tk t v : Scan.token_text tk t v -> lexeme tk t v.
Proof. intros [| | | | | | | | |t' s Hs|t' v' Hl]; try done; [by exists s|]. by destruct v'. Qed.

(** Reading a token and finding the expected one: the text before it, or an
    error. *)
Lemma token_is_ok s p tk :
  read_off s p -> last_token p = tk -> tk <> Lexer.parse_error -> tk <> Lexer.end_of_input ->
  exists w t r, s = w ++ t ++ r /\ spaces w /\ lexeme tk t (Scan.token_value tk (m_lexer p)) /\ (length r < length s)%nat /\
    reads r p.
Proof.
  intros H Htk H1 H2. destruct (read_off_token _ _ _ H Htk H1 H2) as (w & t & r & -> & Hw & Ht & Hr).
  exists w, t, r. pose proof (token_length _ _ _ Ht). rewrite !length_app. do 2 (split; [done|]).
  split; [by apply token_lexeme|]. split; [lia|done].
Qed.

Lemma parse_key_sound s fs m dec p :
  in_object fs m (sdp p) -> read_off s p ->
  raises (parse_key dec p) \/
  exists w1 kt k w2 s' p', parse_key dec p = Ok (inr (dec, p')) /\ s = w1 ++ kt ++ w2 ++ Byte.x3a :: s' /\
    spaces w1 /\ string_text kt k /\ spaces w2 /\ expects (FObj (with_key k m) k :: fs) (sdp p') /\ read_off s' p'.
Proof.
  intros Hd Ho. unfold parse_key. rewrite gets_ok. case_bool_decide as Hs; cbn [negb].
  2:{ left. apply returning_raises, syntax_error_raises, Hd. }
  destruct (token_is_ok _ _ _ Ho Hs) as (w1 & kt & r & -> & Hw1 & (k & Hv & Hk) & _ & Hr); [done..|].
  cbn in Hv. injection Hv as Hv. rewrite gets_ok, Hv.
  destruct (key_ok fs m k _ Hd) as (d' & Ek & He).
  rewrite (pbind_ok _ _ _ _ _ (sax_ok _ _ _ _ Ek)). cbn [negb].
  destruct (get_token_ok r (with_dom d' p) Hr) as (p1 & E1 & Hd1 & Ho1). rewrite (pbind_ok _ _ _ _ _ E1).
  case_bool_decide as Hc; cbn [negb].
  2:{ left. apply returning_raises, syntax_error_raises. rewrite Hd1. apply He. }
  destruct (token_is_ok _ _ _ Ho1 Hc) as (w2 & ct & s' & -> & Hw2 & Hct & _ & Hr'); [done..|]. cbn in Hct. subst ct.
  destruct (get_token_ok s' p1 Hr') as (p2 & E2 & Hd2 & Ho2). rewrite (pbind_ok _ _ _ _ _ E2).
  right. exists w1, kt, k, w2, s', p2. do 5 (split; [done|]). split; [by rewrite Hd2, Hd1|done].
Qed.

Lemma after_element_sound s l fs v p :
  holds (FArr l :: fs) v (sdp p) -> reads s p ->
  raises (after_element p) \/
  (exists w s' p', after_element p = Ok (inr (Again, p')) /\ s = w ++ Byte.x2c :: s' /\ spaces w /\
     expects (FArr (l ++ [v]) :: fs) (sdp p') /\ read_off s' p') \/
  (exists w s' p', after_element p = Ok (inr (Closed, p')) /\ s = w ++ Byte.x5d :: s' /\ spaces w /\
     holds fs (JArray (l ++ [v])) (sdp p') /\ reads s' p').
Proof.
  intros Hd Hr. unfold after_element. destruct (get_token_ok s p Hr) as (p1 & E1 & Hd1 & Ho1).
  rewrite (pbind_ok _ _ _ _ _ E1). case_bool_decide as Hc; [|case_bool_decide as Hb].
  - destruct (token_is_ok _ _ _ Ho1 Hc) as (w & ct & s' & -> & Hw & Hct & _ & Hr'); [done..|]. cbn in Hct. subst ct.
    destruct (get_token_ok s' p1 Hr') as (p2 & E2 & Hd2 & Ho2). rewrite (pbind_ok _ _ _ _ _ E2).
    right. left. exists w, s', p2. do 3 (split; [done|]). split; [|done]. rewrite Hd2, Hd1. by apply holds_next.
  - destruct (token_is_ok _ _ _ Ho1 Hb) as (w & ct & s' & -> & Hw & Hct & _ & Hr'); [done..|]. cbn in Hct. subst ct.
    rewrite <- Hd1 in Hd. destruct (end_container_ok _ _ _ _ Hd) as (d' & Ee & He).
    rewrite (pbind_ok _ _ _ _ _ (sax_ok _ _ _ _ Ee)). right. right. exists w, s', (with_dom d' p1). done.
  - left. apply returning_raises, syntax_error_raises. rewrite Hd1. apply Hd.
Qed.
Lemma after_member_sound s m k fs v p :
  holds (FObj m k :: fs) v (sdp p) -> reads s p ->
  raises (after_member p) \/
  (exists w w1 kt k' w2 s' p', after_member p = Ok (inr (Again, p')) /\
     s = w ++ Byte.x2c :: w1 ++ kt ++ w2 ++ Byte.x3a :: s' /\ spaces w /\
     spaces w1 /\ string_text kt k' /\ spaces w2 /\
     expects (FObj (with_key k' (<[k := v]> m)) k' :: fs) (sdp p') /\ read_off s' p') \/
  (exists w s' p', after_member p = Ok (inr (Closed, p')) /\ s = w ++ Byte.x7d :: s' /\ spaces w /\
     holds fs (JObject (<[k := v]> m)) (sdp p') /\ reads s' p').
Proof.
  intros Hd Hr. unfold after_member. destruct (get_token_ok s p Hr) as (p1 & E1 & Hd1 & Ho1).
  rewrite (pbind_ok _ _ _ _ _ E1). case_bool_decide as Hc; [|case_bool_decide as Hb].
  - destruct (token_is_ok _ _ _ Ho1 Hc) as (w & ct & s' & -> & Hw & Hct & _ & Hr'); [done..|]. cbn in Hct. subst ct.
    destruct (get_token_ok s' p1 Hr') as (p2 & E2 & Hd2 & Ho2). rewrite (pbind_ok _ _ _ _ _ E2).
    rewrite <- Hd1, <- Hd2 in Hd. apply holds_member in Hd.
    destruct (parse_key_sound s' _ _ Again p2 Hd Ho2) as [H|(w1 & kt & k' & w2 & s2 & p3 & E & -> & H)]; [by left|].
    right. left. exists w, w1, kt, k', w2, s2, p3. split; [done|]. split; [done|]. split; [done|]. done.
  - destruct (token_is_ok _ _ _ Ho1 Hb) as (w & ct & s' & -> & Hw & Hct & _ & Hr'); [done..|]. cbn in Hct. subst ct.
    rewrite <- Hd1 in Hd. destruct (end_container_ok _ _ _ _ Hd) as (d' & Ee & He).
    rewrite (pbind_ok _ _ _ _ _ (sax_ok _ _ _ _ Ee)). right. right. exists w, s', (with_dom d' p1). done.
  - left. apply returning_raises, syntax_error_raises. rewrite Hd1. apply Hd.
Qed.

(** The outcomes of the switch: an error, a value, or the inside of an array
    or object. *)
Definition parsed_value s fs p p' : Prop :=
  parse_token p = Ok (inr (Evaluate, p')) /\
  exists w t v r, s = w ++ t ++ r /\ spaces w /\ value_text t v /\ (length r < length s)%nat /\
    holds fs v (sdp p') /\ reads r p'.
Definition parsed_array s fs p p' : Prop :=
  parse_token p = Ok (inr (Inside true, p')) /\
  exists w s', s = w ++ Byte.x5b :: s' /\ spaces w /\ expects (FArr [] :: fs) (sdp p') /\ read_off s' p'.
Definition parsed_object s fs p p' : Prop :=
  parse_token p = Ok (inr (Inside false, p')) /\
  exists w w1 kt k w2 s', s = w ++ Byte.x7b :: w1 ++ kt ++ w2 ++ Byte.x3a :: s' /\ spaces w /\
    spaces w1 /\ string_text kt k /\ spaces w2 /\
    expects (FObj (with_key k ∅) k :: fs) (sdp p') /\ read_off s' p'.
Definition parse_token_outcome s fs p : Prop :=
  raises (parse_token p) \/ exists p', parsed_value s fs p p' \/ parsed_array s fs p p' \/ parsed_object s fs p p'.

Lemma scalar_token s fs v p :
  expects fs (sdp p) -> parse_token p = event (dom_value v) p ->
  (exists w t r, s = w ++ t ++ r /\ spaces w /\ value_text t v /\ (length r < length s)%nat /\ reads r p) ->
  parse_token_outcome s fs p.
Proof.
  intros Hd E (w & t & r & -> & Hw & Ht & Hl & Hr). destruct (dom_value_ok fs v _ Hd) as (d' & Ed & Hh).
  right. exists (with_dom d' p). left. split; [by rewrite E, (event_ok _ _ _ Ed)|]. exists w, t, v, r. done.
Qed.
Lemma array_token s fs p :
  expects fs (sdp p) -> read_off s p -> last_token p = Lexer.begin_array -> parse_token_outcome s fs p.
Proof.
  intros Hd Ho Htk. unfold parse_token_outcome, parsed_value, parsed_array, parsed_object, parse_token.
  rewrite !gets_ok, Htk. unfold parse_begin_array.
  destruct (token_is_ok _ _ _ Ho Htk) as (w & bt & r & -> & Hw & Hbt & _ & Hr); [done..|]. cbn in Hbt. subst bt.
  destruct (start_array_ok fs _ Hd) as (d1 & Es & He). rewrite (pbind_ok _ _ _ _ _ (sax_ok _ _ _ _ Es)). cbn [negb].
  destruct (get_token_ok r (with_dom d1 p) Hr) as (p1 & E1 & Hd1 & Ho1). rewrite (pbind_ok _ _ _ _ _ E1).
  right. case_bool_decide as Hc.
  - destruct (token_is_ok _ _ _ Ho1 Hc) as (w2 & ct & r' & -> & Hw2 & Hct & _ & Hr'); [done..|]. cbn in Hct. subst ct.
    rewrite <- (Hd1 : _ = d1) in He. destruct (end_empty_array _ _ He) as (d2 & Ee & Hh).
    rewrite (event_ok _ _ _ Ee). eexists. left. split; [done|].
    exists w, (Byte.x5b :: w2 ++ [Byte.x5d]), (JArray []), r'. split; [by rewrite <- !app_comm_cons, <- app_assoc|].
    split; [done|]. split; [by constructor|]. split; [repeat (rewrite length_app; cbn [length]); lia|done].
  - exists p1. right. left. split; [done|]. exists w, r. split; [done|]. split; [done|]. by rewrite Hd1.
Qed.
Lemma object_token s fs p :
  expects fs (sdp p) -> read_off s p -> last_token p = Lexer.begin_object -> parse_token_outcome s fs p.
Proof.
  intros Hd Ho Htk. unfold parse_token_outcome, parsed_value, parsed_array, parsed_object, parse_token.
  rewrite !gets_ok, Htk. unfold parse_begin_object.
  destruct (token_is_ok _ _ _ Ho Htk) as (w & bt & r & -> & Hw & Hbt & _ & Hr); [done..|]. cbn in Hbt. subst bt.
  destruct (start_object_ok fs _ Hd) as (d1 & Es & He). rewrite (pbind_ok _ _ _ _ _ (sax_ok _ _ _ _ Es)). cbn [negb].
  destruct (get_token_ok r (with_dom d1 p) Hr) as (p1 & E1 & Hd1 & Ho1). rewrite (pbind_ok _ _ _ _ _ E1).
  rewrite <- (Hd1 : _ = d1) in He. case_bool_decide as Hc.
  - right. destruct (token_is_ok _ _ _ Ho1 Hc) as (w2 & ct & r' & -> & Hw2 & Hct & _ & Hr'); [done..|]. cbn in Hct. subst ct.
    destruct (end_empty_object _ _ He) as (d2 & Ee & Hh). rewrite (event_ok _ _ _ Ee). eexists. left. split; [done|].
    exists w, (Byte.x7b :: w2 ++ [Byte.x7d]), (JObject ∅), r'. split; [by rewrite <- !app_comm_cons, <- app_assoc|].
    split; [done|]. split; [by constructor|]. split; [repeat (rewrite length_app; cbn [length]); lia|done].
  - destruct (parse_key_sound r _ _ (Inside false) p1 He Ho1) as [H|(w1 & kt & k & w2 & s2 & p2 & E & -> & H)]; [by left|].
    right. exists p2. right. right. split; [done|]. exists w, w1, kt, k, w2, s2. done.
Qed.

Lemma float_token s fs p :
  expects fs (sdp p) -> read_off s p -> last_token p = Lexer.value_float -> parse_token_outcome s fs p.
Proof.
  intros Hd Ho Htk. destruct (token_is_ok s p _ Ho Htk) as (w & t & r & Hs & Hw & Hl & Hlt & Hr); [done..|].
  assert (parse_token p = parse_float p) as Ep by (unfold parse_token; by rewrite gets_ok, Htk).
  assert (parse_float p = if isfinite (Lexer.v_float (m_lexer p)) then event (dom_value (JFloat (Lexer.v_float (m_lexer p)))) p
    else returning (dom_parse_error (out_of_range_create 406 (str "number overflow parsing '" ++
      Lexer.get_token_string (m_lexer p) ++ str "'"))) p) as Ef.
  { unfold parse_float. rewrite gets_ok. by destruct (isfinite _). }
  destruct (isfinite (Lexer.v_float (m_lexer p))) eqn:Efin.
  - apply (scalar_token s fs (JFloat (Lexer.v_float (m_lexer p)))); [done|by rewrite Ep|].
    exists w, t, r. do 2 (split; [done|]). split; [by apply vt_number|done].
  - left. rewrite Ep, Ef. apply returning_raises, parse_error_raises; [apply Hd|by right].
Qed.
Lemma parse_token_sound s fs p : expects fs (sdp p) -> read_off s p -> parse_token_outcome s fs p.
Proof.
  intros Hd Ho. pose proof (token_is_ok s p (last_token p) Ho eq_refl) as Ht.
  assert (forall v, parse_token p = event (dom_value v) p ->
    (forall t, lexeme (last_token p) t (Scan.token_value (last_token p) (m_lexer p)) -> value_text t v) ->
    last_token p <> Lexer.parse_error -> last_token p <> Lexer.end_of_input -> parse_token_outcome s fs p) as Hv.
  { intros v Ep Hl H1 H2. destruct (Ht H1 H2) as (w & t & r & Hs & Hw & Hlx & Hlt & Hr).
    apply (scalar_token s fs v); [done..|]. exists w, t, r. auto 6. }
  destruct (last_token p) eqn:Htk; try (by apply object_token); try (by apply array_token); try (by apply float_token);
    try (left; unfold parse_token; rewrite gets_ok, Htk; apply returning_raises, syntax_error_raises, Hd);
    (eapply Hv; [unfold parse_token; rewrite gets_ok, Htk; reflexivity| |done..]);
    intros t Hl; cbn in Hl; try (subst t; constructor).
  - destruct Hl as (x & [= ->] & Hs). by constructor.
  - by apply vt_number.
  - by apply vt_number.
Qed.
End steps.

(** Texts up to associativity. *)
Ltac reassoc := repeat (rewrite <- app_assoc || rewrite <- app_comm_cons); reflexivity.

(** ** The text after a value

    [closes fs v c W]: after the value [v] in the frames [fs], the text [c]
    completes all of them, to the value [W]. *)
Inductive closes : list frame -> json -> bytes -> json -> Prop :=
  | cl_root v : closes [] v [] v
  | cl_end_array l fs v w c W :
      spaces w -> closes fs (JArray (l ++ [v])) c W -> closes (FArr l :: fs) v (w ++ Byte.x5d :: c) W
  | cl_next_element l fs v w w' t v' c W :
      spaces w -> spaces w' -> value_text t v' -> closes (FArr (l ++ [v]) :: fs) v' c W ->
      closes (FArr l :: fs) v (w ++ Byte.x2c :: w' ++ t ++ c) W
  | cl_end_object m k fs v w c W :
      spaces w -> closes fs (JObject (<[k := v]> m)) c W -> closes (FObj m k :: fs) v (w ++ Byte.x7d :: c) W
  | cl_next_member m k fs v w w1 kt k' w2 w3 t v' c W :
      spaces w -> spaces w1 -> string_text kt k' -> spaces w2 -> spaces w3 -> value_text t v' ->
      closes (FObj (with_key k' (<[k := v]> m)) k' :: fs) v' c W ->
      closes (FObj m k :: fs) v (w ++ Byte.x2c :: w1 ++ kt ++ w2 ++ Byte.x3a :: w3 ++ t ++ c) W.

Definition members_from (m : gmap bytes json) (l : list (bytes * json)) : gmap bytes json :=
  foldl (fun m (e : bytes * json) => <[e.1 := e.2]> m) m l.

(** What closes an array are its other elements, and what closes the rest. *)
Lemma closes_array l fs v c W :
  closes (FArr l :: fs) v c W ->
  exists e l' c', c = e ++ Byte.x5d :: c' /\ closes fs (JArray (l ++ v :: l')) c' W /\
    forall w t, spaces w -> value_text t v -> elements_text (w ++ t ++ e) (v :: l').
Proof.
  intros H. remember (FArr l :: fs) as gs eqn:Eg. revert l fs Eg. induction H as
    [|l fs v w c W Hw Hc _|l fs v w w' t v' c W Hw Hw' Ht Hc IH| |]; intros l0 fs0 [= -> ->].
  - exists w, [], c. split; [done|]. split; [done|]. intros w1 t1 Hw1 Ht1. by apply et_one.
  - destruct (IH _ _ eq_refl) as (e & l' & c' & -> & Hc' & He).
    exists (w ++ Byte.x2c :: w' ++ t ++ e), (v' :: l'), c'. split; [|split].
    + reassoc.
    + by rewrite <- app_assoc in Hc'.
    + intros w1 t1 Hw1 Ht1. by apply et_cons, He.
Qed.
Lemma closes_object m k fs v c W :
  closes (FObj m k :: fs) v c W ->
  exists e l' c', c = e ++ Byte.x7d :: c' /\ closes fs (JObject (members_from (<[k := v]> m) l')) c' W /\
    forall w1 kt w2 w3 t, spaces w1 -> string_text kt k -> spaces w2 -> spaces w3 -> value_text t v ->
      members_text (w1 ++ kt ++ w2 ++ Byte.x3a :: w3 ++ t ++ e) ((k, v) :: l').
Proof.
  intros H. remember (FObj m k :: fs) as gs eqn:Eg. revert m k fs Eg. induction H as
    [| | |m k fs v w c W Hw Hc _|m k fs v w w1 kt k' w2 w3 t v' c W Hw Hw1 Hk Hw2 Hw3 Ht Hc IH]; intros m0 k0 fs0 [= -> -> ->].
  - exists w, [], c. split; [done|]. split; [done|]. intros. by apply mt_one.
  - destruct (IH _ _ _ eq_refl) as (e & l' & c' & -> & Hc' & He).
    exists (w ++ Byte.x2c :: w1 ++ kt ++ w2 ++ Byte.x3a :: w3 ++ t ++ e), ((k', v') :: l'), c'. split; [|split].
    + reassoc.
    + by rewrite insert_with_key in Hc'.
    + intros. apply mt_cons; try done. by apply He.
Qed.

(** Hence an opened array or object that is closed is a value. *)
Lemma array_closed w t v fs c W :
  spaces w -> value_text t v -> closes (FArr [] :: fs) v c W ->
  exists t' v' c', Byte.x5b :: w ++ t ++ c = t' ++ c' /\ value_text t' v' /\ closes fs v' c' W.
Proof.
  intros Hw Ht (e & l' & c' & -> & Hc & He)%closes_array.
  exists (Byte.x5b :: (w ++ t ++ e) ++ [Byte.x5d]), (JArray (v :: l')), c'. split; [|split; [|done]].
  - reassoc.
  - by apply vt_array, He.
Qed.
Lemma object_closed w1 kt k w2 w3 t v fs c W :
  spaces w1 -> string_text kt k -> spaces w2 -> spaces w3 -> value_text t v ->
  closes (FObj (with_key k ∅) k :: fs) v c W ->
  exists t' v' c', Byte.x7b :: w1 ++ kt ++ w2 ++ Byte.x3a :: w3 ++ t ++ c = t' ++ c' /\ value_text t' v' /\ closes fs v' c' W.
Proof.
  intros Hw1 Hk Hw2 Hw3 Ht (e & l' & c' & -> & Hc & He)%closes_object. rewrite insert_with_key in Hc.
  exists (Byte.x7b :: (w1 ++ kt ++ w2 ++ Byte.x3a :: w3 ++ t ++ e) ++ [Byte.x7d]), (JObject (object_of ((k, v) :: l'))), c'.
  split; [|split; [|done]].
  - reassoc.
  - by apply vt_object, He.
Qed.

(** ** The loop *)
Section loop.
Implicit Types p : parser.

Definition kinds fs : list bool := map (fun f => match f with FArr _ => true | FObj _ _ => false end) fs.
Definition finished (P : bytes -> json -> Prop) (s : bytes) (o : res (exception + bool * parser)) : Prop :=
  raises o \/ exists c W r p', o = Ok (inr (true, p')) /\ s = c ++ r /\ P c W /\ holds [] W (sdp p') /\ reads r p'.
(** A value and what closes the frames, and only what closes them. *)
Definition value_then fs (c : bytes) (W : json) : Prop :=
  exists w t v c', c = w ++ t ++ c' /\ spaces w /\ value_text t v /\ closes fs v c' W.
Lemma finished_mono (P Q : bytes -> json -> Prop) pre s s0 o :
  s0 = pre ++ s -> (forall c W, P c W -> Q (pre ++ c) W) -> finished P s o -> finished Q s0 o.
Proof.
  intros -> HPQ [H|(c & W & r & p' & -> & -> & HP & Hh & Hr)]; [by left|]. right.
  exists (pre ++ c), W, r, p'. split; [done|]. split; [by rewrite app_assoc|]. auto.
Qed.
Lemma raises_finished {A} (m : M A) k P s p : raises (m p) -> finished P s (pbind m k p).
Proof. left. by apply raises_bind. Qed.

Definition loop_sound (fuel : nat) (loop : list bool -> bool -> M bool) : Prop :=
  forall s fs p, (length s < fuel)%nat ->
    (expects fs (sdp p) -> read_off s p -> finished (value_then fs) s (loop (kinds fs) false p)) /\
    (forall v, holds fs v (sdp p) -> reads s p -> finished (closes fs v) s (loop (kinds fs) true p)).

Lemma evaluate_array fuel loop s l fs v p :
  loop_sound fuel loop -> (length s <= fuel)%nat -> holds (FArr l :: fs) v (sdp p) -> reads s p ->
  finished (closes (FArr l :: fs) v) s (evaluate loop (kinds (FArr l :: fs)) p).
Proof.
  intros HL Hf Hd Hr. cbn [kinds map evaluate].
  destruct (after_element_sound s l fs v p Hd Hr) as [H|[(w & s' & p' & E & -> & Hw & He & Ho)|(w & s' & p' & E & -> & Hw & Hh & Hr')]];
    [by apply raises_finished|rewrite (pbind_ok _ _ _ _ _ E)..]; rewrite length_app in Hf; cbn [length] in Hf.
  - apply (finished_mono (value_then (FArr (l ++ [v]) :: fs)) _ (w ++ [Byte.x2c]) s'); [reassoc| |].
    + intros c W (w' & t & v' & c' & -> & Hw' & Ht & Hc). rewrite <- app_assoc. by apply (cl_next_element l fs v w w' t v').
    + by apply (proj1 (HL s' (FArr (l ++ [v]) :: fs) p' ltac:(lia))).
  - apply (finished_mono (closes fs (JArray (l ++ [v]))) _ (w ++ [Byte.x5d]) s'); [reassoc| |].
    + intros c W Hc. rewrite <- app_assoc. by apply cl_end_array.
    + by apply (proj2 (HL s' fs p' ltac:(lia))).
Qed.
Lemma evaluate_object fuel loop s m k fs v p :
  loop_sound fuel loop -> (length s <= fuel)%nat -> holds (FObj m k :: fs) v (sdp p) -> reads s p ->
  finished (closes (FObj m k :: fs) v) s (evaluate loop (kinds (FObj m k :: fs)) p).
Proof.
  intros HL Hf Hd Hr. cbn [kinds map evaluate].
  destruct (after_member_sound s m k fs v p Hd Hr) as
    [H|[(w & w1 & kt & k' & w2 & s' & p' & E & -> & Hw & Hw1 & Hk & Hw2 & He & Ho)|(w & s' & p' & E & -> & Hw & Hh & Hr')]];
    [by apply raises_finished|rewrite (pbind_ok _ _ _ _ _ E)..]; repeat (rewrite length_app in Hf; cbn [length] in Hf).
  - apply (finished_mono (value_then (FObj (with_key k' (<[k := v]> m)) k' :: fs)) _
      (w ++ Byte.x2c :: w1 ++ kt ++ w2 ++ [Byte.x3a]) s'); [reassoc| |].
    + intros c W (w3 & t & v' & c' & -> & Hw3 & Ht & Hc).
      replace ((w ++ Byte.x2c :: w1 ++ kt ++ w2 ++ [Byte.x3a]) ++ w3 ++ t ++ c')
        with (w ++ Byte.x2c :: w1 ++ kt ++ w2 ++ Byte.x3a :: w3 ++ t ++ c') by reassoc.
      by apply (cl_next_member m k fs v w w1 kt k' w2 w3 t v').
    + by apply (proj1 (HL s' (FObj (with_key k' (<[k := v]> m)) k' :: fs) p' ltac:(lia))).
  - apply (finished_mono (closes fs (JObject (<[k := v]> m))) _ (w ++ [Byte.x7d]) s'); [reassoc| |].
    + intros c W Hc. rewrite <- app_assoc. by apply cl_end_object.
    + by apply (proj2 (HL s' fs p' ltac:(lia))).
Qed.
Lemma evaluate_sound fuel loop s fs v p :
  loop_sound fuel loop -> (length s <= fuel)%nat -> holds fs v (sdp p) -> reads s p ->
  finished (closes fs v) s (evaluate loop (kinds fs) p).
Proof.
  destruct fs as [|[l|m k] fs]; [|apply evaluate_array|apply evaluate_object]. intros HL Hf Hd Hr.
  right. exists [], v, s, p. split; [done|]. split; [done|]. split; [constructor|done].
Qed.

Lemma sax_parse_internal_sound fuel : loop_sound fuel (sax_parse_internal fuel).
Proof.
  induction fuel as [|fuel IH]; intros s fs p Hf; [lia|]. cbn [sax_parse_internal]. split.
  2:{ intros v Hd Hr. eapply evaluate_sound; [done|lia|done..]. }
  intros Hd Ho. destruct (parse_token_sound s fs p Hd Ho) as [H|(p' & [(E & w & t & v & r & -> & Hw & Ht & Hl & Hh & Hr)|[
    (E & w & s' & -> & Hw & He & Ho')|(E & w & w1 & kt & k & w2 & s' & -> & Hw & Hw1 & Hk & Hw2 & He & Ho')]])];
    [by apply raises_finished|rewrite (pbind_ok _ _ _ _ _ E)..].
  - apply (finished_mono (closes fs v) _ (w ++ t) r); [reassoc| |].
    + intros c W Hc. exists w, t, v, c. rewrite <- app_assoc. done.
    + eapply evaluate_sound; [done|lia|done..].
  - repeat (rewrite length_app in Hf; cbn [length] in Hf).
    apply (finished_mono (value_then (FArr [] :: fs)) _ (w ++ [Byte.x5b]) s'); [reassoc| |].
    + intros c W (w' & t & v & c' & -> & Hw' & Ht & Hc).
      destruct (array_closed _ _ _ _ _ _ Hw' Ht Hc) as (t' & v' & c2 & Eq & Ht' & Hc2).
      exists w, t', v', c2. rewrite <- Eq. split; [reassoc|done].
    + by apply (proj1 (IH s' (FArr [] :: fs) p' ltac:(lia))).
  - repeat (rewrite length_app in Hf; cbn [length] in Hf).
    apply (finished_mono (value_then (FObj (with_key k ∅) k :: fs)) _
      (w ++ Byte.x7b :: w1 ++ kt ++ w2 ++ [Byte.x3a]) s'); [reassoc| |].
    + intros c W (w3 & t & v & c' & -> & Hw3 & Ht & Hc).
      destruct (object_closed _ _ _ _ _ _ _ _ _ _ Hw1 Hk Hw2 Hw3 Ht Hc) as (t' & v' & c2 & Eq & Ht' & Hc2).
      exists w, t', v', c2. rewrite <- Eq. split; [reassoc|done].
    + by apply (proj1 (IH s' (FObj (with_key k ∅) k :: fs) p' ltac:(lia))).
Qed.
End loop.

(** ** Texts of the grammar are parsed *)
Section complete.
Implicit Types p : parser.

(** What may follow a value. *)
Definition follow (r : bytes) : Prop := Scan.ends_number (Scan.head_char r).
Lemma follow_spaces w r : spaces w -> follow r -> follow (w ++ r).
Proof. intros [|b w' Hb _] Hr; [done|]. by destruct Hb as [-> |[-> |[-> | ->]]]. Qed.
Lemma follow_end r : text_end r -> follow r.
Proof. intros [-> |[r' ->]]; done. Qed.

Definition read_is (tk : token_type) (v : json) (r : bytes) p p' : Prop :=
  get_token p = Ok (inr (tk, p')) /\ last_token p' = tk /\ sdp p' = sdp p /\
  Scan.token_value tk (m_lexer p') = v /\ reads r p'.
Lemma get_token_is w tk t v r p :
  spaces w -> Scan.token_text tk t v -> (Scan.is_number_token tk = true -> follow r) -> reads (w ++ t ++ r) p ->
  exists p', read_is tk v r p p'.
Proof.
  intros Hw Ht Hr (n & buf & Hn & H).
  destruct (Scan.scan_complete _ _ _ _ _ _ _ _ Hw Ht Hr H Hn) as (lx & E & Hv & n' & buf' & Hn' & H').
  exists (mkParser tk lx (sdp p)). unfold read_is, get_token. rewrite E. do 4 (split; [done|]). exists n', buf'. split; [lia|done].
Qed.
(** The tokens at the start of [s] can be read, in the middle of a text or at
    its beginning. *)
Definition offers (s : bytes) p : Prop := forall w tk t v r,
  s = w ++ t ++ r -> spaces w -> Scan.token_text tk t v -> (Scan.is_number_token tk = true -> follow r) ->
  exists p', read_is tk v r p p'.
Lemma reads_offers s p : reads s p -> offers s p.
Proof. intros H w tk t v r -> Hw Ht Hr. by apply (get_token_is w tk t v). Qed.
Lemma offers_sep w tk b r p :
  spaces w -> Scan.token_text tk [b] JNull -> Scan.is_number_token tk = false -> offers (w ++ b :: r) p ->
  exists p', read_is tk JNull r p p'.
Proof. intros Hw Ht Hk H. apply (H w tk [b]); [done..|by rewrite Hk]. Qed.
Lemma get_token_sep w tk b r p :
  spaces w -> Scan.token_text tk [b] JNull -> Scan.is_number_token tk = false -> reads (w ++ b :: r) p ->
  exists p', read_is tk JNull r p p'.
Proof. intros Hw Ht Hk H. by apply (offers_sep w tk b), reads_offers. Qed.

(** From a state before the first token of a value on, the loop reaches the
    state after the value. *)
Definition runs (states : list bool) p1 (states' : list bool) p' (len : nat) : Prop :=
  exists k, (k <= len)%nat /\
    forall fuel, sax_parse_internal (k + S fuel) states false p1 = evaluate (sax_parse_internal fuel) states' p'.
Definition value_parsed (t : bytes) (v : json) : Prop := forall fs w r p,
  spaces w -> follow r -> expects fs (sdp p) -> offers (w ++ t ++ r) p ->
  exists tk p1 p', get_token p = Ok (inr (tk, p1)) /\ tk <> Lexer.end_array /\
    holds fs v (sdp p') /\ reads r p' /\ runs (kinds fs) p1 (kinds fs) p' (length t).
Definition elements_parsed (t : bytes) (l : list json) : Prop := forall l0 fs r p,
  expects (FArr l0 :: fs) (sdp p) -> reads (t ++ Byte.x5d :: r) p ->
  exists tk p1 p', get_token p = Ok (inr (tk, p1)) /\ tk <> Lexer.end_array /\
    holds fs (JArray (l0 ++ l)) (sdp p') /\ reads r p' /\ runs (true :: kinds fs) p1 (kinds fs) p' (S (length t)).
Definition members_parsed (t : bytes) (l : list (bytes * json)) : Prop := forall m0 fs r p,
  in_object fs m0 (sdp p) -> reads (t ++ Byte.x7d :: r) p ->
  exists p0 p1 p', get_token p = Ok (inr (Lexer.value_string, p0)) /\
    (forall dec, parse_key dec p0 = Ok (inr (dec, p1))) /\
    holds fs (JObject (members_from m0 l)) (sdp p') /\ reads r p' /\ runs (false :: kinds fs) p1 (kinds fs) p' (S (length t)).

Lemma scalar_parsed tk t v :
  Scan.token_text tk t v -> tk <> Lexer.end_array ->
  (forall p, last_token p = tk -> Scan.token_value tk (m_lexer p) = v -> parse_token p = event (dom_value v) p) ->
  value_parsed t v.
Proof.
  intros Ht Hne Hp fs w r p Hw Hf Hd Hr.
  destruct (Hr w tk t v r eq_refl Hw Ht (fun _ => Hf)) as (p1 & E & Htk & Hd1 & Hv & Hr1).
  rewrite <- Hd1 in Hd. destruct (dom_value_ok fs v _ Hd) as (d' & Ed & Hh).
  exists tk, p1, (with_dom d' p1). do 4 (split; [done|]). exists 0%nat. split; [lia|]. intros fuel. cbn [Nat.add sax_parse_internal].
  erewrite pbind_ok; [|by rewrite (Hp p1 Htk Hv), (event_ok _ _ _ Ed)]. done.
Qed.
Lemma number_lexeme_kind t v : number_lexeme t v -> is_number v = true.
Proof.
  intros [neg int v' _ Hv|]; [|done]. unfold integer_value in Hv. repeat case_match; by simplify_eq.
Qed.
Lemma number_parsed t v : number_text t v -> value_parsed t v.
Proof.
  intros [Hl Hfin]. eapply scalar_parsed; [by apply Scan.tt_number|by destruct v|].
  intros p Htk Hv. unfold parse_token. rewrite gets_ok, Htk.
  pose proof (number_lexeme_kind _ _ Hl) as Hk.
  destruct v; try discriminate Hk; cbn [Scan.number_kind Scan.token_value] in *; injection Hv as Hv; rewrite ?Hv; [done..|].
  unfold parse_float. rewrite gets_ok, Hv. cbn in Hfin. by rewrite Hfin.
Qed.

Lemma empty_array_parsed w : spaces w -> value_parsed (Byte.x5b :: w ++ [Byte.x5d]) (JArray []).
Proof.
  intros Hw fs w0 r p Hw0 Hf Hd Hr. rewrite <- app_comm_cons, <- app_assoc in Hr. cbn [app] in Hr.
  destruct (offers_sep w0 _ _ _ p Hw0 Scan.tt_begin_array eq_refl Hr) as (p1 & E1 & Ht1 & Hd1 & _ & Hr1).
  rewrite <- Hd1 in Hd. destruct (start_array_ok fs _ Hd) as (d1 & Es & He).
  destruct (get_token_sep w _ _ _ (with_dom d1 p1) Hw Scan.tt_end_array eq_refl Hr1) as (p2 & E2 & Ht2 & Hd2 & _ & Hr2).
  rewrite <- (Hd2 : _ = d1) in He. destruct (end_empty_array _ _ He) as (d2 & Ee & Hh).
  exists Lexer.begin_array, p1, (with_dom d2 p2). do 4 (split; [done|]). exists 0%nat. split; [lia|]. intros fuel.
  cbn [Nat.add sax_parse_internal]. rewrite (pbind_ok _ _ _ Evaluate (with_dom d2 p2)); [done|]. unfold parse_token. rewrite gets_ok, Ht1.
  unfold parse_begin_array. rewrite (pbind_ok _ _ _ _ _ (sax_ok _ _ _ _ Es)). cbn [negb]. rewrite (pbind_ok _ _ _ _ _ E2).
  by rewrite bool_decide_eq_true_2, (event_ok _ _ _ Ee).
Qed.
Lemma empty_object_parsed w : spaces w -> value_parsed (Byte.x7b :: w ++ [Byte.x7d]) (JObject ∅).
Proof.
  intros Hw fs w0 r p Hw0 Hf Hd Hr. rewrite <- app_comm_cons, <- app_assoc in Hr. cbn [app] in Hr.
  destruct (offers_sep w0 _ _ _ p Hw0 Scan.tt_begin_object eq_refl Hr) as (p1 & E1 & Ht1 & Hd1 & _ & Hr1).
  rewrite <- Hd1 in Hd. destruct (start_object_ok fs _ Hd) as (d1 & Es & He).
  destruct (get_token_sep w _ _ _ (with_dom d1 p1) Hw Scan.tt_end_object eq_refl Hr1) as (p2 & E2 & Ht2 & Hd2 & _ & Hr2).
  rewrite <- (Hd2 : _ = d1) in He. destruct (end_empty_object _ _ He) as (d2 & Ee & Hh).
  exists Lexer.begin_object, p1, (with_dom d2 p2). do 4 (split; [done|]). exists 0%nat. split; [lia|]. intros fuel.
  cbn [Nat.add sax_parse_internal]. rewrite (pbind_ok _ _ _ Evaluate (with_dom d2 p2)); [done|]. unfold parse_token. rewrite gets_ok, Ht1.
  unfold parse_begin_object. rewrite (pbind_ok _ _ _ _ _ (sax_ok _ _ _ _ Es)). cbn [negb]. rewrite (pbind_ok _ _ _ _ _ E2).
  by rewrite bool_decide_eq_true_2, (event_ok _ _ _ Ee).
Qed.

Lemma array_parsed t l : elements_parsed t l -> value_parsed (Byte.x5b :: t ++ [Byte.x5d]) (JArray l).
Proof.
  intros IH fs w0 r p Hw0 Hf Hd Hr. rewrite <- app_comm_cons, <- app_assoc in Hr. cbn [app] in Hr.
  destruct (offers_sep w0 _ _ _ p Hw0 Scan.tt_begin_array eq_refl Hr) as (p1 & E1 & Ht1 & Hd1 & _ & Hr1).
  rewrite <- Hd1 in Hd. destruct (start_array_ok fs _ Hd) as (d1 & Es & He).
  destruct (IH [] fs r (with_dom d1 p1) He Hr1) as (tk & p2 & p' & E2 & Hne & Hh & Hr' & k & Hk & Hrun).
  exists Lexer.begin_array, p1, p'. do 4 (split; [done|]). exists (S k). split; [cbn; rewrite length_app; cbn; lia|].
  intros fuel. cbn [Nat.add sax_parse_internal]. rewrite <- Hrun. rewrite (pbind_ok _ _ _ (Inside true) p2); [done|].
  unfold parse_token. rewrite gets_ok, Ht1. unfold parse_begin_array.
  rewrite (pbind_ok _ _ _ _ _ (sax_ok _ _ _ _ Es)). cbn [negb]. rewrite (pbind_ok _ _ _ _ _ E2). by rewrite bool_decide_eq_false_2.
Qed.
Lemma object_parsed t l : members_parsed t l -> value_parsed (Byte.x7b :: t ++ [Byte.x7d]) (JObject (object_of l)).
Proof.
  intros IH fs w0 r p Hw0 Hf Hd Hr. rewrite <- app_comm_cons, <- app_assoc in Hr. cbn [app] in Hr.
  destruct (offers_sep w0 _ _ _ p Hw0 Scan.tt_begin_object eq_refl Hr) as (p1 & E1 & Ht1 & Hd1 & _ & Hr1).
  rewrite <- Hd1 in Hd. destruct (start_object_ok fs _ Hd) as (d1 & Es & He).
  destruct (IH ∅ fs r (with_dom d1 p1) He Hr1) as (p2 & p3 & p' & E2 & Ek & Hh & Hr' & k & Hk & Hrun).
  exists Lexer.begin_object, p1, p'. do 4 (split; [done|]). exists (S k). split; [cbn; rewrite length_app; cbn; lia|].
  intros fuel. cbn [Nat.add sax_parse_internal]. rewrite <- Hrun. rewrite (pbind_ok _ _ _ (Inside false) p3); [done|].
  unfold parse_token. rewrite gets_ok, Ht1. unfold parse_begin_object.
  rewrite (pbind_ok _ _ _ _ _ (sax_ok _ _ _ _ Es)). cbn [negb]. rewrite (pbind_ok _ _ _ _ _ E2). rewrite bool_decide_eq_false_2 by done. apply Ek.
Qed.

(** After an element: the end of the array, or a comma. *)
Lemma close_array w l fs v r p states :
  spaces w -> holds (FArr l :: fs) v (sdp p) -> reads (w ++ Byte.x5d :: r) p ->
  exists p', holds fs (JArray (l ++ [v])) (sdp p') /\ reads r p' /\
    forall loop, evaluate loop (true :: states) p = loop states true p'.
Proof.
  intros Hw Hd Hr. destruct (get_token_sep w _ _ _ p Hw Scan.tt_end_array eq_refl Hr) as (p1 & E & Ht & Hd1 & _ & Hr1).
  rewrite <- Hd1 in Hd. destruct (end_container_ok _ _ _ _ Hd) as (d' & Ee & Hh).
  exists (with_dom d' p1). split; [done|]. split; [done|]. intros loop. cbn [evaluate].
  rewrite (pbind_ok _ _ _ Closed (with_dom d' p1)); [done|]. unfold after_element. rewrite (pbind_ok _ _ _ _ _ E).
  rewrite bool_decide_eq_false_2, bool_decide_eq_true_2 by done. by rewrite (pbind_ok _ _ _ _ _ (sax_ok _ _ _ _ Ee)).
Qed.
Lemma next_element w l fs v s p states :
  spaces w -> holds (FArr l :: fs) v (sdp p) -> reads (w ++ Byte.x2c :: s) p ->
  exists p1, expects (FArr (l ++ [v]) :: fs) (sdp p1) /\ reads s p1 /\
    forall loop tk p2, get_token p1 = Ok (inr (tk, p2)) ->
      evaluate loop (true :: states) p = loop (true :: states) false p2.
Proof.
  intros Hw Hd Hr. destruct (get_token_sep w _ _ _ p Hw Scan.tt_value_separator eq_refl Hr) as (p1 & E & Ht & Hd1 & _ & Hr1).
  rewrite <- Hd1 in Hd. exists p1. split; [by apply holds_next|]. split; [done|]. intros loop tk p2 E2. cbn [evaluate].
  rewrite (pbind_ok _ _ _ Again p2); [done|]. unfold after_element. rewrite (pbind_ok _ _ _ _ _ E).
  rewrite bool_decide_eq_true_2 by done. by rewrite (pbind_ok _ _ _ _ _ E2).
Qed.
Lemma follow_sep w b r : spaces w -> b = Byte.x2c \/ b = Byte.x5d \/ b = Byte.x7d -> follow (w ++ b :: r).
Proof. intros Hw Hb. apply follow_spaces; [done|]. by destruct Hb as [-> |[-> | ->]]. Qed.

Lemma one_element_parsed w1 t w2 v :
  spaces w1 -> value_parsed t v -> spaces w2 -> elements_parsed (w1 ++ t ++ w2) [v].
Proof.
  intros Hw1 IH Hw2 l0 fs r p Hd Hr. rewrite <- !app_assoc in Hr.
  destruct (IH (FArr l0 :: fs) w1 (w2 ++ Byte.x5d :: r) p Hw1 ltac:(by apply follow_sep; auto) Hd (reads_offers _ _ Hr))
    as (tk & p1 & p2 & E & Hne & Hh & Hr2 & k & Hk & Hrun).
  destruct (close_array w2 l0 fs v r p2 (kinds fs) Hw2 Hh Hr2) as (p' & Hh' & Hr' & Hev).
  exists tk, p1, p'. do 4 (split; [done|]). exists (S k). split; [rewrite !length_app; lia|]. intros fuel.
  replace (S k + S fuel)%nat with (k + S (S fuel))%nat by lia. rewrite Hrun. cbn [kinds map]. by rewrite Hev.
Qed.
Lemma more_elements_parsed w1 t w2 v t' l :
  spaces w1 -> value_parsed t v -> spaces w2 -> elements_parsed t' l ->
  elements_parsed (w1 ++ t ++ w2 ++ Byte.x2c :: t') (v :: l).
Proof.
  intros Hw1 IH Hw2 IHl l0 fs r p Hd Hr. repeat (rewrite <- app_assoc in Hr || rewrite <- app_comm_cons in Hr).
  destruct (IH (FArr l0 :: fs) w1 (w2 ++ Byte.x2c :: t' ++ Byte.x5d :: r) p Hw1 ltac:(by apply follow_sep; auto) Hd (reads_offers _ _ Hr))
    as (tk & p1 & p2 & E & Hne & Hh & Hr2 & k & Hk & Hrun).
  destruct (next_element w2 l0 fs v _ p2 (kinds fs) Hw2 Hh Hr2) as (p3 & He3 & Hr3 & Hev).
  destruct (IHl (l0 ++ [v]) fs r p3 He3 Hr3) as (tk2 & p4 & p' & E4 & Hne4 & Hh' & Hr' & k2 & Hk2 & Hrun2).
  rewrite <- app_assoc in Hh'. exists tk, p1, p'. do 4 (split; [done|]). exists (k + S k2)%nat.
  split; [repeat (rewrite length_app; cbn [length]); lia|]. intros fuel.
  replace (k + S k2 + S fuel)%nat with (k + S (k2 + S fuel))%nat by lia. rewrite Hrun. cbn [kinds map].
  by rewrite (Hev _ _ _ E4).
Qed.

(** After a member. *)
Lemma close_object w m k fs v r p states :
  spaces w -> holds (FObj m k :: fs) v (sdp p) -> reads (w ++ Byte.x7d :: r) p ->
  exists p', holds fs (JObject (<[k := v]> m)) (sdp p') /\ reads r p' /\
    forall loop, evaluate loop (false :: states) p = loop states true p'.
Proof.
  intros Hw Hd Hr. destruct (get_token_sep w _ _ _ p Hw Scan.tt_end_object eq_refl Hr) as (p1 & E & Ht & Hd1 & _ & Hr1).
  rewrite <- Hd1 in Hd. destruct (end_container_ok _ _ _ _ Hd) as (d' & Ee & Hh).
  exists (with_dom d' p1). split; [done|]. split; [done|]. intros loop. cbn [evaluate].
  rewrite (pbind_ok _ _ _ Closed (with_dom d' p1)); [done|]. unfold after_member. rewrite (pbind_ok _ _ _ _ _ E).
  rewrite bool_decide_eq_false_2, bool_decide_eq_true_2 by done. by rewrite (pbind_ok _ _ _ _ _ (sax_ok _ _ _ _ Ee)).
Qed.
Lemma next_member w m k fs v s p states :
  spaces w -> holds (FObj m k :: fs) v (sdp p) -> reads (w ++ Byte.x2c :: s) p ->
  exists p1, in_object fs (<[k := v]> m) (sdp p1) /\ reads s p1 /\
    forall loop p2 p3, get_token p1 = Ok (inr (Lexer.value_string, p2)) -> parse_key Again p2 = Ok (inr (Again, p3)) ->
      evaluate loop (false :: states) p = loop (false :: states) false p3.
Proof.
  intros Hw Hd Hr. destruct (get_token_sep w _ _ _ p Hw Scan.tt_value_separator eq_refl Hr) as (p1 & E & Ht & Hd1 & _ & Hr1).
  rewrite <- Hd1 in Hd. exists p1. split; [by apply holds_member|]. split; [done|]. intros loop p2 p3 E2 E3. cbn [evaluate].
  rewrite (pbind_ok _ _ _ Again p3); [done|]. unfold after_member. rewrite (pbind_ok _ _ _ _ _ E).
  rewrite bool_decide_eq_true_2 by done. by rewrite (pbind_ok _ _ _ _ _ E2).
Qed.

(** The key of a member and the first token of its value. *)
Lemma member_key w1 kt k w2 s m fs p :
  spaces w1 -> string_text kt k -> spaces w2 -> in_object fs m (sdp p) -> reads (w1 ++ kt ++ w2 ++ Byte.x3a :: s) p ->
  exists p0 p1, get_token p = Ok (inr (Lexer.value_string, p0)) /\
    expects (FObj (with_key k m) k :: fs) (sdp p1) /\ reads s p1 /\
    forall dec tk p2, get_token p1 = Ok (inr (tk, p2)) -> parse_key dec p0 = Ok (inr (dec, p2)).
Proof.
  intros Hw1 Hk Hw2 Hd Hr.
  destruct (get_token_is w1 _ _ _ _ p Hw1 (Scan.tt_string _ _ Hk) ltac:(done) Hr) as (p0 & E & Ht & Hd0 & Hv & Hr0).
  cbn in Hv. injection Hv as Hv. rewrite <- Hd0 in Hd. destruct (key_ok fs m k _ Hd) as (d1 & Ek & He).
  destruct (get_token_sep w2 _ _ _ (with_dom d1 p0) Hw2 Scan.tt_name_separator eq_refl Hr0) as (p1 & E1 & Ht1 & Hd1 & _ & Hr1).
  exists p0, p1. split; [done|]. split; [by rewrite Hd1|]. split; [done|]. intros dec tk p2 E2.
  unfold parse_key. rewrite gets_ok, Ht. rewrite bool_decide_eq_true_2 by done. cbn [negb]. rewrite gets_ok, Hv.
  rewrite (pbind_ok _ _ _ _ _ (sax_ok _ _ _ _ Ek)). cbn [negb]. rewrite (pbind_ok _ _ _ _ _ E1).
  rewrite bool_decide_eq_true_2 by done. cbn [negb]. by rewrite (pbind_ok _ _ _ _ _ E2).
Qed.
Lemma one_member_parsed w1 kt k w2 w3 t w4 v :
  spaces w1 -> string_text kt k -> spaces w2 -> spaces w3 -> value_parsed t v -> spaces w4 ->
  members_parsed (w1 ++ kt ++ w2 ++ Byte.x3a :: w3 ++ t ++ w4) [(k, v)].
Proof.
  intros Hw1 Hk Hw2 Hw3 IH Hw4 m0 fs r p Hd Hr. repeat (rewrite <- app_assoc in Hr || rewrite <- app_comm_cons in Hr).
  destruct (member_key w1 kt k w2 _ m0 fs p Hw1 Hk Hw2 Hd Hr) as (p0 & pv & E0 & He & Hrv & Hkey).
  destruct (IH (FObj (with_key k m0) k :: fs) w3 (w4 ++ Byte.x7d :: r) pv Hw3 ltac:(by apply follow_sep; auto) He (reads_offers _ _ Hrv))
    as (tk & p1 & p2 & E & _ & Hh & Hr2 & n & Hn & Hrun).
  destruct (close_object w4 _ k fs v r p2 (kinds fs) Hw4 Hh Hr2) as (p' & Hh' & Hr' & Hev).
  rewrite insert_with_key in Hh'. exists p0, p1, p'. split; [done|]. split; [intros dec; by eapply Hkey|].
  do 2 (split; [done|]). exists (S n). split; [repeat (rewrite length_app; cbn [length]); lia|]. intros fuel.
  replace (S n + S fuel)%nat with (n + S (S fuel))%nat by lia. rewrite Hrun. cbn [kinds map]. by rewrite Hev.
Qed.
Lemma more_members_parsed w1 kt k w2 w3 t w4 v t' l :
  spaces w1 -> string_text kt k -> spaces w2 -> spaces w3 -> value_parsed t v -> spaces w4 -> members_parsed t' l ->
  members_parsed (w1 ++ kt ++ w2 ++ Byte.x3a :: w3 ++ t ++ w4 ++ Byte.x2c :: t') ((k, v) :: l).
Proof.
  intros Hw1 Hk Hw2 Hw3 IH Hw4 IHl m0 fs r p Hd Hr. repeat (rewrite <- app_assoc in Hr || rewrite <- app_comm_cons in Hr).
  destruct (member_key w1 kt k w2 _ m0 fs p Hw1 Hk Hw2 Hd Hr) as (p0 & pv & E0 & He & Hrv & Hkey).
  destruct (IH (FObj (with_key k m0) k :: fs) w3 (w4 ++ Byte.x2c :: t' ++ Byte.x7d :: r) pv Hw3 ltac:(by apply follow_sep; auto) He (reads_offers _ _ Hrv))
    as (tk & p1 & p2 & E & _ & Hh & Hr2 & n & Hn & Hrun).
  destruct (next_member w4 _ k fs v _ p2 (kinds fs) Hw4 Hh Hr2) as (p3 & He3 & Hr3 & Hev). rewrite insert_with_key in He3.
  destruct (IHl _ fs r p3 He3 Hr3) as (p4 & p5 & p' & E4 & Hkey4 & Hh' & Hr' & n2 & Hn2 & Hrun2).
  exists p0, p1, p'. split; [done|]. split; [intros dec; by eapply Hkey|]. do 2 (split; [done|]). exists (n + S n2)%nat.
  split; [repeat (rewrite length_app; cbn [length]); lia|]. intros fuel.
  replace (n + S n2 + S fuel)%nat with (n + S (n2 + S fuel))%nat by lia. rewrite Hrun. cbn [kinds map].
  by rewrite (Hev _ _ _ E4 (Hkey4 Again)).
Qed.

Lemma value_text_parsed t v : value_text t v -> value_parsed t v.
Proof.
  revert t v. apply (value_text_mut value_parsed elements_parsed members_parsed).
  - by apply (scalar_parsed Lexer.literal_null); [constructor|done|intros p Htk _; unfold parse_token; rewrite gets_ok, Htk].
  - by apply (scalar_parsed Lexer.literal_true); [constructor|done|intros p Htk _; unfold parse_token; rewrite gets_ok, Htk].
  - by apply (scalar_parsed Lexer.literal_false); [constructor|done|intros p Htk _; unfold parse_token; rewrite gets_ok, Htk].
  - intros t s Hs. apply (scalar_parsed Lexer.value_string); [by constructor|done|].
    intros p Htk [= Hv]. unfold parse_token. by rewrite gets_ok, Htk, Hv.
  - apply number_parsed.
  - apply empty_array_parsed.
  - intros t l _. apply array_parsed.
  - apply empty_object_parsed.
  - intros t l _. apply object_parsed.
  - intros w1 t w2 v Hw1 _ IH Hw2. by apply one_element_parsed.
  - intros w1 t w2 v t' l Hw1 _ IH Hw2 _ IHl. by apply more_elements_parsed.
  - intros w1 kt k w2 w3 t w4 v Hw1 Hk Hw2 Hw3 _ IH Hw4. by apply one_member_parsed.
  - intros w1 kt k w2 w3 t w4 v t' l Hw1 Hk Hw2 Hw3 _ IH Hw4 _ IHl. by apply more_members_parsed.
Qed.
End complete.

(** ** [basic_json::parse] *)
Section top.
Implicit Types p : parser.

Lemma parser_new_sound text :
  exists m r p, parser_new text true = Ok p /\ text = m ++ r /\ (m = [] \/ m = Scan.bom) /\
    expects [] (sdp p) /\ read_off r p.
Proof.
  destruct (Scan.scan_first_sound text) as (m & r & -> & Hm & tk & lx & E & Ho).
  exists m, r, (mkParser tk lx (mkDom JNull [] None false true)). unfold parser_new, get_token. cbn [m_lexer]. rewrite E.
  do 4 (split; [done|]). destruct Ho as [Ho|[Ho|(w & t & r' & n' & buf' & Hs & Hw & Ht & Hn' & Hr')]]; [by left|right; by left|].
  right. right. exists w, t, r', n', buf'. done.
Qed.
Lemma parse_run text p :
  parser_new text true = Ok p ->
  parse text true = let* o := parser_parse true (S (S (length text))) p in
    Ok (match o with inl e => inl e | inr (v, _) => inr v end).
Proof. intros E. unfold parse. by rewrite E. Qed.

(** After the value: the end of the text. *)
Lemma expect_end_sound s p :
  throws (sdp p) -> reads s p ->
  raises (expect_end p) \/
  exists p' w r, expect_end p = Ok (inr (true, p')) /\ sdp p' = sdp p /\ s = w ++ r /\ spaces w /\ text_end r.
Proof.
  intros Ht Hr. unfold expect_end. destruct (get_token_ok s p Hr) as (p2 & E2 & Hd2 & Ho).
  rewrite (pbind_ok _ _ _ _ _ E2). case_bool_decide as Hc.
  - right. destruct Ho as [Ho|[[_ (w & r & -> & Hw & He)]|(w & t & r & n & buf & _ & _ & Htk & _)]]; [congruence| |].
    + exists p2, w, r. done.
    + rewrite Hc in Htk. by apply token_lexeme in Htk.
  - left. apply syntax_error_raises. by rewrite Hd2.
Qed.
Lemma expect_end_complete w r p :
  spaces w -> text_end r -> reads (w ++ r) p -> exists p', expect_end p = Ok (inr (true, p')) /\ sdp p' = sdp p.
Proof.
  intros Hw He (n & buf & Hn & H). destruct (Scan.scan_end _ _ _ _ _ Hw He H Hn) as (lx & E).
  exists (mkParser Lexer.end_of_input lx (sdp p)). split; [|done]. unfold expect_end.
  rewrite (pbind_ok _ _ _ Lexer.end_of_input (mkParser Lexer.end_of_input lx (sdp p))); [done|]. unfold get_token. by rewrite E.
Qed.
Lemma parse_done fuel p p1 p2 v :
  sax_parse_internal fuel [] false p = Ok (inr (true, p1)) -> expect_end p1 = Ok (inr (true, p2)) -> holds [] v (sdp p2) ->
  parser_parse true fuel p = Ok (inr (Some v, p2)).
Proof.
  intros E1 E2 ([He _] & _ & Hr). unfold parser_parse. rewrite (pbind_ok _ _ _ _ _ E1), (pbind_ok _ _ _ _ _ E2), gets_ok.
  rewrite He, Hr. done.
Qed.

Lemma parse_raises text p fuel :
  parser_new text true = Ok p -> fuel = S (S (length text)) -> raises (parser_parse true fuel p) ->
  exists e, parse text true = Ok (inl e) /\ good_exception e.
Proof. intros En -> (e & E & He). exists e. rewrite (parse_run _ _ En), E. done. Qed.

(** Every text is parsed, or refused with an exception. *)
Lemma parse_sound text :
  (exists e, parse text true = Ok (inl e) /\ good_exception e) \/
  (exists v, parse text true = Ok (inr (Some v)) /\ json_text text v).
Proof.
  destruct (parser_new_sound text) as (m & r & p & En & Htext & Hm & He & Ho).
  destruct (sax_parse_internal_sound (S (S (length text))) r [] p) as [H _]; [subst; rewrite length_app; lia|].
  destruct (H He Ho) as [Hex|(c & W & r2 & p1 & E1 & Hr & (w & t & v & c' & -> & Hw & Ht & Hc) & Hh & Hr2)].
  { left. eapply parse_raises; [done..|]. unfold parser_parse. by apply raises_bind. }
  inversion Hc; subst v c'. destruct (expect_end_sound r2 p1 (proj1 Hh) Hr2) as [Hex|(p2 & w2 & r3 & E2 & Hd2 & Hr3 & Hw2 & Hend)].
  { left. eapply parse_raises; [done..|]. unfold parser_parse. rewrite (pbind_ok _ _ _ _ _ E1). by apply raises_bind. }
  right. exists W. rewrite (parse_run _ _ En), (parse_done _ _ _ _ W E1 E2) by (by rewrite Hd2). split; [done|].
  exists m, w, t, w2, r3. rewrite app_nil_r, <- app_assoc in Hr. subst. done.
Qed.

Definition initial (text : bytes) : parser :=
  mkParser Lexer.uninitialized (Lexer.lexer_new text) (mkDom JNull [] None false true).
Lemma initial_offers m s : m = [] \/ m = Scan.bom -> offers s (initial (m ++ s)).
Proof.
  intros Hm w tk t v r -> Hw Ht Hr.
  destruct (Scan.scan_first_complete m w tk t v r Hm Hw Ht Hr) as (lx & E & Hv & n' & buf' & Hn' & H').
  exists (mkParser tk lx (mkDom JNull [] None false true)). unfold read_is, get_token. cbn [initial m_lexer]. rewrite E.
  do 4 (split; [done|]). exists n', buf'. split; [lia|done].
Qed.
Lemma parse_complete text v : json_text text v -> parse text true = Ok (inr (Some v)).
Proof.
  intros (m & w & t & w2 & r & -> & Hm & Hw & Ht & Hw2 & Hend).
  destruct (value_text_parsed t v Ht [] w (w2 ++ r) (initial (m ++ w ++ t ++ w2 ++ r)) Hw
    ltac:(by apply follow_spaces, follow_end) ltac:(done) (initial_offers _ _ Hm))
    as (tk & p1 & p' & E & _ & Hh & Hr & k & Hk & Hrun).
  destruct (expect_end_complete w2 r p' Hw2 Hend Hr) as (p2 & E2 & Hd2).
  assert (parser_new (m ++ w ++ t ++ w2 ++ r) true = Ok p1) as En.
  { unfold parser_new. fold (initial (m ++ w ++ t ++ w2 ++ r)). by rewrite E. }
  rewrite (parse_run _ _ En).
  assert (exists fuel, S (S (length (m ++ w ++ t ++ w2 ++ r))) = (k + S fuel)%nat) as [fuel ->].
  { exists (S (length (m ++ w ++ t ++ w2 ++ r)) - k)%nat. rewrite !length_app in *. lia. }
  by rewrite (parse_done _ _ p' p2 v (Hrun fuel) E2) by (by rewrite Hd2).
Qed.
Lemma parse_accepts text v : parse text true = Ok (inr (Some v)) -> json_text text v.
Proof. intros H. destruct (parse_sound text) as [(e & H' & _)|(v' & H' & Hj)]; congruence. Qed.
End top.

(** ** The values of the grammar are well typed *)
Section typed.
Lemma utf8_app s1 s2 : utf8 s1 -> utf8 s2 -> utf8 (s1 ++ s2).
Proof. induction 1 as [|cp s Hs _ IH]; intros H2; [done|]. rewrite <- app_assoc. apply utf8_char; auto. Qed.
Lemma utf8_scalar cp : scalar cp -> utf8 (utf8_encode cp).
Proof. intros H. rewrite <- (app_nil_r (utf8_encode cp)). apply utf8_char; [done|apply utf8_nil]. Qed.
Lemma char_text_utf8 t s : char_text t s -> utf8 s.
Proof.
  intros [cp Hs|e c E|h cp _ Hs|h1 h2 hi lo _ Hhi _ Hlo].
  - by apply utf8_scalar.
  - assert (byte_to_Z c < 128) as Hc by (by destruct e; try discriminate E; injection E as <-).
    rewrite <- (byte_of_to_Z c), <- Lexer.encode_ascii by done. apply utf8_scalar. unfold scalar.
    pose proof (byte_to_Z_range c). lia.
  - by apply utf8_scalar.
  - apply utf8_scalar. unfold scalar. lia.
Qed.
Lemma string_text_utf8 t s : string_text t s -> utf8 s.
Proof.
  intros (b & _ & H). induction H as [|t1 s1 t2 s2 H1 _ IH]; [apply utf8_nil|].
  apply utf8_app; [by eapply char_text_utf8|done].
Qed.
Lemma number_text_typed t v : number_text t v -> well_typed v.
Proof.
  intros [[neg int v' Hi Hv|neg int frac exp t' _ _ _ _ _] Hfin]; [|by constructor].
  unfold integer_value in Hv. pose proof (Scan.scan_nonneg 10 0 int ltac:(lia) ltac:(lia)).
  destruct neg; [destruct (Z.leb_spec (Text.scan 10 0 int) (2 ^ 63))|destruct (Z.ltb_spec (Text.scan 10 0 int) (2 ^ 64))];
    simplify_eq; constructor; lia.
Qed.
Lemma members_typed l m :
  (forall k v, m !! k = Some v -> utf8 k /\ well_typed v) -> Forall (fun e => utf8 e.1 /\ well_typed e.2) l ->
  forall k v, members_from m l !! k = Some v -> utf8 k /\ well_typed v.
Proof.
  intros Hm Hl. revert m Hm. induction Hl as [|[k v] l Hkv _ IH]; intros m Hm; [done|]. apply IH. cbn.
  intros k' v'. destruct (decide (k = k')) as [-> |Hne].
  - rewrite lookup_insert_eq. by intros [= <-].
  - rewrite lookup_insert_ne by done. apply Hm.
Qed.
Lemma value_text_typed t v : value_text t v -> well_typed v.
Proof.
  revert t v. apply (value_text_mut (fun _ => well_typed) (fun _ l => Forall well_typed l)
    (fun _ l => Forall (fun e => utf8 e.1 /\ well_typed e.2) l)); try (intros; by constructor).
  - intros t s Hs. constructor. by eapply string_text_utf8.
  - apply number_text_typed.
  - intros w _. constructor. intros v []%not_elem_of_nil.
  - intros t l _ Hl. constructor. by apply Forall_forall.
  - intros t l _ Hl. assert (forall k v, object_of l !! k = Some v -> utf8 k /\ well_typed v) as Hm.
    { apply members_typed; [|done]. intros k v. by rewrite lookup_empty. }
    constructor; intros k v H; by apply (Hm k v).
  - intros. repeat constructor; [by eapply string_text_utf8|done].
  - intros. repeat constructor; [by eapply string_text_utf8|done..].
Qed.
End typed.

(** ** The theorems *)

(** C16: json::parse ends on every text, with a value or with an exception of
    id 101 or 406: no assertion of the lexer or the parser fails, no pointer
    of the builder is followed after the vector it points into may have moved,
    and the loops do not run out of fuel. *)
Theorem json_parse_total text :
  (exists v, parse text true = Ok (inr (Some v))) \/ (exists e, parse text true = Ok (inl e) /\ good_exception e).
Proof. destruct (parse_sound text) as [H|(v & H & _)]; [by right|left; by exists v]. Qed.

(** C15: json::parse returns the value v for a text exactly when the text is a
    JSON text of the grammar (RFC 8259 values with optional blanks and byte
    order mark, ended by the end of the buffer or a NUL) that denotes v:
    strings with their escapes and surrogate pairs in UTF-8, integers in 64
    bits or else doubles, later members of an object replacing earlier ones.
    *)
Theorem json_parse_grammar text v : parse text true = Ok (inr (Some v)) <-> json_text text v.
Proof. split; [apply parse_accepts|apply parse_complete]. Qed.

(** C17: Every value json::parse returns is well typed, at every depth:
    strings and keys are well-formed UTF-8, unsigned integers are below 2^64,
    negative ones at least -2^63, and doubles are finite. *)
Theorem json_parse_typed text v : parse text true = Ok (inr (Some v)) -> well_typed v.
Proof. intros (bom & w1 & t & w2 & r & _ & _ & _ & Ht & _)%parse_accepts. by eapply value_text_typed. Qed.

(** The text [[1.5, -2, {}]] and its value. *)
Lemma json_parse_typed_witness :
  well_typed (JArray [JFloat (S754_finite false 6755399441055744 (-52)); JInteger (-2); JObject ∅]).
Proof. apply (json_parse_typed (str "[1.5, -2, {}]")). vm_compute. reflexivity. Defined.
End Correct.
