(* ===== verification/Logic.v ===== *)
(** * The logic server: src/logicserver

    [KafkaProducer] hands messages to librdkafka with the callback to run when
    they are delivered; [LogicServer] answers the HTTP requests of the pushing
    side, finds the clients in Redis and produces one Kafka message per gate;
    [LogicServiceImpl] answers the gates: it gives a client that connects its
    key, and keeps where each client is in Redis.

    The state [LogicServer] is the process behind the HTTP server: the world
    of its handlers is [HttpServer.World S LogicServer]. *)

From Stdlib Require Import ZArith Lia.
From stdpp Require Import base list gmap strings.
From S2P Require Import Prelude Endian Buffer Interfaces Text RpcCodec RpcChannel Http Limiter HttpServer.
From S2P Require Import Protobuf Messages Services Redis Keys Json JsonSpec JsonLexer JsonParser JsonCorrect.
Import Wire RedisClient.
Local Open Scope Z_scope.

#[local] Arguments str : simpl never.
#[local] Arguments Z.pow : simpl never.

(** ** librdkafka, as the producer uses it

    [produce topic value cb]: whether the message was queued; [cb] is the
    opaque pointer of its delivery report. *)
Class RdKafkaProducer (K : Type) := {
  produce : bytes -> bytes -> option nat -> K -> bool * K;
}.

(** A queued message. *)
Record record := mkRecord { topic : bytes; payload : bytes; opaque : option nat }.

(** [queue] lists the accepted messages; the library has room for [capacity]
    more. *)
Class ProducerLaws (K : Type) `{RdKafkaProducer K} := {
  queue : K -> list record;
  capacity : K -> nat;
  produce_spec t v cb k : (0 < capacity k)%nat ->
    exists k', produce t v cb k = (true, k') /\ queue k' = queue k ++ [mkRecord t v cb] /\
      (capacity k <= S (capacity k'))%nat;
}.

(** A queue in memory. *)
Module Queue.
Record t := mk { items : list record; free : nat }.
#[export] Instance producer : RdKafkaProducer t := {|
  produce tp v cb k :=
    match free k with
    | O => (false, k)
    | S n => (true, mk (items k ++ [mkRecord tp v cb]) n)
    end |}.
#[export] Program Instance producer_laws : ProducerLaws t := {| queue := items; capacity := free |}.
Next Obligation.
  intros tp v cb [l [|n]] Hc; simpl in *; [lia|]. eexists. split; [done|]. split; [done|]. simpl. lia.
Qed.
End Queue.

Module KafkaProducer.
Record KafkaProducer (K : Type) := mk { topic_ : bytes; producer_ : K }.
Arguments mk {K}.
Arguments topic_ {K}.
Arguments producer_ {K}.
(** [Produce]: the key is not used, nor is the error code. *)
Definition Produce {K} `{RdKafkaProducer K} (key value : bytes) (cb : option nat) (p : KafkaProducer K)
    : KafkaProducer K :=
  mk (topic_ p) (produce (topic_ p) value cb (producer_ p)).2.
End KafkaProducer.

Module LogicServer.

Section logic.
Context `{WireFormat}.
Context {S N R K : Type} `{Countable S} `{SessionOps S N} `{Hiredis R} `{RdKafkaProducer K}.

Record LogicServer := mkLogic {
  serverid_ : Z;
  redisclient_ : RedisClient;
  kafkaproducer_ : KafkaProducer.KafkaProducer K;
  service_redisclient_ : RedisClient;     (** [logicservice_.redisclient_] *)
  keys : Keys.state;                      (** the statics of [generateKey] *)
  redis : R;
  net : N;
}.
Implicit Types g : LogicServer.

Definition set_net (n : N) g : LogicServer :=
  mkLogic (serverid_ g) (redisclient_ g) (kafkaproducer_ g) (service_redisclient_ g) (keys g) (redis g) n.
Definition set_redis (c : RedisClient) (r : R) g : LogicServer :=
  mkLogic (serverid_ g) c (kafkaproducer_ g) (service_redisclient_ g) (keys g) r (net g).
Definition set_service_redis (c : RedisClient) (r : R) g : LogicServer :=
  mkLogic (serverid_ g) (redisclient_ g) (kafkaproducer_ g) c (keys g) r (net g).
Definition set_kafka (p : KafkaProducer.KafkaProducer K) g : LogicServer :=
  mkLogic (serverid_ g) (redisclient_ g) p (service_redisclient_ g) (keys g) (redis g) (net g).
Definition set_keys (k : Keys.state) g : LogicServer :=
  mkLogic (serverid_ g) (redisclient_ g) (kafkaproducer_ g) (service_redisclient_ g) k (redis g) (net g).

#[global] Instance logic_session_ops : SessionOps S LogicServer := {|
  session_send s b g := let* n := session_send s b (net g) in Ok (set_net n g);
  session_close s g := let* n := session_close s (net g) in Ok (set_net n g);
  sent g s := sent (net g) s;
|}.

(** ** Pushing *)
Definition keyMidServer (mid : Z) : bytes := str "mid_" ++ to_string mid.
Definition keyKeyServer (key : bytes) : bytes := str "key_" ++ key.

(** [SerializeAsString]: empty for a message over 2 GB. *)
Definition SerializeAsString (m : PushMsg.PushMsg) : bytes :=
  if PushMsg.ByteSize m <? 2 ^ 31 then PushMsg.SerializeToArray m else [].

Definition Produce (key value : bytes) (cb : option nat) g : LogicServer :=
  set_kafka (KafkaProducer.Produce key value cb (kafkaproducer_ g)) g.

(** [logic::PushMsg::PUSH], [ROOM] and [BROADCAST]. *)
Definition PUSH := 0.
Definition ROOM := 1.
Definition BROADCAST := 2.

Definition PushMsg (keys : list bytes) (op : Z) (server msg : bytes) (cb : option nat) g : res LogicServer :=
  let pushmsg := PushMsg.set_server server (PushMsg.set_operation op (PushMsg.set_type PUSH PushMsg.Clear)) in
  let pushmsg := foldl (fun m it => PushMsg.add_keys it m) pushmsg keys in
  let pushmsg := PushMsg.set_msg msg pushmsg in
  match keys with
  | [] => Err UB                       (** [keys[0]] *)
  | key :: _ => Ok (Produce key (SerializeAsString pushmsg) cb g)
  end.

Definition PushMsgByRoom (room : bytes) (op : Z) (msg : bytes) g : LogicServer :=
  let pushmsg := PushMsg.set_msg msg (PushMsg.set_operation op (PushMsg.set_room room
                   (PushMsg.set_type ROOM PushMsg.Clear))) in
  Produce room (SerializeAsString pushmsg) None g.

Definition PushMsgToAll (speed op : Z) (msg : bytes) g : LogicServer :=
  let pushmsg := PushMsg.set_msg msg (PushMsg.set_speed speed (PushMsg.set_operation op
                   (PushMsg.set_type BROADCAST PushMsg.Clear))) in
  Produce (to_string op) (SerializeAsString pushmsg) None g.

(** [serverKeys[server].push_back(key)] *)
Definition push_back (server key : bytes) (serverKeys : gmap bytes (list bytes)) : gmap bytes (list bytes) :=
  <[server := default [] (serverKeys !! server) ++ [key]]> serverKeys.

(** One message per entry; the order of an [unordered_map] is some order. *)
Definition push_groups (op : Z) (msg : bytes) (cb : option nat) (serverKeys : gmap bytes (list bytes)) g
    : res LogicServer :=
  foldM (fun elem : bytes * list bytes => PushMsg elem.2 op elem.1 msg cb) (map_to_list serverKeys) g.

(** The loop of [PushMsgByKeys] over the reply: [cmd[i]] goes with [reply[i]]. *)
Fixpoint group_replies (reply cmd : list bytes) (serverKeys : gmap bytes (list bytes))
    : res (gmap bytes (list bytes)) :=
  match reply, cmd with
  | [], _ => Ok serverKeys
  | server :: reply, key :: cmd => group_replies reply cmd (push_back server key serverKeys)
  | _ :: _, [] => Err UB
  end.

Definition PushMsgByKeys (keys : list bytes) (op : Z) (msg : bytes) g : res LogicServer :=
  let cmd := map keyKeyServer keys in
  let* (r, w) := MGet cmd (redisclient_ g) (redis g) in
  let '(reply, c) := r in
  let g := set_redis c w g in
  let* serverKeys := group_replies reply cmd ∅ in
  push_groups op msg None serverKeys g.

(** The first loop of [PushMsgByMids]: later entries replace earlier ones. *)
Fixpoint find_keys (mids : list Z) (keyServer : gmap bytes bytes) g : res (gmap bytes bytes * LogicServer) :=
  match mids with
  | [] => Ok (keyServer, g)
  | it :: mids =>
      let* (r, w) := HGetAll (keyMidServer it) (redisclient_ g) (redis g) in
      let '(reply, c) := r in
      find_keys mids (foldl (fun m (elem : bytes * bytes) => <[elem.1 := elem.2]> m) keyServer
                        (map_to_list reply)) (set_redis c w g)
  end.

Definition PushMsgByMids (mids : list Z) (op : Z) (msg : bytes) (cb : option nat) g : res LogicServer :=
  let* (keyServer, g) := find_keys mids ∅ g in
  let serverKeys := foldl (fun m (elem : bytes * bytes) => push_back elem.2 elem.1 m) ∅
                      (map_to_list keyServer) in
  push_groups op msg cb serverKeys g.

(** ** The HTTP handlers *)
Abbreviation World := (HttpServer.World S LogicServer).
Abbreviation HttpCallback := (HttpServer.HttpCallback S LogicServer).

(** [HttpResponse::send] *)
Definition response_send (rp : nat) (w : World) : res World :=
  let* buf := Buffer_new kInitialSize in
  let* r := HttpServer.get_response rp w in
  let* buf := Response.appendToBuffer r buf in
  let* n := session_send (Response.httpsession_ r) buf (HttpServer.net w) in
  Ok (HttpServer.set_net n w).

Definition not_found (rp : nat) (w : World) : res World :=
  let* w := HttpServer.set_status Response.k404NotFound (str "NotFound") rp w in
  response_send rp w.

Definition on_logic (f : LogicServer -> res LogicServer) (w : World) : res World :=
  let* g := f (HttpServer.net w) in Ok (HttpServer.set_net g w).

Definition PushMsgByKeysHandler : HttpCallback := fun request response w =>
  let* s := Request.getQuery (str "operation") request in
  let* operation := stoi s in
  let* s := Request.getQuery (str "keys") request in
  let keys := split s (str ",") in
  if negb (bool_decide (keys = [])) && negb (operation =? 0) then
    on_logic (PushMsgByKeys keys operation (Request.body_ request)) w
  else not_found response w.

(** [response->delay()] is the getter, and does nothing. *)
Definition PushMsgByMidsHandler : HttpCallback := fun request response w =>
  let* s := Request.getQuery (str "operation") request in
  let* operation := stoi s in
  let* s := Request.getQuery (str "mids") request in
  let mids := split s (str ",") in
  let* midsvec := foldM (fun elem l => let* n := stoi elem in Ok (l ++ [n])) mids [] in
  if negb (bool_decide (mids = [])) && negb (operation =? 0) then
    let* r := HttpServer.get_response response w in
    match HttpServer.session_context w !! Response.httpsession_ r with
    | None => Err UB                   (** [context_] was never set *)
    | Some cb => on_logic (PushMsgByMids midsvec operation (Request.body_ request) (Some cb)) w
    end
  else not_found response w.

Definition PushMsgByRoomHandler : HttpCallback := fun request response w =>
  let* s := Request.getQuery (str "operation") request in
  let* operation := stoi s in
  let* type := Request.getQuery (str "type") request in
  let* room := Request.getQuery (str "room") request in
  let roomstr := type ++ str "://" ++ room in
  if negb (bool_decide (type = [])) && negb (operation =? 0) && negb (bool_decide (room = [])) then
    on_logic (fun g => Ok (PushMsgByRoom roomstr operation (Request.body_ request) g)) w
  else not_found response w.

Definition PushMsgToAllHandler : HttpCallback := fun request response w =>
  let* s := Request.getQuery (str "operation") request in
  let* operation := stoi s in
  let* s := Request.getQuery (str "speed") request in
  let* speed := stoi s in
  if negb (operation =? 0) && negb (speed =? 0) then
    on_logic (fun g => Ok (PushMsgToAll speed operation (Request.body_ request) g)) w
  else not_found response w.

(** [Start]: the registered handlers. *)
Definition handlers : gmap bytes HttpCallback :=
  HttpServer.RegHandler (str "/push/all") PushMsgToAllHandler
  (HttpServer.RegHandler (str "/push/room") PushMsgByRoomHandler
  (HttpServer.RegHandler (str "/push/mids") PushMsgByMidsHandler
  (HttpServer.RegHandler (str "/push/keys") PushMsgByKeysHandler ∅))).

(** [ProduceCb::dr_cb], the delivery report of a message, at time [now]. *)
Definition dr_cb (cb : option nat) (now rand : Z) (w : World) : res World :=
  match cb with
  | None => Ok w
  | Some cb =>
      let* w := HttpServer.run_callback cb now rand w in
      Ok (HttpServer.delete_callback cb w)
  end.

(** ** src/logicserver/LogicServiceImpl.cc *)
Definition generateKey g : res (bytes * LogicServer) :=
  let* (key, st) := Keys.generateKey (serverid_ g) (keys g) in Ok (key, set_keys st g).

Definition PipeLine (commandvec : list bytes) g : res LogicServer :=
  let* (c, w) := RedisClient.PipeLine commandvec (service_redisclient_ g) (redis g) in
  Ok (set_service_redis c w g).

Definition addServerMap (mid : Z) (key server : bytes) g : res LogicServer :=
  PipeLine
    [str "HSET " ++ keyMidServer mid ++ str " " ++ key ++ str " " ++ server;
     str "EXPIRE " ++ keyMidServer mid ++ str " " ++ to_string (30 * 60);
     str "SET " ++ keyKeyServer key ++ str " " ++ server;
     str "EXPIRE " ++ keyKeyServer key ++ str " " ++ to_string (30 * 60)] g.

(** [json::parse(token)]: [None] for a thrown [json::exception]. *)
Definition parse_json (token : bytes) : res (option Json.json) :=
  let* o := Parser.parse token true in
  Ok (match o with inl _ => None | inr v => v end).

(** The try block of [Connect]: the response as it is when the block ends or
    an exception leaves it. *)
Definition try_connect (request : ConnectReq.ConnectReq) (response : ConnectReply.ConnectReply) g
    : res (ConnectReply.ConnectReply * LogicServer) :=
  let* jsonbody := parse_json (ConnectReq.token_ request) in
  match jsonbody with
  | None => Ok (response, g)
  | Some jsonbody =>
  let* response := match Json.find (str "mid") jsonbody with
                   | Some it =>
                       if Json.is_number it then
                         let* mid := Json.get_int it in
                         Ok (match mid with Some mid => ConnectReply.set_mid mid response | None => response end)
                       else Ok response
                   | None => Ok response
                   end in
  match Json.subscript (str "room_id") jsonbody with
  | None => Ok (response, g)
  | Some (room, jsonbody) =>
  match Json.get_string room with
  | None => Ok (response, g)
  | Some room =>
  let response := ConnectReply.set_roomid room response in
  let* (key, g) := generateKey g in
  let response := ConnectReply.set_key key response in
  match Json.subscript (str "accepts") jsonbody with
  | None => Ok (response, g)
  | Some (accepts, jsonbody) =>
  let* accepts := Json.get_ints accepts in
  match accepts with
  | None => Ok (response, g)
  | Some accepts =>
  let response := foldl (fun r it => ConnectReply.add_accepts it r) response accepts in
  match Json.subscript (str "server") jsonbody with
  | None => Ok (response, g)
  | Some (_, jsonbody) =>
  match Json.subscript (str "mid") jsonbody with
  | None => Ok (response, g)
  | Some (mid, _) =>
  let* mid := Json.get_int mid in
  match mid with
  | None => Ok (response, g)
  | Some mid =>
  let* g := addServerMap mid key (ConnectReq.server_ request) g in
  Ok (response, g)
  end end end end end end end end.

Definition Connect : Services.handler ConnectReq.ConnectReq ConnectReply.ConnectReply LogicServer :=
  fun _ request done g =>
    let* (response, g) := try_connect request ConnectReply.Clear g in
    done response g.

Definition Heartbeat : Services.handler HeartbeatReq.HeartbeatReq HeartbeatReply.HeartbeatReply LogicServer :=
  fun _ request done g =>
    let* g := PipeLine
      [str "EXPIRE " ++ keyMidServer (s32 (HeartbeatReq.mid_ request)) ++ str " " ++ to_string (30 * 60);
       str "EXPIRE " ++ keyKeyServer (HeartbeatReq.key_ request) ++ str " " ++ to_string (30 * 60)] g in
    done HeartbeatReply.Clear g.

Definition Disconnect : Services.handler DisconnectReq.DisconnectReq DisconnectReply.DisconnectReply LogicServer :=
  fun _ request done g =>
    let* g := PipeLine
      [str "HDEL " ++ keyMidServer (s32 (DisconnectReq.mid_ request)) ++ str " " ++ DisconnectReq.key_ request;
       str "DEL " ++ keyKeyServer (DisconnectReq.key_ request)] g in
    done DisconnectReply.Clear g.

Definition LogicServiceImpl : Logic.Logic LogicServer :=
  Logic.mk (Logic.Ping Logic.base) (Logic.Close Logic.base) Connect Disconnect Heartbeat
    (Logic.RenewOnline Logic.base) (Logic.Receive Logic.base).

(** A session of the RPC server, with its channel; the logic server makes no
    calls of its own. *)
Context (ParseMap : msg_type -> bytes -> bool) `{Services.Descriptors}.
Definition channel : Type := RpcChannel.Channel S msg_type Empty_set (Services.service LogicServer).
Definition onRpcData (session : S) (buf : Buffer) (cg : channel * LogicServer)
    : res (Buffer * (channel * LogicServer)) :=
  Services.onMessage ParseMap (fun c : Empty_set => match c with end) session buf cg.
End logic.
Arguments LogicServer : clear implicits.
Arguments channel : clear implicits.

(** ** Where the clients are *)
Section service.
Context {N R K : Type} `{RedisLaws R}.
Implicit Types g : LogicServer N R K.

(** The database with client [key] of user [mid] on gate [server], and without. *)
Definition registered (mid : Z) (key server : bytes) (d : database) : database :=
  <[keyKeyServer key := VString server]>
    (<[keyMidServer mid := VHash (<[key := server]> (get_hash d (keyMidServer mid)))]> d).
Definition unregistered (mid : Z) (key : bytes) (d : database) : database :=
  let h := delete key (get_hash d (keyMidServer mid)) in
  delete (keyKeyServer key)
    (match d !! keyMidServer mid with
     | Some (VHash _) => if decide (h = ∅) then delete (keyMidServer mid) d else <[keyMidServer mid := VHash h]> d
     | _ => d
     end).

Lemma mid_key_ne mid key : keyMidServer mid <> keyKeyServer key.
Proof. discriminate. Qed.

Lemma word_mid mid : int32_range mid -> word (keyMidServer mid).
Proof.
  intros Hm. apply word_app; [|apply word_to_string; unfold int32_range in *; lia].
  apply (bool_decide_unpack _). vm_compute. exact I.
Qed.
Lemma word_key key : clean key -> word (keyKeyServer key).
Proof. intros Hk. apply word_app; [|done]. apply (bool_decide_unpack _). vm_compute. exact I. Qed.

Ltac words := repeat (apply Forall_cons; split); try apply Forall_nil;
  first [by apply word_mid | apply word_key; done | apply word_to_string; lia | done | by split
        | apply (bool_decide_unpack _); vm_compute; exact I].

(** A pipeline of [LogicServiceImpl], on its own connection. *)
Lemma PipeLine_service x argvs g :
  ready x (service_redisclient_ g) (redis g) ->
  Forall (fun argv => argv <> [] /\ Forall word argv) argvs ->
  exists w, PipeLine (map text_of argvs) g = Ok (set_service_redis (service_redisclient_ g) w g) /\
    db w = foldl exec (db (redis g)) argvs /\ ready x (service_redisclient_ g) w /\ others x (redis g) w.
Proof.
  intros Hr HF. destruct (PipeLine_executes x argvs _ _ Hr HF) as (w & E & Hd & Hr' & Ho).
  unfold PipeLine. rewrite E. by exists w.
Qed.

Lemma addServerMap_registers x mid key server g :
  ready x (service_redisclient_ g) (redis g) -> int32_range mid -> word key -> word server ->
  (forall s, db (redis g) !! keyMidServer mid <> Some (VString s)) ->
  exists w, addServerMap mid key server g = Ok (set_service_redis (service_redisclient_ g) w g) /\
    db w = registered mid key server (db (redis g)) /\
    ready x (service_redisclient_ g) w /\ others x (redis g) w.
Proof.
  intros Hr Hm Hk Hs Hd. destruct Hk as [Hk0 Hk].
  destruct (PipeLine_service x
    [[str "HSET"; keyMidServer mid; key; server]; [str "EXPIRE"; keyMidServer mid; to_string (30 * 60)];
     [str "SET"; keyKeyServer key; server]; [str "EXPIRE"; keyKeyServer key; to_string (30 * 60)]] g Hr)
    as (w & E & Hw & Hr' & Ho).
  { repeat (apply Forall_cons; split; [split; [done|words]|]). constructor. }
  exists w. split; [exact E|]. split; [|done]. rewrite Hw. cbn [foldl].
  rewrite exec_hset, !exec_expire, exec_set by done. done.
Qed.

(** A token that names the user, the room and the operations accepted. *)
Definition good_token (token : bytes) (mid : Z) (room : bytes) (accepts : list Z) : Prop :=
  exists (m : gmap bytes Json.json) jmid jaccepts,
    JsonSpec.json_text token (Json.JObject m) /\
    m !! str "mid" = Some jmid /\ Json.is_number jmid = true /\ Json.get_int jmid = Ok (Some mid) /\
    m !! str "room_id" = Some (Json.JString room) /\
    m !! str "accepts" = Some jaccepts /\ Json.get_ints jaccepts = Ok (Some accepts).
(** A token that is not a JSON text. *)
Definition bad_token (token : bytes) : Prop := ~ exists v, JsonSpec.json_text token v.

Lemma parse_json_text token v : JsonSpec.json_text token v -> parse_json token = Ok (Some v).
Proof. intros Hp%Correct.parse_complete. unfold parse_json. by rewrite Hp. Qed.
Lemma parse_json_bad token : bad_token token -> parse_json token = Ok None.
Proof.
  intros Hb. unfold parse_json. destruct (Correct.parse_sound token) as [(e & -> & _)|(v & _ & Hv)]; [done|].
  destruct Hb. by exists v.
Qed.

Lemma subscript_member (k : bytes) (v : Json.json) (m : gmap bytes Json.json) :
  m !! k = Some v -> Json.subscript k (Json.JObject m) = Some (v, Json.JObject m).
Proof. intros E. unfold Json.subscript. by rewrite E. Qed.

Lemma add_accepts_all l r :
  foldl (fun r it => ConnectReply.add_accepts it r) r l = ConnectReply.append_accepts l r.
Proof.
  revert r. induction l as [|n l IH]; intros r; simpl; [destruct r; unfold ConnectReply.append_accepts; simpl; by rewrite app_nil_r|].
  rewrite IH. unfold ConnectReply.append_accepts. simpl. by rewrite <- app_assoc.
Qed.

Lemma Connect_registers x mid room accepts request key st g :
  ready x (service_redisclient_ g) (redis g) -> int32_range mid -> 0 <= Keys.seqID (keys g) ->
  good_token (ConnectReq.token_ request) mid room accepts -> word (ConnectReq.server_ request) ->
  Keys.generateKey (serverid_ g) (keys g) = Ok (key, st) ->
  (forall s, db (redis g) !! keyMidServer mid <> Some (VString s)) ->
  exists w, db w = registered mid key (ConnectReq.server_ request) (db (redis g)) /\
    ready x (service_redisclient_ g) w /\ others x (redis g) w /\
    forall done, Connect NullController request done g =
      done (ConnectReply.mk mid key room accepts 0)
        (set_service_redis (service_redisclient_ g) w (set_keys st g)).
Proof.
  intros Hr Hm Hq (m & jm & ja & Ep%parse_json_text & Em & En & Ei & Er & Ea & Eas) Hs Ek Hd.
  destruct (Keys.generateKey_text _ _ _ _ Hq Ek) as (i & Hi & Ekey).
  destruct (addServerMap_registers x mid key (ConnectReq.server_ request) (set_keys st g))
    as (w & E & Hw & Hr' & Ho); [done|done|rewrite Ekey; apply word_to_string; lia|done|done|].
  exists w. split; [done|]. split; [done|]. split; [done|]. intros done.
  unfold Connect, try_connect. rewrite Ep. mstep. cbn [Json.find]. rewrite Em, En, Ei. cbn [bind].
  rewrite (subscript_member _ _ _ Er). cbn [Json.get_string]. unfold generateKey. rewrite Ek. mstep.
  rewrite (subscript_member _ _ _ Ea), Eas. mstep.
  rewrite add_accepts_all. cbn [Json.subscript].
  destruct (m !! str "server") eqn:Es; rewrite (subscript_member _ jm), Ei; mstep; try rewrite E; mstep; try done.
  by rewrite lookup_insert_ne.
Qed.

Lemma Disconnect_unregisters x mid key request g :
  ready x (service_redisclient_ g) (redis g) -> int32_range mid -> word key ->
  s32 (DisconnectReq.mid_ request) = mid -> DisconnectReq.key_ request = key ->
  exists w, db w = unregistered mid key (db (redis g)) /\
    ready x (service_redisclient_ g) w /\ others x (redis g) w /\
    forall done, Disconnect NullController request done g =
      done DisconnectReply.Clear (set_service_redis (service_redisclient_ g) w g).
Proof.
  intros Hr Hm [Hk0 Hk] Em Ek.
  destruct (PipeLine_service x
    [[str "HDEL"; keyMidServer mid; key]; [str "DEL"; keyKeyServer key]] g Hr) as (w & E & Hw & Hr' & Ho).
  { repeat (apply Forall_cons; split; [split; [done|words]|]). constructor. }
  exists w. split; [|split; [done|]; split; [done|]].
  - rewrite Hw. cbn [foldl]. rewrite exec_del. unfold unregistered, get_hash.
    destruct (db (redis g) !! keyMidServer mid) as [[s|h]|] eqn:Ed.
    + f_equal. unfold exec. by rewrite Ed, !decide_False by (vm_compute; discriminate).
    + by rewrite (exec_hdel _ _ _ h).
    + f_equal. unfold exec. by rewrite Ed, !decide_False by (vm_compute; discriminate).
  - intros done. unfold Disconnect. rewrite Em, Ek.
    change ([str "HDEL " ++ keyMidServer mid ++ str " " ++ key; str "DEL " ++ keyKeyServer key])
      with (map text_of [[str "HDEL"; keyMidServer mid; key]; [str "DEL"; keyKeyServer key]]).
    by rewrite E.
Qed.

(** Redis keeps no empty hash. *)
Lemma unregister_registered mid key server d :
  get_hash d (keyMidServer mid) !! key = None -> d !! keyKeyServer key = None ->
  (forall s, d !! keyMidServer mid <> Some (VString s)) -> d !! keyMidServer mid <> Some (VHash ∅) ->
  unregistered mid key (registered mid key server d) = d.
Proof.
  intros Hf Hkk Hs He. unfold unregistered, registered.
  pose proof (mid_key_ne mid key) as Hne. set (mk := keyMidServer mid) in *. set (kk := keyKeyServer key) in *.
  set (d1 := <[kk := _]> _). assert (d1 !! mk = Some (VHash (<[key := server]> (get_hash d mk)))) as E1.
  { unfold d1. by rewrite lookup_insert_ne, lookup_insert_eq. }
  assert (get_hash d1 mk = <[key := server]> (get_hash d mk)) as -> by (unfold get_hash at 1; by rewrite E1).
  rewrite E1, delete_insert_id by done. subst d1.
  unfold get_hash in *. apply map_eq. intros k. destruct (d !! mk) as [[s|h]|] eqn:E; [by destruct (Hs s)| |].
  - rewrite decide_False by congruence. destruct (decide (k = kk)) as [->|Hk]; [by rewrite lookup_delete_eq|].
    rewrite lookup_delete_ne by done. destruct (decide (k = mk)) as [->|Hk'].
    + by rewrite lookup_insert_eq.
    + by rewrite !lookup_insert_ne.
  - rewrite decide_True by done. destruct (decide (k = kk)) as [->|Hk]; [by rewrite lookup_delete_eq|].
    rewrite lookup_delete_ne by done. destruct (decide (k = mk)) as [->|Hk'].
    + by rewrite lookup_delete_eq.
    + by rewrite lookup_delete_ne, !lookup_insert_ne.
Qed.
End service.

(** A token the parser refuses: an empty reply, and nothing is kept. *)
Lemma Connect_bad_token {N R K} `{Hiredis R} request (g : LogicServer N R K) :
  bad_token (ConnectReq.token_ request) ->
  forall done, Connect NullController request done g = done ConnectReply.Clear g.
Proof. intros E%parse_json_bad done. unfold Connect, try_connect. by rewrite E. Qed.

(** C11: Connect enters the client in the two Redis tables and replies with
    its key, room and user; Disconnect with that user and key restores the
    database as it was. *)
Theorem logic_connect_then_disconnect {N R K} `{RedisLaws R}
    x mid room accepts request key st dreq (g : LogicServer N R K) :
  ready x (service_redisclient_ g) (redis g) -> int32_range mid -> 0 <= Keys.seqID (keys g) ->
  good_token (ConnectReq.token_ request) mid room accepts -> word (ConnectReq.server_ request) ->
  Keys.generateKey (serverid_ g) (keys g) = Ok (key, st) ->
  let d := db (redis g) in
  get_hash d (keyMidServer mid) !! key = None -> d !! keyKeyServer key = None ->
  (forall s, d !! keyMidServer mid <> Some (VString s)) -> d !! keyMidServer mid <> Some (VHash ∅) ->
  DisconnectReq.mid_ dreq = mid -> DisconnectReq.key_ dreq = key ->
  exists g1 g2,
    (forall done, Connect NullController request done g =
       done (ConnectReply.mk mid key room accepts 0) g1) /\
    get_hash (db (redis g1)) (keyMidServer mid) =
      <[key := ConnectReq.server_ request]> (get_hash d (keyMidServer mid)) /\
    get_string (db (redis g1)) (keyKeyServer key) = Some (ConnectReq.server_ request) /\
    (forall done, Disconnect NullController dreq done g1 = done DisconnectReply.Clear g2) /\
    db (redis g2) = d.
Proof.
  intros Hr Hm Hq Ht Hs Ek d Hf Hkk Hn He Em' Ek'.
  destruct (Connect_registers x mid room accepts request key st g) as (w & Hw & Hr1 & _ & Hc); [done..|].
  destruct (Keys.generateKey_text _ _ _ _ Hq Ek) as (i & Hi & Ei).
  destruct (Disconnect_unregisters x mid key dreq
    (set_service_redis (service_redisclient_ g) w (set_keys st g))) as (w2 & Hw2 & _ & _ & Hdc);
    [done|done|rewrite Ei; apply word_to_string; lia| |done|].
  { rewrite Em'. apply swrap_small; unfold int32_range in Hm; simpl; lia. }
  eexists _, _. split; [exact Hc|]. simpl in *. rewrite Hw. unfold registered at 1 2, get_hash at 1, get_string.
  rewrite lookup_insert_ne, !lookup_insert_eq by (symmetry; apply mid_key_ne).
  split; [done|]. split; [done|]. split; [exact Hdc|]. simpl. rewrite Hw2, Hw.
  by apply unregister_registered.
Qed.

(** ** Pushes *)
Section pushing.
Context `{WireFormat} {N R K : Type} `{RedisLaws R} `{ProducerLaws K}.
Implicit Types g : LogicServer N R K.

(** The messages a push puts on the topic. *)
Definition push_message (op : Z) (msg : bytes) (e : bytes * list bytes) : PushMsg.PushMsg :=
  PushMsg.mk PUSH op 0 e.1 [] e.2 msg.
Definition push_record (topic : bytes) (op : Z) (msg : bytes) (cb : option nat) (e : bytes * list bytes) : record :=
  mkRecord topic (SerializeAsString (push_message op msg e)) cb.

Definition produced g : list record := queue (KafkaProducer.producer_ (kafkaproducer_ g)).
Definition room_for (n : nat) g : Prop := (n <= capacity (KafkaProducer.producer_ (kafkaproducer_ g)))%nat.
Definition topic_of g : bytes := KafkaProducer.topic_ (kafkaproducer_ g).

(** Only the producer differs. *)
Definition only_kafka g g' : Prop := exists k, g' = set_kafka (KafkaProducer.mk (topic_of g) k) g.

Lemma only_kafka_trans g1 g2 g3 : only_kafka g1 g2 -> only_kafka g2 g3 -> only_kafka g1 g3.
Proof. intros [k1 ->] [k2 ->]. by exists k2. Qed.

Lemma Produce_spec key v cb n g :
  room_for (S n) g ->
  let g' := Produce key v cb g in
  only_kafka g g' /\ produced g' = produced g ++ [mkRecord (topic_of g) v cb] /\ room_for n g'.
Proof.
  unfold room_for, produced, topic_of, Produce, KafkaProducer.Produce. intros Hn.
  destruct (produce_spec (KafkaProducer.topic_ (kafkaproducer_ g)) v cb
    (KafkaProducer.producer_ (kafkaproducer_ g))) as (k & E & Hq & Hc); [lia|].
  simpl. rewrite E. simpl. split; [by eexists|]. split; [done|]. lia.
Qed.

Lemma PushMsg_spec keys op server msg cb n g :
  keys <> [] -> room_for (S n) g ->
  exists g', PushMsg keys op server msg cb g = Ok g' /\ only_kafka g g' /\
    produced g' = produced g ++ [push_record (topic_of g) op msg cb (server, keys)] /\ room_for n g'.
Proof.
  intros Hk Hn. unfold PushMsg. rewrite PushMsg.PushMsg_add_keys_all. destruct keys as [|k keys]; [done|].
  eexists. split; [reflexivity|]. by apply Produce_spec.
Qed.

Lemma push_groups_spec es op msg cb g :
  Forall (fun e : bytes * list bytes => e.2 <> []) es -> room_for (length es) g ->
  exists g', foldM (fun e : bytes * list bytes => PushMsg e.2 op e.1 msg cb) es g = Ok g' /\ only_kafka g g' /\
    produced g' = produced g ++ map (push_record (topic_of g) op msg cb) es.
Proof.
  intros HF. revert g. induction HF as [|[server keys] es Hk _ IH]; intros g Hn.
  - exists g. split; [done|]. rewrite app_nil_r. split; [|done].
    exists (KafkaProducer.producer_ (kafkaproducer_ g)). destruct g as [? ? [? ?] ? ? ? ?]. done.
  - cbn [foldM]. simpl in Hk.
    destruct (PushMsg_spec keys op server msg cb (length es) g Hk Hn) as (g1 & E & Ho1 & Hp1 & Hn1).
    cbn [fst snd]. rewrite E. mstep. destruct (IH g1 Hn1) as (g' & -> & Ho & Hp).
    exists g'. split; [done|]. split; [by eapply only_kafka_trans|].
    destruct Ho1 as [k Ek]. rewrite Hp, Hp1, <- app_assoc. subst g1. done.
Qed.

(** ** Grouping by server *)
Definition keys_on (server : bytes) (l : list (bytes * bytes)) : list bytes :=
  (filter (fun e => e.2 = server) l).*1.
Definition group (l : list (bytes * bytes)) : gmap bytes (list bytes) :=
  foldl (fun m (elem : bytes * bytes) => push_back elem.2 elem.1 m) ∅ l.

Lemma group_spec l server :
  group l !! server = if decide (keys_on server l = []) then None else Some (keys_on server l).
Proof.
  unfold group, keys_on. induction l as [|[k s] l IH] using rev_ind; [done|].
  rewrite foldl_app. cbn [foldl]. unfold push_back at 1. cbn [fst snd].
  rewrite filter_app, fmap_app, filter_cons, filter_nil. cbn [snd].
  destruct (decide (s = server)) as [->|Hne].
  - rewrite lookup_insert_eq, IH. rewrite (decide_False (P := _ ++ _ = [])) by (intros [_ ?]%app_nil; done).
    by destruct (decide _) as [->|].
  - rewrite lookup_insert_ne by done. rewrite IH. simpl. by rewrite app_nil_r.
Qed.

Lemma group_size l : (length (map_to_list (group l)) <= length l)%nat.
Proof.
  rewrite <- (length_map fst (map_to_list _)), <- (length_map snd l).
  apply submseteq_length, NoDup_submseteq; [apply NoDup_fst_map_to_list|].
  intros server ([s ks] & -> & Hin%elem_of_map_to_list)%list_elem_of_fmap. rewrite group_spec in Hin.
  case_decide as Hne; [done|]. destruct (keys_on s l) as [|k ks'] eqn:E; [done|].
  assert (k ∈ keys_on s l) as Hk by (rewrite E; by left).
  apply list_elem_of_fmap in Hk as (e & _ & [<- He]%list_elem_of_filter). exact (list_elem_of_fmap_2 snd l e He).
Qed.

(** One entry per server, with the keys that are there. *)
Definition grouped (keyServer : gmap bytes bytes) (groups : list (bytes * list bytes)) : Prop :=
  NoDup groups.*1 /\
  (forall server keys, (server, keys) ∈ groups ->
     keys <> [] /\ NoDup keys /\ forall k, k ∈ keys <-> keyServer !! k = Some server) /\
  (forall k server, keyServer !! k = Some server -> server ∈ groups.*1).

Lemma keys_on_elem (server : bytes) (m : gmap bytes bytes) (k : bytes) :
  k ∈ keys_on server (map_to_list m) <-> m !! k = Some server.
Proof.
  unfold keys_on. rewrite list_elem_of_fmap. split.
  - intros ([k' s] & -> & [Hs Hin]%list_elem_of_filter). simpl in *. subst. by apply elem_of_map_to_list.
  - intros E. exists (k, server). split; [done|]. apply list_elem_of_filter. split; [done|].
    by apply elem_of_map_to_list.
Qed.

Lemma group_grouped (m : gmap bytes bytes) : grouped m (map_to_list (group (map_to_list m))).
Proof.
  split; [apply NoDup_fst_map_to_list|]. split.
  - intros server keys E%elem_of_map_to_list. rewrite group_spec in E. case_decide as He; [done|].
    injection E as <-. split; [done|]. split; [|apply keys_on_elem].
    unfold keys_on. pose proof (NoDup_fst_map_to_list m) as Hnd. revert Hnd.
    generalize (map_to_list m). intros l. induction l as [|[k s] l IH]; intros Hnd; [constructor|].
    apply NoDup_cons in Hnd as [Hk Hnd]. simpl in Hk. rewrite filter_cons. case_decide; [|by apply IH].
    simpl. constructor; [|by apply IH]. intros (e & -> & [_ He']%list_elem_of_filter)%list_elem_of_fmap.
    apply Hk. by apply list_elem_of_fmap_2.
  - intros k server E. apply list_elem_of_fmap. exists (server, keys_on server (map_to_list m)).
    split; [done|]. apply elem_of_map_to_list. rewrite group_spec. case_decide as He; [|done].
    apply keys_on_elem in E. rewrite He in E. by apply not_elem_of_nil in E.
Qed.

(** ** Finding the keys of users *)
Definition keys_of (d : database) (mids : list Z) (m : gmap bytes bytes) : gmap bytes bytes :=
  foldl (fun m mid => get_hash d (keyMidServer mid) ∪ m) m mids.

Lemma find_keys_spec y mids m g :
  ready y (redisclient_ g) (redis g) ->
  exists w, find_keys mids m g = Ok (keys_of (db (redis g)) mids m, set_redis (redisclient_ g) w g) /\
    db w = db (redis g) /\ ready y (redisclient_ g) w /\ others y (redis g) w.
Proof.
  revert m g. induction mids as [|mid mids IH]; intros m g Hr.
  - exists (redis g). split; [by destruct g|]. by repeat split; try apply Hr.
  - cbn [find_keys]. destruct (HGetAll_hash y (keyMidServer mid) _ _ Hr) as (w1 & -> & Hd1 & Hr1 & Ho1). mstep.
    rewrite insert_all, list_to_map_to_list by apply NoDup_fst_map_to_list.
    destruct (IH (get_hash (db (redis g)) (keyMidServer mid) ∪ m) (set_redis (redisclient_ g) w1 g) Hr1)
      as (w & E & Hd & Hr' & Ho). simpl in *. exists w. rewrite E, Hd1.
    split; [done|]. split; [congruence|]. split; [done|]. by eapply others_trans.
Qed.

Lemma push_mids_spec y mids op msg cb g :
  ready y (redisclient_ g) (redis g) ->
  let keyServer := keys_of (db (redis g)) mids ∅ in
  room_for (size keyServer) g ->
  exists g' w groups, PushMsgByMids mids op msg cb g = Ok g' /\
    only_kafka (set_redis (redisclient_ g) w g) g' /\ db w = db (redis g) /\
    ready y (redisclient_ g) w /\
    grouped keyServer groups /\
    produced g' = produced g ++ map (push_record (topic_of g) op msg cb) groups.
Proof.
  intros Hr keyServer Hn. unfold PushMsgByMids.
  destruct (find_keys_spec y mids ∅ g Hr) as (w & -> & Hd & Hr' & _). mstep. fold keyServer.
  change (foldl _ ∅ (map_to_list keyServer)) with (group (map_to_list keyServer)).
  unfold push_groups. pose proof (group_grouped keyServer) as Hg. set (groups := map_to_list _) in *.
  destruct (push_groups_spec groups op msg cb (set_redis (redisclient_ g) w g)) as (g' & -> & Ho & Hp).
  - apply Forall_forall. intros [server keys] Hin. by destruct Hg as (_ & Hk & _), (Hk _ _ Hin).
  - unfold room_for in *. simpl. etrans; [|exact Hn].
    unfold groups. etrans; [apply group_size|]. by rewrite length_map_to_list.
  - exists g', w, groups. do 5 (split; [done|]). done.
Qed.

(** ** Pushing to keys: the messages name the keys of the Redis entries *)
Lemma omap_length_le (f : bytes -> option bytes) l : (length (omap f l) <= length l)%nat.
Proof. induction l as [|k l IH]; [done|]. cbn [omap list_omap]. destruct (f k); simpl in *; lia. Qed.

Lemma group_replies_spec reply cmd l :
  (length reply <= length cmd)%nat ->
  exists l', group_replies reply cmd (group l) = Ok (group (l ++ l')) /\ Forall (fun e => e.1 ∈ cmd /\ e.2 ∈ reply) l' /\
    length l' = length reply.
Proof.
  revert cmd l. induction reply as [|server reply IH]; intros cmd l Hl.
  { exists []. rewrite app_nil_r. by split; [destruct cmd|]. }
  destruct cmd as [|key cmd]; simpl in Hl; [lia|]. cbn [group_replies].
  replace (push_back server key (group l)) with (group (l ++ [(key, server)]))
    by (unfold group; by rewrite foldl_app).
  destruct (IH cmd (l ++ [(key, server)])) as (l' & -> & HF & Hl'); [lia|].
  exists ((key, server) :: l'). rewrite <- app_assoc. split; [done|]. split; [|simpl; lia].
  constructor; [by split; left|]. eapply Forall_impl; [exact HF|]. simpl. intros e [? ?]. by split; right.
Qed.

Lemma push_keys_spec y keys op msg g :
  ready y (redisclient_ g) (redis g) -> room_for (length keys) g ->
  exists g' w groups, PushMsgByKeys keys op msg g = Ok g' /\
    only_kafka (set_redis (redisclient_ g) w g) g' /\
    produced g' = produced g ++ map (push_record (topic_of g) op msg None) groups /\
    Forall (fun e => (length e.2 <= length keys)%nat /\ Forall (fun k => k ∈ map keyKeyServer keys) e.2 /\
      exists k, get_string (db (redis g)) k = Some e.1) groups.
Proof.
  intros Hr Hn. unfold PushMsgByKeys.
  destruct (MGet_strings y (map keyKeyServer keys) _ _ Hr) as (w & -> & _ & Hr'). mstep.
  set (reply := omap _ _). destruct (group_replies_spec reply (map keyKeyServer keys) []) as (l & E & HF & Hll).
  { apply omap_length_le. }
  change ∅ with (group []). rewrite E. mstep. cbn [app]. unfold push_groups. set (groups := map_to_list (group l)).
  assert (forall server ks, (server, ks) ∈ groups -> ks <> [] /\ ks = keys_on server l) as Hg.
  { intros server ks Hin%elem_of_map_to_list. rewrite group_spec in Hin. case_decide; [done|]. by injection Hin as <-. }
  destruct (push_groups_spec groups op msg None (set_redis (redisclient_ g) w g)) as (g' & -> & Ho & Hp).
  - apply Forall_forall. intros [server ks] Hin. by destruct (Hg _ _ Hin).
  - unfold room_for in *. simpl. etrans; [|exact Hn]. unfold groups.
    etrans; [apply group_size|]. rewrite Hll, <- (length_map keyKeyServer keys). apply omap_length_le.
  - exists g', w, groups. do 3 (split; [done|]). apply Forall_forall. intros [server ks] Hin. simpl.
    destruct (Hg _ _ Hin) as [Hne ->]. rewrite Forall_forall in HF. split; [|split].
    + unfold keys_on. change (length ((filter (fun e => e.2 = server) l).*1)) with
        (length (map fst (filter (fun e => e.2 = server) l))).
      rewrite length_map. etrans; [apply length_filter|]. rewrite Hll, <- (length_map keyKeyServer keys).
      apply omap_length_le.
    + apply Forall_forall. intros k (e & -> & [_ He]%list_elem_of_filter)%list_elem_of_fmap. by apply HF.
    + destruct (keys_on server l) as [|k ks] eqn:Ek; [done|].
      assert (k ∈ keys_on server l) as Hk by (rewrite Ek; by left).
      apply list_elem_of_fmap in Hk as (e & _ & [<- He]%list_elem_of_filter).
      apply HF in He as [_ He]. apply list_elem_of_omap in He as (k' & _ & Hk'). eauto.
Qed.
End pushing.

(** ** Requests *)
Section http.
Context `{WireFormat} {S N R K : Type} `{Countable S} `{SessionLaws S N} `{RedisLaws R} `{ProducerLaws K}.
Implicit Types (g : LogicServer N R K) (w : HttpServer.World S (LogicServer N R K)).

#[global] Instance logic_session_laws : SessionLaws S (LogicServer N R K).
Proof.
  split; simpl.
  - intros s b c g HR. destruct (session_send_spec s b c (net g) HR) as (n & -> & Hs & Ho).
    mstep. exists (set_net n g). by repeat split.
  - intros s g. destruct (session_close_spec s (net g)) as (n & -> & Ho). mstep.
    exists (set_net n g). by split.
Qed.

Definition answer (conn : S) (close : bool) (code : Response.HttpStatusCode) (message : bytes) : bytes :=
  Response.response_text (HttpServer.plain conn close code message).

(** The end of an admitted request: the 200 answer, and the close. *)
Definition finish (conn : S) (rp : nat) w : res (HttpServer.World S (LogicServer N R K)) :=
  let* w := (let* r := HttpServer.get_response rp w in
             if negb (Response.delay r) then
               let* w := HttpServer.set_status Response.k200Ok (str "OK") rp w in
               HttpServer.doResponse rp w
             else Ok w) in
  let* r := HttpServer.get_response rp w in
  if Response.closeConnection_ r then
    let* n := session_close conn (HttpServer.net w) in Ok (HttpServer.set_net n w)
  else Ok w.

(** Answering with a status, and the close, act on the network only. *)
Definition respond (code : Response.HttpStatusCode) (message : bytes) (conn : S) (rp : nat) w
    : res (HttpServer.World S (LogicServer N R K)) :=
  let* w := (let* w := HttpServer.set_status code message rp w in HttpServer.doResponse rp w) in
  let* r := HttpServer.get_response rp w in
  if Response.closeConnection_ r then
    let* n := session_close conn (HttpServer.net w) in Ok (HttpServer.set_net n w)
  else Ok w.

Lemma respond_net code message conn rp w w' :
  respond code message conn rp w = Ok w' -> exists n, HttpServer.net w' = set_net n (HttpServer.net w).
Proof.
  unfold respond. intros (w1 & E1 & E2)%bind_Ok_inv.
  assert (exists n, HttpServer.net w1 = set_net n (HttpServer.net w)) as [n1 En1].
  { apply bind_Ok_inv in E1 as (w2 & E1 & E3).
    assert (HttpServer.net w2 = HttpServer.net w) as <-.
    { unfold HttpServer.set_status in E1. by apply bind_Ok_inv in E1 as (r & _ & [= <-]). }
    unfold HttpServer.doResponse in E3. apply bind_Ok_inv in E3 as (b0 & _ & E3).
    apply bind_Ok_inv in E3 as (r & _ & E3). apply bind_Ok_inv in E3 as (b1 & _ & E3).
    apply bind_Ok_inv in E3 as (m' & E3 & [= <-]). cbn [session_send logic_session_ops] in E3.
    apply bind_Ok_inv in E3 as (n & _ & [= <-]). by exists n. }
  apply bind_Ok_inv in E2 as (r & _ & E2). destruct (Response.closeConnection_ r).
  - apply bind_Ok_inv in E2 as (m' & E2 & [= <-]). cbn [session_close logic_session_ops] in E2.
    apply bind_Ok_inv in E2 as (n & _ & [= <-]). exists n. simpl. by rewrite En1.
  - injection E2 as <-. by exists n1.
Qed.

Lemma respond_answers code message conn close code0 message0 rp w :
  In (code, message) [(Response.k200Ok, str "OK"); (Response.k200Ok, str "Too Frequency");
                      (Response.k404NotFound, str "NotFound")] ->
  HttpServer.responses w !! rp = Some (HttpServer.plain conn close code0 message0) ->
  exists n, respond code message conn rp w =
      Ok (HttpServer.set_net (set_net n (HttpServer.net w))
            (HttpServer.put_response rp (HttpServer.plain conn close code message) w)) /\
    sent n conn = sent (net (HttpServer.net w)) conn ++ answer conn close code message /\
    forall s, s <> conn -> sent n s = sent (net (HttpServer.net w)) s.
Proof.
  intros Hin Hr. destruct (HttpServer.send_and_finish conn close code message code0 message0 rp w w Hr)
    as (m & E & Hs & Ho); [done|done|].
  change (respond code message conn rp w = Ok (HttpServer.set_net m
    (HttpServer.put_response rp (HttpServer.plain conn close code message) w))) in E.
  destruct (respond_net _ _ _ _ _ _ E) as [n En]. simpl in En. subst m. by exists n.
Qed.

Lemma finish_answers conn close code message rp w :
  HttpServer.responses w !! rp = Some (HttpServer.plain conn close code message) ->
  exists n, finish conn rp w =
      Ok (HttpServer.set_net (set_net n (HttpServer.net w))
            (HttpServer.put_response rp (HttpServer.plain conn close Response.k200Ok (str "OK")) w)) /\
    sent n conn = sent (net (HttpServer.net w)) conn ++ answer conn close Response.k200Ok (str "OK") /\
    forall s, s <> conn -> sent n s = sent (net (HttpServer.net w)) s.
Proof.
  intros Hr. destruct (respond_answers Response.k200Ok (str "OK") conn close code message rp w)
    as (n & E & Hn); [simpl; auto|done|].
  exists n. split; [|done]. rewrite <- E. unfold finish. unfold HttpServer.get_response at 1. by rewrite Hr.
Qed.

(** The handler of each path. *)
Lemma handlers_eq :
  handlers =@{gmap bytes (HttpServer.HttpCallback S (LogicServer N R K))}
  <[str "/push/all" := PushMsgToAllHandler]> (<[str "/push/room" := PushMsgByRoomHandler]>
  (<[str "/push/mids" := PushMsgByMidsHandler]> {[str "/push/keys" := PushMsgByKeysHandler]})).
Proof.
  unfold handlers, HttpServer.RegHandler. rewrite lookup_empty.
  repeat (rewrite lookup_insert_ne by (vm_compute; discriminate); rewrite ?lookup_empty). done.
Qed.
Ltac handler_tac := rewrite handlers_eq; cbv beta;
  repeat first [rewrite lookup_insert_eq; reflexivity | rewrite lookup_singleton_eq; reflexivity
               |rewrite lookup_insert_ne by (vm_compute; discriminate)].

(** The world in which the handler of an admitted request runs. *)
Definition admitted (conn : S) (close : bool) (f : Limiter.Func) (v : Vegas.Vegas) w
    : HttpServer.World S (LogicServer N R K) :=
  HttpServer.new_callback conn (HttpServer.mkCallback f (length (HttpServer.responses w)))
    (HttpServer.set_limiter v
       (HttpServer.set_responses (HttpServer.responses w ++ [HttpServer.plain conn close Response.kUnknown []]) w)).

Lemma onRequest_admitted h conn req now w n pend :
  handlers !! Request.path_ req = Some h ->
  Vegas.run (HttpServer.limiter_ w) n pend -> Z.of_nat n < Vegas.limit_ (HttpServer.limiter_ w) ->
  exists f v, HttpServer.onRequest handlers conn req now w =
    (let* w1 := h req (length (HttpServer.responses w)) (admitted conn (HttpServer.close_of req) f v w) in
     finish conn (length (HttpServer.responses w)) w1).
Proof.
  intros Hh Hrun Hn. pose proof (Vegas.limiter_run_inv _ _ _ Hrun) as [_ Hlim _].
  unfold Vegas.in_limits, Vegas.maxLimit_ in Hlim.
  destruct (Limiter.Allow_spec now (HttpServer.limiter_ w) n pend Hrun) as (v & o & E & Ho & _ & _); [lia|].
  apply Ho in Hn as [f ->]. exists f, v. unfold HttpServer.onRequest. rewrite Hh.
  cbn [HttpServer.new_response]. cbv beta iota zeta.
  change (HttpServer.limiter_ (HttpServer.set_responses _ w)) with (HttpServer.limiter_ w). rewrite E. mstep.
  unfold finish, admitted. by rewrite bind_assoc.
Qed.

(** A request over the limit is answered Too Frequency and does nothing
    else. *)
Definition refused (conn : S) (req : Request.HttpRequest) w w' : Prop :=
  let g := HttpServer.net w in
  kafkaproducer_ (HttpServer.net w') = kafkaproducer_ g /\ redis (HttpServer.net w') = redis g /\
  sent (HttpServer.net w') conn = sent g conn ++
    answer conn (HttpServer.close_of req) Response.k200Ok (str "Too Frequency") /\
  forall s, s <> conn -> sent (HttpServer.net w') s = sent g s.

Lemma onRequest_refused (h : Request.HttpRequest -> nat -> HttpServer.World S (LogicServer N R K) -> res _)
    conn req now w n pend :
  handlers !! Request.path_ req = Some h ->
  Vegas.run (HttpServer.limiter_ w) n pend -> Z.of_nat n < 2 ^ 62 ->
  Vegas.limit_ (HttpServer.limiter_ w) <= Z.of_nat n ->
  exists w', HttpServer.onRequest handlers conn req now w = Ok w' /\ refused conn req w w'.
Proof.
  intros Hh Hrun Hn Hlim.
  destruct (Limiter.Allow_spec now (HttpServer.limiter_ w) n pend Hrun Hn) as (v & o & E & Ho & _ & _).
  destruct o as [f|]; [exfalso; assert (Z.of_nat n < Vegas.limit_ (HttpServer.limiter_ w)) by (apply Ho; eauto); lia|].
  set (w1 := HttpServer.set_limiter v (HttpServer.set_responses (HttpServer.responses w ++
    [HttpServer.plain conn (HttpServer.close_of req) Response.kUnknown []]) w)).
  assert (HttpServer.onRequest handlers conn req now w =
    respond Response.k200Ok (str "Too Frequency") conn (length (HttpServer.responses w)) w1) as ->.
  { unfold HttpServer.onRequest. rewrite Hh. cbn [HttpServer.new_response]. cbv beta iota zeta.
    change (HttpServer.limiter_ (HttpServer.set_responses _ w)) with (HttpServer.limiter_ w). by rewrite E. }
  edestruct (respond_answers Response.k200Ok (str "Too Frequency") conn (HttpServer.close_of req)
    Response.kUnknown [] (length (HttpServer.responses w)) w1)
    as (k & Ek & Hs & Hso); [simpl; auto|apply HttpServer.new_response_lookup|].
  eexists. split; [exact Ek|]. by repeat split.
Qed.

(** The parameters of a request. *)
Definition query_is (req : Request.HttpRequest) (field value : bytes) : Prop :=
  Request.getQuery field req = Ok value.

(** Requests whose operation is 0, complete otherwise. *)
Definition rejected (req : Request.HttpRequest) : Prop :=
  query_is req (str "operation") (str "0") /\
  ((Request.path_ req = str "/push/keys" /\ exists keys, query_is req (str "keys") keys) \/
   (Request.path_ req = str "/push/mids" /\ exists mids l, query_is req (str "mids") mids /\
      foldM (fun elem l => let* n := stoi elem in Ok (l ++ [n])) (split mids (str ",")) [] = Ok l) \/
   (Request.path_ req = str "/push/room" /\ exists type room,
      query_is req (str "type") type /\ query_is req (str "room") room) \/
   (Request.path_ req = str "/push/all" /\ exists s n, query_is req (str "speed") s /\ stoi s = Ok n)).

Lemma rejected_not_found req :
  rejected req -> exists h, handlers !! Request.path_ req = Some h /\
    forall rp w, h req rp w = not_found rp w.
Proof.
  unfold query_is. intros [Ho [[Hp (keys & Hk)]|[[Hp (mids & l & Hm & Hl)]|[[Hp (ty & room & Ht & Hr)]|[Hp (s & n & Hs & Hn)]]]]];
    rewrite Hp; (eexists; split; [handler_tac|]); intros rp w.
  - unfold PushMsgByKeysHandler. rewrite Ho, Hk. cbn [bind]. change (stoi (str "0")) with (Ok 0). cbn [bind].
    by rewrite andb_false_r.
  - unfold PushMsgByMidsHandler. rewrite Ho, Hm. cbn [bind]. change (stoi (str "0")) with (Ok 0). cbn [bind].
    rewrite Hl. cbn [bind]. by rewrite andb_false_r.
  - unfold PushMsgByRoomHandler. rewrite Ho, Ht, Hr. cbn [bind]. change (stoi (str "0")) with (Ok 0). cbn [bind].
    by rewrite andb_false_r.
  - unfold PushMsgToAllHandler. rewrite Ho, Hs. cbn [bind]. change (stoi (str "0")) with (Ok 0). cbn [bind].
    by rewrite Hn.
Qed.

Lemma not_found_answers conn close code message rp w :
  HttpServer.responses w !! rp = Some (HttpServer.plain conn close code message) ->
  exists m, not_found rp w = Ok (HttpServer.set_net m
      (HttpServer.put_response rp (HttpServer.plain conn close Response.k404NotFound (str "NotFound")) w)) /\
    sent m conn = sent (HttpServer.net w) conn ++ answer conn close Response.k404NotFound (str "NotFound") /\
    forall s, s <> conn -> sent m s = sent (HttpServer.net w) s.
Proof.
  intros Hr. exact (HttpServer.status_sends Response.k404NotFound (str "NotFound") conn close code message _ w
    (or_intror (or_intror (or_introl eq_refl))) eq_refl rp Hr).
Qed.

(** A push request with operation 0 is answered twice on its connection,
    first 404 and then 200. *)
Theorem logic_rejected_answered_twice conn req now w n pend :
  rejected req -> Vegas.run (HttpServer.limiter_ w) n pend ->
  Z.of_nat n < Vegas.limit_ (HttpServer.limiter_ w) ->
  exists w', HttpServer.onRequest handlers conn req now w = Ok w' /\
    sent (HttpServer.net w') conn = sent (HttpServer.net w) conn ++
      answer conn (HttpServer.close_of req) Response.k404NotFound (str "NotFound") ++
      answer conn (HttpServer.close_of req) Response.k200Ok (str "OK") /\
    (forall s, s <> conn -> sent (HttpServer.net w') s = sent (HttpServer.net w) s).
Proof.
  intros Hrej Hrun Hn. destruct (rejected_not_found req Hrej) as (h & Hh & Hnf).
  destruct (onRequest_admitted h conn req now w n pend Hh Hrun Hn) as (f & v & ->). rewrite Hnf.
  set (rp := length (HttpServer.responses w)). set (w1 := admitted conn (HttpServer.close_of req) f v w).
  destruct (not_found_answers conn (HttpServer.close_of req) Response.kUnknown [] rp w1)
    as (m & -> & Hm & Hmo); [apply HttpServer.new_response_lookup|]. mstep.
  edestruct (finish_answers conn (HttpServer.close_of req) Response.k404NotFound (str "NotFound") rp) as (k & -> & Hk & Hko).
  { cbn [HttpServer.set_net HttpServer.put_response HttpServer.set_responses HttpServer.responses].
    apply list_lookup_insert_eq. unfold w1, admitted. simpl. rewrite length_app. unfold rp. simpl. lia. }
  eexists. split; [reflexivity|]. simpl in *. split.
  - rewrite Hk, Hm. by rewrite <- app_assoc.
  - intros s Hs. by rewrite Hko, Hmo.
Qed.

(** ** Pushing to users *)
Lemma stoi_all mids acc :
  Forall (fun m => 0 <= m < 2 ^ 31) mids ->
  foldM (fun elem l => let* n := stoi elem in Ok (l ++ [n])) (map to_string mids) acc = Ok (acc ++ mids).
Proof.
  intros HF. revert acc. induction HF as [|m mids Hm _ IH]; intros acc; cbn [map foldM].
  - by rewrite app_nil_r.
  - rewrite stoi_to_string by done. cbn [bind]. by rewrite IH, <- app_assoc.
Qed.

Lemma split_numbers mids :
  mids <> [] -> Forall (fun m => 0 <= m < 2 ^ 31) mids ->
  split (join Byte.x2c (map to_string mids)) (str ",") = map to_string mids.
Proof.
  intros Hn HF. apply split_words; [by destruct mids|]. apply Forall_map.
  eapply Forall_impl; [exact HF|]. simpl. intros m Hm. split; [apply word_to_string; lia|].
  apply to_string_no; [lia|]. by intros [Hb _]; apply Hb.
Qed.

(** A request that pushes its body to users. *)
Record mids_request (req : Request.HttpRequest) (mids : list Z) (op : Z) : Prop := {
  mr_path : Request.path_ req = str "/push/mids";
  mr_op : query_is req (str "operation") (to_string op);
  mr_op_range : 0 < op < 2 ^ 31;
  mr_mids : query_is req (str "mids") (join Byte.x2c (map to_string mids));
  mr_some : mids <> [];
  mr_range : Forall (fun m => 0 <= m < 2 ^ 31) mids;
}.

Lemma mids_path req mids op :
  mids_request req mids op -> handlers !! Request.path_ req = Some PushMsgByMidsHandler.
Proof. intros Hm. rewrite (mr_path _ _ _ Hm). handler_tac. Qed.

Lemma mids_handler req mids op rp r cb w :
  mids_request req mids op -> HttpServer.responses w !! rp = Some r ->
  HttpServer.session_context w !! Response.httpsession_ r = Some cb ->
  PushMsgByMidsHandler req rp w =
    (let* g := PushMsgByMids mids op (Request.body_ req) (Some cb) (HttpServer.net w) in
     Ok (HttpServer.set_net g w)).
Proof.
  intros [_ Ho Hop Hm Hn HF] Hr Hc. unfold query_is, PushMsgByMidsHandler in *. rewrite Ho, Hm. cbn [bind].
  rewrite stoi_to_string by lia. cbn [bind]. rewrite split_numbers, stoi_all by done. cbn [bind app].
  rewrite (proj2 (Z.eqb_neq op 0)) by lia. rewrite bool_decide_false by (by destruct mids).
  simpl negb. cbv beta iota. simpl andb. cbv iota. unfold HttpServer.get_response. rewrite Hr. mstep. by rewrite Hc.
Qed.

(** What [onRequest] leaves behind for the delivery report of callback [cb]. *)
Definition awaits_report (cb : nat) (conn : S) (close : bool) w : Prop :=
  exists f rp, HttpServer.callbacks w !! cb = Some (Some (HttpServer.mkCallback f rp)) /\
    HttpServer.responses w !! rp = Some (HttpServer.plain conn close Response.k200Ok (str "OK")).

(** The whole of a request to push to users: one message per server, with the
    keys the users have there, and the answer. *)
Theorem logic_push_mids y conn req mids op now w n pend :
  mids_request req mids op ->
  Vegas.run (HttpServer.limiter_ w) n pend -> Z.of_nat n < Vegas.limit_ (HttpServer.limiter_ w) ->
  let g := HttpServer.net w in
  let keyServer := keys_of (db (redis g)) mids ∅ in
  ready y (redisclient_ g) (redis g) -> room_for (size keyServer) g ->
  exists w' groups, HttpServer.onRequest handlers conn req now w = Ok w' /\
    grouped keyServer groups /\
    produced (HttpServer.net w') = produced g ++
      map (push_record (topic_of g) op (Request.body_ req) (Some (length (HttpServer.callbacks w)))) groups /\
    db (redis (HttpServer.net w')) = db (redis g) /\
    sent (HttpServer.net w') conn = sent g conn ++
      answer conn (HttpServer.close_of req) Response.k200Ok (str "OK") /\
    (forall s, s <> conn -> sent (HttpServer.net w') s = sent g s) /\
    awaits_report (length (HttpServer.callbacks w)) conn (HttpServer.close_of req) w'.
Proof.
  intros Hm Hrun Hn g keyServer Hr Hroom.
  destruct (onRequest_admitted PushMsgByMidsHandler conn req now w n pend) as (f & v & ->);
    [by eapply mids_path|done|done|].
  set (rp := length (HttpServer.responses w)). set (w1 := admitted conn (HttpServer.close_of req) f v w).
  assert (HttpServer.responses w1 !! rp = Some (HttpServer.plain conn (HttpServer.close_of req) Response.kUnknown []))
    as Hrp by apply HttpServer.new_response_lookup.
  rewrite (mids_handler req mids op rp _ (length (HttpServer.callbacks w)) w1 Hm Hrp)
    by (simpl; apply lookup_insert_eq).
  change (HttpServer.net w1) with g.
  destruct (push_mids_spec y mids op (Request.body_ req) (Some (length (HttpServer.callbacks w))) g Hr Hroom)
    as (g' & r & groups & -> & [k ->] & Hd & _ & Hg & Hp). mstep.
  edestruct (finish_answers conn (HttpServer.close_of req) Response.kUnknown [] rp
    (HttpServer.set_net (set_kafka (KafkaProducer.mk (topic_of (set_redis (redisclient_ g) r g)) k)
       (set_redis (redisclient_ g) r g)) w1)) as (n' & -> & Hs & Ho); [exact Hrp|].
  eexists _, groups. split; [reflexivity|]. split; [done|]. simpl in *. do 4 (split; [done|]).
  exists f, rp. split.
  - change ((HttpServer.callbacks w ++ [Some (HttpServer.mkCallback f rp)]) !! length (HttpServer.callbacks w)
      = Some (Some (HttpServer.mkCallback f rp))). by rewrite lookup_app_r, Nat.sub_diag by done.
  - apply list_lookup_insert_eq. eapply lookup_lt_Some. exact Hrp.
Qed.

(** ** Pushing to a room, or to everybody: one message, without a callback *)
Definition room_message (room : bytes) (op : Z) (msg : bytes) : PushMsg.PushMsg :=
  PushMsg.mk ROOM op 0 [] room [] msg.
Definition all_message (speed op : Z) (msg : bytes) : PushMsg.PushMsg :=
  PushMsg.mk BROADCAST op speed [] [] [] msg.

Record room_request (req : Request.HttpRequest) (room : bytes) (op : Z) : Prop := {
  rr_path : Request.path_ req = str "/push/room";
  rr_op : query_is req (str "operation") (to_string op);
  rr_op_range : 0 < op < 2 ^ 31;
  rr_room : exists type name, type <> [] /\ name <> [] /\ room = type ++ str "://" ++ name /\
    query_is req (str "type") type /\ query_is req (str "room") name;
}.
Record all_request (req : Request.HttpRequest) (speed op : Z) : Prop := {
  ar_path : Request.path_ req = str "/push/all";
  ar_op : query_is req (str "operation") (to_string op);
  ar_op_range : 0 < op < 2 ^ 31;
  ar_speed : query_is req (str "speed") (to_string speed);
  ar_speed_range : 0 < speed < 2 ^ 31;
}.

Lemma room_path req room op :
  room_request req room op -> handlers !! Request.path_ req = Some PushMsgByRoomHandler.
Proof. intros Hr. rewrite (rr_path _ _ _ Hr). handler_tac. Qed.
Lemma all_path req speed op :
  all_request req speed op -> handlers !! Request.path_ req = Some PushMsgToAllHandler.
Proof. intros Hr. rewrite (ar_path _ _ _ Hr). handler_tac. Qed.

Lemma room_handler req room op rp w :
  room_request req room op ->
  PushMsgByRoomHandler req rp w =
    on_logic (fun g => Ok (Produce room (SerializeAsString (room_message room op (Request.body_ req))) None g)) w.
Proof.
  intros [_ Ho Hop (ty & name & Ht & Hn & -> & Hty & Hna)]. unfold query_is, PushMsgByRoomHandler in *.
  rewrite Ho. cbn [bind]. rewrite stoi_to_string, Hty by lia. cbn [bind]. rewrite Hna. cbn [bind].
  rewrite !bool_decide_false by done. by rewrite (proj2 (Z.eqb_neq op 0)) by lia.
Qed.

Lemma all_handler req speed op rp w :
  all_request req speed op ->
  PushMsgToAllHandler req rp w =
    on_logic (fun g => Ok (Produce (to_string op)
      (SerializeAsString (all_message speed op (Request.body_ req))) None g)) w.
Proof.
  intros [_ Ho Hop Hs Hsp]. unfold query_is, PushMsgToAllHandler in *.
  rewrite Ho. cbn [bind]. rewrite stoi_to_string by lia. cbn [bind]. rewrite Hs. cbn [bind].
  rewrite stoi_to_string by lia. cbn [bind].
  by rewrite (proj2 (Z.eqb_neq op 0)), (proj2 (Z.eqb_neq speed 0)) by lia.
Qed.

(** A request that was turned into the one message [m]. *)
Definition pushed_one (conn : S) (req : Request.HttpRequest) (m : PushMsg.PushMsg) w w' : Prop :=
  let g := HttpServer.net w in
  produced (HttpServer.net w') = produced g ++ [mkRecord (topic_of g) (SerializeAsString m) None] /\
  redis (HttpServer.net w') = redis g /\
  sent (HttpServer.net w') conn = sent g conn ++ answer conn (HttpServer.close_of req) Response.k200Ok (str "OK") /\
  forall s, s <> conn -> sent (HttpServer.net w') s = sent g s.

Lemma push_one h conn req now w n pend key m :
  handlers !! Request.path_ req = Some h ->
  (forall rp w, h req rp w = on_logic (fun g => Ok (Produce key (SerializeAsString m) None g)) w) ->
  Vegas.run (HttpServer.limiter_ w) n pend -> Z.of_nat n < Vegas.limit_ (HttpServer.limiter_ w) ->
  room_for 1 (HttpServer.net w) ->
  exists w', HttpServer.onRequest handlers conn req now w = Ok w' /\ pushed_one conn req m w w'.
Proof.
  intros Hh Heq Hrun Hn Hroom.
  destruct (onRequest_admitted h conn req now w n pend Hh Hrun Hn) as (f & v & ->). rewrite Heq.
  set (rp := length (HttpServer.responses w)). set (w1 := admitted conn (HttpServer.close_of req) f v w).
  assert (HttpServer.responses w1 !! rp = Some (HttpServer.plain conn (HttpServer.close_of req) Response.kUnknown []))
    as Hrp by apply HttpServer.new_response_lookup.
  unfold on_logic. mstep. change (HttpServer.net w1) with (HttpServer.net w).
  destruct (Produce_spec key (SerializeAsString m) None 0 (HttpServer.net w) Hroom) as ([k Ek] & Hp & _).
  edestruct (finish_answers conn (HttpServer.close_of req) Response.kUnknown [] rp
    (HttpServer.set_net (Produce key (SerializeAsString m) None (HttpServer.net w)) w1))
    as (n' & -> & Hs & Ho); [exact Hrp|].
  eexists. split; [reflexivity|]. split; [exact Hp|]. simpl in *. rewrite Ek in *. done.
Qed.

Lemma logic_push_room conn req room op now w n pend :
  room_request req room op ->
  Vegas.run (HttpServer.limiter_ w) n pend -> Z.of_nat n < Vegas.limit_ (HttpServer.limiter_ w) ->
  room_for 1 (HttpServer.net w) ->
  exists w', HttpServer.onRequest handlers conn req now w = Ok w' /\
    pushed_one conn req (room_message room op (Request.body_ req)) w w'.
Proof.
  intros Hr. eapply (push_one PushMsgByRoomHandler); [by eapply room_path|].
  intros rp w'. by apply room_handler.
Qed.

Lemma logic_push_all conn req speed op now w n pend :
  all_request req speed op ->
  Vegas.run (HttpServer.limiter_ w) n pend -> Z.of_nat n < Vegas.limit_ (HttpServer.limiter_ w) ->
  room_for 1 (HttpServer.net w) ->
  exists w', HttpServer.onRequest handlers conn req now w = Ok w' /\
    pushed_one conn req (all_message speed op (Request.body_ req)) w w'.
Proof.
  intros Hr. eapply (push_one PushMsgToAllHandler); [by eapply all_path|].
  intros rp w'. by apply all_handler.
Qed.

(** After the request has been answered, the delivery report of a message
    that carries its callback answers it a second time, and the report of a
    second message with the same callback uses the freed object. *)
Theorem logic_delivery_report cb conn close now rand w w' :
  awaits_report cb conn close w -> dr_cb (Some cb) now rand w = Ok w' ->
  sent (HttpServer.net w') conn = sent (HttpServer.net w) conn ++ answer conn close Response.k200Ok (str "OK") /\
  forall now' rand', dr_cb (Some cb) now' rand' w' = Err UB.
Proof.
  intros (f & rp & Hc & Hr) E. unfold dr_cb in E. apply bind_Ok_inv in E as (w1 & E & E').
  assert (w' = HttpServer.delete_callback cb w1) as -> by congruence. clear E'. split.
  - unfold HttpServer.run_callback in E. rewrite Hc in E. cbn [HttpServer.cb_func HttpServer.cb_response] in E.
    apply bind_Ok_inv in E as (v & _ & E).
    edestruct (HttpServer.status_sends Response.k200Ok (str "OK") conn close Response.k200Ok (str "OK") _
      (HttpServer.set_limiter v w) (or_introl eq_refl) eq_refl rp) as (m & E2 & Hs & _); [exact Hr|].
    cbv zeta in E. rewrite E in E2. assert (HttpServer.net w1 = m) as <-.
    { apply (f_equal (fun r => match r with Ok w => HttpServer.net w | Err _ => m end)) in E2. exact E2. }
    exact Hs.
  - intros now' rand'. unfold dr_cb, HttpServer.run_callback, HttpServer.delete_callback.
    cbn [HttpServer.callbacks]. destruct (<[cb := None]> (HttpServer.callbacks w1) !! cb) as [[c|]|] eqn:Ec; try done.
    apply list_lookup_insert_Some in Ec. naive_solver.
Qed.
End http.

(** ** A logic server in memory *)
Module Demo.
Import Leb128 Store Json.

(** The token {'mid':7,'room_id':'live://1','accepts':[1000]}, in double
    quotes. *)
Definition quoted (s : bytes) : bytes := Byte.x22 :: s ++ [Byte.x22].
Definition token : bytes :=
  str "{" ++ quoted (str "mid") ++ str ":7," ++ quoted (str "room_id") ++ str ":" ++ quoted (str "live://1") ++ str "," ++
  quoted (str "accepts") ++ str ":[1000]}".
Definition token_members : gmap bytes json :=
  match Parser.parse token true with Ok (inr (Some (JObject m))) => m | _ => ∅ end.
Lemma token_good : good_token token 7 (str "live://1") [1000].
Proof.
  exists token_members, (JUnsigned 7), (JArray [JUnsigned 1000]).
  split; [apply Correct.parse_accepts; vm_compute; reflexivity|]. repeat split; vm_compute; reflexivity.
Qed.

(** User 7 is on gate 1 with key 41 and on gate 2 with key 42. *)
Definition users_db : database :=
  {[ str "mid_7" := VHash (<[str "41" := str "gate1"]> {[str "42" := str "gate2"]}) ]}.
Definition server (d : database) : LogicServer Log.net store Queue.t :=
  mkLogic 1 Store.client (KafkaProducer.mk (str "cppim") (Queue.mk [] 10)) Store.client
    (Keys.state_new [1000; 1001; 1002]) (mkStore true d ∅) Log.empty.
Definition world (d : database) : HttpServer.World nat (LogicServer Log.net store Queue.t) :=
  HttpServer.World_new (server d).

Definition connect_req : ConnectReq.ConnectReq := ConnectReq.mk (str "gate1") [] token.
Definition demo_key : bytes := to_string (Keys.id_of 1001 1 0).
Definition disconnect_req : DisconnectReq.DisconnectReq := DisconnectReq.mk 7 demo_key (str "gate1").

Definition request (path op : bytes) : Request.HttpRequest :=
  Request.mkRequest Request.kPost Request.kHttp11 path [] (str "hello") false
    [(str "mids", str "7"); (str "operation", op); (str "room", str "1"); (str "speed", str "32");
     (str "type", str "live")] [].
End Demo.
Import Demo Leb128 Store Queue.

Lemma logic_connect_then_disconnect_witness :
  exists g1 g2,
    (forall done, Connect NullController connect_req done (server ∅) =
       done (ConnectReply.mk 7 demo_key (str "live://1") [1000] 0) g1) /\
    get_string (db (redis g1)) (keyKeyServer demo_key) = Some (str "gate1") /\
    (forall done, Disconnect NullController disconnect_req done g1 = done DisconnectReply.Clear g2) /\
    db (redis g2) = ∅.
Proof.
  destruct (logic_connect_then_disconnect 0%nat 7 (str "live://1") [1000] connect_req demo_key
    (Keys.mkState (Some 1001) 0 [1002]) disconnect_req (server ∅))
    as (g1 & g2 & E1 & _ & E2 & E3 & E4).
  - apply Store.client_ready.
  - unfold int32_range. lia.
  - simpl. lia.
  - exact token_good.
  - apply (bool_decide_unpack _). vm_compute. exact I.
  - vm_compute. reflexivity.
  - reflexivity.
  - reflexivity.
  - intros s. discriminate.
  - discriminate.
  - reflexivity.
  - reflexivity.
  - exists g1, g2. split; [exact E1|]. split; [exact E2|]. split; [exact E3|exact E4].
Defined.

Lemma logic_rejected_answered_twice_witness :
  exists w', HttpServer.onRequest handlers 4%nat (request (str "/push/mids") (str "0")) 7 (world ∅) = Ok w' /\
    sent (HttpServer.net w') 4%nat =
      answer 4%nat false Response.k404NotFound (str "NotFound") ++ answer 4%nat false Response.k200Ok (str "OK").
Proof.
  destruct (logic_rejected_answered_twice 4%nat (request (str "/push/mids") (str "0")) 7 (world ∅) 0 [])
    as (w' & E & Hs & _).
  - split; [reflexivity|]. right. left. split; [reflexivity|]. exists (str "7"), [7]. by split.
  - apply Vegas.run_new.
  - reflexivity.
  - exists w'. split; [exact E|exact Hs].
Defined.

Lemma demo_mids : mids_request (request (str "/push/mids") (str "9")) [7] 9.
Proof.
  split; try reflexivity; [lia|discriminate|]. apply Forall_singleton. lia.
Qed.

Definition after_push : HttpServer.World nat (LogicServer Log.net Store.store Queue.t) :=
  match HttpServer.onRequest handlers 4%nat (request (str "/push/mids") (str "9")) 7 (world users_db) with
  | Ok w => w | Err _ => world ∅ end.
Definition after_report : HttpServer.World nat (LogicServer Log.net Store.store Queue.t) :=
  match dr_cb (Some 0%nat) 9 0 after_push with Ok w => w | Err _ => world ∅ end.
Lemma logic_delivery_report_witness :
  sent (HttpServer.net after_report) 4%nat =
    sent (HttpServer.net after_push) 4%nat ++ answer 4%nat false Response.k200Ok (str "OK") /\
  dr_cb (Some 0%nat) 10 0 after_report = Err UB.
Proof.
  destruct (logic_delivery_report 0%nat 4%nat false 9 0 after_push after_report) as [Hs Hu].
  - do 2 eexists. split; vm_compute; reflexivity.
  - vm_compute. reflexivity.
  - split; [exact Hs|apply Hu].
Defined.
End LogicServer.
