(* ===== verification/Job.v ===== *)
(** * The job server: src/jobserver

    It takes the messages the logic server produced from Kafka, one at a time,
    and turns each into an RPC call to the gate.  librdkafka's consumer is the
    parameter of [RdKafkaConsumer].  The job server has one connection to one
    gate. *)

From Stdlib Require Import ZArith Lia.
From stdpp Require Import base list gmap strings.
From S2P Require Import Prelude Endian Buffer Interfaces Text RpcCodec RpcChannel.
From S2P Require Import Protobuf Messages Services.
Import Wire.
Local Open Scope Z_scope.

#[local] Arguments RpcCodec.send : simpl never.
#[local] Arguments RpcChannel.CallMethod : simpl never.
#[local] Arguments RpcChannel.request_bytes : simpl never.
#[local] Arguments str : simpl never.
#[local] Arguments Z.pow : simpl never.

(** [RdKafka::ErrorCode], as far as the handler tells them apart. *)
Inductive ErrorCode :=
  | ERR_NO_ERROR
  | ERR__TIMED_OUT
  | ERR__PARTITION_EOF
  | ERR__UNKNOWN_TOPIC
  | ERR__UNKNOWN_PARTITION
  | ERR_OTHER (code : Z).

(** [RdKafka::Message]: the time stamp, the key and the offset are only
    logged. *)
Record Message := mkMessage { err : ErrorCode; payload : bytes }.

Class RdKafkaConsumer (C : Type) := { consume : C -> Message * C }.
(** A consumer that hands out a list, and then times out. *)
#[export] Instance list_consumer : RdKafkaConsumer (list Message) := {|
  consume l := match l with m :: l => (m, l) | [] => (mkMessage ERR__TIMED_OUT [], []) end |}.

Module JobServer.

Section job.
Context `{WireFormat} (ParseMap : msg_type -> bytes -> bool).
Context {S N C : Type} `{EqDecision S} `{SessionOps S N} `{RdKafkaConsumer C}.
#[local] Instance job_message : RpcCodec.Message msg := Wire.message ParseMap.

(** [NewCallback(this, &JobServer::HandlePushMsg, response)] *)
Inductive closure := HandlePushMsgCb.
(** The channel has no services: nobody calls the job server. *)
Definition channel : Type := RpcChannel.Channel S msg_type closure (Services.service N).

Record JobServer := mkJob {
  rpcclient_ : channel;
  kafkaconsumer_ : C;
  net : N;
}.
Implicit Types j : JobServer.

(** A call of [GateRpcClient]. *)
Definition call (stub : channel -> N -> res (channel * N)) j : res JobServer :=
  let* (ch, n) := stub (rpcclient_ j) (net j) in Ok (mkJob ch (kafkaconsumer_ j) n).
Definition GateRpcClient_PushMsg (request : PushMsgReq.PushMsgReq) (done : option closure) : JobServer -> res JobServer :=
  call (Gate.Stub_PushMsg request done).
Definition GateRpcClient_BroadcastRoom (request : BroadcastRoomReq.BroadcastRoomReq) (done : option closure)
    : JobServer -> res JobServer := call (Gate.Stub_BroadcastRoom request done).
Definition GateRpcClient_Broadcast (request : BroadcastReq.BroadcastReq) (done : option closure)
    : JobServer -> res JobServer := call (Gate.Stub_Broadcast request done).
Definition GateRpcClient_onConnection (conn : S) j : JobServer :=
  mkJob (RpcChannel.setConnection conn (rpcclient_ j)) (kafkaconsumer_ j) (net j).

(** [proto->set_ver(1); proto->set_op(9); proto->set_body(msg);] *)
Definition fill_proto (msg : bytes) (proto : Proto.Proto) : Proto.Proto :=
  Proto.set_body msg (Proto.set_op 9 (Proto.set_ver 1 proto)).

Definition pushKeys (operation : Z) (server : bytes) (keys : list bytes) (msg : bytes) : JobServer -> res JobServer :=
  let pushmsg := PushMsgReq.mk keys (PushMsgReq.proto_ PushMsgReq.Clear) (PushMsgReq.protoop_ PushMsgReq.Clear) in
  let pushmsg := PushMsgReq.set_protoop operation pushmsg in
  let pushmsg := PushMsgReq.set_proto (fill_proto msg (PushMsgReq.mutable_proto pushmsg)) pushmsg in
  GateRpcClient_PushMsg pushmsg (Some HandlePushMsgCb).

Definition broadcastRoom (room msg : bytes) : JobServer -> res JobServer :=
  let pushmsg := BroadcastRoomReq.set_roomid room BroadcastRoomReq.Clear in
  let pushmsg := BroadcastRoomReq.set_proto (fill_proto msg (BroadcastRoomReq.mutable_proto pushmsg)) pushmsg in
  GateRpcClient_BroadcastRoom pushmsg None.

Definition broadcast (operation : Z) (msg : bytes) (speed : Z) : JobServer -> res JobServer :=
  let pushmsg := BroadcastReq.set_protoop operation (BroadcastReq.set_speed speed BroadcastReq.Clear) in
  let pushmsg := BroadcastReq.set_proto (fill_proto msg (BroadcastReq.mutable_proto pushmsg)) pushmsg in
  GateRpcClient_Broadcast pushmsg None.

(** [HandlePushMsg] only logs. *)
Definition HandlePushMsg (response : PushMsgReply.PushMsgReply) (n : N) : res N := Ok n.
Definition Run (c : closure) (response : msg) (n : N) : res N :=
  match c, response with
  | HandlePushMsgCb, MPushMsgReply r => HandlePushMsg r n
  | _, _ => Err UB
  end.

Definition push (msg : PushMsg.PushMsg) : JobServer -> res JobServer :=
  match PushMsg.type_ msg with
  | 0 => pushKeys (PushMsg.operation_ msg) (PushMsg.server_ msg) (PushMsg.keys_ msg) (PushMsg.msg_ msg)
  | 1 => broadcastRoom (PushMsg.room_ msg) (PushMsg.msg_ msg)
  | 2 => broadcast (PushMsg.operation_ msg) (PushMsg.msg_ msg) (PushMsg.speed_ msg)
  | _ => Ok
  end.

Definition HandleKafkaMessage (message : Message) j : res JobServer :=
  match err message with
  | ERR_NO_ERROR =>
      match merge_entire PushMsg.field PushMsg.Clear (payload message) with
      | Some msg => push msg j
      | None => Ok j
      end
  | _ => Ok j
  end.

(** [KafkaConsumer::Start], called over and over by [main]. *)
Definition StartConsum j : res JobServer :=
  let '(msg, c) := consume (kafkaconsumer_ j) in
  HandleKafkaMessage msg (mkJob (rpcclient_ j) c (net j)).

(** The replies of the gate. *)
Context `{Services.Descriptors}.
Definition onGateData (session : S) (buf : Buffer) j : res (Buffer * JobServer) :=
  let* (buf, cn) := Services.onMessage ParseMap Run session buf (rpcclient_ j, net j) in
  let '(ch, n) := cn in Ok (buf, mkJob ch (kafkaconsumer_ j) n).
End job.
Arguments JobServer : clear implicits.
Arguments channel : clear implicits.

(** ** What reaches the gate *)
Section dispatch.
Context `{WireLaws} (ParseMap : msg_type -> bytes -> bool).
Context {S N C : Type} `{EqDecision S} `{SessionLaws S N} `{RdKafkaConsumer C}.
#[local] Instance dispatch_message : RpcCodec.Message msg := Wire.message ParseMap.
#[local] Instance dispatch_message_laws : RpcCodec.MessageLaws msg := Wire.message_laws ParseMap.
Implicit Types j : JobServer S N C.

(** The gate method a message is turned into, with its request. *)
Definition gate_call (m : PushMsg.PushMsg) : option (nat * msg * option closure) :=
  let proto := Some (Proto.mk 1 9 0 (PushMsg.msg_ m)) in
  match PushMsg.type_ m with
  | 0 => Some (2%nat, MPushMsgReq (PushMsgReq.mk (PushMsg.keys_ m) proto (PushMsg.operation_ m)),
               Some HandlePushMsgCb)
  | 1 => Some (4%nat, MBroadcastRoomReq (BroadcastRoomReq.mk (PushMsg.room_ m) proto), None)
  | 2 => Some (3%nat, MBroadcastReq (BroadcastReq.mk (PushMsg.operation_ m) proto (PushMsg.speed_ m)), None)
  | _ => None
  end.
Definition method_name (i : nat) : bytes := default [] (gate_methods !! i).

Definition connected (conn : S) j : Prop :=
  RpcChannel.chan_inv (rpcclient_ j) /\ RpcChannel.id_ (rpcclient_ j) < 2 ^ 63 - 1 /\
  RpcChannel.conn_ (rpcclient_ j) = Some conn.

(** The job server after one call on [conn]. *)
Definition called (conn : S) (i : nat) (req : msg) j j' : Prop :=
  RpcChannel.chan_inv (rpcclient_ j') /\ RpcChannel.conn_ (rpcclient_ j') = Some conn /\
  kafkaconsumer_ j' = kafkaconsumer_ j /\
  RpcChannel.id_ (rpcclient_ j') = RpcChannel.id_ (rpcclient_ j) + 1 /\
  sent (net j') conn = sent (net j) conn ++
    RpcChannel.request_bytes (RpcChannel.id_ (rpcclient_ j)) (str "gate.Gate") (method_name i) req /\
  forall s, s <> conn -> sent (net j') s = sent (net j) s.

Lemma stub_called conn i name req t d j :
  connected conn j -> gate_methods !! i = Some name -> msg_ok ParseMap req -> Services.fits_frame req ->
  exists j', call (Gate.stub_call i req t d) j = Ok j' /\ called conn i req j j'.
Proof.
  intros (Hinv & Hlt & Hc) Hn Hq Hf. pose (svc := Services.SGate (@Gate.base N)).
  destruct (Services.method_name_ok svc i name Hn) as [_ Hlen].
  destruct (Services.call_sends ParseMap (rpcclient_ j) conn svc i name req t d (net j))
    as (Hfr & n & E & Hsend & Hs); [done..|].
  assert (Gate.stub_call i req t d (rpcclient_ j) (net j) = Ok
    (RpcChannel.mkChannel (Some conn) (RpcChannel.id_ (rpcclient_ j) + 1)
       (<[RpcChannel.id_ (rpcclient_ j) := RpcChannel.mkOut t d]> (RpcChannel.outstandings_ (rpcclient_ j)))
       (RpcChannel.services_ (rpcclient_ j)), n)) as Est
    by (unfold Gate.stub_call; rewrite Hn; exact E).
  unfold call. rewrite Est. mstep. eexists. split; [reflexivity|].
  unfold called, method_name. rewrite Hn. cbn [rpcclient_ kafkaconsumer_ net RpcChannel.conn_ RpcChannel.id_ default].
  split.
  { eapply (RpcChannel.chan_step_inv (Wire.ParseFromArray ParseMap) Run (fun _ _ => None)
      Services.GetRequestPrototype Services.ServiceCall); [exact Hinv|].
    eapply RpcChannel.step_call; [exact Hlt|exact E]. }
  do 3 (split; [done|]). split; [exact Hs|]. intros s Hs'.
  unfold Services.fits_frame, RpcCodec.kMaxMessageLen in *. cbn [Services.full_name svc] in Hlen.
  destruct (RpcCodec.send_encodes (RpcChannel.id_ (rpcclient_ j))
    (RpcCodec.full_name (str "gate.Gate") name) conn req (net j)) as (w' & E' & _ & Ho);
    [done|unfold RpcCodec.full_name; simpl; zlia|].
  assert (Ok w' = Ok n) as [= ->] by (rewrite <- E'; exact Hsend). by apply Ho.
Qed.

Lemma push_calls conn m i req d j :
  connected conn j -> gate_call m = Some (i, req, d) -> msg_ok ParseMap req -> Services.fits_frame req ->
  exists j', push ParseMap m j = Ok j' /\ called conn i req j j'.
Proof.
  intros Hc Hg Hq Hf. unfold gate_call, push in *.
  destruct (PushMsg.type_ m) as [|[[]|[]|]|]; try discriminate Hg; injection Hg as <- <- <-;
    eapply stub_called; done || reflexivity.
Qed.

(** A message of the topic, as the logic server serializes it. *)
Definition kafka_message (m : PushMsg.PushMsg) : Message := mkMessage ERR_NO_ERROR (PushMsg.SerializeToArray m).

Lemma HandleKafkaMessage_push m j :
  PushMsg.ok m -> HandleKafkaMessage ParseMap (kafka_message m) j = push ParseMap m j.
Proof. intros Hm. unfold HandleKafkaMessage. simpl. by rewrite PushMsg.PushMsg_parse. Qed.

(** ** A stream of messages *)
Definition call_of (k : Message) : option (nat * msg * option closure) :=
  match err k with
  | ERR_NO_ERROR =>
      match merge_entire PushMsg.field PushMsg.Clear (payload k) with Some m => gate_call m | None => None end
  | _ => None
  end.

(** The frames of the calls, with consecutive ids. *)
Fixpoint requests_from (id : Z) (l : list (nat * msg * option closure)) : bytes :=
  match l with
  | [] => []
  | (i, req, _) :: l =>
      RpcChannel.request_bytes id (str "gate.Gate") (method_name i) req ++ requests_from (id + 1) l
  end.

Lemma HandleKafkaMessage_calls conn k j :
  connected conn j ->
  match call_of k with
  | Some (i, req, _) => msg_ok ParseMap req -> Services.fits_frame req ->
      exists j', HandleKafkaMessage ParseMap k j = Ok j' /\ called conn i req j j'
  | None => HandleKafkaMessage ParseMap k j = Ok j
  end.
Proof.
  intros Hc. unfold call_of, HandleKafkaMessage. destruct (err k); try done.
  destruct (merge_entire PushMsg.field PushMsg.Clear (payload k)) as [m|]; [|done].
  destruct (gate_call m) as [[[i req] d]|] eqn:Hg; [by apply (push_calls conn m i req d)|].
  unfold gate_call, push in *. by destruct (PushMsg.type_ m) as [|[[]|[]|]|].
Qed.
End dispatch.

(** ** The consumer *)
Section stream.
Context `{WireLaws} (ParseMap : msg_type -> bytes -> bool).
Context {S N : Type} `{EqDecision S} `{SessionLaws S N}.
Implicit Types j : JobServer S N (list Message).

(** [n] rounds of the loop of [main]. *)
Fixpoint consume_n (n : nat) j : res (JobServer S N (list Message)) :=
  match n with
  | O => Ok j
  | Datatypes.S n => let* j := StartConsum ParseMap j in consume_n n j
  end.

Lemma consume_forwards conn ks more j :
  connected conn j -> RpcChannel.id_ (rpcclient_ j) + zlen ks < 2 ^ 63 - 1 ->
  kafkaconsumer_ j = ks ++ more ->
  Forall (fun c => msg_ok ParseMap c.1.2 /\ Services.fits_frame c.1.2) (omap call_of ks) ->
  exists j', consume_n (length ks) j = Ok j' /\ kafkaconsumer_ j' = more /\
    sent (net j') conn =
      sent (net j) conn ++ requests_from ParseMap (RpcChannel.id_ (rpcclient_ j)) (omap call_of ks) /\
    forall s, s <> conn -> sent (net j') s = sent (net j) s.
Proof.
  revert j. induction ks as [|k ks IH]; intros j Hc Hid Hk HF.
  { exists j. simpl. rewrite app_nil_r. by repeat split. }
  cbn [length consume_n]. unfold StartConsum at 1. rewrite Hk. cbn [consume list_consumer app].
  cbn [omap list_omap] in *.
  set (j1 := mkJob (rpcclient_ j) (ks ++ more) (net j)).
  pose proof (HandleKafkaMessage_calls ParseMap conn k j1 Hc) as Hh. rewrite zlen_cons in Hid.
  destruct (call_of k) as [[[i req] d]|] eqn:Ek.
  - apply Forall_cons in HF as [[Hq Hf] HF]. destruct (Hh Hq Hf) as (j2 & -> & Hcal). mstep.
    destruct Hcal as (Hinv & Hcon & Hcons & Hid2 & Hs & Ho). pose proof (zlen_nonneg ks).
    change (RpcChannel.id_ (rpcclient_ j2) = RpcChannel.id_ (rpcclient_ j) + 1) in Hid2.
    destruct (IH j2) as (j' & -> & Hm & Hs' & Ho');
      [split; [done|]; split; [rewrite Hid2; lia|done]|rewrite Hid2; lia|done|done|].
    exists j'. split; [done|]. split; [done|]. split.
    + rewrite Hs', Hs, Hid2. cbn [requests_from]. by rewrite <- app_assoc.
    + intros s Hne. by rewrite Ho', Ho.
  - rewrite Hh. mstep. destruct (IH j1) as (j' & -> & Hm & Hs' & Ho'); [done|simpl; lia|done|done|].
    by exists j'.
Qed.

(** C10: The job server, given any sequence of Kafka messages, sends the gate
    exactly the requests of the ones that parse and have a known type, in
    order and with consecutive ids, and skips the others. *)
Theorem job_forwards_in_order conn ks more j :
  connected conn j -> RpcChannel.id_ (rpcclient_ j) + zlen ks < 2 ^ 63 - 1 ->
  kafkaconsumer_ j = ks ++ more ->
  Forall (fun c => msg_ok ParseMap c.1.2 /\ Services.fits_frame c.1.2) (omap call_of ks) ->
  exists j', consume_n (length ks) j = Ok j' /\ kafkaconsumer_ j' = more /\
    sent (net j') conn =
      sent (net j) conn ++ requests_from ParseMap (RpcChannel.id_ (rpcclient_ j)) (omap call_of ks) /\
    forall s, s <> conn -> sent (net j') s = sent (net j) s.
Proof. apply consume_forwards. Qed.
End stream.

(** A job server that is given a push, junk and a broadcast. *)
Module Demo.
Import Leb128.
Definition push1 : PushMsg.PushMsg := PushMsg.mk 0 1000 0 (str "gate1") [] [str "41"] (str "hello").
Definition all1 : PushMsg.PushMsg := PushMsg.mk 2 1000 32 [] [] [] (str "hi").
Definition stream1 : list Message :=
  [kafka_message push1; mkMessage ERR_NO_ERROR [Byte.xff]; mkMessage ERR__PARTITION_EOF []; kafka_message all1].
Definition job : JobServer nat Log.net (list Message) :=
  mkJob (RpcChannel.setConnection 5%nat (RpcChannel.RpcChannel_new None)) stream1 Log.empty.
Definition no_map (t : msg_type) (d : bytes) : bool := false.

Definition req1 : msg := MPushMsgReq (PushMsgReq.mk [str "41"] (Some (Proto.mk 1 9 0 (str "hello"))) 1000).
Definition req2 : msg := MBroadcastReq (BroadcastReq.mk 1000 (Some (Proto.mk 1 9 0 (str "hi"))) 32).
Lemma stream1_calls : omap call_of stream1 = [(2%nat, req1, Some HandlePushMsgCb); (3%nat, req2, None)].
Proof. vm_compute. reflexivity. Qed.
End Demo.
Import Demo Leb128.

Lemma job_forwards_in_order_witness :
  exists j', consume_n no_map 4 job = Ok j' /\
    sent (net j') 5%nat = requests_from no_map 0 [(2%nat, req1, Some HandlePushMsgCb); (3%nat, req2, None)].
Proof.
  destruct (job_forwards_in_order no_map 5%nat stream1 [] job) as (j' & E & _ & Hs & _).
  - split; [apply (RpcChannel.chan_inv_new (Some 5%nat))|]. split; [simpl; lia|reflexivity].
  - reflexivity.
  - reflexivity.
  - rewrite stream1_calls. repeat (apply Forall_cons; split); [| |constructor].
    + split; [|vm_compute; discriminate]. split; [apply Forall_singleton; by split|].
      split; [split; [|reflexivity]|unfold int32_range; simpl; lia].
      unfold Proto.ok, int32_range, bytes_ok. simpl. change (zlen (str "hello")) with 5. lia.
    + split; [|vm_compute; discriminate]. split; [unfold int32_range; simpl; lia|].
      split; [split; [|reflexivity]|unfold int32_range; simpl; lia].
      unfold Proto.ok, int32_range, bytes_ok. simpl. change (zlen (str "hi")) with 2. lia.
  - exists j'. split; [exact E|]. by rewrite Hs, stream1_calls.
Defined.
End JobServer.
