(* ===== verification/Pipeline.v ===== *)
(** * The servers together

    A client logs in through its gate and the logic server; a push goes from
    the HTTP interface of the logic server over Kafka and the job server to the
    gate and its clients.  Each process has its own sessions and its own
    network; what one writes to a connection, the other reads from its buffer.
    Kafka hands the payloads of the records to the consumer in order. *)

From Stdlib Require Import ZArith Lia.
From stdpp Require Import base list gmap strings.
From S2P Require Import Prelude Endian Buffer Interfaces Text Session ClientCodec RpcCodec RpcChannel Net.
From S2P Require Import Http Limiter HttpServer Protobuf Messages Services Gate Redis Keys Json JsonSpec JsonLexer JsonParser JsonCorrect Logic Job.
Import Wire RedisClient.
Local Open Scope Z_scope.

#[local] Arguments ClientCodec.encode : simpl never.
#[local] Arguments RpcChannel.request_bytes : simpl never.
#[local] Arguments RpcChannel.reply_bytes : simpl never.
#[local] Arguments str : simpl never.
#[local] Arguments Z.pow : simpl never.

Module Pipeline.

(** ** Logging in *)
Section login.
Context `{WireLaws} `{Services.DescriptorLaws} (ParseMap : msg_type -> bytes -> bool).
(** The gate process, and the logic process. *)
Context {S N : Type} `{Countable S} `{SessionLaws S N} (session_id : S -> Z).
Context {S' N' R K : Type} `{Countable S'} `{SessionLaws S' N'} `{RedisLaws R}.
#[local] Instance login_message : RpcCodec.Message msg := Wire.message ParseMap.
#[local] Instance login_message_laws : RpcCodec.MessageLaws msg := Wire.message_laws ParseMap.
Implicit Types (p : GateServer.Process S N) (g : LogicServer.LogicServer N' R K).

(** The session of the gate at the logic server. *)
Definition serves_logic (gs : S') (ch : LogicServer.channel S' N' R K) : Prop :=
  RpcChannel.conn_ ch = Some gs /\
  exists services, RpcChannel.services_ ch = Some services /\
    services !! str "logic.Logic" = Some (Services.SLogic LogicServer.LogicServiceImpl).

(** The client sent [token] to the gate: the gate asks the logic server, it
    answers [reply] and becomes [g1], and the gate ends as [p2]. *)
Definition logs_in (lg session : S) (token : bytes) (gs : S') ch (reply : ConnectReply.ConnectReply)
    (b : Buffer) p g g1 : Prop :=
  let req := MConnectReq (GateServer.connect_request (GateServer.serverid_ (GateServer.core p)) token) in
  let id := RpcChannel.id_ (GateServer.rpcclient_ p) in
  exists b' p1, GateServer.onClientData ParseMap session_id session b p = Ok (b', p1) /\ represents b' [] /\
    sent (GateServer.core p1) lg = sent (GateServer.core p) lg ++
      RpcChannel.request_bytes id (str "logic.Logic") (str "Connect") req /\
    forall b1, represents b1 (RpcChannel.request_bytes id (str "logic.Logic") (str "Connect") req) ->
    exists b1' g2 n, LogicServer.onRpcData ParseMap gs b1 (ch, g) = Ok (b1', (ch, g2)) /\
      g2 = LogicServer.set_net n g1 /\
      sent g2 gs = sent g gs ++
        RpcChannel.reply_bytes id (str "logic.Logic") (str "Connect") (MConnectReply reply) /\
      forall b2, represents b2 (RpcChannel.reply_bytes id (str "logic.Logic") (str "Connect") (MConnectReply reply)) ->
      exists b2' p2, GateServer.onLogicData ParseMap lg b2 p1 = Ok (b2', p2) /\
        GateServer.channels_ (GateServer.core p2) =
          <[ConnectReply.key_ reply := session]> (GateServer.channels_ (GateServer.core p)) /\
        session ∈ default ∅ (GateServer.rooms_ (GateServer.core p2) !! ConnectReply.roomid_ reply) /\
        GateServer.users (GateServer.core p2) !! session =
          Some (UserSession.mk (ConnectReply.key_ reply) (s32 (ConnectReply.mid_ reply))
                  (ConnectReply.roomid_ reply)) /\
        sent (GateServer.core p2) session = sent (GateServer.core p) session ++
          ClientCodec.encode (ClientCodec.mkFrame 8 0 (str "success")).

(** A client session that may authenticate with [token]. *)
Definition may_log_in (lg session : S) (seq : Z) (token : bytes) (b : Buffer) p : Prop :=
  let req := MConnectReq (GateServer.connect_request (GateServer.serverid_ (GateServer.core p)) token) in
  GateServer.connected lg p /\ is_Some (GateServer.users (GateServer.core p) !! session) /\ session <> lg /\
  ClientCodec.frame_ok (ClientCodec.mkFrame 7 seq token) /\
  msg_ok ParseMap req /\ Services.fits_frame req /\
  represents b (ClientCodec.encode (ClientCodec.mkFrame 7 seq token)).

Lemma logic_answers gs ch id req reply b1 g g1 :
  serves_logic gs ch -> msg_ok ParseMap (MConnectReq req) -> Services.fits_frame (MConnectReq req) ->
  msg_ok ParseMap (MConnectReply reply) -> Services.fits_frame (MConnectReply reply) -> 0 <= id < 2 ^ 63 ->
  (forall done, LogicServer.Connect NullController req done g = done reply g1) -> sent g1 gs = sent g gs ->
  represents b1 (RpcChannel.request_bytes id (str "logic.Logic") (str "Connect") (MConnectReq req)) ->
  exists b1' n, LogicServer.onRpcData ParseMap gs b1 (ch, g) = Ok (b1', (ch, LogicServer.set_net n g1)) /\
    sent n gs = sent g gs ++
      RpcChannel.reply_bytes id (str "logic.Logic") (str "Connect") (MConnectReply reply).
Proof.
  intros (Hc & services & Hsv & Hs) Hq Fq Hr Fr Hid Hcall Hsent HR.
  destruct (Services.service_answers ParseMap (fun c : Empty_set => match c with end) ch gs services
    (Services.SLogic LogicServer.LogicServiceImpl) 2 (str "Connect") (MConnectReq req) (MConnectReply reply)
    id b1 g g1) as (b1' & g2 & E & _ & Hg & Hsend); try done.
  { intros k. simpl. by rewrite Hcall. }
  unfold RpcCodec.send in Hsend. apply bind_Ok_inv in Hsend as (x0 & _ & Hsend).
  apply bind_Ok_inv in Hsend as (x1 & _ & Hsend). cbn [session_send LogicServer.logic_session_ops] in Hsend.
  apply bind_Ok_inv in Hsend as (n & _ & [= <-]). exists b1', n. split; [exact E|exact Hg].
Qed.

Lemma login_with lg session seq token gs ch reply b p g g1 :
  may_log_in lg session seq token b p -> serves_logic gs ch ->
  msg_ok ParseMap (MConnectReply reply) -> Services.fits_frame (MConnectReply reply) ->
  (forall done, LogicServer.Connect NullController
     (GateServer.connect_request (GateServer.serverid_ (GateServer.core p)) token) done g = done reply g1) ->
  sent g1 gs = sent g gs ->
  GateServer.channels_ (GateServer.core p) !! ConnectReply.key_ reply = None ->
  logs_in lg session token gs ch reply b p g g1.
Proof.
  intros (Hcon & [u Hu] & Hne & Hf & Hq & Fq & HR) Hsv Hr Fr Hcall Hsent Hk.
  destruct (GateServer.gate_authenticates ParseMap session_id p lg session u seq token b)
    as (b' & p1 & E & HR' & Hs & _ & _ & Hreply); [done..|].
  exists b', p1. split; [exact E|]. split; [done|]. split; [exact Hs|]. intros b1 HR1.
  destruct (logic_answers gs ch (RpcChannel.id_ (GateServer.rpcclient_ p))
    (GateServer.connect_request (GateServer.serverid_ (GateServer.core p)) token) reply b1 g g1)
    as (b1' & n & E1 & Hs1); try done.
  { destruct Hcon as (Hinv & Hlt & _). split; [apply Hinv|lia]. }
  exists b1', (LogicServer.set_net n g1), n. split; [exact E1|]. split; [done|]. split; [exact Hs1|].
  intros b2 HR2. destruct (Hreply reply b2 Hr Fr Hk HR2) as (b2' & p2 & E2 & _ & Hch & Hroom & Huser & Hsent2 & _).
  by exists b2', p2.
Qed.

(** C2: A client frame with operation 7 and a good token goes through the gate
    to the logic server and back: the gate registers the session under the new
    key and the room and answers success, and Redis maps the user to the key
    and the key to this gate. *)
Theorem client_logs_in lg session seq token gs ch mid room accepts x key st b p g :
  may_log_in lg session seq token b p -> serves_logic gs ch ->
  LogicServer.good_token token mid room accepts -> int32_range mid ->
  ready x (LogicServer.service_redisclient_ g) (LogicServer.redis g) ->
  0 <= Keys.seqID (LogicServer.keys g) ->
  Keys.generateKey (LogicServer.serverid_ g) (LogicServer.keys g) = Ok (key, st) ->
  (forall s, db (LogicServer.redis g) !! LogicServer.keyMidServer mid <> Some (VString s)) ->
  let server := GateServer.serverid_ (GateServer.core p) in
  let reply := ConnectReply.mk mid key room accepts 0 in
  word server -> msg_ok ParseMap (MConnectReply reply) -> Services.fits_frame (MConnectReply reply) ->
  GateServer.channels_ (GateServer.core p) !! key = None ->
  exists g1, logs_in lg session token gs ch reply b p g g1 /\
    db (LogicServer.redis g1) = LogicServer.registered mid key server (db (LogicServer.redis g)) /\
    LogicServer.keys g1 = st.
Proof.
  intros Hlog Hsv Ht Hm Hr Hq Hkey Hd server reply Hw Hok Hfit Hk.
  destruct (LogicServer.Connect_registers x mid room accepts
    (GateServer.connect_request server token) key st g) as (w & Hdb & _ & _ & Hcall); [done..|].
  exists (LogicServer.set_service_redis (LogicServer.service_redisclient_ g) w (LogicServer.set_keys st g)).
  split; [|split; [exact Hdb|reflexivity]].
  by apply (login_with lg session seq).
Qed.

(** A token that is not JSON logs in: the logic server replies with an
    empty key and room, the gate registers the session under them and answers
    success. *)
Theorem unreadable_token_logs_in lg session seq token gs ch b p g :
  may_log_in lg session seq token b p -> serves_logic gs ch -> LogicServer.bad_token token ->
  msg_ok ParseMap (MConnectReply ConnectReply.Clear) -> Services.fits_frame (MConnectReply ConnectReply.Clear) ->
  GateServer.channels_ (GateServer.core p) !! [] = None ->
  logs_in lg session token gs ch ConnectReply.Clear b p g g.
Proof.
  intros Hlog Hsv Ht Hok Hfit Hk. apply (login_with lg session seq); try done.
  by apply LogicServer.Connect_bad_token.
Qed.
End login.

(** ** Pushing *)
Section push.
Context `{WireLaws} `{Services.DescriptorLaws} (ParseMap : msg_type -> bytes -> bool).
(** The gate, the job server and the logic server. *)
Context {S N : Type} `{Countable S} `{SessionLaws S N}.
Context {Sj Nj : Type} `{EqDecision Sj} `{SessionLaws Sj Nj}.
Context {S' N' R K : Type} `{Countable S'} `{SessionLaws S' N'} `{RedisLaws R} `{ProducerLaws K}.
#[local] Instance push_rpc_message : RpcCodec.Message msg := Wire.message ParseMap.
#[local] Instance push_rpc_message_laws : RpcCodec.MessageLaws msg := Wire.message_laws ParseMap.
Implicit Types (p : GateServer.Process S N) (j : JobServer.JobServer Sj Nj (list Message)).

(** The request the gate gets for one group of keys. *)
Definition group_request (op : Z) (msg : bytes) (e : bytes * list bytes) : PushMsgReq.PushMsgReq :=
  PushMsgReq.mk e.2 (Some (Proto.mk 1 9 0 msg)) op.
(** The frame a client gets: operation 9 whatever the push asked for. *)
Definition push_frame (msg : bytes) : bytes := ClientCodec.encode (ClientCodec.mkFrame 9 0 msg).

(** The messages of a group are well formed, and small enough. *)
Definition fits (op : Z) (msg : bytes) (e : bytes * list bytes) : Prop :=
  PushMsg.ok (LogicServer.push_message op msg e) /\
  PushMsg.ByteSize (LogicServer.push_message op msg e) < 2 ^ 31 /\
  msg_ok ParseMap (MPushMsgReq (group_request op msg e)) /\
  Services.fits_frame (MPushMsgReq (group_request op msg e)).

(** Kafka: what the producer accepted is what the consumer gets. *)
Definition transported (l : list record) : list Message :=
  map (fun r => mkMessage ERR_NO_ERROR (Logic.payload r)) l.

Lemma group_calls topic op msg cb groups :
  Forall (fits op msg) groups ->
  omap JobServer.call_of (transported (map (LogicServer.push_record topic op msg cb) groups)) =
  map (fun e => (2%nat, MPushMsgReq (group_request op msg e), Some JobServer.HandlePushMsgCb)) groups.
Proof.
  induction 1 as [|e groups (Hok & Hsz & _) _ IH]; [done|]. cbn [map transported omap list_omap].
  unfold JobServer.call_of at 1. cbn [err payload Logic.payload LogicServer.push_record].
  unfold LogicServer.SerializeAsString. rewrite (proj2 (Z.ltb_lt _ _)) by done.
  rewrite PushMsg.PushMsg_parse by done. cbn. f_equal. exact IH.
Qed.

(** The job server sends one PushMsg request per group. *)
Lemma job_groups conn topic op msg cb groups more j :
  JobServer.connected conn j -> RpcChannel.id_ (JobServer.rpcclient_ j) + zlen groups < 2 ^ 63 - 1 ->
  JobServer.kafkaconsumer_ j =
    transported (map (LogicServer.push_record topic op msg cb) groups) ++ more ->
  Forall (fits op msg) groups ->
  exists j', JobServer.consume_n ParseMap (length groups) j = Ok j' /\
    sent (JobServer.net j') conn = sent (JobServer.net j) conn ++
      JobServer.requests_from ParseMap (RpcChannel.id_ (JobServer.rpcclient_ j))
        (map (fun e => (2%nat, MPushMsgReq (group_request op msg e), Some JobServer.HandlePushMsgCb)) groups).
Proof.
  intros Hc Hid Hk HF.
  destruct (JobServer.consume_forwards ParseMap conn
    (transported (map (LogicServer.push_record topic op msg cb) groups)) more j)
    as (j' & E & _ & Hs & _); [done|unfold transported; by rewrite !zlen_map|done| |].
  - rewrite group_calls by done. apply Forall_map. eapply Forall_impl; [exact HF|].
    by intros e (_ & _ & ? & ?).
  - exists j'. unfold transported in E. rewrite !length_map in E. split; [done|].
    by rewrite Hs, group_calls.
Qed.

(** The gate reads the requests, one buffer each, on the session [conn]. *)
Definition gate_reads (conn : S) (ch : GateServer.channel S N) (bs : list Buffer) p
    : res (GateServer.Process S N) :=
  foldM (fun b p => let* (_, cp) := GateServer.onRpcData ParseMap conn b (ch, p) in Ok cp.2) bs p.

(** The buffers that hold the frames of the calls. *)
Fixpoint frames (id : Z) (l : list msg) (bs : list Buffer) : Prop :=
  match l, bs with
  | [], [] => True
  | req :: l, b :: bs =>
      represents b (RpcChannel.request_bytes id (str "gate.Gate") (str "PushMsg") req) /\ frames (id + 1) l bs
  | _, _ => False
  end.

Lemma gate_groups conn ch op msg groups id bs p :
  GateServer.serves_gate conn ch -> (forall k, GateServer.channels_ (GateServer.core p) !! k <> Some conn) ->
  0 <= id -> id + zlen groups < 2 ^ 63 -> Forall (fits op msg) groups -> zlen msg + 16 < 2 ^ 31 ->
  frames id (map (fun e => MPushMsgReq (group_request op msg e)) groups) bs ->
  exists p' n, gate_reads conn ch bs p = Ok p' /\
    GateServer.core p' = GateServer.set_net n (GateServer.core p) /\
    forall x, x <> conn -> sent (GateServer.core p') x = sent (GateServer.core p) x ++
      concat (map (fun k => if decide (GateServer.channels_ (GateServer.core p) !! k = Some x)
                            then push_frame msg else []) (concat groups.*2)).
Proof.
  intros Hsv Hconn Hid Hlt HF Hb. revert id bs p Hconn Hid Hlt.
  induction HF as [|e groups (_ & _ & Hq & Hf) _ IH]; intros id bs p Hconn Hid Hlt Hbs.
  - destruct bs; [|done]. exists p, (GateServer.net (GateServer.core p)).
    split; [done|]. split; [by destruct (GateServer.core p)|]. intros x _. simpl. by rewrite app_nil_r.
  - destruct bs as [|b bs]; [done|]. destruct Hbs as [HR Hbs]. rewrite zlen_cons in Hlt.
    pose proof (zlen_nonneg groups).
    destruct (GateServer.gate_push_delivers ParseMap conn ch (group_request op msg e) id b p)
      as (b' & p1 & E & _ & Hd); [done|done|done|lia|exact Hb|done|done|].
    destruct Hd as (_ & _ & [n1 Hn1] & _ & Hx).
    destruct (IH (id + 1) bs p1) as (p' & n & E' & Hn & Hx'); [by rewrite Hn1|lia|lia|done|].
    exists p', n. unfold gate_reads in *. cbn [foldM]. unfold GateServer.channel in *. rewrite E. mstep.
    split; [exact E'|]. split; [by rewrite Hn, Hn1|]. intros x Hne.
    rewrite Hx', Hx by done. rewrite <- app_assoc. f_equal.
    cbn [fmap list_fmap concat]. rewrite map_app, concat_app. by rewrite Hn1.
Qed.

Lemma elem_of_concat (k : bytes) (ls : list (list bytes)) :
  k ∈ concat ls <-> exists ks, ks ∈ ls /\ k ∈ ks.
Proof. induction ls as [|l ls IH]; simpl; [set_solver|]. rewrite elem_of_app, IH. set_solver. Qed.

(** Each key is in one group. *)
Lemma grouped_keys (keyServer : gmap bytes bytes) groups :
  LogicServer.grouped keyServer groups ->
  NoDup (concat groups.*2) /\ forall k, k ∈ concat groups.*2 <-> is_Some (keyServer !! k).
Proof.
  intros (Hnd & Hin & Hall). split.
  - clear Hall. induction groups as [|[server ks] groups IH]; [constructor|]. simpl in *.
    apply NoDup_cons in Hnd as [Hs Hnd]. apply NoDup_app. destruct (Hin server ks) as (_ & Hk & Hks); [by left|].
    split; [done|]. split; [|apply IH; [done|]; intros s' ks' Hin'; apply Hin; by right].
    intros k Hk1 (ks' & ([s' ks2] & -> & Hin')%list_elem_of_fmap & Hk2)%elem_of_concat. simpl in *.
    apply Hs. apply list_elem_of_fmap. exists (s', ks2). split; [|done]. simpl.
    apply Hks in Hk1. destruct (Hin s' ks2) as (_ & _ & Hks2); [by right|]. apply Hks2 in Hk2. congruence.
  - intros k. split.
    + intros (ks & ([server ks'] & -> & Hg)%list_elem_of_fmap & Hk)%elem_of_concat. simpl in Hk.
      destruct (Hin _ _ Hg) as (_ & _ & Hks). apply Hks in Hk. eauto.
    + intros [server E]. pose proof (Hall _ _ E) as ([s' ks] & -> & Hg)%list_elem_of_fmap. simpl in E.
      apply elem_of_concat. exists ks. destruct (Hin _ _ Hg) as (_ & _ & Hks). split; [|by apply Hks].
      apply list_elem_of_fmap. by exists (s', ks).
Qed.

(** A run of the gate in which sessions authenticate once, under new keys, has
    led to [p]. *)
Definition reached (v : GateServer.View) p : Prop :=
  exists sid n0, rtc (GateServer.gstep ParseMap) (GateServer.mkView (GateServer.mkGate sid ∅ ∅ ∅ n0) ∅ ∅) v /\
    GateServer.core p = GateServer.v_gate v.

Lemma reached_keys (v : GateServer.View) p (x : S) (u : UserSession.UserSession) (K0 : gset bytes) :
  reached v p -> GateServer.live v x u ->
  size (GateServer.held (GateServer.core p) x ∩ K0) =
  if decide (UserSession.key_ u ∈ K0) then 1%nat else 0%nat.
Proof.
  intros (sid & n0 & Hrun & ->) Hl. rewrite (proj1 (GateServer.held_live ParseMap sid n0 v x Hrun) u Hl).
  case_decide as Hk.
  - replace ({[UserSession.key_ u]} ∩ K0) with ({[UserSession.key_ u]} : gset bytes) by set_solver.
    apply size_singleton.
  - replace ({[UserSession.key_ u]} ∩ K0) with (∅ : gset bytes) by set_solver. apply size_empty.
Qed.

(** C1: A POST to /push/mids, with a list of users and a positive operation in
    31 bits, that the rate limiter admits is answered 200 OK, and produces
    Kafka messages which, consumed by a connected job server, become RPC
    requests; when the gate has read them it has sent every client session as
    many frames, with operation 9 and the body of the POST, as it has keys of
    these users registered: exactly one to a session that authenticated once,
    as in the runs of C6, and none to the others. A POST over the limit is
    answered Too Frequency and does nothing else. Redis is connected and the
    producer has room; body and messages fit their frames; the connection the
    requests come in on is left aside. *)
Theorem push_reaches_users y hconn req mids op now w n pend conn ch p :
  LogicServer.mids_request req mids op ->
  Vegas.run (HttpServer.limiter_ w) n pend -> Z.of_nat n < 2 ^ 62 ->
  let g : LogicServer.LogicServer N' R K := HttpServer.net w in
  let body := Request.body_ req in
  let keyServer := LogicServer.keys_of (db (LogicServer.redis g)) mids ∅ in
  ready y (LogicServer.redisclient_ g) (LogicServer.redis g) ->
  LogicServer.room_for (size keyServer) g ->
  (forall e, e.2 <> [] -> NoDup e.2 -> (forall k, k ∈ e.2 -> keyServer !! k = Some e.1) -> fits op body e) ->
  zlen body + 16 < 2 ^ 31 ->
  GateServer.serves_gate conn ch -> (forall k, GateServer.channels_ (GateServer.core p) !! k <> Some conn) ->
  exists w', HttpServer.onRequest LogicServer.handlers (hconn : S') req now w = Ok w' /\
  if Z.of_nat n <? Vegas.limit_ (HttpServer.limiter_ w) then
    sent (HttpServer.net w') hconn = sent g hconn ++
      LogicServer.answer hconn (HttpServer.close_of req) Response.k200Ok (str "OK") /\
    (forall s, s <> hconn -> sent (HttpServer.net w') s = sent g s) /\
    exists l, LogicServer.produced (HttpServer.net w') = LogicServer.produced g ++ l /\
    forall j jconn more,
    JobServer.connected jconn j -> RpcChannel.id_ (JobServer.rpcclient_ j) + zlen l < 2 ^ 63 - 1 ->
    JobServer.kafkaconsumer_ j = transported l ++ more ->
    exists j' reqs, JobServer.consume_n ParseMap (length l) j = Ok j' /\
      sent (JobServer.net j') jconn = sent (JobServer.net j) jconn ++
        JobServer.requests_from ParseMap (RpcChannel.id_ (JobServer.rpcclient_ j))
          (map (fun r => (2%nat, r, Some JobServer.HandlePushMsgCb)) reqs) /\
      forall bs, frames (RpcChannel.id_ (JobServer.rpcclient_ j)) reqs bs ->
      exists p', gate_reads conn ch bs p = Ok p' /\
        forall x, x <> conn ->
        let n := size (GateServer.held (GateServer.core p) x ∩ dom keyServer) in
        sent (GateServer.core p') x = sent (GateServer.core p) x ++ GateServer.copies n (push_frame body) /\
        (forall v u, reached v p -> GateServer.live v x u ->
           n = if decide (UserSession.key_ u ∈ dom keyServer) then 1%nat else 0%nat)
  else LogicServer.refused hconn req w w'.
Proof.
  intros Hm Hrun Hn g body keyServer Hr Hroom Hfits Hb Hsv Hconn.
  destruct (Z.ltb_spec (Z.of_nat n) (Vegas.limit_ (HttpServer.limiter_ w))) as [Hlt|Hge].
  2: { eapply (LogicServer.onRequest_refused LogicServer.PushMsgByMidsHandler); try done. by eapply LogicServer.mids_path. }
  destruct (LogicServer.logic_push_mids y hconn req mids op now w n pend Hm Hrun Hlt Hr Hroom)
    as (w' & groups & E & Hg & Hp & _ & Hs & Hso & _).
  assert (Forall (fits op body) groups) as HF.
  { apply Forall_forall. intros [server ks] Hin. destruct Hg as (_ & Hg & _).
    destruct (Hg _ _ Hin) as (? & Hnd & Hks). apply Hfits; [done|done|]. simpl. intros k. apply Hks. }
  exists w'. split; [done|]. split; [done|]. split; [done|].
  exists (map (LogicServer.push_record (LogicServer.topic_of g) op body
    (Some (length (HttpServer.callbacks w)))) groups).
  split; [done|]. intros j jconn more Hj Hid Hk. rewrite zlen_map in Hid. rewrite length_map.
  destruct (job_groups jconn _ op body _ groups more j Hj Hid Hk HF) as (j' & Ej & Hjs).
  exists j', (map (fun e => MPushMsgReq (group_request op body e)) groups).
  split; [done|]. split; [by rewrite map_map|]. intros bs Hbs.
  assert (0 <= RpcChannel.id_ (JobServer.rpcclient_ j)) as Hid0 by (destruct Hj as [Hj _]; apply Hj).
  destruct (gate_groups conn ch op body groups (RpcChannel.id_ (JobServer.rpcclient_ j)) bs p Hsv)
    as (p' & n' & Ep & _ & Hx); [done|done|lia|done|done|done|].
  exists p'. split; [done|]. intros x Hne n1. split; [|by intros v u; apply reached_keys].
  destruct (grouped_keys keyServer groups Hg) as [Hnd Hin]. rewrite Hx by done.
  rewrite GateServer.held_copies by done. f_equal. f_equal. unfold n1. f_equal. f_equal.
  apply set_eq. intros k. by rewrite elem_of_list_to_set, elem_of_dom, Hin.
Qed.

(** A push by keys produces messages that name the Redis keys, with their
    key_ prefix: carried to the gate, they reach no client. *)
Theorem push_by_keys_reaches_nobody y keys op body (g : LogicServer.LogicServer N' R K) conn ch p :
  ready y (LogicServer.redisclient_ g) (LogicServer.redis g) -> LogicServer.room_for (length keys) g ->
  (forall e, (length e.2 <= length keys)%nat -> Forall (fun k => k ∈ map LogicServer.keyKeyServer keys) e.2 ->
     (exists k, get_string (db (LogicServer.redis g)) k = Some e.1) -> fits op body e) ->
  zlen body + 16 < 2 ^ 31 ->
  GateServer.serves_gate conn ch -> (forall k, GateServer.channels_ (GateServer.core p) !! k <> Some conn) ->
  (forall key, GateServer.channels_ (GateServer.core p) !! LogicServer.keyKeyServer key = None) ->
  exists g' l, LogicServer.PushMsgByKeys keys op body g = Ok g' /\
    LogicServer.produced g' = LogicServer.produced g ++ l /\
    forall j jconn more,
    JobServer.connected jconn j -> RpcChannel.id_ (JobServer.rpcclient_ j) + zlen l < 2 ^ 63 - 1 ->
    JobServer.kafkaconsumer_ j = transported l ++ more ->
    exists j' reqs, JobServer.consume_n ParseMap (length l) j = Ok j' /\
      sent (JobServer.net j') jconn = sent (JobServer.net j) jconn ++
        JobServer.requests_from ParseMap (RpcChannel.id_ (JobServer.rpcclient_ j))
          (map (fun r => (2%nat, r, Some JobServer.HandlePushMsgCb)) reqs) /\
      forall bs, frames (RpcChannel.id_ (JobServer.rpcclient_ j)) reqs bs ->
      exists p', gate_reads conn ch bs p = Ok p' /\
        forall x, x <> conn -> sent (GateServer.core p') x = sent (GateServer.core p) x.
Proof.
  intros Hr Hroom Hfits Hb Hsv Hconn Hpre.
  destruct (LogicServer.push_keys_spec y keys op body g Hr Hroom) as (g' & r & groups & E & _ & Hp & Hkeys).
  assert (Forall (fits op body) groups) as HF.
  { eapply Forall_impl; [exact Hkeys|]. intros e (? & ? & ?). by apply Hfits. }
  exists g', (map (LogicServer.push_record (LogicServer.topic_of g) op body None) groups).
  split; [done|]. split; [done|]. intros j jconn more Hj Hid Hk. rewrite zlen_map in Hid. rewrite length_map.
  destruct (job_groups jconn _ op body _ groups more j Hj Hid Hk HF) as (j' & Ej & Hjs).
  exists j', (map (fun e => MPushMsgReq (group_request op body e)) groups).
  split; [done|]. split; [by rewrite map_map|]. intros bs Hbs.
  assert (0 <= RpcChannel.id_ (JobServer.rpcclient_ j)) as Hid0 by (destruct Hj as [Hj _]; apply Hj).
  destruct (gate_groups conn ch op body groups (RpcChannel.id_ (JobServer.rpcclient_ j)) bs p Hsv)
    as (p' & n' & Ep & _ & Hx); [done|done|lia|done|done|done|].
  exists p'. split; [done|]. intros x Hne. rewrite Hx by done.
  enough (concat (map (fun k => if decide (GateServer.channels_ (GateServer.core p) !! k = Some x)
    then push_frame body else []) (concat groups.*2)) = []) as -> by apply app_nil_r.
  assert (Forall (fun k => GateServer.channels_ (GateServer.core p) !! k = None) (concat groups.*2)) as HN.
  { apply Forall_forall. intros k (ks & ([server ks'] & -> & Hg)%list_elem_of_fmap & Hkk)%elem_of_concat.
    rewrite Forall_forall in Hkeys. destruct (Hkeys _ Hg) as (_ & Hks & _). simpl in *.
    rewrite Forall_forall in Hks. apply Hks, list_elem_of_fmap in Hkk as (key & -> & _). apply Hpre. }
  clear -HN. induction HN as [|k L Hk _ IH]; [done|]. simpl. by rewrite Hk, decide_False.
Qed.
(** ** Pushing to a room and to everybody *)

(** One record that the job server turns into the call [i] of the gate. *)
Definition fits_call (m : PushMsg.PushMsg) (i : nat) (req : msg) : Prop :=
  PushMsg.ok m /\ PushMsg.ByteSize m < 2 ^ 31 /\ (exists d, JobServer.gate_call m = Some (i, req, d)) /\
  msg_ok ParseMap req /\ Services.fits_frame req.

Lemma job_one conn topic cb m i req more j :
  JobServer.connected conn j -> RpcChannel.id_ (JobServer.rpcclient_ j) < 2 ^ 63 - 2 ->
  JobServer.kafkaconsumer_ j = transported [mkRecord topic (LogicServer.SerializeAsString m) cb] ++ more ->
  fits_call m i req ->
  exists j', JobServer.consume_n ParseMap 1 j = Ok j' /\
    sent (JobServer.net j') conn = sent (JobServer.net j) conn ++
      RpcChannel.request_bytes (RpcChannel.id_ (JobServer.rpcclient_ j)) (str "gate.Gate")
        (JobServer.method_name i) req.
Proof.
  intros Hc Hid Hk (Hok & Hsz & (d & Hg) & Hq & Hf).
  assert (omap JobServer.call_of (transported [mkRecord topic (LogicServer.SerializeAsString m) cb]) =
    [(i, req, d)]) as Hcalls.
  { cbn [transported map omap list_omap]. unfold JobServer.call_of. cbn [err payload Logic.payload].
    unfold LogicServer.SerializeAsString. rewrite (proj2 (Z.ltb_lt _ _)) by done.
    by rewrite PushMsg.PushMsg_parse, Hg by done. }
  destruct (JobServer.consume_forwards ParseMap conn
    (transported [mkRecord topic (LogicServer.SerializeAsString m) cb]) more j) as (j' & E & _ & Hs & _);
    [done|change (zlen (transported _)) with 1; lia|done| |].
  - rewrite Hcalls. by apply Forall_singleton.
  - exists j'. split; [exact E|]. rewrite Hs, Hcalls. cbn [JobServer.requests_from]. by rewrite app_nil_r.
Qed.

(** The request made the world [w] into [w']: it was answered and produced the
    one record [r], which the job server turns into the gate call [method] with
    [req]; a gate process [p] that reads the call becomes a [p'] that satisfies
    [P]. *)
Definition carried (hconn : S') (hreq : Request.HttpRequest)
    (w w' : HttpServer.World S' (LogicServer.LogicServer N' R K)) (method : bytes) (req : msg)
    (conn : S) (ch : GateServer.channel S N) p (P : GateServer.Process S N -> Prop) : Prop :=
  exists r, LogicServer.produced (HttpServer.net w') = LogicServer.produced (HttpServer.net w) ++ [r] /\
    sent (HttpServer.net w') hconn = sent (HttpServer.net w) hconn ++
      LogicServer.answer hconn (HttpServer.close_of hreq) Response.k200Ok (str "OK") /\
    (forall s, s <> hconn -> sent (HttpServer.net w') s = sent (HttpServer.net w) s) /\
    forall j jconn more,
    JobServer.connected jconn j -> RpcChannel.id_ (JobServer.rpcclient_ j) < 2 ^ 63 - 2 ->
    JobServer.kafkaconsumer_ j = transported [r] ++ more ->
    let id := RpcChannel.id_ (JobServer.rpcclient_ j) in
    exists j', JobServer.consume_n ParseMap 1 j = Ok j' /\
      sent (JobServer.net j') jconn = sent (JobServer.net j) jconn ++
        RpcChannel.request_bytes id (str "gate.Gate") method req /\
      forall b, represents b (RpcChannel.request_bytes id (str "gate.Gate") method req) ->
      exists b' p', GateServer.onRpcData ParseMap conn b (ch, p) = Ok (b', (ch, p')) /\
        represents b' [] /\ P p'.

Lemma carry hconn hreq w w' m i req conn ch p (P : GateServer.Process S N -> Prop) :
  LogicServer.pushed_one hconn hreq m w w' -> fits_call m i req ->
  (forall id b, 0 <= id < 2 ^ 63 ->
     represents b (RpcChannel.request_bytes id (str "gate.Gate") (JobServer.method_name i) req) ->
     exists b' p', GateServer.onRpcData ParseMap conn b (ch, p) = Ok (b', (ch, p')) /\
       represents b' [] /\ P p') ->
  carried hconn hreq w w' (JobServer.method_name i) req conn ch p P.
Proof.
  intros (Hp & _ & Hs & Hso) Hfit Hgate. eexists. split; [exact Hp|].
  split; [exact Hs|]. split; [exact Hso|]. intros j jconn more Hj Hid Hk id.
  destruct (job_one jconn _ _ m i req more j Hj Hid Hk Hfit) as (j' & Ej & Hjs).
  exists j'. split; [done|]. split; [done|]. intros b HR. apply (Hgate id); [|done].
  destruct Hj as [Hj _]. destruct Hj as [Hj0 _]. subst id. lia.
Qed.

Lemma carried_impl hconn hreq w w' method req conn ch p (P Q : GateServer.Process S N -> Prop) :
  (forall p', P p' -> Q p') ->
  carried hconn hreq w w' method req conn ch p P -> carried hconn hreq w w' method req conn ch p Q.
Proof.
  intros HPQ (r & ? & ? & ? & Hjob). exists r. do 3 (split; [done|]). intros j jconn more Hj Hid Hk id.
  destruct (Hjob j jconn more Hj Hid Hk) as (j' & ? & ? & Hgate). exists j'. do 2 (split; [done|]).
  intros b Hb. destruct (Hgate b Hb) as (b' & p' & ? & ? & ?). eauto 6.
Qed.

Definition room_call (room body : bytes) : msg :=
  MBroadcastRoomReq (BroadcastRoomReq.mk room (Some (Proto.mk 1 9 0 body))).
Definition all_call (speed op : Z) (body : bytes) : msg :=
  MBroadcastReq (BroadcastReq.mk op (Some (Proto.mk 1 9 0 body)) speed).

(** C7: A POST to /push/room, with a type, a room and a positive operation in
    31 bits, that the rate limiter admits is answered 200 OK and produces one
    Kafka message which, consumed by a connected job server, becomes an RPC
    request that makes the gate send every session of that room in rooms_
    exactly one frame, with operation 9 and the body of the POST, and every
    other client nothing; in the runs of C6, in which sessions authenticate at
    most once, these are the live clients of the room. A POST over the limit
    is answered Too Frequency and does nothing else. The producer has room,
    body and message fit their frames, and the connection the request comes in
    on is no member. *)
Theorem push_reaches_room hconn hreq room op now w n pend conn ch p :
  LogicServer.room_request hreq room op ->
  Vegas.run (HttpServer.limiter_ w) n pend -> Z.of_nat n < 2 ^ 62 ->
  LogicServer.room_for 1 (HttpServer.net w) ->
  let body := Request.body_ hreq in
  let members := default ∅ (GateServer.rooms_ (GateServer.core p) !! room) in
  fits_call (LogicServer.room_message room op body) 4 (room_call room body) -> zlen body + 16 < 2 ^ 31 ->
  GateServer.serves_gate conn ch -> conn ∉ members ->
  exists w', HttpServer.onRequest LogicServer.handlers hconn hreq now w = Ok w' /\
  if Z.of_nat n <? Vegas.limit_ (HttpServer.limiter_ w) then
    carried hconn hreq w w' (str "BroadcastRoom") (room_call room body) conn ch p (fun p' =>
      forall x, x <> conn ->
        sent (GateServer.core p') x = sent (GateServer.core p) x ++
          (if decide (x ∈ members) then push_frame body else []) /\
        forall v, reached v p ->
          (x ∈ members <-> exists u, GateServer.live v x u /\ UserSession.room_ u = room))
  else LogicServer.refused hconn hreq w w'.
Proof.
  intros Hr Hrun Hn Hroom body members Hfit Hb Hsv Hconn.
  destruct (Z.ltb_spec (Z.of_nat n) (Vegas.limit_ (HttpServer.limiter_ w))) as [Hlt|Hge].
  2: { eapply (LogicServer.onRequest_refused LogicServer.PushMsgByRoomHandler); try done. by eapply LogicServer.room_path. }
  destruct (LogicServer.logic_push_room hconn hreq room op now w n pend Hr Hrun Hlt Hroom) as (w' & E & Hone).
  exists w'. split; [exact E|].
  apply (carry hconn hreq w w' _ 4%nat _ conn ch p _ Hone Hfit). intros id b Hid HR.
  destruct Hfit as (_ & _ & _ & Hq & Hf).
  destruct (GateServer.gate_room_broadcast ParseMap conn ch
    (BroadcastRoomReq.mk room (Some (Proto.mk 1 9 0 body))) id b p Hsv Hq Hf Hid Hb Hconn HR)
    as (b' & p' & Ep & HR' & _ & _ & _ & _ & Hx).
  exists b', p'. split; [done|]. split; [done|]. intros x Hne. split; [exact (Hx x Hne)|].
  intros v (sid & n0 & Hsteps & Hcore). unfold members. rewrite Hcore.
  apply (GateServer.gate_steps_inv ParseMap _ _ Hsteps (GateServer.gate_inv_start sid n0)).
Qed.

(** C8: A POST to /push/all, with a positive operation and speed in 31 bits,
    that the rate limiter admits is answered 200 OK and produces one Kafka
    message which, consumed by a connected job server, becomes an RPC request
    that makes the gate send every client session as many frames, with
    operation 9 and the body of the POST, as it has keys in channels_; in the
    runs of C6, in which sessions authenticate at most once, that is one frame
    for each client that has authenticated and not disconnected, and none for
    the others. A POST over the limit is answered Too Frequency and does
    nothing else. The producer has room, body and message fit their frames,
    and the connection the request comes in on is left aside. *)
Theorem push_reaches_all hconn hreq speed op now w n pend conn ch p :
  LogicServer.all_request hreq speed op ->
  Vegas.run (HttpServer.limiter_ w) n pend -> Z.of_nat n < 2 ^ 62 ->
  LogicServer.room_for 1 (HttpServer.net w) ->
  let body := Request.body_ hreq in
  fits_call (LogicServer.all_message speed op body) 3 (all_call speed op body) -> zlen body + 16 < 2 ^ 31 ->
  GateServer.serves_gate conn ch -> (forall k, GateServer.channels_ (GateServer.core p) !! k <> Some conn) ->
  exists w', HttpServer.onRequest LogicServer.handlers hconn hreq now w = Ok w' /\
  if Z.of_nat n <? Vegas.limit_ (HttpServer.limiter_ w) then
    carried hconn hreq w w' (str "Broadcast") (all_call speed op body) conn ch p (fun p' =>
      forall x, x <> conn ->
        let n := size (GateServer.held (GateServer.core p) x) in
        sent (GateServer.core p') x = sent (GateServer.core p) x ++ GateServer.copies n (push_frame body) /\
        forall v, reached v p ->
          n = if decide (x ∈ GateServer.v_in v ∖ GateServer.v_gone v) then 1%nat else 0%nat)
  else LogicServer.refused hconn hreq w w'.
Proof.
  intros Hr Hrun Hn Hroom body Hfit Hb Hsv Hconn.
  destruct (Z.ltb_spec (Z.of_nat n) (Vegas.limit_ (HttpServer.limiter_ w))) as [Hlt|Hge].
  2: { eapply (LogicServer.onRequest_refused LogicServer.PushMsgToAllHandler); try done. by eapply LogicServer.all_path. }
  destruct (LogicServer.logic_push_all hconn hreq speed op now w n pend Hr Hrun Hlt Hroom) as (w' & E & Hone).
  exists w'. split; [exact E|].
  apply (carry hconn hreq w w' _ 3%nat _ conn ch p _ Hone Hfit). intros id b Hid HR.
  destruct Hfit as (_ & _ & _ & Hq & Hf).
  destruct (GateServer.gate_broadcast_reaches_all ParseMap conn ch
    (BroadcastReq.mk op (Some (Proto.mk 1 9 0 body)) speed) id b p Hsv Hq Hf Hid Hb Hconn HR)
    as (b' & p' & Ep & HR' & _ & _ & _ & _ & Hx).
  exists b', p'. split; [done|]. split; [done|]. intros x Hne n1. split; [exact (Hx x Hne)|].
  intros v (sid & n0 & Hsteps & Hcore). unfold n1. rewrite Hcore. by eapply GateServer.held_live.
Qed.
End push.

(** ** The servers of the examples *)
Import GateServer.Demo LogicServer.Demo Leb128 Store Queue.

Definition gate_at_logic : LogicServer.channel nat Log.net store Queue.t :=
  RpcChannel.setServices {[ str "logic.Logic" := Services.SLogic LogicServer.LogicServiceImpl ]}
    (RpcChannel.RpcChannel_new (Some 50%nat)).
Definition auth_buffer (token : bytes) : Buffer :=
  buffer_of (ClientCodec.encode (ClientCodec.mkFrame 7 0 token)).

Lemma demo_may_log_in token :
  In token [LogicServer.Demo.token; str "bad"] ->
  may_log_in GateServer.Demo.no_map 99%nat 1%nat 0 token (auth_buffer token) (proc g1).
Proof.
  assert (forall t : bytes, zlen t <= 100 -> ClientCodec.frame_ok (ClientCodec.mkFrame 7 0 t) /\
    msg_ok GateServer.Demo.no_map (MConnectReq (GateServer.connect_request (str "gate-1") t))) as Ht.
  { intros t Hl. split.
    - unfold ClientCodec.frame_ok. cbn [ClientCodec.f_op ClientCodec.f_id ClientCodec.f_body]. lia.
    - split; [by split|]. split; [by split|]. unfold bytes_ok. simpl. lia. }
  intros [<-|[<-|[]]]; (split; [split; [apply RpcChannel.chan_inv_new|split; [simpl; lia|reflexivity]]|]);
    (split; [eexists; apply lookup_insert_eq|]); (split; [done|]);
    (split; [apply Ht; vm_compute; discriminate|]); (split; [apply Ht; vm_compute; discriminate|]);
    (split; [vm_compute; discriminate|]); apply GateServer.demo_buffer; vm_compute; reflexivity.
Qed.
Lemma gate_at_logic_serves : serves_logic 50%nat gate_at_logic.
Proof. split; [done|]. eexists. split; [done|]. apply lookup_singleton_eq. Qed.

Definition demo_reply : ConnectReply.ConnectReply := ConnectReply.mk 7 demo_key (str "live://1") [1000] 0.
Lemma client_logs_in_witness :
  exists g', logs_in GateServer.Demo.no_map Z.of_nat 99%nat 1%nat LogicServer.Demo.token 50%nat gate_at_logic demo_reply
      (auth_buffer LogicServer.Demo.token) (proc g1) (server ∅) g' /\
    db (LogicServer.redis g') = LogicServer.registered 7 demo_key (str "gate-1") ∅.
Proof.
  destruct (client_logs_in GateServer.Demo.no_map Z.of_nat 99%nat 1%nat 0 LogicServer.Demo.token 50%nat gate_at_logic
    7 (str "live://1") [1000] 0%nat demo_key (Keys.mkState (Some 1001) 0 [1002])
    (auth_buffer LogicServer.Demo.token) (proc g1) (server ∅)) as (g' & Hlog & Hdb & _).
  - apply demo_may_log_in. by left.
  - exact gate_at_logic_serves.
  - exact token_good.
  - unfold int32_range. lia.
  - apply Store.client_ready.
  - simpl. lia.
  - vm_compute. reflexivity.
  - intros s. discriminate.
  - apply (bool_decide_unpack _). vm_compute. exact I.
  - split; [unfold int64_range; simpl; lia|]. split; [by split|]. split; [by split|].
    split; [apply Forall_singleton; unfold int32_range; vm_compute; intuition discriminate|].
    split; [vm_compute; reflexivity|unfold int64_range; simpl; lia].
  - vm_compute. discriminate.
  - reflexivity.
  - exists g'. split; [exact Hlog|exact Hdb].
Defined.

Lemma unreadable_token_logs_in_witness :
  logs_in GateServer.Demo.no_map Z.of_nat 99%nat 1%nat (str "bad") 50%nat gate_at_logic ConnectReply.Clear
    (auth_buffer (str "bad")) (proc g1) (server ∅) (server ∅).
Proof.
  apply (unreadable_token_logs_in GateServer.Demo.no_map Z.of_nat 99%nat 1%nat 0).
  - apply demo_may_log_in. simpl. auto.
  - exact gate_at_logic_serves.
  - intros (v & Hv%Correct.parse_complete). vm_compute in Hv. discriminate.
  - split; [unfold int64_range; simpl; lia|]. split; [by split|]. split; [by split|].
    split; [constructor|]. split; [vm_compute; reflexivity|unfold int64_range; simpl; lia].
  - vm_compute. discriminate.
  - reflexivity.
Defined.

(** User 7 is on gate 1 with key k1. *)
Definition one_user : database := {[ str "mid_7" := VHash {[ str "k1" := str "gate-1" ]} ]}.
Definition job_with (l : list record) : JobServer.JobServer nat Log.net (list Message) :=
  JobServer.mkJob (RpcChannel.setConnection 5%nat (RpcChannel.RpcChannel_new None)) (transported l) Log.empty.
Lemma job_with_connected l : JobServer.connected 5%nat (job_with l).
Proof. split; [apply (RpcChannel.chan_inv_new (Some 5%nat))|]. split; [simpl; lia|reflexivity]. Qed.

Lemma demo_proto_ok : Proto.ok (Proto.mk 1 9 0 (str "hello")).
Proof.
  unfold Proto.ok, int32_range, bytes_ok. cbn [Proto.ver_ Proto.op_ Proto.seq_ Proto.body_].
  change (zlen (str "hello")) with 5. lia.
Qed.

Lemma demo_fits ks :
  In ks [[]; [str "k1"]; [str "key_k1"]] -> fits GateServer.Demo.no_map 9 (str "hello") (str "gate-1", ks).
Proof.
  pose proof demo_proto_ok as Hp.
  intros Hks. assert (Forall utf8_ok ks) as Hu.
  { destruct Hks as [<-|[<-|[<-|[]]]]; [constructor|apply Forall_singleton; by split|apply Forall_singleton; by split]. }
  split; [|split; [|split]].
  - unfold PushMsg.ok, int32_range. cbn [LogicServer.push_message PushMsg.type_ PushMsg.operation_ PushMsg.speed_
      PushMsg.server_ PushMsg.room_ PushMsg.keys_ PushMsg.msg_ fst snd]. unfold LogicServer.PUSH.
    do 3 (split; [lia|]). split; [by split|]. split; [by split|]. by split.
  - destruct Hks as [<-|[<-|[<-|[]]]]; vm_compute; reflexivity.
  - split; [exact Hu|]. split; [split; [exact Hp|vm_compute; reflexivity]|unfold int32_range; simpl; lia].
  - destruct Hks as [<-|[<-|[<-|[]]]]; vm_compute; discriminate.
Qed.

Definition one_client : GateServer.View := GateServer.mkView g2 {[1%nat]} ∅.
Lemma one_client_reached : reached GateServer.Demo.no_map one_client (proc g2).
Proof. exists (str "gate-1"), Log.empty. split; [exact GateServer.Demo.demo_run|reflexivity]. Qed.
Definition demo_user : UserSession.UserSession := default (UserSession.mk [] 0 []) (GateServer.users g2 !! 1%nat).
Lemma demo_live : GateServer.live one_client 1%nat demo_user.
Proof. split; [simpl; set_solver|]. split; [simpl; set_solver|]. vm_compute. reflexivity. Qed.

Lemma push_reaches_users_witness :
  exists w' l j' reqs,
    HttpServer.onRequest LogicServer.handlers 4%nat (request (str "/push/mids") (str "9")) 7 (world one_user) = Ok w' /\
    sent (HttpServer.net w') 4%nat = LogicServer.answer 4%nat false Response.k200Ok (str "OK") /\
    LogicServer.produced (HttpServer.net w') = l /\
    JobServer.consume_n GateServer.Demo.no_map (length l) (job_with l) = Ok j' /\
    forall bs, frames GateServer.Demo.no_map 0 reqs bs ->
    exists p', gate_reads GateServer.Demo.no_map 100%nat rpc_ch bs (proc g2) = Ok p' /\
      sent (GateServer.core p') 1%nat = sent g2 1%nat ++ push_frame (str "hello").
Proof.
  destruct (push_reaches_users (Sj := nat) (Nj := Log.net) GateServer.Demo.no_map 0%nat 4%nat (request (str "/push/mids") (str "9"))
    [7] 9 7 (world one_user) 0 [] 100%nat rpc_ch (proc g2)) as (w' & E & Hif).
  - exact LogicServer.demo_mids.
  - apply Vegas.run_new.
  - reflexivity.
  - apply Store.client_ready.
  - unfold LogicServer.room_for. apply (bool_decide_unpack _). vm_compute. exact I.
  - intros [server ks] Hne Hnd Hk. simpl in *. destruct ks as [|k ks]; [done|].
    assert (forall k', k' ∈ k :: ks -> k' = str "k1" /\ server = str "gate-1") as Hall.
    { intros k' Hin. apply Hk in Hin.
      change (({[str "k1" := str "gate-1"]} : gmap bytes bytes) !! k' = Some server) in Hin. by apply lookup_singleton_Some in Hin as [<- <-]. }
    destruct (Hall k) as [-> ->]; [by left|]. apply NoDup_cons in Hnd as [Hnk _].
    destruct ks as [|k2 ks]; [apply demo_fits; simpl; auto|]. destruct Hnk.
    destruct (Hall k2) as [-> _]; [by right; left|]. by left.
  - vm_compute. reflexivity.
  - exact GateServer.Demo.rpc_ch_serves.
  - exact GateServer.demo_channels.
  - assert ((Z.of_nat 0 <? Vegas.limit_ (HttpServer.limiter_ (world one_user))) = true) as Ht by reflexivity.
    rewrite Ht in Hif. destruct Hif as (Hans & _ & l & Hp & Hjob).
    destruct (Hjob (job_with l) 5%nat [] (job_with_connected l)) as (j' & reqs & Ej & _ & Hgate).
    + assert (zlen l < 2 ^ 32) as Hl; [|simpl; lia].
      assert (l = LogicServer.produced (HttpServer.net w')) as -> by (by rewrite Hp).
      apply (f_equal (fun r => match r with
        Ok w => zlen (LogicServer.produced (HttpServer.net w)) | Err _ => 0 end)) in E.
      rewrite <- E. vm_compute. reflexivity.
    + simpl. by rewrite app_nil_r.
    + exists w', l, j', reqs. split; [exact E|]. split; [exact Hans|]. split; [exact Hp|]. split; [exact Ej|].
      intros bs Hbs. destruct (Hgate bs Hbs) as (p' & Ep & Hx). exists p'. split; [exact Ep|].
      destruct (Hx 1%nat) as [Hsent Hone]; [done|]. rewrite Hsent, (Hone _ _ one_client_reached demo_live).
      rewrite decide_True; [apply (f_equal (app _)), app_nil_r|].
      apply elem_of_dom. eexists. vm_compute. reflexivity.
Defined.

Definition one_key : database := {[ str "key_k1" := VString (str "gate-1") ]}.
Lemma push_by_keys_reaches_nobody_witness :
  exists g' l j' reqs,
    LogicServer.PushMsgByKeys [str "k1"] 9 (str "hello") (server one_key) = Ok g' /\
    LogicServer.produced g' = l /\
    JobServer.consume_n GateServer.Demo.no_map (length l) (job_with l) = Ok j' /\
    forall bs, frames GateServer.Demo.no_map 0 reqs bs ->
    exists p', gate_reads GateServer.Demo.no_map 100%nat rpc_ch bs (proc g2) = Ok p' /\
      sent (GateServer.core p') 1%nat = sent g2 1%nat.
Proof.
  destruct (push_by_keys_reaches_nobody (Sj := nat) (Nj := Log.net) GateServer.Demo.no_map 0%nat [str "k1"] 9 (str "hello")
    (server one_key) 100%nat rpc_ch (proc g2)) as (g' & l & E & Hp & Hjob).
  - apply Store.client_ready.
  - unfold LogicServer.room_for. apply (bool_decide_unpack _). vm_compute. exact I.
  - intros [server ks] Hlen Hks [k Hk]. simpl in *.
    assert (server = str "gate-1") as ->.
    { unfold get_string in Hk. cbn [LogicServer.Demo.server LogicServer.redis db Store.redis_laws Store.data] in Hk.
      destruct (one_key !! k) as [[v|]|] eqn:E; [|done|done].
      unfold one_key in E. apply lookup_singleton_Some in E as [_ [= <-]]. by injection Hk as <-. }
    apply demo_fits. destruct ks as [|k1 [|k2 ks]]; simpl in Hlen; [simpl; auto| |lia].
    apply Forall_cons in Hks as [Hks _]. apply list_elem_of_singleton in Hks as ->. simpl. auto.
  - vm_compute. reflexivity.
  - exact GateServer.Demo.rpc_ch_serves.
  - exact GateServer.demo_channels.
  - intros key. cbn [GateServer.core proc]. rewrite (proj1 GateServer.Demo.demo_maps). by apply lookup_singleton_ne.
  - destruct (Hjob (job_with l) 5%nat [] (job_with_connected l)) as (j' & reqs & Ej & _ & Hgate).
    + assert (zlen l < 2 ^ 32) as Hl; [|simpl; lia].
      assert (l = LogicServer.produced g') as -> by (by rewrite Hp).
      apply (f_equal (fun r => match r with Ok g => zlen (LogicServer.produced g) | Err _ => 0 end)) in E.
      rewrite <- E. vm_compute. reflexivity.
    + simpl. by rewrite app_nil_r.
    + exists g', l, j', reqs. split; [exact E|]. split; [exact Hp|]. split; [exact Ej|]. intros bs Hbs.
      destruct (Hgate bs Hbs) as (p' & Ep & Hx). exists p'. split; [exact Ep|]. by apply (Hx 1%nat).
Defined.

Lemma demo_room_fits :
  fits_call GateServer.Demo.no_map (LogicServer.room_message (str "live://1") 9 (str "hello")) 4
    (room_call (str "live://1") (str "hello")).
Proof.
  split; [|split; [vm_compute; reflexivity|split; [by eexists|split; [|vm_compute; discriminate]]]].
  - unfold PushMsg.ok, int32_range. cbn. unfold LogicServer.ROOM. do 3 (split; [lia|]).
    split; [by split|]. split; [by split|]. by split.
  - split; [by split|split; [exact demo_proto_ok|reflexivity]].
Qed.
Lemma demo_all_fits :
  fits_call GateServer.Demo.no_map (LogicServer.all_message 32 9 (str "hello")) 3 (all_call 32 9 (str "hello")).
Proof.
  split; [|split; [vm_compute; reflexivity|split; [by eexists|split; [|vm_compute; discriminate]]]].
  - unfold PushMsg.ok, int32_range. cbn. unfold LogicServer.BROADCAST. do 3 (split; [lia|]).
    split; [by split|]. split; [by split|]. by split.
  - split; [unfold int32_range; simpl; lia|].
    split; [split; [exact demo_proto_ok|reflexivity]|unfold int32_range; simpl; lia].
Qed.

Lemma push_reaches_room_witness :
  exists w', HttpServer.onRequest LogicServer.handlers 4%nat (request (str "/push/room") (str "9")) 7 (world ∅) = Ok w' /\
  carried (Sj := nat) (Nj := Log.net) GateServer.Demo.no_map 4%nat (request (str "/push/room") (str "9")) (world ∅) w'
    (str "BroadcastRoom") (room_call (str "live://1") (str "hello")) 100%nat rpc_ch (proc g2)
    (fun p' => sent (GateServer.core p') 1%nat = sent g2 1%nat ++ push_frame (str "hello")).
Proof.
  destruct (push_reaches_room (Sj := nat) (Nj := Log.net) GateServer.Demo.no_map 4%nat (request (str "/push/room") (str "9"))
    (str "live://1") 9 7 (world ∅) 0 [] 100%nat rpc_ch (proc g2)) as (w' & E & Hif).
  - split; try reflexivity; [lia|]. exists (str "live"), (str "1"). by repeat split.
  - apply Vegas.run_new.
  - reflexivity.
  - unfold LogicServer.room_for. apply (bool_decide_unpack _). vm_compute. exact I.
  - exact demo_room_fits.
  - vm_compute. reflexivity.
  - exact GateServer.Demo.rpc_ch_serves.
  - cbn [GateServer.core proc]. rewrite (proj2 GateServer.Demo.demo_maps), lookup_singleton_eq. simpl. set_solver.
  - exists w'. split; [exact E|].
    assert ((Z.of_nat 0 <? Vegas.limit_ (HttpServer.limiter_ (world ∅))) = true) as Ht by reflexivity.
    rewrite Ht in Hif. eapply carried_impl; [|exact Hif]. cbv beta. intros p' Hx.
    destruct (Hx 1%nat) as [Hsent Hin]; [done|]. rewrite Hsent, decide_True; [done|].
    apply (Hin _ one_client_reached). exists demo_user. split; [exact demo_live|reflexivity].
Defined.

Lemma push_reaches_all_witness :
  exists w', HttpServer.onRequest LogicServer.handlers 4%nat (request (str "/push/all") (str "9")) 7 (world ∅) = Ok w' /\
  carried (Sj := nat) (Nj := Log.net) GateServer.Demo.no_map 4%nat (request (str "/push/all") (str "9")) (world ∅) w'
    (str "Broadcast") (all_call 32 9 (str "hello")) 100%nat rpc_ch (proc g2)
    (fun p' => sent (GateServer.core p') 1%nat = sent g2 1%nat ++ push_frame (str "hello")).
Proof.
  destruct (push_reaches_all (Sj := nat) (Nj := Log.net) GateServer.Demo.no_map 4%nat (request (str "/push/all") (str "9"))
    32 9 7 (world ∅) 0 [] 100%nat rpc_ch (proc g2)) as (w' & E & Hif).
  - split; reflexivity || lia.
  - apply Vegas.run_new.
  - reflexivity.
  - unfold LogicServer.room_for. apply (bool_decide_unpack _). vm_compute. exact I.
  - exact demo_all_fits.
  - vm_compute. reflexivity.
  - exact GateServer.Demo.rpc_ch_serves.
  - exact GateServer.demo_channels.
  - exists w'. split; [exact E|].
    assert ((Z.of_nat 0 <? Vegas.limit_ (HttpServer.limiter_ (world ∅))) = true) as Ht by reflexivity.
    rewrite Ht in Hif. eapply carried_impl; [|exact Hif]. cbv beta. intros p' Hx.
    destruct (Hx 1%nat) as [Hsent Hone]; [done|]. rewrite Hsent, (Hone _ one_client_reached).
    rewrite decide_True by (simpl; set_solver). apply (f_equal (app _)), app_nil_r.
Defined.
End Pipeline.
