(* ===== verification/LogTime.v ===== *)
(** * Time: the calendar the log works with

    [localtime] and [mktime] of [<ctime>] as src/common/hourly_file_sink.h and
    spdlog use them, in a time zone with a fixed offset from UTC, and the time
    points of the system clock. *)

From Stdlib Require Import ZArith Lia.
From stdpp Require Import base list.
From S2P Require Import Prelude.
Local Open Scope Z_scope.

(** ** The calendar: [localtime] and [mktime] *)
Module Calendar.
Record tm := mkTm {
  tm_sec : Z;
  tm_min : Z;
  tm_hour : Z;
  tm_mday : Z;
  tm_mon : Z;
  tm_year : Z;
  tm_wday : Z;
  tm_gmtoff : Z;
}.

(** The year, the month from 1 and the day of a day counted from the epoch, in
    the Gregorian calendar; years are taken from March on, and 400 of them have
    146097 days. *)
Definition year_of_era (doe : Z) : Z := (doe - doe / 1460 + doe / 36524 - doe / 146096) / 365.
Definition day_of_year (doe : Z) : Z :=
  let yoe := year_of_era doe in doe - (365 * yoe + yoe / 4 - yoe / 100).
Definition month_of (mp : Z) : Z := if mp <? 10 then mp + 3 else mp - 9.
Definition civil_from_days (z : Z) : Z * Z * Z :=
  let z := z + 719468 in
  let doe := z mod 146097 in
  let doy := day_of_year doe in
  let mp := (5 * doy + 2) / 153 in
  let m := month_of mp in
  (year_of_era doe + z / 146097 * 400 + (if m <=? 2 then 1 else 0), m, doy - (153 * mp + 2) / 5 + 1).
Definition days_from_civil (y m d : Z) : Z :=
  let y := if m <=? 2 then y - 1 else y in
  let yoe := y mod 400 in
  let doy := (153 * (if 2 <? m then m - 3 else m + 9) + 2) / 5 + d - 1 in
  y / 400 * 146097 + (yoe * 365 + yoe / 4 - yoe / 100 + doy) - 719468.

Section zone.
Context (offset : Z).            (** seconds east of UTC *)
Definition localtime (t : Z) : tm :=
  let s := t + offset in
  let '(y, m, d) := civil_from_days (s / 86400) in
  let r := s mod 86400 in
  mkTm (r mod 60) (r / 60 mod 60) (r / 3600) d (m - 1) (y - 1900) ((s / 86400 + 4) mod 7) offset.
Definition mktime (date : tm) : Z :=
  days_from_civil (tm_year date + 1900) (tm_mon date + 1) (tm_mday date) * 86400 +
  tm_hour date * 3600 + tm_min date * 60 + tm_sec date - offset.

(** *** The two are inverse

    The days of an era without the leap days, and the first day of a year. *)
Definition common_days (doe : Z) : Z := doe - doe / 1460 + doe / 36524 - doe / 146096.
Definition year_start (yoe : Z) : Z := 365 * yoe + yoe / 4 - yoe / 100.
Lemma common_days_mono x y : x <= y -> common_days x <= common_days y.
Proof.
  intros H. replace y with (x + Z.of_nat (Z.to_nat (y - x))) by lia. generalize (Z.to_nat (y - x)). intros n.
  induction n as [|n IH]; [by rewrite Z.add_0_r|]. etransitivity; [exact IH|].
  replace (x + Z.of_nat (S n)) with (x + Z.of_nat n + 1) by lia. generalize (x + Z.of_nat n). intros z.
  unfold common_days. Z.to_euclidean_division_equations; lia.
Qed.
Definition year_check (n : nat) : bool :=
  let y := Z.of_nat n in
  (365 * y <=? common_days (year_start y)) && (common_days (year_start (y + 1) - 1) <? 365 * (y + 1)).
Lemma year_bounds y : 0 <= y < 400 ->
  365 * y <= common_days (year_start y) /\ common_days (year_start (y + 1) - 1) < 365 * (y + 1).
Proof.
  intros Hy. assert (forallb year_check (seq 0 400) = true) as Hc by reflexivity.
  rewrite forallb_forall in Hc. specialize (Hc (Z.to_nat y) ltac:(apply in_seq; lia)).
  unfold year_check in Hc. rewrite Z2Nat.id, andb_true_iff, Z.leb_le, Z.ltb_lt in Hc by lia. done.
Qed.
Lemma year_of_era_ok doe : 0 <= doe < 146097 ->
  0 <= year_of_era doe < 400 /\ year_start (year_of_era doe) <= doe <= year_start (year_of_era doe) + 365.
Proof.
  intros Hd. unfold year_of_era. fold (common_days doe). set (y := common_days doe / 365).
  assert (365 * y <= common_days doe < 365 * (y + 1)) as Hy by (unfold y; Z.to_euclidean_division_equations; lia).
  assert (0 <= y < 400) as Hr.
  { pose proof (common_days_mono 0 doe ltac:(lia)). pose proof (common_days_mono doe 146096 ltac:(lia)).
    change (common_days 0) with 0 in *. change (common_days 146096) with 145999 in *. lia. }
  split; [done|]. destruct (year_bounds y Hr) as [H1 H2]. split.
  - destruct (Z.le_gt_cases (year_start y) doe); [done|]. destruct (decide (y = 0)) as [E|].
    { assert (year_start y = 0) by (by rewrite E). lia. }
    destruct (year_bounds (y - 1) ltac:(lia)) as [_ H3]. rewrite Z.sub_add in H3.
    pose proof (common_days_mono doe (year_start y - 1) ltac:(lia)). lia.
  - destruct (decide (y = 399)) as [E|]; [assert (year_start y = 145731) by (by rewrite E); lia|].
    assert (year_start (y + 1) <= year_start y + 366) by (unfold year_start; Z.to_euclidean_division_equations; lia).
    destruct (Z.lt_ge_cases doe (year_start (y + 1))); [lia|].
    destruct (year_bounds (y + 1) ltac:(lia)) as [H3 _]. pose proof (common_days_mono (year_start (y + 1)) doe ltac:(lia)). lia.
Qed.

(** The months of a year. *)
Definition month_check (n : nat) : bool :=
  let doy := Z.of_nat n in
  let mp := (5 * doy + 2) / 153 in
  let m := month_of mp in
  let d := doy - (153 * mp + 2) / 5 + 1 in
  (1 <=? m) && (m <=? 12) && (1 <=? d) && (d <=? 31) &&
  ((153 * (if 2 <? m then m - 3 else m + 9) + 2) / 5 + d - 1 =? doy).
Lemma month_ok doy : 0 <= doy <= 365 ->
  let mp := (5 * doy + 2) / 153 in
  let m := month_of mp in
  let d := doy - (153 * mp + 2) / 5 + 1 in
  1 <= m <= 12 /\ 1 <= d <= 31 /\ (153 * (if 2 <? m then m - 3 else m + 9) + 2) / 5 + d - 1 = doy.
Proof.
  intros Hy. assert (forallb month_check (seq 0 366) = true) as Hc by reflexivity.
  rewrite forallb_forall in Hc. specialize (Hc (Z.to_nat doy) ltac:(apply in_seq; lia)).
  unfold month_check in Hc. rewrite Z2Nat.id in Hc by lia. cbv zeta in *.
  rewrite !andb_true_iff, Z.eqb_eq, !Z.leb_le in Hc. lia.
Qed.
Lemma civil_ranges z :
  let '(y, m, d) := civil_from_days z in
  days_from_civil y m d = z /\ 1 <= m <= 12 /\ 1 <= d <= 31 /\
  (z + 719468) / 146097 * 400 <= y <= (z + 719468) / 146097 * 400 + 400.
Proof.
  unfold civil_from_days. cbv zeta.
  pose proof (Z.mod_pos_bound (z + 719468) 146097 ltac:(lia)) as Hd. pose proof (Z.div_mod (z + 719468) 146097) as Hz.
  destruct (year_of_era_ok _ Hd) as [Hy Hs]. unfold day_of_year. cbv zeta. unfold year_start in Hs.
  set (doe := (z + 719468) mod 146097) in *. set (era := (z + 719468) / 146097) in *.
  set (yoe := year_of_era doe) in *. set (doy := doe - _) in *.
  assert (0 <= doy <= 365) as Hdoy by (unfold doy; Z.to_euclidean_division_equations; lia).
  destruct (month_ok doy Hdoy) as (Hm & Hdd & Hsum). cbv zeta in Hm, Hdd, Hsum.
  set (m := month_of _) in *. set (dd := _ - _ + 1) in *. unfold days_from_civil. cbv zeta.
  assert ((if m <=? 2 then yoe + era * 400 + (if m <=? 2 then 1 else 0) - 1 else yoe + era * 400 + (if m <=? 2 then 1 else 0)) =
    yoe + era * 400) as -> by (destruct (m <=? 2); lia).
  rewrite Z.mod_add, (Z.mod_small yoe), Z.div_add, (Z.div_small yoe) by lia.
  split; [|split; [lia|split; [lia|]]]; [unfold doy in *; lia|destruct (m <=? 2); lia].
Qed.

(** The hours since the epoch, in local time. *)
Definition hour_of (t : Z) : Z := (t + offset) / 3600.
Lemma localtime_hour t :
  localtime t = let l := localtime (hour_of t * 3600 - offset) in
    mkTm ((t + offset) mod 60) ((t + offset) / 60 mod 60) (tm_hour l) (tm_mday l) (tm_mon l) (tm_year l)
      (tm_wday l) (tm_gmtoff l).
Proof.
  unfold localtime, hour_of. rewrite Z.sub_add. cbv zeta.
  assert ((t + offset) / 3600 * 3600 / 86400 = (t + offset) / 86400) as ->
    by (Z.to_euclidean_division_equations; lia).
  destruct (civil_from_days _) as [[y m] d]. cbn.
  f_equal; Z.to_euclidean_division_equations; lia.
Qed.
Lemma mktime_ext s mi h d mo y w o w' o' : mktime (mkTm s mi h d mo y w o) = mktime (mkTm s mi h d mo y w' o').
Proof. reflexivity. Qed.
Lemma mktime_hour t :
  let date := localtime t in
  mktime (mkTm 0 0 (tm_hour date) (tm_mday date) (tm_mon date) (tm_year date) (tm_wday date) (tm_gmtoff date)) = hour_of t * 3600 - offset.
Proof.
  unfold localtime, mktime, hour_of. cbv zeta. pose proof (civil_ranges ((t + offset) / 86400)) as H.
  destruct (civil_from_days _) as [[y m] d]. destruct H as [H _]. cbn. rewrite !Z.sub_add, H.
  Z.to_euclidean_division_equations; lia.
Qed.
End zone.

(** ** Time points: nanoseconds since the epoch

    [to_time_t], and [duration_cast] to seconds, drop the fraction of a second. *)
Definition ns_per_s : Z := 1000000000.
Definition to_time_t (tp : Z) : Z := tp ÷ ns_per_s.
Definition from_time_t (t : Z) : Z := t * ns_per_s.
Lemma to_time_t_pos tp : 0 <= tp -> to_time_t tp = tp / ns_per_s.
Proof. intros H. unfold to_time_t. apply Z.quot_div_nonneg; [done|reflexivity]. Qed.
End Calendar.
