(* ===== verification/LogFormat.v ===== *)
(** * Log lines: the pattern formatter of spdlog

    src/opt/spdlog/include/spdlog/details/pattern_formatter.h with
    details/fmt_helper.h, details/log_msg.h and the levels of common.h.  A
    pattern such as ["[%Y-%m-%d %H:%M:%S] [%n] [%^%L%$] %v"] is compiled to a
    vector of flag formatters, which are run on every message; the broken-down
    time is cached from one message to the next.  [line_spec] is what a pattern
    means, and the theorem that the formatter writes it, caches and all. *)

From Stdlib Require Import ZArith Lia.
From stdpp Require Import base list strings.
From S2P Require Import Prelude Endian Buffer Text LogTime.
Local Open Scope Z_scope.
Import Calendar.

Module Pattern.
(** ** Levels and messages *)
Inductive level_enum := trace | debug | info | warn | err | critical | off.
#[export] Instance level_enum_eq_dec : EqDecision level_enum.
Proof. solve_decision. Defined.
Definition level_to_Z (l : level_enum) : Z :=
  match l with trace => 0 | debug => 1 | info => 2 | warn => 3 | err => 4 | critical => 5 | off => 6 end.
Definition to_c_str (l : level_enum) : bytes :=
  match l with
  | trace => str "trace" | debug => str "debug" | info => str "info" | warn => str "warning"
  | err => str "error" | critical => str "critical" | off => str "off"
  end.
Definition to_short_c_str (l : level_enum) : bytes :=
  match l with
  | trace => str "T" | debug => str "D" | info => str "I" | warn => str "W"
  | err => str "E" | critical => str "C" | off => str "O"
  end.
Definition from_str (name : bytes) : level_enum :=
  if decide (name = to_c_str trace) then trace
  else if decide (name = to_c_str debug) then debug
  else if decide (name = to_c_str info) then info
  else if decide (name = to_c_str warn) then warn
  else if decide (name = to_c_str err) then err
  else if decide (name = to_c_str critical) then critical
  else if decide (name = to_c_str off) then off
  else off.

Record log_msg := mkMsg {
  logger_name : bytes;
  level : level_enum;
  time : Z;
  thread_id : Z;
  raw : bytes;
  color_range_start : Z;
  color_range_end : Z;
}.
Definition set_color_start (n : Z) (m : log_msg) : log_msg :=
  mkMsg (logger_name m) (level m) (time m) (thread_id m) (raw m) n (color_range_end m).
Definition set_color_end (n : Z) (m : log_msg) : log_msg :=
  mkMsg (logger_name m) (level m) (time m) (thread_id m) (raw m) (color_range_start m) n.

(** ** Numbers *)

(** fmt's ["{:0wd}"]: zeros between the sign and the digits. *)
Definition pad (w : nat) (n : Z) : bytes :=
  let s := to_string n in replicate (w - length s) Byte.x30 ++ s.
Definition fmt_zero (w : nat) (n : Z) : bytes :=
  if n <? 0 then str "-" ++ pad (w - 1) (- n) else pad w n.

Definition append_int (n : Z) : bytes := to_string n.
Definition pad2 (n : Z) : bytes :=
  if 99 <? n then append_int n
  else if 9 <? n then [digit (n ÷ 10); digit (Z.rem n 10)]
  else if 0 <=? n then str "0" ++ [digit n]
  else fmt_zero 2 n.
Definition pad3 (n : Z) : bytes :=
  if 999 <? n then append_int n
  else if 99 <? n then [digit (n ÷ 100)] ++ pad2 (Z.rem n 100)
  else if 9 <? n then str "0" ++ [digit (n ÷ 10); digit (Z.rem n 10)]
  else if 0 <=? n then str "00" ++ [digit n]
  else fmt_zero 3 n.
(** The argument is a [size_t]. *)
Definition pad6 (n : Z) : bytes :=
  if 99999 <? n then append_int n else pad3 (n / 1000) ++ pad3 (n mod 1000).
(** The fraction of a second, in units of [unit] nanoseconds. *)
Definition time_fraction (unit tp : Z) : Z := tp ÷ unit - to_time_t tp * (ns_per_s ÷ unit).

(** ** The flag formatters *)
Definition ampm (t : tm) : bytes := if 12 <=? tm_hour t then str "PM" else str "AM".
Definition to12h (t : tm) : Z := if 12 <? tm_hour t then tm_hour t - 12 else tm_hour t.
Definition days : list bytes := map str ["Sun"; "Mon"; "Tue"; "Wed"; "Thu"; "Fri"; "Sat"]%string.
Definition full_days : list bytes :=
  map str ["Sunday"; "Monday"; "Tuesday"; "Wednesday"; "Thursday"; "Friday"; "Saturday"]%string.
Definition months : list bytes :=
  map str ["Jan"; "Feb"; "Mar"; "Apr"; "May"; "Jun"; "Jul"; "Aug"; "Sept"; "Oct"; "Nov"; "Dec"]%string.
Definition full_months : list bytes :=
  map str ["January"; "February"; "March"; "April"; "May"; "June"; "July"; "August"; "September"; "October"; "November";
    "December"]%string.
(** Outside its bounds an array has no value. *)
Definition index (l : list bytes) (i : Z) : res bytes :=
  if i <? 0 then Err UB else match l !! Z.to_nat i with Some s => Ok s | None => Err UB end.

Inductive flag_formatter :=
  | name_formatter | level_formatter | short_level_formatter | t_formatter | v_formatter
  | a_formatter | A_formatter | b_formatter | B_formatter | c_formatter | C_formatter | Y_formatter | D_formatter
  | m_formatter | d_formatter | H_formatter | I_formatter | M_formatter | S_formatter | e_formatter | f_formatter
  | F_formatter | E_formatter | p_formatter | r_formatter | R_formatter | T_formatter | z_formatter
  | full_formatter (cache_timestamp_ : Z) (cached_datetime_ : bytes) | pid_formatter
  | color_start_formatter | color_stop_formatter | ch_formatter (ch_ : byte) | aggregate_formatter (str_ : bytes).

Inductive pattern_time_type := local | utc.

Section format.
(** The time zone, and the process. *)
Context (offset pid : Z).

(** The date and time of the full format, up to the milliseconds. *)
Definition datetime (t : tm) : bytes :=
  str "[" ++ append_int (tm_year t + 1900) ++ str "-" ++ pad2 (tm_mon t + 1) ++ str "-" ++ pad2 (tm_mday t) ++ str " " ++
  pad2 (tm_hour t) ++ str ":" ++ pad2 (tm_min t) ++ str ":" ++ pad2 (tm_sec t) ++ str ".".
Definition full_head (cached : bytes) (msg : log_msg) : bytes :=
  cached ++ pad3 (s32 (time_fraction 1000000 (time msg))) ++ str "] " ++ str "[" ++ logger_name msg ++ str "] " ++ str "[".

(** What a formatter appends. *)
Definition text (f : flag_formatter) (msg : log_msg) (t : tm) : res bytes :=
  match f with
  | name_formatter => Ok (logger_name msg)
  | level_formatter => Ok (to_c_str (level msg))
  | short_level_formatter => Ok (to_short_c_str (level msg))
  | t_formatter => Ok (pad6 (thread_id msg))
  | v_formatter => Ok (raw msg)
  | a_formatter => index days (tm_wday t)
  | A_formatter => index full_days (tm_wday t)
  | b_formatter => index months (tm_mon t)
  | B_formatter => index full_months (tm_mon t)
  | c_formatter =>
      let* d := index days (tm_wday t) in
      let* m := index months (tm_mon t) in
      Ok (d ++ str " " ++ m ++ str " " ++ append_int (tm_mday t) ++ str " " ++ pad2 (tm_hour t) ++ str ":" ++
          pad2 (tm_min t) ++ str ":" ++ pad2 (tm_sec t) ++ str " " ++ append_int (tm_year t + 1900))
  | C_formatter => Ok (pad2 (Z.rem (tm_year t) 100))
  | Y_formatter => Ok (append_int (tm_year t + 1900))
  | D_formatter =>
      Ok (pad2 (tm_mon t + 1) ++ str "/" ++ pad2 (tm_mday t) ++ str "/" ++ pad2 (Z.rem (tm_year t) 100))
  | m_formatter => Ok (pad2 (tm_mon t + 1))
  | d_formatter => Ok (pad2 (tm_mday t))
  | H_formatter => Ok (pad2 (tm_hour t))
  | I_formatter => Ok (pad2 (to12h t))
  | M_formatter => Ok (pad2 (tm_min t))
  | S_formatter => Ok (pad2 (tm_sec t))
  | e_formatter => Ok (pad3 (s32 (time_fraction 1000000 (time msg))))
  | f_formatter => Ok (pad6 (u64 (time_fraction 1000 (time msg))))
  | F_formatter => Ok (fmt_zero 9 (time_fraction 1 (time msg)))
  | E_formatter => Ok (append_int (to_time_t (time msg)))
  | p_formatter => Ok (ampm t)
  | r_formatter =>
      Ok (pad2 (to12h t) ++ str ":" ++ pad2 (tm_min t) ++ str ":" ++ pad2 (tm_sec t) ++ str " " ++ ampm t)
  | R_formatter => Ok (pad2 (tm_hour t) ++ str ":" ++ pad2 (tm_min t))
  | T_formatter => Ok (pad2 (tm_hour t) ++ str ":" ++ pad2 (tm_min t) ++ str ":" ++ pad2 (tm_sec t))
  | z_formatter =>
      let total_minutes := s32 (tm_gmtoff t ÷ 60) in
      let '(sign, total_minutes) := if total_minutes <? 0 then (str "-", - total_minutes) else (str "+", total_minutes) in
      Ok (sign ++ pad2 (total_minutes ÷ 60) ++ str ":" ++ pad2 (Z.rem total_minutes 60))
  | full_formatter _ _ =>
      Ok (full_head (datetime t) msg ++ to_c_str (level msg) ++ str "] " ++ raw msg)
  | pid_formatter => Ok (append_int pid)
  | color_start_formatter | color_stop_formatter => Ok []
  | ch_formatter ch => Ok [ch]
  | aggregate_formatter s => Ok s
  end.

(** [format] of a formatter: the full format keeps its date and time for the
    next message of the second, the color flags mark a place in the line. *)
Definition format_flag (f : flag_formatter) (msg : log_msg) (t : tm) (dest : bytes) : res (flag_formatter * log_msg * bytes) :=
  match f with
  | full_formatter cache_timestamp cached_datetime =>
      let secs := to_time_t (time msg) in
      let '(cache_timestamp, cached_datetime) :=
        if negb (cache_timestamp =? secs) || (zlen cached_datetime =? 0) then (secs, datetime t)
        else (cache_timestamp, cached_datetime) in
      let dest := dest ++ full_head cached_datetime msg in
      let msg := set_color_start (zlen dest) msg in
      let dest := dest ++ to_c_str (level msg) in
      let msg := set_color_end (zlen dest) msg in
      Ok (full_formatter cache_timestamp cached_datetime, msg, dest ++ str "] " ++ raw msg)
  | color_start_formatter => Ok (f, set_color_start (zlen dest) msg, dest)
  | color_stop_formatter => Ok (f, set_color_end (zlen dest) msg, dest)
  | _ => let* s := text f msg t in Ok (f, msg, dest ++ s)
  end.
Fixpoint format_flags (fs : list flag_formatter) (msg : log_msg) (t : tm) (dest : bytes) :
    res (list flag_formatter * log_msg * bytes) :=
  match fs with
  | [] => Ok ([], msg, dest)
  | f :: fs =>
      let* (r, dest) := format_flag f msg t dest in
      let* (r', dest) := format_flags fs r.2 t dest in
      Ok (r.1 :: r'.1, r'.2, dest)
  end.

(** ** The pattern formatter *)
Record pattern_formatter := mkFormatter {
  pattern_ : bytes;
  eol_ : bytes;
  pattern_time_type_ : pattern_time_type;
  cached_tm_ : tm;
  last_log_secs_ : Z;
  formatters_ : list flag_formatter;
}.

(** What [handle_flag_] pushes; an unknown flag appears as it is. *)
Definition handle_flag_ (flag : byte) : list flag_formatter :=
  match flag with
  | Byte.x6e => [name_formatter]
  | Byte.x6c => [level_formatter]
  | Byte.x4c => [short_level_formatter]
  | Byte.x74 => [t_formatter]
  | Byte.x76 => [v_formatter]
  | Byte.x61 => [a_formatter]
  | Byte.x41 => [A_formatter]
  | Byte.x62 | Byte.x68 => [b_formatter]
  | Byte.x42 => [B_formatter]
  | Byte.x63 => [c_formatter]
  | Byte.x43 => [C_formatter]
  | Byte.x59 => [Y_formatter]
  | Byte.x44 | Byte.x78 => [D_formatter]
  | Byte.x6d => [m_formatter]
  | Byte.x64 => [d_formatter]
  | Byte.x48 => [H_formatter]
  | Byte.x49 => [I_formatter]
  | Byte.x4d => [M_formatter]
  | Byte.x53 => [S_formatter]
  | Byte.x65 => [e_formatter]
  | Byte.x66 => [f_formatter]
  | Byte.x46 => [F_formatter]
  | Byte.x45 => [E_formatter]
  | Byte.x70 => [p_formatter]
  | Byte.x72 => [r_formatter]
  | Byte.x52 => [R_formatter]
  | Byte.x54 | Byte.x58 => [T_formatter]
  | Byte.x7a => [z_formatter]
  | Byte.x2b => [full_formatter 0 []]
  | Byte.x50 => [pid_formatter]
  | Byte.x5e => [color_start_formatter]
  | Byte.x24 => [color_stop_formatter]
  | _ => [ch_formatter Byte.x25; ch_formatter flag]
  end.
Definition push_user_chars (user_chars : option bytes) (formatters : list flag_formatter) : list flag_formatter :=
  match user_chars with Some s => formatters ++ [aggregate_formatter s] | None => formatters end.
(** The loop; characters that are not flags are gathered in [user_chars]. *)
Fixpoint compile_loop (pattern : bytes) (user_chars : option bytes) (formatters : list flag_formatter) : list flag_formatter :=
  match pattern with
  | [] => push_user_chars user_chars formatters
  | c :: pattern =>
      if decide (c = Byte.x25) then
        match pattern with
        | [] => push_user_chars user_chars formatters
        | flag :: pattern => compile_loop pattern None (push_user_chars user_chars formatters ++ handle_flag_ flag)
        end
      else compile_loop pattern (Some (default [] user_chars ++ [c])) formatters
  end.
Definition compile_pattern_ (pattern : bytes) : list flag_formatter := compile_loop pattern None [].

Definition pattern_formatter_new (pattern : bytes) (time_type : pattern_time_type) (eol : bytes) : pattern_formatter :=
  mkFormatter pattern eol time_type (mkTm 0 0 0 0 0 0 0 0) 0 (compile_pattern_ pattern).

Definition get_time_ (time_type : pattern_time_type) (msg : log_msg) : tm :=
  match time_type with
  | local => localtime offset (to_time_t (time msg))
  | utc => localtime 0 (to_time_t (time msg))
  end.
Definition format (msg : log_msg) (dest : bytes) (p : pattern_formatter) : res (log_msg * bytes * pattern_formatter) :=
  let secs := to_time_t (time msg) in
  let '(cached_tm, last_log_secs) :=
    if negb (secs =? last_log_secs_ p) then (get_time_ (pattern_time_type_ p) msg, secs)
    else (cached_tm_ p, last_log_secs_ p) in
  let* (r, dest) := format_flags (formatters_ p) msg cached_tm dest in
  Ok (r.2, dest ++ eol_ p, mkFormatter (pattern_ p) (eol_ p) (pattern_time_type_ p) cached_tm last_log_secs r.1).

(** The lines of a sequence of messages. *)
Fixpoint format_all (l : list log_msg) (p : pattern_formatter) : res (list bytes * pattern_formatter) :=
  match l with
  | [] => Ok ([], p)
  | msg :: l =>
      let* (r, p) := format msg [] p in
      let* (lines, p) := format_all l p in
      Ok (r.2 :: lines, p)
  end.

(** ** What a pattern means *)
Fixpoint concat_text (fs : list flag_formatter) (msg : log_msg) (t : tm) : res bytes :=
  match fs with
  | [] => Ok []
  | f :: fs => let* s := text f msg t in let* s' := concat_text fs msg t in Ok (s ++ s')
  end.
Fixpoint line_spec (pattern : bytes) (msg : log_msg) (t : tm) : res bytes :=
  match pattern with
  | [] => Ok []
  | c :: pattern =>
      if decide (c = Byte.x25) then
        match pattern with
        | [] => Ok []
        | flag :: pattern =>
            let* s := concat_text (handle_flag_ flag) msg t in
            let* s' := line_spec pattern msg t in Ok (s ++ s')
        end
      else let* s := line_spec pattern msg t in Ok (c :: s)
  end.

(** *** Padding: the hand-written one prints as fmt's *)
Lemma digits_small k n : 0 <= n < 10 -> digits (S k) n = [digit n].
Proof. intros H. cbn. by rewrite (proj2 (Z.ltb_lt n 10)) by lia. Qed.
Lemma digits_more k n : 10 <= n -> digits (S k) n = digits k (n / 10) ++ [digit (n mod 10)].
Proof. intros H. cbn. by rewrite (proj2 (Z.ltb_ge n 10)) by lia. Qed.

(** A number with exactly [k] digits. *)
Fixpoint fixed (k : nat) (n : Z) : bytes :=
  match k with O => [] | S k => fixed k (n / 10) ++ [digit (n mod 10)] end.
Lemma fixed_0 k : fixed k 0 = replicate k Byte.x30.
Proof. induction k as [|k IH]; [done|]. cbn [fixed]. change (0 / 10) with 0. rewrite IH. by rewrite replicate_S_end. Qed.
Lemma digits_fixed w k n :
  (w < k)%nat -> 0 <= n < 10 ^ Z.of_nat (S w) -> replicate (S w - length (digits k n)) Byte.x30 ++ digits k n = fixed (S w) n.
Proof.
  revert k n. induction w as [|w IH]; intros k n Hk Hn; (destruct k as [|k]; [lia|]).
  - change (10 ^ Z.of_nat 1) with 10 in Hn. rewrite digits_small by lia. cbn [fixed app length replicate Nat.sub]. by rewrite Z.mod_small by lia.
  - destruct (Z.lt_ge_cases n 10) as [Hs|Hg].
    + rewrite digits_small by lia. cbn [length fixed]. rewrite (Z.div_small n), (Z.mod_small n) by lia.
      change (fixed w (0 / 10) ++ [digit (0 mod 10)]) with (fixed (S w) 0). by rewrite fixed_0.
    + rewrite digits_more by done. rewrite length_app. cbn [length].
      replace (S (S w) - (length (digits k (n / 10)) + 1))%nat with (S w - length (digits k (n / 10)))%nat by lia.
      rewrite app_assoc, IH; [done|lia|]. rewrite Nat2Z.inj_succ, Z.pow_succ_r in Hn by lia.
      split; [apply Z.div_pos; lia|apply Z.div_lt_upper_bound; lia].
Qed.
Lemma digits_len_ge k j n : (j < k)%nat -> 10 ^ Z.of_nat j <= n -> (j < length (digits k n))%nat.
Proof.
  revert j n. induction k as [|k IH]; intros j n Hj Hn; [lia|].
  pose proof (Z.pow_pos_nonneg 10 (Z.of_nat j) ltac:(lia) ltac:(lia)).
  destruct (Z.lt_ge_cases n 10); [rewrite digits_small by lia; cbn [length]|rewrite digits_more by lia; rewrite length_app; cbn [length]].
  - destruct j as [|j]; [lia|]. rewrite Nat2Z.inj_succ, Z.pow_succ_r in Hn by lia.
    pose proof (Z.pow_pos_nonneg 10 (Z.of_nat j) ltac:(lia) ltac:(lia)). lia.
  - destruct j as [|j]; [lia|]. rewrite Nat2Z.inj_succ, Z.pow_succ_r in Hn by lia.
    specialize (IH j (n / 10) ltac:(lia) ltac:(apply Z.div_le_lower_bound; lia)). lia.
Qed.
Lemma pad_fixed w n : (w < 20)%nat -> 0 <= n < 10 ^ Z.of_nat (S w) -> pad (S w) n = fixed (S w) n.
Proof. intros Hw Hn. unfold pad. rewrite to_string_pos by lia. by apply digits_fixed. Qed.
Lemma pad_long w n : (w < 20)%nat -> 10 ^ Z.of_nat w <= n -> pad (S w) n = append_int n.
Proof.
  intros Hw Hn. pose proof (Z.pow_pos_nonneg 10 (Z.of_nat w) ltac:(lia) ltac:(lia)).
  unfold pad, append_int. rewrite to_string_pos by lia.
  pose proof (digits_len_ge 20 w n Hw Hn). by replace (S w - length (digits 20 n))%nat with 0%nat by lia.
Qed.
Lemma cons_digit a b l l' : a = b -> l = l' -> digit a :: l = digit b :: l'.
Proof. by intros -> ->. Qed.
Ltac quot_to_div := rewrite ?Z.quot_div_nonneg, ?Z.rem_mod_nonneg by lia.
Lemma pad2_fmt n : pad2 n = fmt_zero 2 n.
Proof.
  unfold pad2, fmt_zero. destruct (Z.ltb_spec 99 n), (Z.ltb_spec 9 n), (Z.leb_spec 0 n), (Z.ltb_spec n 0); try lia; try done.
  - by rewrite (pad_long 1) by (change (10 ^ Z.of_nat 1) with 10; lia).
  - rewrite (pad_fixed 1) by (change (10 ^ Z.of_nat 2) with 100; lia). quot_to_div. cbn [fixed app length replicate Nat.sub].
    by rewrite (Z.mod_small (n / 10)) by (Z.to_euclidean_division_equations; lia).
  - rewrite (pad_fixed 1) by (change (10 ^ Z.of_nat 2) with 100; lia). cbn [fixed app length replicate Nat.sub].
    rewrite (Z.div_small n 10), (Z.mod_small n) by lia. done.
Qed.
Lemma pad2_fixed n : 0 <= n < 100 -> pad2 n = fixed 2 n.
Proof.
  intros H. rewrite pad2_fmt. unfold fmt_zero. rewrite (proj2 (Z.ltb_ge n 0)) by lia. by apply (pad_fixed 1); [lia|].
Qed.
Lemma pad3_fmt n : pad3 n = fmt_zero 3 n.
Proof.
  unfold pad3, fmt_zero.
  destruct (Z.ltb_spec 999 n), (Z.ltb_spec 99 n), (Z.ltb_spec 9 n), (Z.leb_spec 0 n), (Z.ltb_spec n 0); try lia; try done.
  - by rewrite (pad_long 2) by (change (10 ^ Z.of_nat 2) with 100; lia).
  - quot_to_div. rewrite pad2_fixed, (pad_fixed 2) by (change (10 ^ Z.of_nat 3) with 1000; Z.to_euclidean_division_equations; lia).
    cbn [fixed app length replicate Nat.sub]. repeat (apply cons_digit; [Z.to_euclidean_division_equations; lia|]). done.
  - rewrite (pad_fixed 2) by (change (10 ^ Z.of_nat 3) with 1000; lia). quot_to_div. cbn [fixed app length replicate Nat.sub].
    by rewrite (Z.div_small (n / 10)), (Z.mod_small (n / 10)) by (Z.to_euclidean_division_equations; lia).
  - rewrite (pad_fixed 2) by (change (10 ^ Z.of_nat 3) with 1000; lia). cbn [fixed app length replicate Nat.sub].
    rewrite (Z.div_small n 10), (Z.mod_small n) by lia. done.
Qed.
Lemma pad6_fmt n : 0 <= n -> pad6 n = fmt_zero 6 n.
Proof.
  intros H. unfold pad6. destruct (Z.ltb_spec 99999 n).
  - unfold fmt_zero. rewrite (proj2 (Z.ltb_ge n 0)) by lia. by rewrite (pad_long 5) by (change (10 ^ Z.of_nat 5) with 100000; lia).
  - rewrite !pad3_fmt. unfold fmt_zero. rewrite !(proj2 (Z.ltb_ge _ _)) by (Z.to_euclidean_division_equations; lia).
    rewrite !(pad_fixed 2), (pad_fixed 5) by
      (change (10 ^ Z.of_nat 3) with 1000; change (10 ^ Z.of_nat 6) with 1000000; Z.to_euclidean_division_equations; lia).
    cbn [fixed app length replicate Nat.sub]. repeat (apply cons_digit; [Z.to_euclidean_division_equations; lia|]). done.
Qed.

(** *** The compiled pattern *)
Lemma concat_text_app a b msg t :
  concat_text (a ++ b) msg t = (let* s := concat_text a msg t in let* s' := concat_text b msg t in Ok (s ++ s')).
Proof.
  induction a as [|f a IH]; cbn [app concat_text bind]; [by destruct (concat_text b msg t)|].
  rewrite IH. destruct (text f msg t); cbn [bind]; [|done]. destruct (concat_text a msg t); cbn [bind]; [|done].
  destruct (concat_text b msg t); cbn [bind]; [|done]. by rewrite app_assoc.
Qed.
Lemma push_user_chars_text u fs msg t :
  concat_text (push_user_chars u fs) msg t = (let* s := concat_text fs msg t in Ok (s ++ default [] u)).
Proof.
  destruct u as [s|]; cbn; [rewrite concat_text_app; cbn|]; destruct (concat_text fs msg t); cbn; try done; by rewrite ?app_nil_r.
Qed.
Lemma compile_loop_text n pattern u fs msg t : (length pattern < n)%nat ->
  concat_text (compile_loop pattern u fs) msg t =
    (let* s := concat_text fs msg t in let* s' := line_spec pattern msg t in Ok (s ++ default [] u ++ s')).
Proof.
  revert pattern u fs. induction n as [|n IH]; intros pattern u fs Hn; [lia|]. destruct pattern as [|c pattern].
  { cbn. rewrite push_user_chars_text. destruct (concat_text fs msg t); cbn; [|done]. by rewrite app_nil_r. }
  cbn [length] in Hn. cbn [compile_loop line_spec]. case_decide as Hc.
  - destruct pattern as [|flag pattern].
    { rewrite push_user_chars_text. destruct (concat_text fs msg t); cbn; [|done]. by rewrite app_nil_r. }
    cbn [length] in Hn. rewrite IH by lia. rewrite concat_text_app, push_user_chars_text.
    destruct (concat_text fs msg t); cbn [bind]; [|done]. destruct (concat_text (handle_flag_ flag) msg t); cbn [bind]; [|done].
    destruct (line_spec pattern msg t); cbn [bind from_option id]; [|done]. by rewrite <- !app_assoc.
  - rewrite IH by lia. destruct (concat_text fs msg t); cbn [bind]; [|done]. destruct (line_spec pattern msg t); cbn [bind from_option id]; [|done].
    by rewrite <- !app_assoc.
Qed.
Lemma compile_text pattern msg t : concat_text (compile_pattern_ pattern) msg t = line_spec pattern msg t.
Proof.
  unfold compile_pattern_. rewrite (compile_loop_text (S (length pattern))) by lia. cbn. by destruct (line_spec pattern msg t).
Qed.

(** *** The caches *)

(** The broken-down time of a second, as the formatter shows it. *)
Definition time_at (tt : pattern_time_type) (secs : Z) : tm :=
  match tt with local => localtime offset secs | utc => localtime 0 secs end.
Lemma get_time_at tt msg : get_time_ tt msg = time_at tt (to_time_t (time msg)).
Proof. by destruct tt. Qed.
Definition cache_ok (tt : pattern_time_type) (f : flag_formatter) : Prop :=
  match f with full_formatter ts cached => cached = [] \/ cached = datetime (time_at tt ts) | _ => True end.
Definition erase (f : flag_formatter) : flag_formatter :=
  match f with full_formatter _ _ => full_formatter 0 [] | f => f end.
(** Messages that differ in the marks of the colors only. *)
Definition same (m m' : log_msg) : Prop :=
  exists s e, m' = mkMsg (logger_name m) (level m) (time m) (thread_id m) (raw m) s e.

Lemma same_refl m : same m m.
Proof. exists (color_range_start m), (color_range_end m). by destruct m. Qed.
Lemma same_trans m1 m2 m3 : same m1 m2 -> same m2 m3 -> same m1 m3.
Proof. intros (s & e & ->) (s' & e' & ->). by exists s', e'. Qed.
Lemma text_same f m m' t : same m m' -> text f m' t = text f m t.
Proof. intros (s & e & ->). by destruct f. Qed.
Lemma text_erase f m t : text (erase f) m t = text f m t.
Proof. by destruct f. Qed.
Lemma concat_text_same fs m m' t : same m m' -> concat_text fs m' t = concat_text fs m t.
Proof. intros H. induction fs as [|f fs IH]; cbn; [done|]. by rewrite (text_same f m m'), IH. Qed.
Lemma concat_text_erase fs m t : concat_text (map erase fs) m t = concat_text fs m t.
Proof. induction fs as [|f fs IH]; cbn; [done|]. by rewrite text_erase, IH. Qed.
Lemma compile_loop_cache tt n pattern u fs : (length pattern < n)%nat ->
  Forall (cache_ok tt) fs -> Forall (cache_ok tt) (compile_loop pattern u fs).
Proof.
  assert (forall u fs, Forall (cache_ok tt) fs -> Forall (cache_ok tt) (push_user_chars u fs)) as Hpush.
  { intros u' fs' H. destruct u'; [apply Forall_app; by split; [|repeat constructor]|done]. }
  assert (forall flag, Forall (cache_ok tt) (handle_flag_ flag)) as Hflag
    by (intros flag; destruct flag; repeat constructor).
  revert pattern u fs. induction n as [|n IH]; intros pattern u fs Hn H; [lia|]. destruct pattern as [|c pattern]; [by apply Hpush|].
  cbn [length] in Hn. cbn [compile_loop]. case_decide; [|apply IH; [lia|done]].
  destruct pattern as [|flag pattern]; [by apply Hpush|]. cbn [length] in Hn. apply IH; [lia|]. apply Forall_app. auto.
Qed.

Lemma format_flag_ok tt f msg dest s :
  let t := time_at tt (to_time_t (time msg)) in
  cache_ok tt f -> text f msg t = Ok s ->
  exists f' msg', format_flag f msg t dest = Ok (f', msg', dest ++ s) /\ same msg msg' /\ cache_ok tt f' /\ erase f' = erase f.
Proof.
  intros t Hf Ht. destruct f; cbn [format_flag];
    try (rewrite Ht; cbn [bind]; eexists _, _; split; [done|]; split; [apply same_refl|by split]).
  - assert (full_head (datetime t) msg ++ to_c_str (level msg) ++ str "] " ++ raw msg = s) as <- by (by injection Ht).
    assert ((if negb (cache_timestamp_ =? to_time_t (time msg)) || (zlen cached_datetime_ =? 0) then (to_time_t (time msg), datetime t)
             else (cache_timestamp_, cached_datetime_)) = (to_time_t (time msg), datetime t)) as ->.
    { destruct (Z.eqb_spec cache_timestamp_ (to_time_t (time msg))) as [->|]; cbn [negb orb]; [|done].
      destruct Hf as [-> | ->]; [done|]. by destruct (zlen _ =? 0). }
    cbv zeta. eexists _, _. split; [rewrite <- !app_assoc; reflexivity|]. split; [by eexists _, _|]. split; [by right|done].
  - injection Ht as <-. rewrite app_nil_r. eexists _, _. split; [done|]. split; [by eexists _, _|by split].
  - injection Ht as <-. rewrite app_nil_r. eexists _, _. split; [done|]. split; [by eexists _, _|by split].
Qed.
Lemma format_flags_ok tt fs msg dest s :
  let t := time_at tt (to_time_t (time msg)) in
  Forall (cache_ok tt) fs -> concat_text fs msg t = Ok s ->
  exists fs' msg', format_flags fs msg t dest = Ok (fs', msg', dest ++ s) /\ same msg msg' /\ Forall (cache_ok tt) fs' /\
    map erase fs' = map erase fs.
Proof.
  revert msg dest s. induction fs as [|f fs IH]; intros msg dest s t Hc Ht; cbn [format_flags].
  { injection Ht as <-. exists [], msg. rewrite app_nil_r. split; [done|]. split; [apply same_refl|by split]. }
  inversion_clear Hc as [|? ? Hf Hfs]. cbn [concat_text] in Ht. apply bind_Ok_inv in Ht as (s1 & E1 & Ht).
  apply bind_Ok_inv in Ht as (s2 & E2 & [= <-]).
  destruct (format_flag_ok tt f msg dest s1 Hf E1) as (f' & msg' & E & Hm & Hf' & He). fold t in E. rewrite E. cbn [bind fst snd].
  assert (time msg' = time msg) as Etime by (destruct Hm as (? & ? & ->); done).
  destruct (IH msg' (dest ++ s1) s2) as (fs' & msg2 & E' & Hm' & Hfs' & He').
  { done. }
  { rewrite Etime. rewrite (concat_text_same fs msg msg') by done. exact E2. }
  rewrite Etime in E'. fold t in E'. rewrite E'. cbn [bind fst snd]. exists (f' :: fs'), msg2.
  rewrite <- app_assoc. split; [done|]. split; [by eapply same_trans|]. split; [by constructor|]. cbn. by rewrite He, He'.
Qed.

(** The fields that index the tables of names are in their bounds. *)
Lemma localtime_tables off t : let d := localtime off t in 0 <= tm_wday d < 7 /\ 0 <= tm_mon d < 12.
Proof.
  unfold localtime. pose proof (civil_ranges ((t + off) / 86400)) as H. destruct (civil_from_days _) as [[y m] d].
  destruct H as (_ & Hm & _). cbn [tm_wday tm_mon]. split; [|lia]. apply Z.mod_pos_bound. lia.
Qed.
Lemma index_ok l i : 0 <= i < zlen l -> exists s, index l i = Ok s.
Proof.
  intros H. unfold index. rewrite (proj2 (Z.ltb_ge i 0)) by lia.
  destruct (lookup_lt_is_Some_2 l (Z.to_nat i)) as [s ->]; [unfold zlen in H; lia|]. by exists s.
Qed.
Lemma text_total f msg tt secs : exists s, text f msg (time_at tt secs) = Ok s.
Proof.
  assert (0 <= tm_wday (time_at tt secs) < 7 /\ 0 <= tm_mon (time_at tt secs) < 12) as [Hw Hm]
    by (destruct tt; apply localtime_tables).
  destruct (index_ok days (tm_wday (time_at tt secs)) Hw) as [d Ed], (index_ok months (tm_mon (time_at tt secs)) Hm) as [m Em].
  destruct f; cbn [text]; try (by eexists); try (apply index_ok; assumption).
  - rewrite Ed, Em. by eexists.
  - destruct (_ <? 0); by eexists.
Qed.
Lemma concat_text_total fs msg tt secs : exists s, concat_text fs msg (time_at tt secs) = Ok s.
Proof.
  induction fs as [|f fs (s' & E')]; [by eexists|]. destruct (text_total f msg tt secs) as [s E].
  cbn [concat_text]. rewrite E, E'. by eexists.
Qed.

(** A formatter whose caches are those of messages it has seen. *)
Definition caches_ok (pattern eol : bytes) (tt : pattern_time_type) (p : pattern_formatter) : Prop :=
  pattern_time_type_ p = tt /\ eol_ p = eol /\ (last_log_secs_ p <> 0 -> cached_tm_ p = time_at tt (last_log_secs_ p)) /\
  Forall (cache_ok tt) (formatters_ p) /\ map erase (formatters_ p) = map erase (compile_pattern_ pattern).
Lemma caches_ok_new pattern tt eol : caches_ok pattern eol tt (pattern_formatter_new pattern tt eol).
Proof. repeat split; [done|]. cbn. by apply (compile_loop_cache tt (S (length pattern))); [lia|constructor]. Qed.
Lemma format_ok pattern eol tt msg dest p :
  caches_ok pattern eol tt p -> to_time_t (time msg) <> 0 ->
  exists s msg' p', line_spec pattern msg (time_at tt (to_time_t (time msg))) = Ok s /\
    format msg dest p = Ok (msg', dest ++ s ++ eol, p') /\ same msg msg' /\ caches_ok pattern eol tt p'.
Proof.
  intros (Ett & Eeol & Hlast & Hf & He) Hs. destruct (concat_text_total (compile_pattern_ pattern) msg tt (to_time_t (time msg))) as [s Es].
  exists s. rewrite <- compile_text, Es. unfold format. rewrite get_time_at, Ett.
  assert ((if negb (to_time_t (time msg) =? last_log_secs_ p) then (time_at tt (to_time_t (time msg)), to_time_t (time msg))
           else (cached_tm_ p, last_log_secs_ p)) = (time_at tt (to_time_t (time msg)), to_time_t (time msg))) as ->.
  { destruct (Z.eqb_spec (to_time_t (time msg)) (last_log_secs_ p)) as [E|]; cbn [negb]; [|done].
    rewrite Hlast, E by congruence. done. }
  rewrite <- concat_text_erase, <- He, concat_text_erase in Es.
  destruct (format_flags_ok tt (formatters_ p) msg dest s Hf Es) as (fs' & msg' & E & Hm & Hf' & He').
  rewrite E. cbn [bind fst snd]. rewrite Eeol, <- app_assoc. eexists _, _. split; [done|]. split; [reflexivity|]. split; [done|].
  split_and!; try done. by rewrite <- He.
Qed.

(** C21: A pattern formatter, which compiles its pattern and caches the
    broken-down time and the date of the full format from one message to the
    next, writes for every message, whatever the pattern, the line that the
    pattern means at the time of that message. *)
Theorem log_format_caches_sound pattern tt eol msgs :
  Forall (fun m => to_time_t (time m) <> 0) msgs ->
  exists lines p', format_all msgs (pattern_formatter_new pattern tt eol) = Ok (lines, p') /\
    Forall2 (fun m line => exists s, line_spec pattern m (get_time_ tt m) = Ok s /\ line = s ++ eol) msgs lines.
Proof.
  intros H. pose proof (caches_ok_new pattern tt eol) as Hp. revert Hp. generalize (pattern_formatter_new pattern tt eol).
  induction H as [|m msgs Hm _ IH]; intros p Hp; [exists [], p; by split; [|constructor]|].
  destruct (format_ok pattern eol tt m [] p Hp Hm) as (s & msg' & p' & Es & E & _ & Hp'). cbn [format_all].
  rewrite E. cbn [bind fst snd app]. destruct (IH p' Hp') as (lines & p2 & -> & HF). cbn [bind].
  eexists _, _. split; [reflexivity|]. constructor; [|done]. exists s. by rewrite get_time_at.
Qed.
(** [%I] at midnight. *)
Lemma midnight_is_hour_0 msg t : tm_hour t = 0 -> text I_formatter msg t = Ok (str "00").
Proof. intros E. cbn [text]. unfold to12h. by rewrite E. Qed.
End format.

Lemma log_format_caches_sound_witness :
  let m s t := mkMsg (str "gate") info t 7 (str s) 0 0 in
  let msgs := [m "a"%string 1582942500123456789; m "b"%string 1582942500999000000; m "c"%string 1582942501000000000] in
  exists lines p', format_all 28800 42 msgs (pattern_formatter_new (str "%+ %z") local (str ";")) = Ok (lines, p') /\
    concat lines = str "[2020-02-29 10:15:00.123] [gate] [info] a +08:00;[2020-02-29 10:15:00.999] [gate] [info] b +08:00;[2020-02-29 10:15:01.000] [gate] [info] c +08:00;".
Proof.
  intros m msgs. destruct (log_format_caches_sound 28800 42 (str "%+ %z") local (str ";") msgs) as (lines & p' & E & HF).
  { repeat constructor; discriminate. }
  exists lines, p'. split; [exact E|].
  inversion_clear HF as [|? l1 ? ls1 (s1 & E1 & ->) HF1]. inversion_clear HF1 as [|? l2 ? ls2 (s2 & E2 & ->) HF2].
  inversion_clear HF2 as [|? l3 ? ls3 (s3 & E3 & ->) HF3]. inversion_clear HF3.
  vm_compute in E1, E2, E3. injection E1 as <-. injection E2 as <-. injection E3 as <-. reflexivity.
Defined.
End Pattern.
