(* ===== verification/LogFile.v ===== *)
(** * The hourly log file: src/common/hourly_file_sink.h

    The sink that starts a new log file every hour, over
    src/opt/spdlog/include/spdlog/details/file_helper.h and the formatter of
    [LogFormat].  The readings of the clock and the outcomes of [fopen] are
    inputs; [fwrite] takes all it is given, and what is written is on the disk
    ([fflush] has nothing to do). *)

From Stdlib Require Import ZArith Lia.
From stdpp Require Import base list gmap strings.
From S2P Require Import Prelude Endian Buffer Text LogTime LogFormat.
Local Open Scope Z_scope.

(** ** The file helper of spdlog *)
Module FileHelper.
(** The files by name, and the outcomes of the next calls of [fopen]: [true] is
    a success, and so are all calls after the list. *)
Record disk := mkDisk {
  files : gmap bytes bytes;
  fopens : list bool;
}.
Record file_helper := mkHelper {
  fd_ : option bytes;            (** the open file, by its name *)
  filename_ : bytes;             (** [_filename] *)
}.
Definition file_helper_new : file_helper := mkHelper None [].

Definition open_tries : nat := 5.
Definition close (h : file_helper) : file_helper := mkHelper None (filename_ h).
Definition fopen (fname : bytes) (truncate : bool) (d : disk) : bool * disk :=
  let created := <[fname := if truncate then [] else default [] (files d !! fname)]> (files d) in
  match fopens d with
  | false :: l => (false, mkDisk (files d) l)
  | _ :: l => (true, mkDisk created l)
  | [] => (true, mkDisk created [])
  end.

(** Five tries; [false] is the thrown [spdlog_ex]. *)
Fixpoint open_loop (tries : nat) (fname : bytes) (truncate : bool) (d : disk) : bool * disk :=
  match tries with
  | O => (false, d)
  | S tries =>
      let '(ok, d) := fopen fname truncate d in
      if ok then (true, d) else open_loop tries fname truncate d
  end.
Definition open (fname : bytes) (truncate : bool) (h : file_helper) (d : disk) : bool * file_helper * disk :=
  let h := close h in
  let '(ok, d) := open_loop open_tries fname truncate d in
  (ok, mkHelper (if ok then Some fname else None) fname, d).

(** [fwrite] on a null stream is undefined. *)
Definition write (buf : bytes) (h : file_helper) (d : disk) : res disk :=
  match fd_ h with
  | None => Err UB
  | Some f => Ok (mkDisk (<[f := default [] (files d !! f) ++ buf]> (files d)) (fopens d))
  end.

(** The base name and the extension with its dot. *)
Definition split_by_extenstion (fname : bytes) : bytes * bytes :=
  match find_last_of Byte.x2e fname with
  | None => (fname, [])
  | Some ext_index =>
      if (ext_index =? 0) || (ext_index =? zlen fname - 1) then (fname, [])
      else
        match find_last_of Byte.x2f fname with
        | Some folder_index =>
            if ext_index - 1 <=? folder_index then (fname, [])
            else (substr_to fname ext_index, substr_from fname ext_index)
        | None => (substr_to fname ext_index, substr_from fname ext_index)
        end
  end.
End FileHelper.

Module HourlySink.
Import Calendar FileHelper Pattern.

(** ** The hourly sink *)
Record hourly_file_sink := mkSink {
  base_filename_ : bytes;
  rotation_interval_ : Z;
  rotation_tp_ : Z;
  file_helper_ : file_helper;
  truncate_ : bool;
  formatter_ : pattern_formatter;
}.
Definition default_eol : bytes := [Byte.x0a].
Definition set_pattern (pattern : bytes) (s : hourly_file_sink) : hourly_file_sink :=
  mkSink (base_filename_ s) (rotation_interval_ s) (rotation_tp_ s) (file_helper_ s) (truncate_ s)
    (pattern_formatter_new pattern local default_eol).

Section sink.
Context (offset pid : Z).

Definition calc_filename (filename : bytes) (now_tm : tm) : bytes :=
  let '(basename, ext) := split_by_extenstion filename in
  basename ++ str "_" ++ fmt_zero 4 (tm_year now_tm + 1900) ++ str "-" ++ fmt_zero 2 (tm_mon now_tm + 1) ++ str "-" ++
  fmt_zero 2 (tm_mday now_tm) ++ str "_" ++ fmt_zero 2 (tm_hour now_tm) ++ ext.

Definition now_tm (tp : Z) : tm := localtime offset (to_time_t tp).

Definition next_rotation_tp_ (interval : Z) (now : Z) : Z :=
  let date := now_tm now in
  let date := mkTm 0 0 (tm_hour date) (tm_mday date) (tm_mon date) (tm_year date) (tm_wday date) (tm_gmtoff date) in
  let rotation_time := from_time_t (mktime offset date) in
  if now <? rotation_time then rotation_time else rotation_time + interval * (3600 * ns_per_s).

(** The constructor reads the clock twice; [None] is a thrown [spdlog_ex]. *)
Definition hourly_file_sink_new (base_filename : bytes) (rotation_interval : Z) (truncate : bool) (now now' : Z) (d : disk)
    : option hourly_file_sink * disk :=
  if (rotation_interval <? 1) || (24 <? rotation_interval) then (None, d)
  else
    let '(ok, h, d) := open (calc_filename base_filename (now_tm now)) truncate file_helper_new d in
    if ok then
      (Some (mkSink base_filename rotation_interval (next_rotation_tp_ rotation_interval now') h truncate
         (pattern_formatter_new (str "%+") local default_eol)), d)
    else (None, d).

(** The boolean is false when [open] throws. *)
Definition sink_it_ (msg : log_msg) (now : Z) (s : hourly_file_sink) (d : disk) : res (bool * hourly_file_sink * disk) :=
  let '(ok, s, d) :=
    (if rotation_tp_ s <=? time msg then
       let '(ok, h, d) := open (calc_filename (base_filename_ s) (now_tm (time msg))) (truncate_ s) (file_helper_ s) d in
       (ok, mkSink (base_filename_ s) (rotation_interval_ s)
              (if ok then next_rotation_tp_ (rotation_interval_ s) now else rotation_tp_ s) h (truncate_ s) (formatter_ s), d)
     else (true, s, d)) in
  if ok then
    let* (r, p) := format offset pid msg [] (formatter_ s) in
    let* d := write r.2 (file_helper_ s) d in
    Ok (true, mkSink (base_filename_ s) (rotation_interval_ s) (rotation_tp_ s) (file_helper_ s) (truncate_ s) p, d)
  else Ok (false, s, d).

(** The messages of a run, each with the reading of the clock in its turn. *)
Fixpoint sink_all (l : list (log_msg * Z)) (s : hourly_file_sink) (d : disk) : res (hourly_file_sink * disk) :=
  match l with
  | [] => Ok (s, d)
  | (msg, now) :: l => let* (r, d) := sink_it_ msg now s d in sink_all l r.2 d
  end.

(** ** Hours and their files *)
Definition hour (tp : Z) : Z := hour_of offset (to_time_t tp).
Definition start_of (h : Z) : Z := (h * 3600 - offset) * ns_per_s.
Definition file_of (base : bytes) (h : Z) : bytes := calc_filename base (localtime offset (h * 3600 - offset)).
(** A 64-bit time point from the second day of the epoch on, in a time zone of
    the earth. *)
Definition valid (tp : Z) : Prop := 86400 * ns_per_s <= tp < 2 ^ 63.
Definition zone : Prop := -86400 <= offset <= 86400.

Lemma start_of_hour h tp : 0 <= tp -> start_of h <= tp <-> h <= hour tp.
Proof.
  intros H. unfold start_of, hour, hour_of. rewrite to_time_t_pos by done. unfold ns_per_s.
  Z.to_euclidean_division_equations; lia.
Qed.
Lemma next_rotation_hour k now : 0 <= now -> next_rotation_tp_ k now = start_of (hour now + k).
Proof.
  intros H. unfold next_rotation_tp_, now_tm. cbv zeta. rewrite mktime_hour. fold (hour now).
  pose proof (proj2 (start_of_hour (hour now) now H) ltac:(lia)) as Hs.
  unfold from_time_t, start_of in *. rewrite (proj2 (Z.ltb_ge _ _)) by done. lia.
Qed.
Lemma file_of_hour base tp : calc_filename base (now_tm tp) = file_of base (hour tp).
Proof.
  unfold file_of, now_tm. rewrite (localtime_hour offset (to_time_t tp)). fold (hour tp).
  unfold calc_filename. destruct (split_by_extenstion base). done.
Qed.

(** *** Different hours have different files *)
Lemma to_string_scan n : 0 <= n < 10 ^ 20 -> scan 10 0 (to_string n) = n.
Proof. intros H. rewrite to_string_pos by lia. by apply (digits_spec 20). Qed.
Lemma scan_zeros k l : scan 10 0 (replicate k Byte.x30 ++ l) = scan 10 0 l.
Proof. induction k as [|k IH]; [done|]. exact IH. Qed.
Lemma pad_inj w n1 n2 : 0 <= n1 < 10 ^ 20 -> 0 <= n2 < 10 ^ 20 -> pad w n1 = pad w n2 -> n1 = n2.
Proof.
  intros H1 H2 E. apply (f_equal (scan 10 0)) in E. unfold pad in E.
  by rewrite !scan_zeros, !to_string_scan in E.
Qed.
Lemma pad2_length n : 0 <= n < 100 -> length (pad 2 n) = 2%nat.
Proof.
  intros H. unfold pad. rewrite to_string_pos by lia. rewrite length_app, length_replicate.
  pose proof (digits_len 20 2 n ltac:(lia) ltac:(lia)) as Hl. unfold zlen in Hl. lia.
Qed.

Lemma fmt_zero_pos w n : 0 <= n -> fmt_zero w n = pad w n.
Proof. intros H. unfold fmt_zero. by rewrite (proj2 (Z.ltb_ge n 0)) by lia. Qed.
Lemma calc_filename_inj base t1 t2 :
  (forall t, t = t1 \/ t = t2 -> 0 <= tm_year t + 1900 < 10 ^ 20 /\ 0 <= tm_mon t + 1 < 100 /\ 0 <= tm_mday t < 100 /\ 0 <= tm_hour t < 100) ->
  calc_filename base t1 = calc_filename base t2 ->
  tm_year t1 = tm_year t2 /\ tm_mon t1 = tm_mon t2 /\ tm_mday t1 = tm_mday t2 /\ tm_hour t1 = tm_hour t2.
Proof.
  intros Hr E. destruct (Hr t1 (or_introl eq_refl)) as (Y1 & M1 & D1 & H1), (Hr t2 (or_intror eq_refl)) as (Y2 & M2 & D2 & H2).
  unfold calc_filename in E. destruct (split_by_extenstion base) as [b ext].
  rewrite !fmt_zero_pos, !app_assoc in E by lia.
  apply app_inv_tail in E.
  apply app_inj_2 in E as [E EH]; [|by rewrite !pad2_length]. apply app_inv_tail in E.
  apply app_inj_2 in E as [E ED]; [|by rewrite !pad2_length]. apply app_inv_tail in E.
  apply app_inj_2 in E as [E EM]; [|by rewrite !pad2_length]. apply app_inv_tail, app_inv_head in E.
  apply pad_inj in E, EM, ED, EH; lia.
Qed.
Lemma localtime_ranges h : zone -> 0 <= h < 2 ^ 62 ->
  let t := localtime offset (h * 3600 - offset) in
  0 <= tm_year t + 1900 < 10 ^ 20 /\ 0 <= tm_mon t + 1 < 100 /\ 0 <= tm_mday t < 100 /\ 0 <= tm_hour t < 100.
Proof.
  intros Hz Hh. unfold localtime. rewrite Z.sub_add. pose proof (civil_ranges (h * 3600 / 86400)) as H.
  destruct (civil_from_days _) as [[y m] d]. destruct H as (_ & Hm & Hd & Hy). cbn.
  split; [|split; [lia|split; [lia|]]]; Z.to_euclidean_division_equations; lia.
Qed.
Lemma file_of_inj base h1 h2 :
  zone -> 0 <= h1 < 2 ^ 62 -> 0 <= h2 < 2 ^ 62 -> file_of base h1 = file_of base h2 -> h1 = h2.
Proof.
  intros Hz H1 H2 E. apply calc_filename_inj in E as (EY & EM & ED & EH).
  2:{ intros t [-> | ->]; by apply localtime_ranges. }
  pose proof (mktime_hour offset (h1 * 3600 - offset)) as M1. pose proof (mktime_hour offset (h2 * 3600 - offset)) as M2.
  cbv zeta in M1, M2. rewrite EY, EM, ED, EH in M1. rewrite (mktime_ext _ _ _ _ _ _ _ _ _ (tm_wday (localtime offset (h2 * 3600 - offset)))
    (tm_gmtoff (localtime offset (h2 * 3600 - offset)))), M2 in M1. unfold hour_of in M1. rewrite !Z.sub_add in M1.
  Z.to_euclidean_division_equations; lia.
Qed.

(** ** Runs *)
Lemma valid_hour tp : zone -> valid tp -> 0 <= tp /\ 0 <= hour tp < 2 ^ 62.
Proof.
  unfold zone, valid, hour, hour_of, ns_per_s. intros Hz Hv. rewrite to_time_t_pos by lia. unfold ns_per_s.
  Z.to_euclidean_division_equations; lia.
Qed.

Lemma valid_secs tp : valid tp -> 0 <= tp /\ to_time_t tp <> 0.
Proof.
  unfold valid. intros Hv. assert (0 <= tp) as H by (unfold ns_per_s in Hv; lia). split; [done|].
  rewrite to_time_t_pos by done. unfold ns_per_s in *. Z.to_euclidean_division_equations; lia.
Qed.

(** The line of a message in the format of src/common/log.cpp. *)
Definition log_pattern : bytes := str "[%Y-%m-%d %H:%M:%S] [%n] [%^%L%$] %v".
Definition log_line (m : log_msg) : bytes :=
  let t := now_tm (time m) in
  str "[" ++ append_int (tm_year t + 1900) ++ str "-" ++ pad2 (tm_mon t + 1) ++ str "-" ++ pad2 (tm_mday t) ++ str " " ++
  pad2 (tm_hour t) ++ str ":" ++ pad2 (tm_min t) ++ str ":" ++ pad2 (tm_sec t) ++ str "] [" ++ logger_name m ++ str "] [" ++
  to_short_c_str (level m) ++ str "] " ++ raw m ++ default_eol.
Lemma line_spec_log_pattern m : exists s,
  line_spec pid log_pattern m (time_at offset local (to_time_t (time m))) = Ok s /\ s ++ default_eol = log_line m.
Proof.
  eexists. split; [reflexivity|]. unfold log_line, now_tm. cbn [time_at]. set (t := localtime _ _).
  generalize (append_int (tm_year t + 1900)), (pad2 (tm_mon t + 1)), (pad2 (tm_mday t)), (pad2 (tm_hour t)), (pad2 (tm_min t)),
    (pad2 (tm_sec t)), (to_short_c_str (level m)). intros. cbn [app].
  rewrite app_nil_r. repeat (rewrite <- app_comm_cons || rewrite <- app_assoc). reflexivity.
Qed.
(** The sink while it writes the file of hour [h]. *)
Definition at_hour (base : bytes) (h : Z) (s : hourly_file_sink) : Prop :=
  base_filename_ s = base /\ rotation_interval_ s = 1 /\ truncate_ s = false /\ rotation_tp_ s = start_of (h + 1) /\
  fd_ (file_helper_ s) = Some (file_of base h) /\ caches_ok offset log_pattern default_eol local (formatter_ s).
Definition append_to (f buf : bytes) (d : disk) : disk :=
  mkDisk (<[f := default [] (files d !! f) ++ buf]> (files d)) [].

Lemma open_append fname h d : fopens d = [] ->
  open fname false h d = (true, mkHelper (Some fname) fname, mkDisk (<[fname := default [] (files d !! fname)]> (files d)) []).
Proof. intros E. unfold open, open_loop, open_tries, fopen. by rewrite E. Qed.

(** What the formatter gives to [write]. *)
Lemma format_line m p : 0 <= time m -> to_time_t (time m) <> 0 -> caches_ok offset log_pattern default_eol local p ->
  exists msg' p', format offset pid m [] p = Ok (msg', log_line m, p') /\ caches_ok offset log_pattern default_eol local p'.
Proof.
  intros Hm Hs Hp. destruct (format_ok offset pid log_pattern default_eol local m [] p Hp Hs) as (s & msg' & p' & E1 & E & _ & Hp').
  destruct (line_spec_log_pattern m) as (s' & E2 & El). rewrite E1 in E2. injection E2 as ->. cbn [app] in E. rewrite El in E. eauto.
Qed.

(** A sink with an open file and the format of the log, while files can be
    opened: whatever message comes, it is written. *)
Definition can_write (s : hourly_file_sink) (d : disk) : Prop :=
  is_Some (fd_ (file_helper_ s)) /\ formatters_ (formatter_ s) = compile_pattern_ log_pattern /\ fopens d = [].
(** Flags that cache nothing and look nothing up. *)
Definition plain_flag (f : flag_formatter) : bool :=
  match f with
  | full_formatter _ _ | a_formatter | A_formatter | b_formatter | B_formatter | c_formatter | z_formatter => false
  | _ => true
  end.
Lemma format_flags_plain fs m t dest :
  forallb plain_flag fs = true -> exists m' dest', format_flags pid fs m t dest = Ok (fs, m', dest').
Proof.
  revert m dest. induction fs as [|f fs IH]; intros m dest H; [by eexists _, _|]. cbn [forallb] in H.
  apply andb_prop in H as [Hf H]. assert (exists m1 d1, format_flag pid f m t dest = Ok (f, m1, d1)) as (m1 & d1 & E)
    by (destruct f; try done; cbn [format_flag text bind]; by eexists _, _).
  cbn [format_flags]. rewrite E. cbn [bind fst snd]. destruct (IH m1 d1 H) as (m' & d' & ->). by eexists _, _.
Qed.
Lemma format_log_pattern m p :
  formatters_ p = compile_pattern_ log_pattern ->
  exists r p', format offset pid m [] p = Ok (r, p') /\ formatters_ p' = compile_pattern_ log_pattern.
Proof.
  intros E. unfold format. destruct (if negb _ then _ else _) as [t secs]. rewrite E.
  destruct (format_flags_plain (compile_pattern_ log_pattern) m t []) as (m' & d & ->); [vm_compute; reflexivity|].
  cbn [bind fst snd]. eexists _, _. split; [done|done].
Qed.
Lemma sink_writes m now s d :
  can_write s d -> exists s' d', sink_it_ m now s d = Ok (true, s', d') /\ can_write s' d'.
Proof.
  intros ([f Ef] & Ep & Ed). unfold sink_it_. destruct (rotation_tp_ s <=? time m).
  - unfold open, open_loop, open_tries, fopen. rewrite Ed. cbn [formatter_].
    destruct (format_log_pattern m (formatter_ s) Ep) as (r & p' & -> & Ep'). cbn [bind write fd_ file_helper_].
    eexists _, _. split; [reflexivity|]. split; [by eexists|]. by split.
  - destruct (format_log_pattern m (formatter_ s) Ep) as (r & p' & -> & Ep'). unfold write. rewrite Ef. cbn [bind].
    eexists _, _. split; [reflexivity|]. split; [by exists f|]. by split.
Qed.
Lemma sink_all_writes l s d s' d' : can_write s d -> sink_all l s d = Ok (s', d') -> can_write s' d'.
Proof.
  revert s d. induction l as [|[m now] l IH]; intros s d Hc E; cbn [sink_all] in E; [by injection E as <- <-|].
  destruct (sink_writes m now s d Hc) as (s1 & d1 & E1 & H1). rewrite E1 in E. by apply (IH s1 d1).
Qed.

(** A message of the current hour, and of a later one: the file goes by the
    message, the next rotation by the clock. *)
Lemma sink_same_hour base h m now s d :
  at_hour base h s -> fopens d = [] -> valid (time m) -> hour (time m) <= h ->
  exists s', sink_it_ m now s d = Ok (true, s', append_to (file_of base h) (log_line m) d) /\ at_hour base h s'.
Proof.
  intros (Eb & Ei & Et & Er & Ef & Ep) Ed Hv Hh. destruct (valid_secs _ Hv) as [Hm Hs]. unfold sink_it_.
  assert ((rotation_tp_ s <=? time m) = false) as ->.
  { apply Z.leb_gt. rewrite Er. apply Z.nle_gt. rewrite start_of_hour by done. lia. }
  destruct (format_line m (formatter_ s) Hm Hs Ep) as (msg' & p' & -> & Hp'). cbn [bind fst snd].
  unfold write. rewrite Ef, Ed. cbn [bind]. eexists. by split.
Qed.
Lemma sink_later_hour base h m now s d :
  at_hour base h s -> fopens d = [] -> valid (time m) -> h < hour (time m) -> 0 <= now ->
  exists s', sink_it_ m now s d = Ok (true, s', append_to (file_of base (hour (time m))) (log_line m) d) /\
    base_filename_ s' = base /\ rotation_interval_ s' = 1 /\ truncate_ s' = false /\
    rotation_tp_ s' = start_of (hour now + 1) /\ fd_ (file_helper_ s') = Some (file_of base (hour (time m))) /\
    caches_ok offset log_pattern default_eol local (formatter_ s').
Proof.
  intros (Eb & Ei & Et & Er & Ef & Ep) Ed Hv Hh Hn. destruct (valid_secs _ Hv) as [Hm Hs]. unfold sink_it_.
  assert ((rotation_tp_ s <=? time m) = true) as ->.
  { apply Z.leb_le. rewrite Er. apply start_of_hour; [done|lia]. }
  rewrite Eb, Et, Ei, file_of_hour, open_append by done. cbv zeta. cbn [formatter_].
  destruct (format_line m (formatter_ s) Hm Hs Ep) as (msg' & p' & -> & Hp'). cbn [write fd_ file_helper_ bind fst snd].
  eexists. split.
  - unfold append_to. cbn [files fopens]. rewrite lookup_insert_eq. cbn [from_option id]. by rewrite insert_insert_eq.
  - cbn. by rewrite next_rotation_hour.
Qed.

(** A run whose messages are sunk within the hour they were logged in, in the
    order of the hours. *)
Fixpoint prompt (h : Z) (l : list (log_msg * Z)) : Prop :=
  match l with
  | [] => True
  | (m, now) :: l => valid (time m) /\ 0 <= now /\ hour now = hour (time m) /\ h <= hour (time m) /\ prompt (hour (time m)) l
  end.
Definition logged (base : bytes) (l : list (log_msg * Z)) (d : disk) : disk :=
  foldl (fun d m => append_to (file_of base (hour (time m))) (log_line m) d) d (map fst l).

Lemma sink_all_prompt base h l s d :
  at_hour base h s -> fopens d = [] -> prompt h l -> exists s', sink_all l s d = Ok (s', logged base l d).
Proof.
  revert h s d. induction l as [|[m now] l IH]; intros h s d Hs Hd Hp; [by eexists|].
  destruct Hp as (Hv & Hn & Hnow & Hh & Hp). cbn [sink_all].
  destruct (decide (hour (time m) = h)) as [E|Hne].
  - destruct (sink_same_hour base h m now s d Hs Hd Hv ltac:(lia)) as (s1 & -> & Hs1). cbn [bind snd]. rewrite E in Hp.
    destruct (IH h s1 (append_to (file_of base h) (log_line m) d) Hs1 eq_refl Hp) as (s' & ->). exists s'.
    unfold logged. cbn [map foldl fst]. by rewrite E.
  - destruct (sink_later_hour base h m now s d Hs Hd Hv ltac:(lia) Hn) as (s1 & -> & H1). cbn [bind snd].
    rewrite Hnow in H1. destruct (IH _ s1 (append_to (file_of base (hour (time m))) (log_line m) d) H1 eq_refl Hp) as (s' & ->). by exists s'.
Qed.

(** The contents of a file, and the messages of an hour. *)
Definition contents (f : bytes) (d : disk) : bytes := default [] (files d !! f).
Definition of_hour (h : Z) (l : list (log_msg * Z)) : bytes :=
  concat (map log_line (filter (fun m => hour (time m) = h) (map fst l))).
Lemma contents_append f f' buf d : contents f (append_to f' buf d) = if decide (f = f') then contents f d ++ buf else contents f d.
Proof.
  unfold contents, append_to. cbn [files]. case_decide as E; [subst; by rewrite lookup_insert_eq|].
  by rewrite lookup_insert_ne.
Qed.
Lemma logged_contents base h h0 l d :
  zone -> 0 <= h < 2 ^ 62 -> prompt h0 l -> contents (file_of base h) (logged base l d) = contents (file_of base h) d ++ of_hour h l.
Proof.
  intros Hz Hh. revert h0 d. induction l as [|[m now] l IH]; intros h0 d Hp; [by rewrite app_nil_r|].
  destruct Hp as (Hv & _ & _ & _ & Hp). unfold logged. cbn [map foldl fst].
  change (foldl _ ?x (map fst l)) with (logged base l x). rewrite (IH _ _ Hp), contents_append. unfold of_hour. cbn [map fst].
  rewrite filter_cons. destruct (decide (hour (time m) = h)) as [E|Hne].
  - rewrite E, decide_True by done. cbn [map concat]. by rewrite <- app_assoc.
  - rewrite decide_False; [done|]. intros E. apply file_of_inj in E; [done..|]. by apply valid_hour.
Qed.

(** ** The theorems *)

(** A sink as [Log::Init] makes it, whose messages are sunk within the hour
    they were logged in: every message is appended to the file of its hour, in
    order, and nothing else is. *)
Theorem log_goes_to_its_hour base now now' l d :
  zone -> fopens d = [] -> valid now -> 0 <= now' -> hour now' = hour now -> prompt (hour now) l ->
  exists s d1 s' d', hourly_file_sink_new base 1 false now now' d = (Some s, d1) /\
    sink_all l (set_pattern log_pattern s) d1 = Ok (s', d') /\
    forall h, 0 <= h < 2 ^ 62 -> contents (file_of base h) d' = contents (file_of base h) d ++ of_hour h l.
Proof.
  intros Hz Hd Hv Hn' Hnow Hp. unfold hourly_file_sink_new. cbn [Z.ltb Z.compare Pos.compare Pos.compare_cont orb].
  rewrite file_of_hour, open_append by done. eexists _, _. set (s := mkSink _ _ _ _ _ _). set (d1 := mkDisk _ _).
  assert (at_hour base (hour now) (set_pattern log_pattern s)) as Hs.
  { unfold s, at_hour, set_pattern. cbn [base_filename_ rotation_interval_ rotation_tp_ file_helper_ truncate_ formatter_ fd_].
    rewrite next_rotation_hour, Hnow by done. split_and!; try done; apply caches_ok_new. }
  destruct (sink_all_prompt base (hour now) l _ d1 Hs eq_refl Hp) as (s' & E).
  exists s', (logged base l d1). split; [done|]. split; [done|]. intros h Hh.
  rewrite (logged_contents base h (hour now)) by done. f_equal. unfold contents, d1. cbn [files].
  destruct (decide (file_of base h = file_of base (hour now))) as [Ef|Hne]; [rewrite Ef; by rewrite lookup_insert_eq|].
  by rewrite lookup_insert_ne.
Qed.

(** The next rotation is reckoned from the clock and not from the message: when
    the first message of an hour is sunk in the next hour, the messages of that
    next hour are appended to the file of the first. *)
Theorem log_late_message_misfiles base h s d m1 m2 now1 now2 :
  zone -> at_hour base h s -> fopens d = [] -> valid (time m1) -> valid (time m2) -> 0 <= now1 ->
  h < hour (time m1) -> hour now1 = hour (time m1) + 1 -> hour (time m2) = hour (time m1) + 1 ->
  exists s' d', sink_all [(m1, now1); (m2, now2)] s d = Ok (s', d') /\
    contents (file_of base (hour (time m1))) d' =
      contents (file_of base (hour (time m1))) d ++ log_line m1 ++ log_line m2 /\
    contents (file_of base (hour (time m2))) d' = contents (file_of base (hour (time m2))) d.
Proof.
  intros Hz Hs Hd V1 V2 Hn Hh Hn1 H2. destruct (valid_hour _ Hz V1) as [P1 R1], (valid_hour _ Hz V2) as [P2 R2].
  destruct (sink_later_hour base h m1 now1 s d Hs Hd V1 Hh Hn) as (s1 & E1 & Eb & Ei & Et & Er & Ef & Ep).
  cbn [sink_all]. rewrite E1. cbn [bind snd]. destruct (valid_secs _ V2) as [_ Hs2].
  unfold sink_it_. assert ((rotation_tp_ s1 <=? time m2) = false) as ->.
  { apply Z.leb_gt. rewrite Er. apply Z.nle_gt. rewrite start_of_hour by done. lia. }
  destruct (format_line m2 (formatter_ s1) P2 Hs2 Ep) as (msg' & p' & -> & Hp').
  unfold write. cbn [bind fst snd]. rewrite Ef. cbn [bind snd]. eexists _, _. split; [done|].
  change (mkDisk (<[file_of base (hour (time m1)) := _]> _) _) with
    (append_to (file_of base (hour (time m1))) (log_line m2) (append_to (file_of base (hour (time m1))) (log_line m1) d)).
  rewrite !contents_append, !decide_True by done. split; [by rewrite <- app_assoc|].
  rewrite !decide_False; [done|..]; intros E; apply file_of_inj in E; (done || lia).
Qed.

(** A file that could not be opened leaves the sink without one.  The rotation
    is tried again by the next message of the new hour, but a message of the
    old hour that was queued behind it is written to a null stream. *)
Theorem log_failed_open_crashes base h s d l m1 m2 now1 now2 :
  at_hour base h s -> fopens d = replicate 5 false ++ l -> valid (time m1) -> valid (time m2) ->
  h < hour (time m1) -> hour (time m2) <= h ->
  sink_all [(m1, now1); (m2, now2)] s d = Err UB.
Proof.
  intros (Eb & Ei & Et & Er & Ef & Ep) Hd V1 V2 H1 H2. destruct (valid_secs _ V1) as [P1 _], (valid_secs _ V2) as [P2 S2].
  cbn [sink_all]. unfold sink_it_ at 1. rewrite (proj2 (Z.leb_le _ _)) by (rewrite Er; apply start_of_hour; [done|lia]).
  destruct d as [fs op]. cbn in Hd. subst op. cbn [open open_loop open_tries fopen fopens app replicate]. cbn [bind snd].
  unfold sink_it_. cbn [rotation_tp_]. rewrite (proj2 (Z.leb_gt _ _)).
  2:{ rewrite Er. apply Z.nle_gt. rewrite start_of_hour by done. lia. }
  cbn [formatter_]. destruct (format_line m2 (formatter_ s) P2 S2 Ep) as (msg' & p' & -> & _). done.
Qed.
End sink.

(** ** Examples: UTC+8, on 2020-02-29 *)
Module Demo.
Definition zone8 : Z := 28800.
Definition at_time (h m : Z) : Z := (1582905600 + h * 3600 + m * 60) * ns_per_s.
Definition msg (h m : Z) (s : bytes) : log_msg := mkMsg (str "gate") info (at_time h m) 7 s 0 0.
Definition base : bytes := str "log/gateserver.log".
Definition disk0 : disk := mkDisk ∅ [].
Definition messages : list (log_msg * Z) :=
  [(msg 10 15 (str "a"), at_time 10 15); (msg 10 59 (str "b"), at_time 10 59); (msg 11 0 (str "c"), at_time 11 0)].
Definition sink10 : hourly_file_sink :=
  set_pattern log_pattern
    match (hourly_file_sink_new zone8 base 1 false (at_time 10 0) (at_time 10 0) disk0).1 with
    | Some s => s
    | None => mkSink [] 0 0 file_helper_new false (pattern_formatter_new [] local [])
    end.

Example file_name : calc_filename base (now_tm zone8 (at_time 10 15)) = str "log/gateserver_2020-02-29_10.log".
Proof. reflexivity. Qed.
Example one_line : log_line zone8 (msg 10 15 (str "a")) = str "[2020-02-29 10:15:00] [gate] [I] a" ++ [Byte.x0a].
Proof. reflexivity. Qed.
Lemma sink10_at_hour : at_hour zone8 base (hour zone8 (at_time 10 0)) sink10.
Proof. split_and!; try reflexivity; apply caches_ok_new. Qed.
End Demo.
Import Demo.

Lemma log_goes_to_its_hour_witness :
  exists s d1 s' d', hourly_file_sink_new zone8 base 1 false (at_time 10 0) (at_time 10 1) disk0 = (Some s, d1) /\
    sink_all zone8 42 messages (set_pattern log_pattern s) d1 = Ok (s', d') /\
    contents (file_of zone8 base (hour zone8 (at_time 10 0))) d' =
      log_line zone8 (msg 10 15 (str "a")) ++ log_line zone8 (msg 10 59 (str "b")).
Proof.
  destruct (log_goes_to_its_hour zone8 42 base (at_time 10 0) (at_time 10 1) messages disk0) as (s & d1 & s' & d' & E1 & E2 & H).
  - unfold zone, zone8. lia.
  - reflexivity.
  - split; [discriminate|reflexivity].
  - discriminate.
  - reflexivity.
  - repeat split; discriminate.
  - exists s, d1, s', d'. split; [exact E1|]. split; [exact E2|]. apply (H (hour zone8 (at_time 10 0))). split; [discriminate|reflexivity].
Defined.
Lemma log_late_message_misfiles_witness :
  exists s' d', sink_all zone8 42 [(msg 11 59 (str "a"), at_time 12 0); (msg 12 30 (str "b"), at_time 12 30)] sink10 disk0 = Ok (s', d') /\
    contents (file_of zone8 base (hour zone8 (at_time 11 0))) d' =
      log_line zone8 (msg 11 59 (str "a")) ++ log_line zone8 (msg 12 30 (str "b")).
Proof.
  destruct (log_late_message_misfiles zone8 42 base (hour zone8 (at_time 10 0)) sink10 disk0 (msg 11 59 (str "a"))
    (msg 12 30 (str "b")) (at_time 12 0) (at_time 12 30)) as (s' & d' & E & H & _).
  - unfold zone, zone8. lia.
  - exact sink10_at_hour.
  - reflexivity.
  - split; [discriminate|reflexivity].
  - split; [discriminate|reflexivity].
  - discriminate.
  - reflexivity.
  - reflexivity.
  - reflexivity.
  - exists s', d'. split; [exact E|exact H].
Defined.
Lemma log_failed_open_crashes_witness :
  sink_all zone8 42 [(msg 11 0 (str "a"), at_time 11 0); (msg 10 59 (str "b"), at_time 11 0)] sink10 (mkDisk ∅ (replicate 5 false))
    = Err UB.
Proof.
  apply (log_failed_open_crashes zone8 42 base (hour zone8 (at_time 10 0)) sink10 _ [] (msg 11 0 (str "a")) (msg 10 59 (str "b"))).
  - exact sink10_at_hour.
  - reflexivity.
  - split; [discriminate|reflexivity].
  - split; [discriminate|reflexivity].
  - reflexivity.
  - discriminate.
Defined.
End HourlySink.
