(* ===== verification/LogQueue.v ===== *)
(** * The logger: src/common/log.cpp over spdlog's asynchronous logger

    [CircularQ] is src/opt/spdlog/include/spdlog/details/circular_q.h, the ring
    behind the queue of messages, with the proof that it is a bounded FIFO
    queue.  [Async] is the logger: calls of the LOG macros on any thread, which
    wait for room in the queue, and the worker threads that take messages out
    and hand them to the hourly file. *)

From Stdlib Require Import ZArith Lia.
From stdpp Require Import base list gmap strings.
From S2P Require Import Prelude Endian Buffer Text LogTime LogFormat LogFile.
Local Open Scope Z_scope.

Module CircularQ.
Section q.
Context {A : Type}.
(** A slot is [None] before an item is moved in and after it is moved out. *)
Record circular_q := mkQ {
  max_items_ : nat;
  head_ : nat;
  tail_ : nat;
  v_ : list (option A);
  overrun_counter_ : Z;
}.
Definition circular_q_new (max_items : nat) : circular_q :=
  mkQ (max_items + 1) 0 0 (replicate (max_items + 1) None) 0.
Definition push_back (item : A) (q : circular_q) : circular_q :=
  let v := <[tail_ q := Some item]> (v_ q) in
  let tail := ((tail_ q + 1) mod max_items_ q)%nat in
  if (tail =? head_ q)%nat then
    mkQ (max_items_ q) ((head_ q + 1) mod max_items_ q) tail v (u64 (overrun_counter_ q + 1))
  else mkQ (max_items_ q) (head_ q) tail v (overrun_counter_ q).
Definition pop_front (q : circular_q) : option A * circular_q :=
  (default None (v_ q !! head_ q),
   mkQ (max_items_ q) ((head_ q + 1) mod max_items_ q) (tail_ q) (<[head_ q := None]> (v_ q)) (overrun_counter_ q)).
Definition empty (q : circular_q) : bool := (tail_ q =? head_ q)%nat.
Definition full (q : circular_q) : bool := ((tail_ q + 1) mod max_items_ q =? head_ q)%nat.

(** The ring holds [l], the oldest item first. *)
Definition holds (q : circular_q) (l : list A) : Prop :=
  length (v_ q) = max_items_ q /\ (head_ q < max_items_ q)%nat /\ (length l < max_items_ q)%nat /\
  tail_ q = ((head_ q + length l) mod max_items_ q)%nat /\
  forall i x, l !! i = Some x -> v_ q !! ((head_ q + i) mod max_items_ q)%nat = Some (Some x).

Lemma wrap h i n : (h < n)%nat -> (i <= n)%nat -> ((h + i) mod n = if h + i <? n then h + i else h + i - n)%nat.
Proof.
  intros Hh Hi. destruct (Nat.ltb_spec (h + i) n); [by apply Nat.mod_small|].
  replace (h + i)%nat with (h + i - n + 1 * n)%nat at 1 by lia. rewrite Nat.Div0.mod_add. apply Nat.mod_small. lia.
Qed.
Lemma wrap_inj h i j n : (h < n)%nat -> (i < n)%nat -> (j < n)%nat -> ((h + i) mod n = (h + j) mod n)%nat -> i = j.
Proof.
  intros Hh Hi Hj. rewrite !wrap by lia. destruct (Nat.ltb_spec (h + i) n), (Nat.ltb_spec (h + j) n); lia.
Qed.
Lemma wrap_succ h i n : (h < n)%nat -> (((h + 1) mod n + i) mod n = (h + S i) mod n)%nat.
Proof. intros Hh. rewrite Nat.Div0.add_mod_idemp_l. f_equal. lia. Qed.

Lemma holds_new max_items : holds (circular_q_new max_items) [].
Proof.
  unfold holds. cbn. rewrite length_replicate. split_and!; [done|lia|lia| |by intros i x E].
  rewrite Nat.mod_small; lia.
Qed.
Lemma holds_empty q l : holds q l -> empty q = bool_decide (l = []).
Proof.
  intros (_ & Hh & Hl & Ht & _). unfold empty. rewrite Ht. apply eq_true_iff_eq. rewrite Nat.eqb_eq, bool_decide_eq_true.
  rewrite <- length_zero_iff_nil. split; [|intros ->; rewrite Nat.add_0_r; by apply Nat.mod_small].
  intros E. apply (wrap_inj (head_ q) _ _ (max_items_ q)); [done..|lia|]. rewrite E, Nat.add_0_r. symmetry. by apply Nat.mod_small.
Qed.
Lemma next_tail q l : holds q l -> ((tail_ q + 1) mod max_items_ q = (head_ q + S (length l)) mod max_items_ q)%nat.
Proof. intros (_ & Hh & Hl & -> & _). rewrite Nat.Div0.add_mod_idemp_l. f_equal. lia. Qed.
Lemma holds_full q l : holds q l -> full q = (length l + 1 =? max_items_ q)%nat.
Proof.
  intros Hq. pose proof (next_tail q l Hq) as E. destruct Hq as (_ & Hh & Hl & _). unfold full. rewrite E.
  apply eq_true_iff_eq. rewrite !Nat.eqb_eq, wrap by lia. destruct (Nat.ltb_spec (head_ q + S (length l)) (max_items_ q)); lia.
Qed.

Lemma holds_push q l x : holds q l -> (length l + 1 < max_items_ q)%nat ->
  holds (push_back x q) (l ++ [x]) /\ overrun_counter_ (push_back x q) = overrun_counter_ q /\ max_items_ (push_back x q) = max_items_ q.
Proof.
  intros Hq Hroom. pose proof (holds_full q l Hq) as Ef. pose proof (next_tail q l Hq) as En.
  destruct Hq as (Hv & Hh & Hl & Ht & Hi). unfold full in Ef. unfold push_back. rewrite Ef.
  rewrite (proj2 (Nat.eqb_neq (length l + 1) (max_items_ q))) by lia. split; [|done].
  unfold holds. cbn [v_ head_ tail_ max_items_]. rewrite length_insert, length_app, En. cbn [length]. split_and!; [done|done|lia|by rewrite Nat.add_1_r|].
  intros i y Ey. apply lookup_app_Some in Ey as [Ey|[Hge Ey]].
  - pose proof (lookup_lt_Some _ _ _ Ey). rewrite list_lookup_insert_ne; [by apply Hi|]. rewrite Ht. intros E.
    apply wrap_inj in E; [lia|done|lia|lia].
  - apply list_lookup_singleton_Some in Ey as [Ei <-]. assert (i = length l) as -> by lia. rewrite <- Ht.
    apply list_lookup_insert_eq. rewrite Hv, Ht. apply Nat.mod_upper_bound. lia.
Qed.
Lemma holds_pop q x l : holds q (x :: l) -> (pop_front q).1 = Some x /\ holds (pop_front q).2 l.
Proof.
  intros (Hv & Hh & Hl & Ht & Hi). cbn [length] in *. split.
  - cbn [pop_front fst]. pose proof (Hi 0%nat x eq_refl) as E. rewrite Nat.add_0_r, Nat.mod_small in E by done. by rewrite E.
  - unfold holds. cbn [pop_front snd v_ head_ tail_ max_items_]. rewrite length_insert, Ht, wrap_succ by done.
    split_and!; [done|apply Nat.mod_upper_bound; lia|lia|done|]. intros i y Ey. rewrite wrap_succ by done.
    pose proof (lookup_lt_Some _ _ _ Ey). rewrite list_lookup_insert_ne; [by apply (Hi (S i))|].
    intros E. rewrite <- (Nat.mod_small (head_ q) (max_items_ q)) in E at 1 by done.
    rewrite <- (Nat.add_0_r (head_ q)) in E at 1. apply wrap_inj in E; lia.
Qed.
Lemma holds_overrun q x0 l x : holds q (x0 :: l) -> (length (x0 :: l) + 1 = max_items_ q)%nat ->
  holds (push_back x q) (l ++ [x]) /\ overrun_counter_ (push_back x q) = u64 (overrun_counter_ q + 1).
Proof.
  intros Hq Hfull. pose proof (holds_full q _ Hq) as Ef. pose proof (next_tail q _ Hq) as En.
  destruct Hq as (Hv & Hh & Hl & Ht & Hi). unfold full in Ef. unfold push_back. rewrite Ef.
  rewrite (proj2 (Nat.eqb_eq (length (x0 :: l) + 1) (max_items_ q))) by lia. split; [|done]. cbn [length] in *.
  unfold holds. cbn [v_ head_ tail_ max_items_]. rewrite length_insert, length_app, En, wrap_succ by done. cbn [length].
  split_and!; [done|apply Nat.mod_upper_bound; lia|lia|f_equal; lia|].
  intros i y Ey. rewrite wrap_succ by done. apply lookup_app_Some in Ey as [Ey|[Hge Ey]].
  - pose proof (lookup_lt_Some _ _ _ Ey). rewrite list_lookup_insert_ne; [by apply (Hi (S i))|]. rewrite Ht. intros E.
    apply wrap_inj in E; lia.
  - apply list_lookup_singleton_Some in Ey as [Ei <-]. assert (i = length l) as -> by lia. rewrite <- Ht.
    apply list_lookup_insert_eq. rewrite Hv, Ht. apply Nat.mod_upper_bound. lia.
Qed.

(** C20: The ring of spdlog is a bounded FIFO queue: empty and full tell its
    length, items come out in the order they went in, and an item pushed into
    a full ring replaces the oldest one and is counted. *)
Theorem circular_q_refines q l x : holds q l -> (1 < max_items_ q)%nat ->
  empty q = bool_decide (l = []) /\ full q = (length l + 1 =? max_items_ q)%nat /\
  (if full q then
     holds (push_back x q) (tail l ++ [x]) /\ overrun_counter_ (push_back x q) = u64 (overrun_counter_ q + 1)
   else holds (push_back x q) (l ++ [x]) /\ overrun_counter_ (push_back x q) = overrun_counter_ q) /\
  (forall y l', l = y :: l' -> (pop_front q).1 = Some y /\ holds (pop_front q).2 l').
Proof.
  intros Hq Hm. pose proof (holds_full q l Hq) as Ef. split; [by apply holds_empty|]. split; [done|]. split.
  - rewrite Ef. destruct (Nat.eqb_spec (length l + 1) (max_items_ q)) as [E|].
    + destruct l as [|x0 l]; [cbn in E; lia|]. by apply holds_overrun with (x0 := x0).
    + assert (length l + 1 < max_items_ q)%nat by (destruct Hq as (_ & _ & Hl & _); lia).
      destruct (holds_push q l x Hq) as (H1 & H2 & _); [done|]. done.
  - intros y l' ->. by apply holds_pop.
Qed.
End q.
Arguments circular_q : clear implicits.
End CircularQ.

Lemma circular_q_refines_witness :
  let q := CircularQ.push_back 2 (CircularQ.push_back 1 (CircularQ.circular_q_new 2)) in
  CircularQ.full q = true /\ CircularQ.holds (CircularQ.push_back 3 q) [2; 3].
Proof.
  intros q. assert (CircularQ.holds q [1; 2]) as H.
  { unfold CircularQ.holds. cbn. split_and!; try done; try lia. intros [|[|i]] x E; cbn in E; [by injection E as <-|by injection E as <-|done]. }
  destruct (CircularQ.circular_q_refines q [1; 2] 3 H ltac:(cbn; lia)) as (_ & Hf & Hp & _). split; [done|]. exact (proj1 Hp).
Defined.

Module Async.
Import Calendar Pattern FileHelper HourlySink CircularQ.

(** ** Messages in the queue

    Of a message its parts that [async_msg] copies; the name comes back from the
    logger, and the marks of the colors are reset. *)
Inductive async_msg :=
  | log_async (level : level_enum) (time thread_id : Z) (raw : bytes)
  | flush_async
  | terminate_async.
Definition to_log_msg (name : bytes) (m : async_msg) : option log_msg :=
  match m with
  | log_async level time thread_id raw => Some (mkMsg name level time thread_id raw 0 0)
  | _ => None
  end.

Record async_logger := mkLogger {
  name_ : bytes;
  level_ : level_enum;
  flush_level_ : level_enum;
  to_stdout : bool;
  file_sink : hourly_file_sink;
}.
(** A worker waits for a message, has one to log, or was told to stop. *)
Inductive worker := Waiting | Working (m : log_msg) | Stopped.

(** The logger, the queue and the threads of its pool, the calls that have a
    message to post, by thread, and the disk. *)
Record state := mkState {
  logger_ : async_logger;
  q_ : circular_q async_msg;
  threads_ : list worker;
  posting : gmap Z async_msg;
  disk_ : disk;
}.

Section logger.
Context (offset pid : Z).

(** ** The threads that log *)
Definition should_log (msg_level : level_enum) (l : async_logger) : bool := level_to_Z (level_ l) <=? level_to_Z msg_level.

(** [logger::log] up to [post_log]: the message takes the time and the thread.
    [None] where the thread is inside another call. *)
Definition log (tid now : Z) (lvl : level_enum) (raw : bytes) (s : state) : option state :=
  match posting s !! tid with
  | Some _ => None
  | None =>
      if negb (should_log lvl (logger_ s)) then Some s
      else Some (mkState (logger_ s) (q_ s) (threads_ s) (<[tid := log_async lvl now tid raw]> (posting s)) (disk_ s))
  end.
(** [enqueue] waits while the queue is full. *)
Definition enqueue (m : async_msg) (s : state) : option state :=
  if full (q_ s) then None else Some (mkState (logger_ s) (push_back m (q_ s)) (threads_ s) (posting s) (disk_ s)).
Definition post_async_msg_ (tid : Z) (s : state) : option state :=
  match posting s !! tid with
  | None => None
  | Some m => enqueue m (mkState (logger_ s) (q_ s) (threads_ s) (delete tid (posting s)) (disk_ s))
  end.

(** ** The workers *)
Definition with_worker (w : nat) (st : worker) (s : state) : state :=
  mkState (logger_ s) (q_ s) (<[w := st]> (threads_ s)) (posting s) (disk_ s).
(** [process_next_msg_] as far as the message: waiting on an empty queue is no
    step. *)
Definition process_next_msg_ (w : nat) (s : state) : option state :=
  match threads_ s !! w with
  | Some Waiting =>
      if empty (q_ s) then None
      else
        let '(m, q) := pop_front (q_ s) in
        let s := mkState (logger_ s) q (threads_ s) (posting s) (disk_ s) in
        match m with
        | Some (log_async level time thread_id raw) =>
            Some (with_worker w (Working (mkMsg (name_ (logger_ s)) level time thread_id raw 0 0)) s)
        | Some flush_async => Some s
        | Some terminate_async => Some (with_worker w Stopped s)
        | None => None
        end
  | _ => None
  end.
(** [backend_log_] on the file: what the sink throws is caught and reported. *)
Definition backend_log_ (w : nat) (now : Z) (s : state) : option (res state) :=
  match threads_ s !! w with
  | Some (Working m) =>
      Some (let* (r, d) := sink_it_ offset pid m now (file_sink (logger_ s)) (disk_ s) in
            let l := logger_ s in
            Ok (mkState (mkLogger (name_ l) (level_ l) (flush_level_ l) (to_stdout l) r.2) (q_ s) (<[w := Waiting]> (threads_ s))
                  (posting s) d))
  | _ => None
  end.

(** ** [Log] of src/common/log.cpp *)
Definition thread_pool_new (q_max_items : nat) (threads_n : Z) : option (circular_q async_msg * list worker) :=
  if (threads_n =? 0) || (1000 <? threads_n) then None
  else Some (circular_q_new q_max_items, replicate (Z.to_nat threads_n) Waiting).
(** [None] where the pool or the sink throws; the clock is read by the sink. *)
Definition Init (log_name log_path : bytes) (log_level flush_level : level_enum) (stdout_switch : bool) (thread_num : Z)
    (now now' : Z) (d : disk) : option state * disk :=
  match thread_pool_new (Z.to_nat 8192) (u16 thread_num) with
  | None => (None, d)
  | Some (q, threads) =>
      let '(s, d) := hourly_file_sink_new offset log_path 1 false now now' d in
      (match s with
       | Some s =>
           let logger := mkLogger log_name info off stdout_switch (set_pattern log_pattern s) in
           let logger := mkLogger (name_ logger) log_level flush_level (to_stdout logger) (file_sink logger) in
           Some (mkState logger q threads ∅ d)
       | None => None
       end, d)
  end.
Definition Init_names (log_name log_path log_level_name flush_level_name : bytes) (stdout_switch : bool) (thread_num : Z)
    (now now' : Z) (d : disk) : option state * disk :=
  Init log_name log_path (from_str log_level_name) (from_str flush_level_name) stdout_switch thread_num now now' d.
(** The logger before [Init] is null. *)
Definition get_logger (l : option state) : res state := match l with Some s => Ok s | None => Err AssertFailed end.

(** ** Interleavings *)
Inductive event :=
  | Call (tid now : Z) (lvl : level_enum) (raw : bytes)
  | Post (tid : Z)
  | Take (w : nat)
  | Sink (w : nat) (now : Z)
  | Stop.                       (** the destructor of the pool posts an end *)
Definition exec (e : event) (s : state) : option (res state) :=
  match e with
  | Call tid now lvl raw => Ok <$> log tid now lvl raw s
  | Post tid => Ok <$> post_async_msg_ tid s
  | Take w => Ok <$> process_next_msg_ w s
  | Sink w now => backend_log_ w now s
  | Stop => Ok <$> enqueue terminate_async s
  end.
(** What an event adds to the messages that were posted, and to those that were
    sunk, with the reading of the clock. *)
Definition posted_by (e : event) (s : state) : list log_msg :=
  match e with Post tid => option_list (posting s !! tid ≫= to_log_msg (name_ (logger_ s))) | _ => [] end.
Definition sunk_by (e : event) (s : state) : list (log_msg * Z) :=
  match e with
  | Sink w now => match threads_ s !! w with Some (Working m) => [(m, now)] | _ => [] end
  | _ => []
  end.
Inductive run (s0 : state) : list log_msg -> list (log_msg * Z) -> state -> Prop :=
  | run_start : run s0 [] [] s0
  | run_event posted sunk s e s' :
      run s0 posted sunk s -> exec e s = Some (Ok s') -> run s0 (posted ++ posted_by e s) (sunk ++ sunk_by e s) s'.

(** The messages the workers are busy with, and those in the queue. *)
Definition working (ts : list worker) : list log_msg := omap (fun w => match w with Working m => Some m | _ => None end) ts.
Definition queued (name : bytes) (l : list async_msg) : list log_msg := omap (to_log_msg name) l.

(** ** No message is lost *)
Lemma working_app a b : working (a ++ b) = working a ++ working b.
Proof. apply omap_app. Qed.
Lemma working_take ts w m : ts !! w = Some Waiting -> working (<[w := Working m]> ts) ≡ₚ m :: working ts.
Proof.
  intros E. rewrite <- (take_drop_middle _ _ _ E) at 2. rewrite insert_take_drop by (by eapply lookup_lt_Some).
  rewrite !working_app. cbn [working omap list_omap]. by rewrite <- Permutation_middle.
Qed.
Lemma working_done ts w m : ts !! w = Some (Working m) -> working ts ≡ₚ m :: working (<[w := Waiting]> ts).
Proof.
  intros E. rewrite <- (take_drop_middle _ _ _ E) at 1. rewrite insert_take_drop by (by eapply lookup_lt_Some).
  rewrite !working_app. cbn [working omap list_omap]. by rewrite <- Permutation_middle.
Qed.
Lemma working_same ts w st : ts !! w = Some Waiting -> (st = Waiting \/ st = Stopped) -> working (<[w := st]> ts) = working ts.
Proof.
  intros E Hst. rewrite <- (take_drop_middle _ _ _ E) at 2. rewrite insert_take_drop by (by eapply lookup_lt_Some).
  rewrite !working_app. by destruct Hst as [-> | ->].
Qed.
Lemma sink_all_snoc l m now s d s' d' r :
  sink_all offset pid l s d = Ok (s', d') -> sink_it_ offset pid m now s' d' = Ok r ->
  sink_all offset pid (l ++ [(m, now)]) s d = Ok (r.1.2, r.2).
Proof.
  revert s d. induction l as [|[m1 n1] l IH]; intros s d H1 H2; cbn [app sink_all] in *.
  - injection H1 as <- <-. rewrite H2. by destruct r as [[? ?] ?].
  - apply bind_Ok_inv in H1 as ([r1 d1] & E1 & H1). rewrite E1. cbn [bind]. by apply IH.
Qed.

Definition sink0 (s0 : state) : hourly_file_sink := file_sink (logger_ s0).
Record inv (s0 : state) (posted : list log_msg) (sunk : list (log_msg * Z)) (s : state) (l : list async_msg) : Prop := {
  inv_name : name_ (logger_ s) = name_ (logger_ s0);
  inv_holds : holds (q_ s) l;
  inv_size : max_items_ (q_ s) = max_items_ (q_ s0);
  inv_overrun : overrun_counter_ (q_ s) = overrun_counter_ (q_ s0);
  inv_threads : length (threads_ s) = length (threads_ s0);
  inv_kept : posted ≡ₚ map fst sunk ++ working (threads_ s) ++ queued (name_ (logger_ s)) l;
  inv_order : length (threads_ s) = 1%nat -> posted = map fst sunk ++ working (threads_ s) ++ queued (name_ (logger_ s)) l;
  inv_disk : sink_all offset pid sunk (sink0 s0) (disk_ s0) = Ok (file_sink (logger_ s), disk_ s);
}.

Lemma inv_enqueue s0 posted sunk s l m s' new :
  inv s0 posted sunk s l -> enqueue m s = Some s' -> option_list (to_log_msg (name_ (logger_ s)) m) = new ->
  inv s0 (posted ++ new) sunk s' (l ++ [m]).
Proof.
  intros [I1 I2 I3 I4 I5 I6 I7 I8] E <-. unfold enqueue in E. pose proof (holds_full _ _ I2) as Hf.
  destruct (full (q_ s)); [done|]. injection E as <-.
  destruct (holds_push (q_ s) l m I2) as (Hh & Ho & Hm).
  { symmetry in Hf. apply Nat.eqb_neq in Hf. destruct I2 as (_ & _ & Hl & _). lia. }
  assert (queued (name_ (logger_ s)) (l ++ [m]) = queued (name_ (logger_ s)) l ++ option_list (to_log_msg (name_ (logger_ s)) m)) as Eq
    by (unfold queued; rewrite omap_app; cbn; by destruct (to_log_msg _ m)).
  constructor; cbn [logger_ q_ threads_ disk_]; try done; rewrite ?Eq; [congruence..| |].
  - rewrite I6. by rewrite !app_assoc.
  - intros H1. rewrite I7 by done. by rewrite !app_assoc.
Qed.

Lemma inv_take s0 posted sunk s l w s' :
  inv s0 posted sunk s l -> process_next_msg_ w s = Some s' -> exists l', inv s0 posted sunk s' l'.
Proof.
  intros [I1 I2 I3 I4 I5 I6 I7 I8] E. unfold process_next_msg_ in E. destruct (threads_ s !! w) as [[| |]|] eqn:Ew; try done.
  rewrite (holds_empty _ _ I2) in E. case_bool_decide as Hl; [done|]. destruct l as [|x l]; [done|].
  destruct (holds_pop _ _ _ I2) as [E1 H1]. destruct (pop_front (q_ s)) as [m q] eqn:Ep. cbn in E1. subst m.
  assert (q = (pop_front (q_ s)).2) as -> by (by rewrite Ep). exists l. clear Hl Ep.
  pose proof (lookup_lt_Some _ _ _ Ew) as Hw.
  destruct x as [lv tm tid raw| |]; injection E as <-; constructor; cbn [with_worker logger_ q_ threads_ disk_];
    rewrite ?length_insert; try done.
  - rewrite I6, working_take by done. cbn [queued omap list_omap to_log_msg]. f_equiv. by rewrite <- Permutation_middle.
  - intros Hone. rewrite I7 by done. destruct (threads_ s) as [|w0 [|]]; try done. destruct w; [|done]. injection Ew as ->. done.
  - rewrite I6, working_same by auto. done.
  - intros Hone. rewrite I7, working_same by auto. done.
Qed.

Lemma inv_sink s0 posted sunk s l w now s' :
  inv s0 posted sunk s l -> backend_log_ w now s = Some (Ok s') -> inv s0 posted (sunk ++ sunk_by (Sink w now) s) s' l.
Proof.
  intros [I1 I2 I3 I4 I5 I6 I7 I8] E. unfold backend_log_ in E. cbn [sunk_by]. destruct (threads_ s !! w) as [[|m|]|] eqn:Ew; try done.
  injection E as E. apply bind_Ok_inv in E as ([r d] & Es & [= <-]).
  constructor; cbn [logger_ q_ threads_ disk_ name_ file_sink]; rewrite ?length_insert; try done.
  - rewrite I6, working_done, map_app by done. cbn [map fst]. by rewrite <- app_assoc.
  - intros Hone. rewrite I7, map_app by done. destruct (threads_ s) as [|w0 [|]]; try done. destruct w; [|done]. injection Ew as ->.
    cbn. by rewrite <- app_assoc.
  - apply (sink_all_snoc _ _ _ _ _ _ _ _ I8 Es).
Qed.

Lemma log_run_inv s0 posted sunk s :
  holds (q_ s0) [] -> working (threads_ s0) = [] -> run s0 posted sunk s -> exists l, inv s0 posted sunk s l.
Proof.
  intros Hq Hw H. induction H as [|posted sunk s e s' _ (l & I) E].
  { exists []. constructor; try done; by rewrite Hw. }
  destruct e as [tid now lvl raw|tid|w|w now|]; cbn [exec posted_by sunk_by] in *; rewrite ?app_nil_r.
  - unfold log in E. destruct (posting s !! tid); [done|]. destruct (should_log _ _); cbn in E; injection E as <-; exists l; [|done].
    by destruct I; constructor.
  - unfold post_async_msg_ in E. destruct (posting s !! tid) as [m|] eqn:Em; [|done].
    destruct (enqueue m _) as [s2|] eqn:E2; [|done]. injection E as <-. exists (l ++ [m]).
    eapply inv_enqueue; [|exact E2|done]. by destruct I; constructor.
  - destruct (process_next_msg_ w s) as [s2|] eqn:E2; [|done]. injection E as <-. by eapply inv_take.
  - exists l. by apply inv_sink.
  - destruct (enqueue terminate_async s) as [s2|] eqn:E2; [|done]. injection E as <-. exists (l ++ [terminate_async]).
    rewrite <- (app_nil_r posted). by eapply inv_enqueue.
Qed.

Lemma Init_start name path lv fl out n now now' d s0 d1 :
  Init name path lv fl out n now now' d = (Some s0, d1) ->
  holds (q_ s0) [] /\ overrun_counter_ (q_ s0) = 0 /\ working (threads_ s0) = [] /\ length (threads_ s0) = Z.to_nat (u16 n) /\
  (1 < max_items_ (q_ s0))%nat /\ disk_ s0 = d1 /\
  exists k, hourly_file_sink_new offset path 1 false now now' d = (Some k, d1) /\ file_sink (logger_ s0) = set_pattern log_pattern k.
Proof.
  unfold Init, thread_pool_new. destruct ((u16 n =? 0) || (1000 <? u16 n)); [done|].
  destruct (hourly_file_sink_new offset path 1 false now now' d) as [[k|] d2] eqn:Ek; [|done]. intros E.
  injection E as <- <-. cbn [q_ threads_ posting disk_ logger_ file_sink]. rewrite length_replicate. split_and!; try done.
  - apply holds_new.
  - generalize (Z.to_nat (u16 n)). intros j. induction j as [|j IH]; [done|exact IH].
  - cbn [circular_q_new max_items_]. lia.
  - by exists k.
Qed.

(** C19: In every interleaving, with any number of workers: the queue never
    overruns, the log file is what sinking the messages taken so far leaves,
    and the messages posted are exactly those sunk, in the hands of a worker
    or in the queue; with one worker they are in the order they were posted.
    *)
Theorem log_keeps_messages name path lv fl out n now now' d s0 d1 posted sunk s :
  Init name path lv fl out n now now' d = (Some s0, d1) -> run s0 posted sunk s ->
  overrun_counter_ (q_ s) = 0 /\
  sink_all offset pid sunk (file_sink (logger_ s0)) d1 = Ok (file_sink (logger_ s), disk_ s) /\
  exists l, holds (q_ s) l /\
    posted ≡ₚ map fst sunk ++ working (threads_ s) ++ queued (name_ (logger_ s)) l /\
    (u16 n = 1 -> posted = map fst sunk ++ working (threads_ s) ++ queued (name_ (logger_ s)) l).
Proof.
  intros Hi Hr. destruct (Init_start _ _ _ _ _ _ _ _ _ _ _ Hi) as (Hq & Ho & Hw & Hn & _ & Hd & _).
  destruct (log_run_inv s0 posted sunk s Hq Hw Hr) as (l & [I1 I2 I3 I4 I5 I6 I7 I8]). rewrite Hd in I8.
  split; [congruence|]. split; [done|]. exists l. split_and!; try done. intros E. apply I7. by rewrite I5, Hn, E.
Qed.

(** ** A logger at rest has written everything *)
Definition at_rest (s : state) : Prop := threads_ s = [Waiting] /\ empty (q_ s) = true.

(** C18: A logger that Log::Init started with one worker thread, in every
    interleaving of the threads that log with the worker: once the worker
    waits at an empty queue, the file of each hour has grown by exactly the
    lines of the messages of that hour, in the order they were posted,
    provided each message is sunk in the hour it was logged in. *)
Theorem log_reaches_files name path lv fl out now now' d s0 d1 posted sunk s :
  zone offset -> fopens d = [] -> valid now -> 0 <= now' -> hour offset now' = hour offset now ->
  Init name path lv fl out 1 now now' d = (Some s0, d1) -> run s0 posted sunk s -> prompt offset (hour offset now) sunk -> at_rest s ->
  forall h, 0 <= h < 2 ^ 62 ->
    contents (file_of offset path h) (disk_ s) =
      contents (file_of offset path h) d ++ concat (map (log_line offset) (filter (fun m => hour offset (time m) = h) posted)).
Proof.
  intros Hz Hf Hv Hn' Hnow Hi Hr Hp [Ht He] h Hh.
  destruct (Init_start _ _ _ _ _ _ _ _ _ _ _ Hi) as (Hq & Ho & Hw & Hn & _ & Hd & k & Ek & Es).
  destruct (log_run_inv s0 posted sunk s Hq Hw Hr) as (l & [I1 I2 I3 I4 I5 I6 I7 I8]).
  rewrite (holds_empty _ _ I2), bool_decide_eq_true in He. subst l.
  assert (posted = map fst sunk) as -> by (rewrite I7 by (by rewrite Ht); rewrite Ht; cbn; by rewrite app_nil_r).
  destruct (log_goes_to_its_hour offset pid path now now' sunk d Hz Hf Hv Hn' Hnow Hp) as (k' & d1' & k2 & d2 & E1 & E2 & H).
  rewrite Ek in E1. injection E1 as <- <-. unfold sink0 in I8. rewrite Es, Hd, E2 in I8. injection I8 as -> ->. by apply H.
Qed.

(** ** It never gets stuck *)
Definition size_of (q : circular_q async_msg) : nat := ((tail_ q + max_items_ q - head_ q) mod max_items_ q)%nat.
Definition measure (s : state) : nat := (3 * size (posting s) + 2 * size_of (q_ s) + length (working (threads_ s)))%nat.
(** The events that need no new call and no destructor. *)
Definition internal (e : event) : Prop := match e with Call _ _ _ _ | Stop => False | _ => True end.
Lemma holds_size q l : holds q l -> size_of q = length l.
Proof.
  intros (_ & Hh & Hl & Ht & _). unfold size_of. rewrite Ht, wrap by lia. destruct (Nat.ltb_spec (head_ q + length l) (max_items_ q)).
  - replace (head_ q + length l + max_items_ q - head_ q)%nat with (length l + 1 * max_items_ q)%nat by lia.
    rewrite Nat.Div0.mod_add. by apply Nat.mod_small.
  - replace (head_ q + length l - max_items_ q + max_items_ q - head_ q)%nat with (length l) by lia. by apply Nat.mod_small.
Qed.

Lemma working_some ts m : m ∈ working ts -> exists w, ts !! w = Some (Working m).
Proof.
  unfold working. rewrite list_elem_of_omap. intros (st & Hst & E). apply list_elem_of_lookup in Hst as [w Hw].
  destruct st as [|m'|]; try done. injection E as ->. by exists w.
Qed.
Lemma enqueue_some m s l : holds (q_ s) l -> (length l + 1 < max_items_ (q_ s))%nat -> exists s', enqueue m s = Some s'.
Proof.
  intros H Hl. unfold enqueue. rewrite (holds_full _ _ H), (proj2 (Nat.eqb_neq (length l + 1) (max_items_ (q_ s)))) by lia. by eexists.
Qed.
Lemma take_some s l w : holds (q_ s) l -> l <> [] -> threads_ s !! w = Some Waiting -> exists s', process_next_msg_ w s = Some s'.
Proof.
  intros H Hl Hw. unfold process_next_msg_. rewrite Hw, (holds_empty _ _ H), bool_decide_false by done.
  destruct l as [|x l]; [done|]. destruct (holds_pop _ _ _ H) as [E _]. destruct (pop_front (q_ s)) as [m q]. cbn in E. subst m.
  destruct x; by eexists.
Qed.
Lemma internal_decreases s0 posted sunk s l e s' :
  inv s0 posted sunk s l -> internal e -> exec e s = Some (Ok s') -> (measure s' < measure s)%nat.
Proof.
  intros I He E. pose proof (holds_size _ _ (inv_holds _ _ _ _ _ I)) as Hl. unfold measure.
  destruct e as [tid now lvl raw|tid|w|w now|]; cbn [exec internal] in *; try done.
  - unfold post_async_msg_ in E. destruct (posting s !! tid) as [m|] eqn:Em; [|done].
    destruct (enqueue m _) as [s2|] eqn:E2; [|done]. injection E as <-.
    assert (inv s0 posted sunk (mkState (logger_ s) (q_ s) (threads_ s) (delete tid (posting s)) (disk_ s)) l) as I2
      by (by destruct I; constructor).
    pose proof (inv_enqueue _ _ _ _ _ _ _ _ I2 E2 eq_refl) as I'. rewrite (holds_size _ _ (inv_holds _ _ _ _ _ I')), Hl, length_app.
    unfold enqueue in E2. destruct (full _); [done|]. injection E2 as <-. cbn [posting threads_ length].
    rewrite map_size_delete_Some by done. assert (size (posting s) <> 0%nat); [|lia].
    intros H0. apply map_size_empty_inv in H0. by rewrite H0, lookup_empty in Em.
  - destruct (process_next_msg_ w s) as [s2|] eqn:E2; [|done]. injection E as <-.
    destruct I as [_ I2 _ _ _ _ _ _]. unfold process_next_msg_ in E2. destruct (threads_ s !! w) as [[| |]|] eqn:Ew; try done.
    rewrite (holds_empty _ _ I2) in E2. case_bool_decide as Hn; [done|]. destruct l as [|x l]; [done|].
    destruct (holds_pop _ _ _ I2) as [E1 H1]. destruct (pop_front (q_ s)) as [m q]. cbn in E1, H1. subst m.
    pose proof (holds_size _ _ H1) as Hl'. cbn [length] in Hl.
    destruct x as [lv tm tid raw| |]; injection E2 as <-; cbn [with_worker posting q_ threads_]; rewrite Hl, Hl'.
    + rewrite working_take by done. cbn [length]. lia.
    + lia.
    + rewrite working_same by auto. lia.
  - unfold backend_log_ in E. destruct (threads_ s !! w) as [[|m|]|] eqn:Ew; try done. injection E as E.
    apply bind_Ok_inv in E as ([r d] & _ & [= <-]). cbn [posting q_ threads_]. rewrite (working_done _ _ _ Ew). cbn [length]. lia.
Qed.

Lemma Init_can_write name path lv fl out n now now' d s0 d1 :
  fopens d = [] -> Init name path lv fl out n now now' d = (Some s0, d1) -> can_write (file_sink (logger_ s0)) (disk_ s0).
Proof.
  intros Hf Hi. destruct (Init_start _ _ _ _ _ _ _ _ _ _ _ Hi) as (_ & _ & _ & _ & _ & -> & k & Ek & ->).
  unfold hourly_file_sink_new in Ek. cbn [orb Z.ltb Z.compare Pos.compare Pos.compare_cont] in Ek.
  rewrite open_append in Ek by done. injection Ek as <- <-. split; [by eexists|]. by split.
Qed.

(** C22: A logger that Log::Init started, while the files can be opened and as
    long as one of its workers has not been stopped: a message that was handed
    to it can always move on without an error (a blocked call finds room, a
    queued message is taken, a taken one is sunk), and every such step
    succeeds and brings the logger nearer to having none left. *)
Theorem log_never_stuck name path lv fl out n now now' d s0 d1 posted sunk s w st :
  fopens d = [] -> Init name path lv fl out n now now' d = (Some s0, d1) -> run s0 posted sunk s ->
  threads_ s !! w = Some st -> st <> Stopped ->
  (posting s <> ∅ \/ empty (q_ s) = false \/ working (threads_ s) <> [] ->
     exists e s', internal e /\ exec e s = Some (Ok s')) /\
  (forall e r, internal e -> exec e s = Some r -> exists s', r = Ok s' /\ (measure s' < measure s)%nat).
Proof.
  intros Hf Hi Hr Hw Hst. pose proof (Init_can_write _ _ _ _ _ _ _ _ _ _ _ Hf Hi) as Hc0.
  destruct (Init_start _ _ _ _ _ _ _ _ _ _ _ Hi) as (Hq & Ho & Hk & Hn & Hm & _).
  destruct (log_run_inv s0 posted sunk s Hq Hk Hr) as (l & I).
  pose proof (sink_all_writes offset pid _ _ _ _ _ Hc0 (inv_disk _ _ _ _ _ I)) as Hc.
  assert (forall e r, exec e s = Some r -> exists s', r = Ok s') as Hok.
  { intros [tid nw lvl raw|tid|w1|w1 nw|] r E; cbn [exec] in E;
      [destruct (log _ _ _ _ s)|destruct (post_async_msg_ _ s)|destruct (process_next_msg_ _ s)| |destruct (enqueue _ s)];
      try done; [by injection E as <-; eexists..| |by injection E as <-; eexists].
    unfold backend_log_ in E. destruct (threads_ s !! w1) as [[|m|]|]; try done. injection E as <-.
    destruct (sink_writes offset pid m nw _ _ Hc) as (k & d' & -> & _). cbn [bind]. by eexists. }
  split; [|intros e r He E; destruct (Hok e r E) as [s' ->]; exists s'; split; [done|]; by eapply internal_decreases].
  intros Hp. enough (exists e r, internal e /\ exec e s = Some r) as (e & r & He & E)
    by (destruct (Hok e r E) as [s' ->]; by exists e, s').
  destruct I as [_ I2 I3 _ _ _ _ _]. destruct (working (threads_ s)) as [|m ms] eqn:Ew.
  - assert (st = Waiting) as ->.
    { destruct st as [|m|]; [done| |done]. assert (m ∈ working (threads_ s)) as He; [|rewrite Ew in He; by apply not_elem_of_nil in He].
      apply list_elem_of_omap. exists (Working m). split; [by eapply list_elem_of_lookup_2|done]. }
    destruct (decide (l = [])) as [->|Hl].
    + destruct Hp as [Hp|[Hp|Hp]]; [|by rewrite (holds_empty _ _ I2) in Hp|done].
      apply map_choose in Hp as (tid & m & Em). exists (Post tid). cbn [exec internal]. unfold post_async_msg_. rewrite Em.
      destruct (enqueue_some m (mkState (logger_ s) (q_ s) (threads_ s) (delete tid (posting s)) (disk_ s)) [] I2) as [s' ->];
        [cbn; lia|]. by eexists.
    + destruct (take_some s l w I2 Hl Hw) as [s' E]. exists (Take w). cbn [exec internal]. rewrite E. by eexists.
  - destruct (working_some (threads_ s) m) as [w' Hw']; [rewrite Ew; by constructor|]. exists (Sink w' 0). cbn [exec internal].
    unfold backend_log_. rewrite Hw'. by eexists.
Qed.

(** A list of events, run. *)
Fixpoint run_list (es : list event) (posted : list log_msg) (sunk : list (log_msg * Z)) (s : state) :
    option (list log_msg * list (log_msg * Z) * state) :=
  match es with
  | [] => Some (posted, sunk, s)
  | e :: es =>
      match exec e s with
      | Some (Ok s') => run_list es (posted ++ posted_by e s) (sunk ++ sunk_by e s) s'
      | _ => None
      end
  end.
Lemma run_list_run es s0 posted sunk s r :
  run s0 posted sunk s -> run_list es posted sunk s = Some r -> run s0 r.1.1 r.1.2 r.2.
Proof.
  revert posted sunk s. induction es as [|e es IH]; intros posted sunk s Hr E; cbn [run_list] in E; [by injection E as <-|].
  destruct (exec e s) as [[s'|]|] eqn:Ee; try done. eapply IH; [|exact E]. by apply run_event.
Qed.
End logger.

(** ** Examples: two threads that log, one worker *)
Module Demo.
Import HourlySink.Demo.
Definition started : option state * disk :=
  Init zone8 (str "gate") base info debug true 1 (at_time 10 0) (at_time 10 1) disk0.
Definition start : state :=
  match started.1 with Some s => s | None => mkState (mkLogger [] off off false sink10) (circular_q_new 0) [] ∅ disk0 end.
Definition events : list event :=
  [Call 1 (at_time 10 15) info (str "a"); Call 2 (at_time 10 20) debug (str "b"); Post 1; Call 1 (at_time 11 1) err (str "c");
   Take 0; Post 1; Sink 0 (at_time 10 15); Take 0; Sink 0 (at_time 11 1)].
Definition final (k : nat) : list log_msg * list (log_msg * Z) * state :=
  default ([], [], start) (run_list zone8 42 (take k events) [] [] start).
Lemma started_ok : Init zone8 (str "gate") base info debug true 1 (at_time 10 0) (at_time 10 1) disk0 = (Some start, disk_ start).
Proof. reflexivity. Qed.
Definition final_ok (k : nat) : bool :=
  match run_list zone8 42 (take k events) [] [] start with Some _ => true | None => false end.
Lemma final_run k : final_ok k = true -> run zone8 42 start (final k).1.1 (final k).1.2 (final k).2.
Proof.
  unfold final_ok, final. intros H. destruct (run_list _ _ _ _ _ _) as [r|] eqn:E; [|done].
  exact (run_list_run zone8 42 _ _ _ _ _ r (run_start zone8 42 start) E).
Qed.
End Demo.
Import Demo HourlySink.Demo.

Lemma log_keeps_messages_witness :
  run zone8 42 start (final 6).1.1 (final 6).1.2 (final 6).2 /\ map raw (final 6).1.1 = [str "a"; str "c"] /\
  exists l, (final 6).1.1 = map fst (final 6).1.2 ++ working (threads_ (final 6).2) ++ queued (name_ (logger_ (final 6).2)) l.
Proof.
  assert (run zone8 42 start (final 6).1.1 (final 6).1.2 (final 6).2) as Hr by (apply final_run; vm_compute; reflexivity).
  destruct (log_keeps_messages zone8 42 (str "gate") base info debug true 1 (at_time 10 0) (at_time 10 1) disk0 start _ _ _ _
    started_ok Hr) as (_ & _ & l & _ & _ & H).
  split; [exact Hr|]. split; [vm_compute; reflexivity|]. exists l. apply H. reflexivity.
Defined.
Lemma log_reaches_files_witness :
  run zone8 42 start (final 9).1.1 (final 9).1.2 (final 9).2 /\
  contents (file_of zone8 base (hour zone8 (at_time 11 0))) (disk_ (final 9).2) =
    log_line zone8 (mkMsg (str "gate") err (at_time 11 1) 1 (str "c") 0 0).
Proof.
  assert (run zone8 42 start (final 9).1.1 (final 9).1.2 (final 9).2) as Hr by (apply final_run; vm_compute; reflexivity).
  split; [exact Hr|].
  rewrite (log_reaches_files zone8 42 (str "gate") base info debug true (at_time 10 0) (at_time 10 1) disk0 start (disk_ start)
    (final 9).1.1 (final 9).1.2 (final 9).2).
  - vm_compute. reflexivity.
  - unfold zone, zone8. lia.
  - reflexivity.
  - split; [discriminate|reflexivity].
  - discriminate.
  - reflexivity.
  - exact started_ok.
  - exact Hr.
  - assert ((final 9).1.2 = [(mkMsg (str "gate") info (at_time 10 15) 1 (str "a") 0 0, at_time 10 15);
      (mkMsg (str "gate") err (at_time 11 1) 1 (str "c") 0 0, at_time 11 1)]) as -> by (vm_compute; reflexivity).
    repeat split; discriminate.
  - split; vm_compute; reflexivity.
  - split; [discriminate|reflexivity].
Defined.
Lemma log_never_stuck_witness :
  run zone8 42 start (final 5).1.1 (final 5).1.2 (final 5).2 /\
  exists e s', internal e /\ exec zone8 42 e (final 5).2 = Some (Ok s').
Proof.
  assert (run zone8 42 start (final 5).1.1 (final 5).1.2 (final 5).2) as Hr by (apply final_run; vm_compute; reflexivity).
  split; [exact Hr|].
  assert (exists st, threads_ (final 5).2 !! 0%nat = Some st /\ st <> Stopped) as (st & Hw & Hst)
    by (eexists; split; [vm_compute; reflexivity|discriminate]).
  apply (log_never_stuck zone8 42 (str "gate") base info debug true 1 (at_time 10 0) (at_time 10 1) disk0 start (disk_ start)
    (final 5).1.1 (final 5).1.2 (final 5).2 0 st eq_refl started_ok Hr Hw Hst).
  right; right. intros E. apply (f_equal length) in E. vm_compute in E. discriminate.
Defined.
End Async.
