(* ===== verification/LogTerminal.v ===== *)
(** * The sink that prints to the terminal

    src/opt/spdlog/include/spdlog/sinks/ansicolor_sink.h, which src/common/log.cpp
    puts in front of the file when it is asked to print: the line of a message,
    with the codes of a color around the part that the pattern marks.  The worker
    hands each message to the sinks in turn, and the marks of one sink are there
    when the next one formats. *)

From Stdlib Require Import ZArith Lia.
From stdpp Require Import base list gmap strings.
From S2P Require Import Prelude Endian Buffer Text LogTime LogFormat LogFile.
Local Open Scope Z_scope.

Module Terminal.
Import Calendar Pattern FileHelper HourlySink.

(** ** Colors *)
Definition code (s : String.string) : bytes := Byte.x1b :: str s.
Definition reset : bytes := code "[m".
Definition bold : bytes := code "[1m".
Definition white : bytes := code "[37m".
Definition cyan : bytes := code "[36m".
Definition green : bytes := code "[32m".
Definition yellow : bytes := code "[33m".
Definition red : bytes := code "[31m".
Definition on_red : bytes := code "[41m".
Definition colors (l : level_enum) : bytes :=
  match l with
  | trace => white
  | debug => cyan
  | info => green
  | warn => yellow ++ bold
  | err => red ++ bold
  | critical => bold ++ on_red
  | off => reset
  end.
Fixpoint strstr (l term : bytes) : bool :=
  bool_decide (take (length term) l = term) || match l with [] => false | _ :: l => strstr l term end.
Definition Terms : list bytes :=
  map str ["ansi"; "color"; "console"; "cygwin"; "gnome"; "konsole"; "kterm"; "linux"; "msys"; "putty"; "rxvt"; "screen"; "vt100"; "xterm"]%string.
Definition is_color_terminal (TERM : option bytes) : bool :=
  match TERM with None => false | Some env_p => existsb (strstr env_p) Terms end.

(** ** The sink *)
Record ansicolor_sink := mkTerm {
  should_do_colors_ : bool;
  colors_ : level_enum -> bytes;
  formatter_ : pattern_formatter;
}.
(** [isatty] of the stream; the environment. *)
Definition ansicolor_sink_new (in_terminal : bool) (TERM : option bytes) : ansicolor_sink :=
  mkTerm (in_terminal && is_color_terminal TERM) colors (pattern_formatter_new (str "%+") local default_eol).
Definition set_pattern (pattern : bytes) (s : ansicolor_sink) : ansicolor_sink :=
  mkTerm (should_do_colors_ s) (colors_ s) (pattern_formatter_new pattern local default_eol).
(** The sink of [Log::Init]. *)
Definition stdout_sink (in_terminal : bool) (TERM : option bytes) : ansicolor_sink :=
  set_pattern log_pattern (ansicolor_sink_new in_terminal TERM).
(** What is read has to be inside the buffer. *)
Definition print_range_ (formatted : bytes) (start end_ : Z) : res bytes :=
  if (0 <=? start) && (start <=? end_) && (end_ <=? zlen formatted) then Ok (slice formatted start (end_ - start)) else Err UB.

Section terminal.
Context (offset pid : Z).
(** What is printed, the message with its marks, and the sink. *)
Definition log (msg : log_msg) (s : ansicolor_sink) : res (bytes * log_msg * ansicolor_sink) :=
  let* (r, p) := format offset pid msg [] (formatter_ s) in
  let '(msg, formatted) := r in
  let s := mkTerm (should_do_colors_ s) (colors_ s) p in
  if should_do_colors_ s && (color_range_start msg <? color_range_end msg) then
    let* before := print_range_ formatted 0 (color_range_start msg) in
    let* in_range := print_range_ formatted (color_range_start msg) (color_range_end msg) in
    let* after := print_range_ formatted (color_range_end msg) (zlen formatted) in
    Ok (before ++ colors_ s (level msg) ++ in_range ++ reset ++ after, msg, s)
  else
    let* all := print_range_ formatted 0 (zlen formatted) in Ok (all, msg, s).
(** [async_logger::backend_log_] with both sinks; a sink takes every level. *)
Definition backend_log_ (msg : log_msg) (now : Z) (t : ansicolor_sink) (f : hourly_file_sink) (d : disk) :
    res (bytes * ansicolor_sink * (bool * hourly_file_sink * disk)) :=
  let* (r, t) := log msg t in
  let* f := sink_it_ offset pid r.2 now f d in
  Ok (r.1, t, f).

(** ** The marks lie in the line *)
Definition marks_in (msg : log_msg) (dest : bytes) : Prop :=
  0 <= color_range_start msg <= zlen dest /\ 0 <= color_range_end msg <= zlen dest.
Lemma marks_app msg dest s : marks_in msg dest -> marks_in msg (dest ++ s).
Proof. unfold marks_in. rewrite zlen_app. pose proof (zlen_nonneg s). lia. Qed.
Lemma format_flag_marks f msg t dest f' msg' dest' :
  marks_in msg dest -> format_flag pid f msg t dest = Ok (f', msg', dest') -> marks_in msg' dest'.
Proof.
  intros Hm E. pose proof (zlen_nonneg dest).
  destruct f; cbn [format_flag] in E; try (apply bind_Ok_inv in E as (s & _ & [= <- <- <-]); by apply marks_app);
    try (injection E as <- <- <-; destruct Hm as [? ?]; split; cbn; lia).
  match type of E with context [let '(_, _) := ?x in _] => destruct x as [ts cached] end.
  injection E as <- <- <-. unfold marks_in, set_color_end, set_color_start. cbn [color_range_start color_range_end].
  rewrite !zlen_app. pose proof (zlen_nonneg (full_head cached msg)). pose proof (zlen_nonneg (to_c_str (level msg))).
  pose proof (zlen_nonneg (Byte.x5d :: Byte.x20 :: raw msg)). lia.
Qed.
Lemma format_flags_marks fs msg t dest fs' msg' dest' :
  marks_in msg dest -> format_flags pid fs msg t dest = Ok (fs', msg', dest') -> marks_in msg' dest'.
Proof.
  revert msg dest fs'. induction fs as [|f fs IH]; intros msg dest fs' Hm E; cbn [format_flags] in E; [by injection E as <- <- <-|].
  apply bind_Ok_inv in E as ([[f1 m1] d1] & E1 & E). apply bind_Ok_inv in E as ([[f2 m2] d2] & E2 & [= <- <- <-]).
  eapply IH; [|exact E2]. eapply format_flag_marks; [exact Hm|exact E1].
Qed.
Lemma format_marks msg p msg' dest p' :
  color_range_start msg = 0 -> color_range_end msg = 0 -> format offset pid msg [] p = Ok (msg', dest, p') -> marks_in msg' dest.
Proof.
  intros Hs He E. unfold format in E. case_match. apply bind_Ok_inv in E as ([[f m] d] & E & [= <- <- <-]).
  apply marks_app. eapply format_flags_marks; [|exact E]. split; rewrite ?Hs, ?He; done.
Qed.
Lemma print_ranges l i j : 0 <= i <= j -> j <= zlen l ->
  exists a b c, print_range_ l 0 i = Ok a /\ print_range_ l i j = Ok b /\ print_range_ l j (zlen l) = Ok c /\ l = a ++ b ++ c.
Proof.
  intros Hi Hj. unfold print_range_. exists (ztake i l), (slice l i (j - i)), (zdrop j l).
  assert (slice l 0 (i - 0) = ztake i l) as -> by (unfold slice; by rewrite Z.sub_0_r).
  assert (slice l j (zlen l - j) = zdrop j l) as -> by (unfold slice, ztake, zdrop; apply take_ge; rewrite length_drop; unfold zlen; lia).
  repeat match goal with |- context [?a <=? ?b] => rewrite (proj2 (Z.leb_le a b)) by lia end. repeat split.
  unfold slice, ztake, zdrop. rewrite <- (take_drop (Z.to_nat i) l) at 1. f_equal.
  rewrite <- (take_drop (Z.to_nat (j - i)) (drop (Z.to_nat i) l)) at 1. f_equal. rewrite drop_drop. f_equal. lia.
Qed.

Lemma print_all l : print_range_ l 0 (zlen l) = Ok l.
Proof.
  unfold print_range_. rewrite (proj2 (Z.leb_le _ _) (zlen_nonneg l)), !Z.leb_refl. cbn [andb]. f_equal.
  unfold slice, ztake, zdrop. apply take_ge. unfold zlen. cbn. lia.
Qed.

(** Whatever the pattern, the terminal shows the line that it means, with at most
    the codes of the color of the level around a part of it. *)
Theorem terminal_shows_line pattern eol msg s :
  caches_ok offset pattern eol local (formatter_ s) -> to_time_t (time msg) <> 0 ->
  color_range_start msg = 0 -> color_range_end msg = 0 ->
  exists line printed msg' s' a b c,
    line_spec pid pattern msg (time_at offset local (to_time_t (time msg))) = Ok line /\
    log msg s = Ok (printed, msg', s') /\ same msg msg' /\ caches_ok offset pattern eol local (formatter_ s') /\
    line ++ eol = a ++ b ++ c /\
    (printed = line ++ eol \/ should_do_colors_ s = true /\ printed = a ++ colors_ s (level msg) ++ b ++ reset ++ c).
Proof.
  intros Hp Ht Hs He. destruct (format_ok offset pid pattern eol local msg [] _ Hp Ht) as (line & msg' & p' & El & Ef & Hm & Hp').
  pose proof (format_marks _ _ _ _ _ Hs He Ef) as [[H1 H2] [H3 H4]]. cbn [app] in *. exists line. unfold log. rewrite Ef. cbn [bind should_do_colors_ colors_].
  assert (level msg' = level msg) as Elv by (by destruct Hm as (? & ? & ->)).
  destruct (should_do_colors_ s) eqn:Hc; cbn [andb]; [destruct (Z.ltb_spec (color_range_start msg') (color_range_end msg'))|].
  - destruct (print_ranges (line ++ eol) (color_range_start msg') (color_range_end msg')) as (a & b & c & -> & -> & -> & E); [lia..|].
    cbn [bind]. rewrite Elv. eexists _, _, _, a, b, c. split_and!; try done. by right.
  - rewrite print_all. cbn [bind]. eexists _, _, _, (line ++ eol), [], []. rewrite !app_nil_r. split_and!; try done. by left.
  - rewrite print_all. cbn [bind]. eexists _, _, _, (line ++ eol), [], []. rewrite !app_nil_r. split_and!; try done. by left.
Qed.

(** ** The pattern of src/common/log.cpp marks the letter of the level *)
Lemma erase_plain fs gs : map erase fs = map erase gs -> Forall (fun g => match g with full_formatter _ _ => False | _ => True end) gs -> fs = gs.
Proof.
  revert gs. induction fs as [|f fs IH]; intros [|g gs] E H; try done. cbn [map] in E. injection E as E1 E2.
  apply Forall_cons in H as [Hg H]. f_equal; [|by apply IH]. destruct g; try done; by destruct f.
Qed.
Definition log_head (m : log_msg) : bytes :=
  let t := now_tm offset (time m) in
  str "[" ++ append_int (tm_year t + 1900) ++ str "-" ++ pad2 (tm_mon t + 1) ++ str "-" ++ pad2 (tm_mday t) ++ str " " ++
  pad2 (tm_hour t) ++ str ":" ++ pad2 (tm_min t) ++ str ":" ++ pad2 (tm_sec t) ++ str "] [" ++ logger_name m ++ str "] [".
Definition log_tail (m : log_msg) : bytes := str "] " ++ raw m ++ default_eol.
Lemma log_line_parts m : log_line offset m = log_head m ++ to_short_c_str (level m) ++ log_tail m.
Proof. unfold log_line, log_head, log_tail. by rewrite <- !(assoc_L (++)). Qed.
Lemma format_log_marks msg p msg' dest p' :
  caches_ok offset log_pattern default_eol local p -> to_time_t (time msg) <> 0 ->
  format offset pid msg [] p = Ok (msg', dest, p') ->
  color_range_start msg' = zlen (log_head msg) /\ color_range_end msg' = zlen (log_head msg) + zlen (to_short_c_str (level msg)).
Proof.
  intros (Ett & Eeol & Hlast & Hf & He) Hs E. apply erase_plain in He; [|repeat constructor]. unfold format in E.
  match type of E with context [let '(_, _) := ?x in _] => assert (x.1 = now_tm offset (time msg)) as Et end.
  { rewrite get_time_at, Ett. destruct (Z.eqb_spec (to_time_t (time msg)) (last_log_secs_ p)) as [El|]; [|done]. cbn. rewrite Hlast by congruence. by rewrite <- El. }
  match type of E with context [let '(_, _) := ?x in _] => destruct x as [t secs] end. cbn [fst] in Et. subst t. rewrite He in E.
  apply bind_Ok_inv in E as ([[fs m] d] & E & [= <- <- <-]).
  set (c := compile_pattern_ log_pattern) in E. vm_compute in c. subst c.
  cbn [format_flags format_flag bind fst snd text] in E. apply (f_equal (fun r => match r with Ok r => r.1.2 | Err _ => msg end)) in E. cbv beta iota in E. cbn [fst snd] in E. subst m.
  cbn [set_color_start set_color_end color_range_start color_range_end level logger_name].
  unfold log_head. generalize (now_tm offset (time msg)). intros t. rewrite !zlen_app.
  change (str "[") with [Byte.x5b]. change (str "-") with [Byte.x2d]. change (str " ") with [Byte.x20]. change (str ":") with [Byte.x3a].
  change (str "] [") with [Byte.x5d; Byte.x20; Byte.x5b]. change (zlen (@nil byte)) with 0. lia.
Qed.
Lemma short_name_len l : zlen (to_short_c_str l) = 1.
Proof. by destruct l. Qed.
Lemma log_line_same m m' : same m m' -> log_line offset m' = log_line offset m /\ time m' = time m.
Proof. by intros (s & e & ->). Qed.
Lemma print_parts a b c :
  print_range_ (a ++ b ++ c) 0 (zlen a) = Ok a /\ print_range_ (a ++ b ++ c) (zlen a) (zlen a + zlen b) = Ok b /\
  print_range_ (a ++ b ++ c) (zlen a + zlen b) (zlen (a ++ b ++ c)) = Ok c.
Proof.
  pose proof (zlen_nonneg a). pose proof (zlen_nonneg b). pose proof (zlen_nonneg c).
  destruct (print_ranges (a ++ b ++ c) (zlen a) (zlen a + zlen b)) as (a' & b' & c' & E1 & E2 & E3 & E); [lia|rewrite !zlen_app; lia|].
  assert (forall l i j x, print_range_ l i j = Ok x -> zlen x = j - i) as L.
  { intros l i j x Hx. unfold print_range_ in Hx. destruct (_ && _) eqn:Hb; [|done]. injection Hx as <-.
    rewrite !andb_true_iff, !Z.leb_le in Hb. unfold slice. rewrite zlen_ztake; [done|]. rewrite zlen_zdrop by lia. lia. }
  pose proof (L _ _ _ _ E1) as L1. pose proof (L _ _ _ _ E2) as L2. rewrite E1, E2, E3.
  apply app_inj_1 in E as [-> E]; [|unfold zlen in *; lia]. apply app_inj_1 in E as [-> ->]; [done|unfold zlen in *; lia].
Qed.

(** A message on both sinks: the terminal shows its line, with the letter of the
    level in the color of the level where there are colors, and the file has the
    same line. *)
Theorem log_on_both base h msg now t f d :
  caches_ok offset log_pattern default_eol local (formatter_ t) -> at_hour offset base h f -> fopens d = [] ->
  valid (time msg) -> hour offset (time msg) <= h -> color_range_start msg = 0 -> color_range_end msg = 0 ->
  exists t' f', at_hour offset base h f' /\ caches_ok offset log_pattern default_eol local (formatter_ t') /\
    backend_log_ msg now t f d =
      Ok (if should_do_colors_ t
          then log_head msg ++ colors_ t (level msg) ++ to_short_c_str (level msg) ++ reset ++ log_tail msg
          else log_line offset msg,
          t', (true, f', append_to (file_of offset base h) (log_line offset msg) d)).
Proof.
  intros Hp Hf Hd Hv Hh Hs He. destruct (valid_secs _ Hv) as [H0 Ht].
  destruct (format_ok offset pid log_pattern default_eol local msg [] _ Hp Ht) as (line & msg' & p' & El & Ef & Hm & Hp').
  destruct (line_spec_log_pattern offset pid msg) as (line' & El' & E). rewrite El in El'. injection El' as <-.
  cbn [app] in Ef. rewrite E in Ef. destruct (format_log_marks _ _ _ _ _ Hp Ht Ef) as [M1 M2].
  destruct (log_line_same _ _ Hm) as [E1 E2].
  destruct (sink_same_hour offset pid base h msg' now f d Hf Hd) as (f' & Es & Hf'); [by rewrite E2..|].
  exists (mkTerm (should_do_colors_ t) (colors_ t) p'), f'. split; [done|]. split; [done|].
  unfold backend_log_, log. rewrite Ef. cbn [bind should_do_colors_ colors_]. rewrite M1, M2.
  assert (level msg' = level msg) as -> by (by destruct Hm as (? & ? & ->)).
  pose proof (short_name_len (level msg)). rewrite (proj2 (Z.ltb_lt _ _)) by lia.
  destruct (should_do_colors_ t); cbn [andb].
  - rewrite log_line_parts. destruct (print_parts (log_head msg) (to_short_c_str (level msg)) (log_tail msg)) as (-> & -> & ->).
    cbn [bind fst snd]. rewrite Es. cbn [bind]. by rewrite E1, log_line_parts.
  - rewrite print_all. cbn [bind fst snd]. rewrite Es. cbn [bind]. by rewrite E1.
Qed.
End terminal.

(** ** Example: a warning in a terminal with colors *)
Definition warning : log_msg := mkMsg (str "gate") warn (HourlySink.Demo.at_time 10 15) 7 (str "a") 0 0.
Lemma log_on_both_witness :
  exists t' f',
    at_hour HourlySink.Demo.zone8 HourlySink.Demo.base (hour HourlySink.Demo.zone8 (HourlySink.Demo.at_time 10 0)) f' /\
    caches_ok HourlySink.Demo.zone8 log_pattern default_eol local (formatter_ t') /\
    backend_log_ HourlySink.Demo.zone8 42 warning 0 (stdout_sink true (Some (str "xterm-256color"))) HourlySink.Demo.sink10 HourlySink.Demo.disk0 =
      Ok (str "[2020-02-29 10:15:00] [gate] [" ++ code "[33m" ++ code "[1m" ++ str "W" ++ code "[m" ++ str "] a" ++ [Byte.x0a], t',
          (true, f', append_to (file_of HourlySink.Demo.zone8 HourlySink.Demo.base (hour HourlySink.Demo.zone8 (HourlySink.Demo.at_time 10 0)))
                       (log_line HourlySink.Demo.zone8 warning) HourlySink.Demo.disk0)).
Proof.
  refine (log_on_both HourlySink.Demo.zone8 42 HourlySink.Demo.base (hour HourlySink.Demo.zone8 (HourlySink.Demo.at_time 10 0)) warning 0
    (stdout_sink true (Some (str "xterm-256color"))) HourlySink.Demo.sink10 HourlySink.Demo.disk0 _ _ _ _ _ _ _).
  - apply caches_ok_new.
  - apply HourlySink.Demo.sink10_at_hour.
  - reflexivity.
  - by vm_compute.
  - by vm_compute.
  - reflexivity.
  - reflexivity.
Defined.
End Terminal.
