(* ===== verification/Toml.v ===== *)
(** * TOML values: src/opt/cpptoml/include/cpptoml.h

    The values of a configuration file and the operations on tables the
    programs use.  A table is the list of its entries (the library keeps them in
    a hash table, whose order nothing looks at). *)

From Stdlib Require Import ZArith Lia Floats.SpecFloat.
From stdpp Require Import base list strings.
From S2P Require Import Prelude.
Local Open Scope Z_scope.

Module Toml.
Record local_date := mkDate { year : Z; month : Z; day : Z }.
Record local_time := mkTime { hour : Z; minute : Z; second : Z; microsecond : Z }.
Record zone_offset := mkOffset { hour_offset : Z; minute_offset : Z }.

Inductive base :=
  | VString (s : bytes)
  | VLocalTime (t : local_time)
  | VLocalDate (d : local_date)
  | VLocalDatetime (d : local_date) (t : local_time)
  | VOffsetDatetime (d : local_date) (t : local_time) (z : zone_offset)
  | VInt (n : Z)
  | VFloat (x : spec_float)
  | VBool (b : bool)
  | VArray (values_ : list base)
  | VTable (map_ : list (bytes * base))
  | VTableArray (is_inline_ : bool) (array_ : list (list (bytes * base))).
Abbreviation table := (list (bytes * base)).

Definition is_value (b : base) : bool :=
  match b with VArray _ | VTable _ | VTableArray _ _ => false | _ => true end.

(** ** Tables *)
Fixpoint find (key : bytes) (t : table) : option base :=
  match t with
  | [] => None
  | (k, v) :: t => if decide (k = key) then Some v else find key t
  end.
Definition contains (key : bytes) (t : table) : bool := match find key t with Some _ => true | None => false end.
(** [map_[key] = value]. *)
Fixpoint insert (key : bytes) (value : base) (t : table) : table :=
  match t with
  | [] => [(key, value)]
  | (k, v) :: t => if decide (k = key) then (k, value) :: t else (k, v) :: insert key value t
  end.

(** [get_table]: [None] is the null pointer. *)
Definition get_table (key : bytes) (t : table) : option table :=
  match find key t with Some (VTable m) => Some m | _ => None end.

(** ** [get_as] and the dereferenced result

    [get_impl<int>] throws an [overflow_error] or [underflow_error] where the
    number does not fit (here [OutOfRange]), which nothing catches;
    [operator*] of an empty option is the empty string, and for an [int] or a
    [bool] a value that was never written. *)
Definition get_as_string (key : bytes) (t : table) : option bytes :=
  match find key t with Some (VString s) => Some s | _ => None end.
Definition get_as_bool (key : bytes) (t : table) : option bool :=
  match find key t with Some (VBool b) => Some b | _ => None end.
Definition get_as_int (key : bytes) (t : table) : res (option Z) :=
  match find key t with
  | Some (VInt n) => if (n <? - 2 ^ 31) || (2 ^ 31 - 1 <? n) then Err OutOfRange else Ok (Some n)
  | _ => Ok None
  end.
Definition deref_string (o : option bytes) : bytes := default [] o.
Definition deref {A} (o : option A) : res A := match o with Some a => Ok a | None => Err UB end.

Lemma find_insert key value t : find key (insert key value t) = Some value.
Proof.
  induction t as [|[k v] t IH]; cbn; [by rewrite decide_True|]. case_decide as E; cbn; [by rewrite decide_True|].
  by rewrite decide_False.
Qed.
Lemma find_insert_ne key key' value t : key <> key' -> find key' (insert key value t) = find key' t.
Proof.
  intros Hne. induction t as [|[k v] t IH]; cbn; [by rewrite decide_False|]. case_decide as E; cbn; case_decide; congruence || done.
Qed.
Lemma insert_new key value t : find key t = None -> insert key value t = t ++ [(key, value)].
Proof. induction t as [|[k v] t IH]; cbn; [done|]. case_decide; [done|]. intros Hk. by rewrite IH. Qed.
Lemma find_app key t t' : find key (t ++ t') = match find key t with Some v => Some v | None => find key t' end.
Proof. induction t as [|[k v] t IH]; cbn; [done|]. by case_decide. Qed.
End Toml.
