(* ===== verification/TomlParser.v ===== *)
(** * The parser of TOML: class [parser] of src/opt/cpptoml/include/cpptoml.h

    The parser reads its input line by line.  Its state is the rest of the
    current line (from the iterator [it] to [end]), the unread input, the bits
    of the stream, and the line number of the messages.  An iterator into the
    current line other than [it] is given by how far it is from [end].  Reading
    [*end] is undefined.  A table that is being filled is a path into the tree
    that is being built: the code holds a pointer. *)

From Stdlib Require Import ZArith Lia Floats.SpecFloat.
From stdpp Require Import base list strings.
From S2P Require Import Prelude Endian Buffer Text Json JsonSpec Toml.
Local Open Scope Z_scope.

Module TomlParser.
Import Toml.

(** ** Outcomes

    A result, a [parse_exception] with its message and line, or a failure that
    is not an exception of the library. *)
Inductive outcome (A : Type) :=
  | Done (a : A)
  | Throw (err : bytes) (line_number : Z)
  | Fail (e : exn).
Arguments Done {A} a.
Arguments Throw {A} err line_number.
Arguments Fail {A} e.

Record parser := mkParser {
  rest : bytes;
  input_ : bytes;
  eofbit : bool;
  failbit : bool;
  line_number_ : Z;
}.
Definition M (A : Type) : Type := parser -> outcome (A * parser).
Definition ret {A} (a : A) : M A := fun p => Done (a, p).
Definition bind {A B} (m : M A) (k : A -> M B) : M B :=
  fun p => match m p with Done (a, p) => k a p | Throw e n => Throw e n | Fail e => Fail e end.
Definition fail {A} (e : exn) : M A := fun _ => Fail e.
Definition throw_parse_exception {A} (err : bytes) : M A := fun p => Throw err (line_number_ p).
Declare Scope toml_scope.
Notation "x <- m ;; k" := (bind m (fun x => k)) (at level 100, m at level 99, right associativity, only parsing) : toml_scope.
Notation "m ;;; k" := (bind m (fun _ => k)) (at level 100, right associativity, only parsing) : toml_scope.
Local Open Scope toml_scope.

(** [it .. end], and moving [it]. *)
Definition here : M bytes := fun p => Done (rest p, p).
Definition with_rest (l : bytes) (p : parser) : parser := mkParser l (input_ p) (eofbit p) (failbit p) (line_number_ p).
Definition move (l : bytes) : M unit := fun p => Done (tt, with_rest l p).
(** [*it]. *)
Definition deref_it : M byte := l <- here ;; match l with [] => fail ReadPastEnd | c :: _ => ret c end.
(** [++it]. *)
Definition incr : M unit := l <- here ;; match l with [] => fail ReadPastEnd | _ :: l => move l end.
Definition next_line_number : M unit :=
  fun p => Done (tt, mkParser (rest p) (input_ p) (eofbit p) (failbit p) (line_number_ p + 1)).

(** ** [detail::getline]

    The line, and what is left; [None] at the end of the input. *)
Fixpoint read_line (s : bytes) : bytes * option bytes :=
  match s with
  | [] => ([], None)
  | c :: s' =>
      if decide (c = Byte.x0a) then ([], Some s')
      else
        match s' with
        | c' :: s'' =>
            if decide (c = Byte.x0d /\ c' = Byte.x0a) then ([], Some s'')
            else let '(l, r) := read_line s' in (c :: l, r)
        | [] => ([c], None)
        end
  end.
(** The sentry sets [failbit] when the end was seen before; the value is that of
    the stream in the condition of a loop. *)
Definition getline : M bool :=
  fun p =>
    let failbit := failbit p || eofbit p in
    let '(line, remainder) := read_line (input_ p) in
    let eofbit := match remainder with None => eofbit p || bool_decide (line = []) | Some _ => eofbit p end in
    Done (negb failbit, mkParser line (default [] remainder) eofbit failbit (line_number_ p)).

(** ** Characters *)
Definition is_number (c : byte) : bool := (48 <=? byte_to_Z c) && (byte_to_Z c <=? 57).
Definition is_hex (c : byte) : bool :=
  is_number c || ((97 <=? byte_to_Z c) && (byte_to_Z c <=? 102)) || ((65 <=? byte_to_Z c) && (byte_to_Z c <=? 70)).
Definition is_ws (c : byte) : bool := bool_decide (c = Byte.x20) || bool_decide (c = Byte.x09).
Definition one_of (l : bytes) (c : byte) : bool := bool_decide (c ∈ l).
Fixpoint drop_while (f : byte -> bool) (l : bytes) : bytes :=
  match l with [] => [] | c :: l' => if f c then drop_while f l' else l end.
Fixpoint take_while (f : byte -> bool) (l : bytes) : bytes :=
  match l with [] => [] | c :: l' => if f c then c :: take_while f l' else [] end.

Definition consume_whitespace : M unit := l <- here ;; move (drop_while is_ws l).
Definition eol_or_comment : M unit :=
  l <- here ;;
  match l with
  | [] => ret tt
  | c :: _ =>
      if decide (c = Byte.x23) then ret tt
      else throw_parse_exception (str "Unidentified trailing character '" ++ [c] ++ str "'---did you forget a '#'?")
  end.
(** [end], or the start of a comment. *)
Definition at_comment (l : bytes) : bool := match l with [] => true | c :: _ => bool_decide (c = Byte.x23) end.
(** Fuel: a unit for every line that can still be read. *)
Fixpoint skip_loop (n : nat) : M unit :=
  match n with
  | O => fail OutOfFuel
  | S n =>
      l <- here ;;
      if at_comment l then
        more <- getline ;;
        if more then next_line_number ;;; consume_whitespace ;;; skip_loop n
        else throw_parse_exception (str "Unclosed array")
      else ret tt
  end.
Definition skip_whitespace_and_comments : M unit :=
  consume_whitespace ;;; fun p => skip_loop (length (input_ p) + 3) p.

(** ** The consumer: characters that are expected before [stop] *)
Definition at_stop (stop : nat) (l : bytes) : bool := (length l =? stop)%nat.
Definition eat (c : byte) (stop : nat) (err : bytes) : M unit :=
  l <- here ;;
  match l with
  | c' :: l' => if negb (at_stop stop l) && bool_decide (c' = c) then move l' else throw_parse_exception err
  | [] => throw_parse_exception err
  end.
Fixpoint eat_string (s : bytes) (stop : nat) (err : bytes) : M unit :=
  match s with [] => ret tt | c :: s => eat c stop err ;;; eat_string s stop err end.
Definition eat_or (a b : byte) (stop : nat) (err : bytes) : M unit :=
  l <- here ;;
  match l with
  | c :: l' => if negb (at_stop stop l) && (bool_decide (c = a) || bool_decide (c = b)) then move l' else throw_parse_exception err
  | [] => throw_parse_exception err
  end.
(** The character is read before the end is tested. *)
Fixpoint eat_digits (len : nat) (stop : nat) (err : bytes) (val : Z) : M Z :=
  match len with
  | O => ret val
  | S len =>
      l <- here ;;
      match l with
      | [] => fail ReadPastEnd
      | c :: l' =>
          if negb (is_number c) || at_stop stop l then throw_parse_exception err
          else move l' ;;; eat_digits len stop err (10 * val + (byte_to_Z c - 48))
      end
  end.

(** ** Strings *)
Definition hex_to_digit (c : byte) : Z :=
  if is_number c then byte_to_Z c - 48
  else 10 + (byte_to_Z c - (if (97 <=? byte_to_Z c) && (byte_to_Z c <=? 102) then 97 else 65)).
(** One round for each digit that [place] still has. *)
Fixpoint parse_hex (n : nat) (place value : Z) : M Z :=
  match n with
  | O => fail OutOfFuel
  | S n =>
      if 0 <? place then
        l <- here ;;
        match l with
        | [] => throw_parse_exception (str "Unexpected end of unicode sequence")
        | c :: l' =>
            if negb (is_hex c) then throw_parse_exception (str "Invalid unicode escape sequence")
            else move l' ;;; parse_hex n (place / 16) (u32 (value + place * hex_to_digit c))
        end
      else ret value
  end.
Definition utf8 (codepoint : Z) : bytes :=
  map byte_of_Z
    (if codepoint <=? 0x7f then [Z.land codepoint 0x7f]
     else if codepoint <=? 0x7ff then
       [Z.lor 0xc0 (Z.land (Z.shiftr codepoint 6) 0x1f); Z.lor 0x80 (Z.land codepoint 0x3f)]
     else if codepoint <=? 0xffff then
       [Z.lor 0xe0 (Z.land (Z.shiftr codepoint 12) 0x0f); Z.lor 0x80 (Z.land (Z.shiftr codepoint 6) 0x1f);
        Z.lor 0x80 (Z.land codepoint 0x3f)]
     else
       [Z.lor 0xf0 (Z.land (Z.shiftr codepoint 18) 0x07); Z.lor 0x80 (Z.land (Z.shiftr codepoint 12) 0x3f);
        Z.lor 0x80 (Z.land (Z.shiftr codepoint 6) 0x3f); Z.lor 0x80 (Z.land codepoint 0x3f)]).
Definition parse_unicode : M bytes :=
  c <- deref_it ;;
  incr ;;;
  codepoint <- parse_hex 9 (if decide (c = Byte.x55) then 0x10000000 else 0x1000) 0 ;;
  if ((0xd7ff <? codepoint) && (codepoint <? 0xe000)) || (0x10ffff <? codepoint) then
    throw_parse_exception (str "Unicode escape sequence is not a Unicode scalar value")
  else ret (utf8 codepoint).
Definition simple_escape (c : byte) : option byte :=
  match c with
  | Byte.x62 => Some Byte.x08
  | Byte.x74 => Some Byte.x09
  | Byte.x6e => Some Byte.x0a
  | Byte.x66 => Some Byte.x0c
  | Byte.x72 => Some Byte.x0d
  | Byte.x22 => Some Byte.x22
  | Byte.x5c => Some Byte.x5c
  | _ => None
  end.
Definition parse_escape_code : M bytes :=
  incr ;;;
  l <- here ;;
  match l with
  | [] => throw_parse_exception (str "Invalid escape sequence")
  | c :: l' =>
      match simple_escape c with
      | Some value => move l' ;;; ret [value]
      | None =>
          if decide (c = Byte.x75 \/ c = Byte.x55) then parse_unicode
          else throw_parse_exception (str "Invalid escape sequence")
      end
  end.

Fixpoint literal_loop (n : nat) (delim : byte) (val : bytes) : M bytes :=
  match n with
  | O => fail OutOfFuel
  | S n =>
      l <- here ;;
      match l with
      | [] => throw_parse_exception (str "Unterminated string literal")
      | c :: l' =>
          if decide (delim = Byte.x22 /\ c = Byte.x5c) then s <- parse_escape_code ;; literal_loop n delim (val ++ s)
          else if decide (c = delim) then move l' ;;; consume_whitespace ;;; ret val
          else move l' ;;; literal_loop n delim (val ++ [c])
      end
  end.
Definition string_literal (delim : byte) : M bytes := incr ;;; fun p => literal_loop (length (rest p) + 1) delim [] p.

(** A line of a multi-line string: what was read, whether whitespace is being
    skipped after a backslash, and whether the string has ended. *)
Fixpoint handle_loop (n : nat) (delim : byte) (ss : bytes) : M (bytes * bool * bool) :=
  match n with
  | O => fail OutOfFuel
  | S n =>
      l <- here ;;
      match l with
      | [] => ret (ss, false, false)
      | c :: l' =>
          if decide (delim = Byte.x22 /\ c = Byte.x5c) then
            match drop_while is_ws l' with
            | [] => ret (ss, true, false)
            | _ => s <- parse_escape_code ;; handle_loop n delim (ss ++ s)
            end
          else if decide (take 3 l = [delim; delim; delim]) then move (drop 3 l) ;;; ret (ss, false, true)
          else move l' ;;; handle_loop n delim (ss ++ [c])
      end
  end.
Definition handle_line (delim : byte) (ss : bytes) (consuming : bool) : M (bytes * bool * bool) :=
  l <- here ;;
  let l := if consuming then drop_while is_ws l else l in
  move l ;;;
  if consuming && bool_decide (l = []) then ret (ss, true, false)
  else fun p => handle_loop (length (rest p) + 1) delim ss p.
Fixpoint multiline_loop (n : nat) (delim : byte) (ss : bytes) (consuming : bool) : M base :=
  match n with
  | O => fail OutOfFuel
  | S n =>
      more <- getline ;;
      if more then
        next_line_number ;;;
        r <- handle_line delim ss consuming ;;
        let '(ss, consuming, ended) := r in
        if (ended : bool) then ret (VString ss)
        else multiline_loop n delim (if (consuming : bool) then ss else ss ++ [Byte.x0a]) consuming
      else throw_parse_exception (str "Unterminated multi-line basic string")
  end.
Definition parse_multiline_string (delim : byte) : M base :=
  r <- handle_line delim [] false ;;
  let '(ss, consuming, ended) := r in
  if (ended : bool) then ret (VString ss) else fun p => multiline_loop (length (input_ p) + 3) delim ss consuming p.
Definition parse_string : M base :=
  delim <- deref_it ;;
  l <- here ;;
  if decide (take 2 (tail l) = [delim; delim]) then move (drop 3 l) ;;; parse_multiline_string delim
  else s <- string_literal delim ;; ret (VString s).

(** ** What kind of value comes *)
Inductive parse_type :=
  | STRING | LOCAL_TIME | LOCAL_DATE | LOCAL_DATETIME | OFFSET_DATETIME | INT | FLOAT | BOOL | ARRAY | INLINE_TABLE.
#[export] Instance parse_type_eq_dec : EqDecision parse_type.
Proof. solve_decision. Defined.

Definition in_time (c : byte) : bool := is_number c || one_of (str ":.") c.
Definition in_date (c : byte) : bool := is_number c || one_of (str "-") c.
Definition in_datetime (c : byte) : bool := is_number c || one_of (str "TZ:-+.") c.
(** The part of [l] before [find_end_of_time] and [find_end_of_date]. *)
Definition time_part (l : bytes) : bytes := take_while in_time l.
Definition date_part (l : bytes) : bytes :=
  let d := take_while in_date l in
  let after := drop_while in_date l in
  match after with
  | c :: c' :: _ =>
      if bool_decide (c = Byte.x20) && is_number c' then d ++ [c] ++ take_while in_datetime (tail after)
      else d ++ take_while in_datetime after
  | _ => d ++ take_while in_datetime after
  end.
Definition nth_is (l : bytes) (i : nat) (c : byte) : bool := bool_decide (l !! i = Some c).
Definition is_time (l : bytes) : bool :=
  let len := length (time_part l) in
  if (len <? 8)%nat then false
  else if negb (nth_is l 2 Byte.x3a) || negb (nth_is l 5 Byte.x3a) then false
  else if (8 <? len)%nat then nth_is l 8 Byte.x2e && (9 <? len)%nat
  else true.
Definition date_type (l : bytes) : option parse_type :=
  let d := date_part l in
  let len := length d in
  if (len <? 10)%nat then None
  else if negb (nth_is l 4 Byte.x2d) || negb (nth_is l 7 Byte.x2d) then None
  else if (19 <=? len)%nat && (nth_is l 10 Byte.x54 || nth_is l 10 Byte.x20) && is_time (drop 11 d) then
    Some (if (length (time_part (drop 11 d)) =? len - 11)%nat then LOCAL_DATETIME else OFFSET_DATETIME)
  else if (len =? 10)%nat then Some LOCAL_DATE
  else None.
(** [l] is what is before the end the caller gives. *)
Definition determine_number_type (l : bytes) : M parse_type :=
  let check := match l with c :: l' => if one_of (str "-+") c then l' else l | [] => l end in
  match check with
  | [] => throw_parse_exception (str "Malformed number")
  | c :: _ =>
      if one_of (str "in") c then ret FLOAT
      else match drop_while is_number check with Byte.x2e :: _ => ret FLOAT | _ => ret INT end
  end.
Definition starts_with (s l : bytes) : bool := bool_decide (take (length s) l = s).
Definition determine_value_type (l : bytes) : M parse_type :=
  match l with
  | [] => throw_parse_exception (str "Failed to parse value type")
  | c :: _ =>
      if one_of [Byte.x22; Byte.x27] c then ret STRING
      else if is_time l then ret LOCAL_TIME
      else match date_type l with
      | Some ty => ret ty
      | None =>
          if is_number c || one_of (str "-+") c || starts_with (str "inf") l || starts_with (str "nan") l then
            determine_number_type l
          else if one_of (str "tf") c then ret BOOL
          else if decide (c = Byte.x5b) then ret ARRAY
          else if decide (c = Byte.x7b) then ret INLINE_TABLE
          else throw_parse_exception (str "Failed to parse value type")
      end
  end.

(** ** Numbers

    [std::stoll] and [std::stod]: [None] for an [invalid_argument], and
    [Some None] for an [out_of_range].  The prefix 0x is allowed in base 16. *)
Fixpoint span_base (base : Z) (l : bytes) : bytes :=
  match l with
  | c :: l' => match digit_value base c with Some _ => c :: span_base base l' | None => [] end
  | [] => []
  end.
Definition hex_prefix (base : Z) (l : bytes) : bytes :=
  match l with
  | z :: x :: c :: l' =>
      if bool_decide (base = 16) && bool_decide (z = Byte.x30) && one_of (str "xX") x &&
         match digit_value 16 c with Some _ => true | None => false end
      then c :: l' else l
  | _ => l
  end.
Definition stoll (base : Z) (v : bytes) : option (option Z) :=
  let '(neg, l) := scan_sign v in
  match span_base base (hex_prefix base l) with
  | [] => None
  | ds =>
      let n := if neg : bool then - scan base 0 ds else scan base 0 ds in
      Some (if (- 2 ^ 63 <=? n) && (n <? 2 ^ 63) then Some n else None)
  end.
(** glibc reports a number whose double is infinite, and one below the normal
    doubles that is not exact. *)
Definition is_exact (x : spec_float) (m e : Z) : bool :=
  match x with
  | S754_zero _ => m =? 0
  | S754_finite _ mant ex =>
      if (0 <=? e) && (0 <=? ex) then Z.pos mant * 2 ^ ex =? m * 10 ^ e
      else Z.pos mant * 2 ^ Z.max 0 ex * 10 ^ Z.max 0 (- e) =? m * 10 ^ Z.max 0 e * 2 ^ Z.max 0 (- ex)
  | _ => false
  end.
Definition is_tiny (x : spec_float) : bool :=
  match x with S754_zero _ => true | S754_finite _ mant _ => (Z.pos mant <? 2 ^ 52) | _ => false end.
Definition stod (v : bytes) : option (option spec_float) :=
  let '(neg, l) := scan_sign v in
  let '(whole, l) := span_digits l in
  let '(frac, l) := match l with Byte.x2e :: l => span_digits l | _ => ([], l) end in
  let '(e, _) := exponent_part l in
  let m := scan 10 0 (whole ++ frac) in
  let x := dbl_of_decimal neg m (e - zlen frac) in
  if bool_decide (whole ++ frac = []) then None
  else Some (if negb (isfinite x) || (is_tiny x && negb (is_exact x m (e - zlen frac))) then None else Some x).

Definition malformed (kind name : String.string) : bytes :=
  str "Malformed number (" ++ str kind ++ str ": " ++ str name ++ str ")".
(** The text up to [stop], from which the digit separators are removed. *)
Definition number_text (stop : nat) (l : bytes) : bytes :=
  filter (fun c => c <> Byte.x5f) (take (length l - stop) l).
Definition parse_int (l : bytes) (stop : nat) (base : Z) (prefix : bytes) : M Toml.base :=
  let v := filter (fun c => c <> Byte.x5f) (prefix ++ take (length l - stop) l) in
  move (drop (length l - stop) l) ;;;
  match stoll base v with
  | None => throw_parse_exception (malformed "invalid argument" "stoll")
  | Some None => throw_parse_exception (malformed "out of range" "stoll")
  | Some (Some n) => ret (VInt n)
  end.
Definition parse_float (l : bytes) (stop : nat) : M Toml.base :=
  let v := number_text stop l in
  move (drop (length l - stop) l) ;;;
  match stod v with
  | None => throw_parse_exception (malformed "invalid argument" "stod")
  | Some None => throw_parse_exception (malformed "out of range" "stod")
  | Some (Some x) => ret (VFloat x)
  end.

Definition in_number (c : byte) : bool := is_number c || one_of (str "_.eE-+xob") c.
(** How much of [l] is left at [find_end_of_number]. *)
Definition find_end_of_number (l : bytes) : nat :=
  let after := drop_while in_number l in
  if starts_with (str "inf") after || starts_with (str "nan") after then (length after - 3)%nat else length after.
(** [check_it] as the text from it on; the lambdas of [parse_number]. *)
Definition eat_sign (check : bytes) : bytes :=
  match check with c :: l => if one_of (str "-+") c then l else check | [] => [] end.
Definition check_no_leading_zero (check_end : nat) (check : bytes) : M unit :=
  match check with
  | c :: l =>
      if bool_decide (c = Byte.x30) && negb (at_stop check_end l) then
        match l with
        | [] => fail ReadPastEnd
        | c' :: _ => if decide (c' = Byte.x2e) then ret tt else throw_parse_exception (str "Numbers may not have leading zeros")
        end
      else ret tt
  | [] => ret tt
  end.
(** [None] where a separator is not followed by a digit. *)
Fixpoint digits_loop (f : byte -> bool) (check : bytes) : option bytes :=
  match check with
  | [] => Some []
  | c :: l =>
      if f c then
        match l with
        | u :: l' =>
            if decide (u = Byte.x5f) then
              match l' with
              | c' :: _ => if f c' then digits_loop f l' else None
              | [] => None
              end
            else digits_loop f l
        | [] => Some []
        end
      else Some check
  end.
Definition eat_number_digits (f : byte -> bool) (check : bytes) : M bytes :=
  match digits_loop f check with
  | Some l => if at_stop (length check) l then throw_parse_exception (str "Malformed number") else ret l
  | None => throw_parse_exception (str "Malformed number")
  end.
Definition eat_exp (check_end : nat) (check : bytes) : M bytes :=
  let check := eat_sign check in
  check_no_leading_zero check_end check ;;; eat_number_digits is_number check.

Definition parse_number : M Toml.base :=
  l <- here ;;
  let check_end := find_end_of_number l in
  let prefixed :=
    match l with
    | z :: b :: l' =>
        if bool_decide (z = Byte.x30) && negb (at_stop check_end (b :: l')) && one_of (str "xob") b then Some (b, l') else None
    | _ => None
    end in
  match prefixed with
  | Some (b, l') =>
      if decide (b = Byte.x78) then check <- eat_number_digits is_hex l' ;; parse_int l (length check) 16 []
      else if decide (b = Byte.x6f) then check <- eat_number_digits is_number l' ;; parse_int l' (length check) 8 (str "0")
      else check <- eat_number_digits is_number l' ;; parse_int l' (length check) 2 []
  | None =>
      let check := eat_sign l in
      check_no_leading_zero check_end check ;;;
      let neg := bool_decide (head l = Some Byte.x2d) in
      if starts_with (str "inf") check then move (drop 3 check) ;;; ret (VFloat (S754_infinity neg))
      else if starts_with (str "nan") check then move (drop 3 check) ;;; ret (VFloat S754_nan)
      else
        check <- eat_number_digits is_number check ;;
        match check with
        | c :: check' =>
            if one_of (str ".eE") c then
              let is_exp := one_of (str "eE") c in
              match check' with
              | [] => throw_parse_exception (str "Floats must have trailing digits")
              | _ =>
                  check <- (if is_exp then eat_exp check_end check' else eat_number_digits is_number check') ;;
                  check <- match check with
                           | c :: check' => if negb is_exp && one_of (str "eE") c then eat_exp check_end check' else ret check
                           | [] => ret check
                           end ;;
                  parse_float l (length check)
              end
            else parse_int l (length check) 10 []
        | [] => parse_int l 0 10 []
        end
  end.
Definition parse_bool : M Toml.base :=
  c <- deref_it ;;
  let err := str "Attempted to parse invalid boolean value" in
  if decide (c = Byte.x74) then eat_string (str "true") 0 err ;;; ret (VBool true)
  else if decide (c = Byte.x66) then eat_string (str "false") 0 err ;;; ret (VBool false)
  else throw_parse_exception err.

(** ** Dates and times *)
Fixpoint micros (power val : Z) (l : bytes) : Z :=
  match l with [] => val | c :: l => micros (power ÷ 10) (val + power * (byte_to_Z c - 48)) l end.
(** [stop] is the end the caller gives. *)
Definition read_time (stop : nat) : M local_time :=
  l <- here ;;
  let time_end := (length l - length (time_part (take (length l - stop) l)))%nat in
  let err := str "Malformed time" in
  h <- eat_digits 2 time_end err 0 ;;
  eat Byte.x3a time_end err ;;;
  m <- eat_digits 2 time_end err 0 ;;
  eat Byte.x3a time_end err ;;;
  s <- eat_digits 2 time_end err 0 ;;
  l <- here ;;
  us <- match l with
        | c :: l' =>
            if negb (at_stop time_end l) && bool_decide (c = Byte.x2e) then
              let ds := take_while is_number (take (length l' - time_end) l') in
              move (drop (length ds) l') ;;; ret (micros 100000 0 ds)
            else ret 0
        | [] => ret 0
        end ;;
  l <- here ;;
  if at_stop time_end l then ret (mkTime h m s us) else throw_parse_exception err.
Definition parse_time : M Toml.base := t <- read_time 0 ;; ret (VLocalTime t).
Definition parse_date : M Toml.base :=
  l <- here ;;
  let date_end := (length l - length (date_part l))%nat in
  let err := str "Malformed date" in
  y <- eat_digits 4 date_end err 0 ;;
  eat Byte.x2d date_end err ;;;
  mo <- eat_digits 2 date_end err 0 ;;
  eat Byte.x2d date_end err ;;;
  d <- eat_digits 2 date_end err 0 ;;
  l <- here ;;
  if at_stop date_end l then ret (VLocalDate (mkDate y mo d))
  else
    eat_or Byte.x54 Byte.x20 date_end err ;;;
    t <- read_time date_end ;;
    l <- here ;;
    if at_stop date_end l then ret (VLocalDatetime (mkDate y mo d) t)
    else
      c <- deref_it ;;
      z <- (if one_of (str "+-") c then
              incr ;;;
              hoff <- eat_digits 2 date_end err 0 ;;
              eat Byte.x3a date_end err ;;;
              moff <- eat_digits 2 date_end err 0 ;;
              ret (if decide (c = Byte.x2b) then mkOffset hoff moff else mkOffset (- hoff) (- moff))
            else if decide (c = Byte.x5a) then incr ;;; ret (mkOffset 0 0)
            else ret (mkOffset 0 0)) ;;
      l <- here ;;
      if at_stop date_end l then ret (VOffsetDatetime (mkDate y mo d) t z) else throw_parse_exception err.

(** ** Keys *)

(** The name without the blanks behind it; its first character stays. *)
Definition trim_back (l : bytes) : bytes :=
  match l with [] => [] | c :: l => c :: rev (drop_while is_ws (rev l)) end.
(** [bke] is what is left behind the key. *)
Definition parse_bare_key (name bke : bytes) : M bytes :=
  match name with
  | [] => throw_parse_exception (str "Bare key missing name")
  | _ =>
      let key := trim_back name in
      if existsb (one_of (str "#")) key then throw_parse_exception (str "Bare key " ++ key ++ str " cannot contain #")
      else if existsb is_ws key then throw_parse_exception (str "Bare key " ++ key ++ str " cannot contain whitespace")
      else if existsb (one_of (str "[]")) key then throw_parse_exception (str "Bare key " ++ key ++ str " cannot contain '[' or ']'")
      else move bke ;;; ret key
  end.
Definition in_bare_key (c : byte) : bool := negb (one_of (str ".=]") c).
Definition parse_simple_key : M bytes :=
  consume_whitespace ;;;
  l <- here ;;
  match l with
  | [] => throw_parse_exception (str "Unexpected end of key (blank key?)")
  | c :: _ =>
      if one_of [Byte.x22; Byte.x27] c then string_literal c
      else parse_bare_key (take_while in_bare_key l) (drop_while in_bare_key l)
  end.
Definition unexpected (what : String.string) (c : byte) : bytes := str what ++ [Byte.x22; c; Byte.x22].
(** [key_part_handler] is run on every part but the last. *)
Fixpoint parse_key_loop {S} (n : nat) (key_end : byte) (key_part_handler : bytes -> S -> M S) (s : S) : M (bytes * S) :=
  match n with
  | O => fail OutOfFuel
  | S n =>
      l <- here ;;
      match l with
      | [] => throw_parse_exception (str "Unexpected end of key")
      | c :: _ =>
          if decide (c = key_end) then throw_parse_exception (str "Unexpected end of key")
          else
            part <- parse_simple_key ;;
            consume_whitespace ;;;
            l <- here ;;
            match l with
            | [] => ret (part, s)
            | c :: _ =>
                if decide (c = key_end) then ret (part, s)
                else if decide (c = Byte.x2e) then
                  s <- key_part_handler part s ;; incr ;;; parse_key_loop n key_end key_part_handler s
                else throw_parse_exception (unexpected "Unexpected character in key: " c)
            end
      end
  end.
Definition parse_key {S} (key_end : byte) (key_part_handler : bytes -> S -> M S) (s : S) : M (bytes * S) :=
  fun p => parse_key_loop (length (rest p) + 1) key_end key_part_handler s p.

(** ** The table a path leads to: an array of tables stands for its last one *)
Fixpoint table_at (path : list bytes) (t : table) : option table :=
  match path with
  | [] => Some t
  | k :: path =>
      match find k t with
      | Some (VTable m) => table_at path m
      | Some (VTableArray _ arr) => match last arr with Some m => table_at path m | None => None end
      | _ => None
      end
  end.
Fixpoint update_at (path : list bytes) (f : table -> table) (t : table) : table :=
  match path with
  | [] => f t
  | k :: path =>
      match find k t with
      | Some (VTable m) => insert k (VTable (update_at path f m)) t
      | Some (VTableArray is_inline arr) =>
          match last arr with
          | Some m => insert k (VTableArray is_inline (removelast arr ++ [update_at path f m])) t
          | None => t
          end
      | _ => t
      end
  end.

(** The root, the path of [curr_table], the name so far, and [inserted]. *)
Record cursor := mkCursor {
  cursor_table : table;
  path : list bytes;
  full_name : bytes;
  inserted : bool;
}.
Definition extend (name part : bytes) : bytes := match name with [] => part | _ => name ++ str "." ++ part end.
(** The table [curr_table] points to. *)
Definition current (c : cursor) : M table := match table_at (path c) (cursor_table c) with Some t => ret t | None => fail UB end.

Definition single_part (part : bytes) (c : cursor) : M cursor :=
  match part with
  | [] => throw_parse_exception (str "Empty component of table name")
  | _ =>
      let name := extend (full_name c) part in
      cur <- current c ;;
      match find part cur with
      | Some (VTable _) => ret (mkCursor (cursor_table c) (path c ++ [part]) name (inserted c))
      | Some (VTableArray _ []) => fail UB
      | Some (VTableArray _ _) => ret (mkCursor (cursor_table c) (path c ++ [part]) name (inserted c))
      | Some _ => throw_parse_exception (str "Key " ++ name ++ str "already exists as a value")
      | None => ret (mkCursor (update_at (path c) (insert part (VTable [])) (cursor_table c)) (path c ++ [part]) name true)
      end
  end.
Definition parse_single_table (root : table) : M (table * list bytes) :=
  l <- here ;;
  match l with
  | [] => throw_parse_exception (str "Table name cannot be empty")
  | c :: _ =>
      if decide (c = Byte.x5d) then throw_parse_exception (str "Table name cannot be empty")
      else
        r <- parse_key Byte.x5d single_part (mkCursor root [] [] false) ;;
        c <- single_part r.1 r.2 ;;
        l <- here ;;
        match l with
        | [] => throw_parse_exception (str "Unterminated table declaration; did you forget a ']'?")
        | ch :: _ =>
            if negb (bool_decide (ch = Byte.x5d)) then throw_parse_exception (unexpected "Unexpected character in table definition: " ch)
            else
              cur <- current c ;;
              if negb (inserted c) && (match cur with [] => true | _ => false end || existsb (fun e => is_value e.2) cur) then
                throw_parse_exception (str "Redefinition of table " ++ full_name c)
              else incr ;;; consume_whitespace ;;; eol_or_comment ;;; ret (cursor_table c, path c)
        end
  end.

(** The part of an array's name; at [']'] it is the last one. *)
Definition array_part (part : bytes) (c : cursor) : M cursor :=
  match part with
  | [] => throw_parse_exception (str "Empty component of table array name")
  | _ =>
      let name := extend (full_name c) part in
      cur <- current c ;;
      l <- here ;;
      let is_last := bool_decide (head l = Some Byte.x5d) in
      let down t := ret (mkCursor t (path c ++ [part]) name (inserted c)) in
      match find part cur with
      | Some b =>
          if is_last then
            match b with
            | VTableArray true _ => throw_parse_exception (str "Static array " ++ name ++ str " cannot be appended to")
            | VTableArray false arr => down (update_at (path c) (insert part (VTableArray false (arr ++ [[]]))) (cursor_table c))
            | _ => throw_parse_exception (str "Key " ++ name ++ str " is not a table array")
            end
          else
            match b with
            | VTable _ => down (cursor_table c)
            | VTableArray _ [] => fail UB
            | VTableArray _ _ => down (cursor_table c)
            | _ => throw_parse_exception (str "Key " ++ name ++ str " already exists as a value")
            end
      | None =>
          let new := if is_last then VTableArray false [[]] else VTable [] in
          down (update_at (path c) (insert part new) (cursor_table c))
      end
  end.
Definition parse_table_array (root : table) : M (table * list bytes) :=
  incr ;;;
  l <- here ;;
  match l with
  | [] => throw_parse_exception (str "Table array name cannot be empty")
  | c :: _ =>
      if decide (c = Byte.x5d) then throw_parse_exception (str "Table array name cannot be empty")
      else
        r <- parse_key Byte.x5d array_part (mkCursor root [] [] false) ;;
        c <- array_part r.1 r.2 ;;
        eat Byte.x5d 0 (str "Unterminated table array name") ;;;
        eat Byte.x5d 0 (str "Unterminated table array name") ;;;
        consume_whitespace ;;;
        eol_or_comment ;;;
        ret (cursor_table c, path c)
  end.
Definition parse_table (root : table) : M (table * list bytes) :=
  incr ;;;
  l <- here ;;
  match l with
  | [] => throw_parse_exception (str "Unexpected end of table")
  | c :: _ => if decide (c = Byte.x5b) then parse_table_array root else parse_single_table root
  end.

(** ** Values *)
Definition as_type (ty : parse_type) (v : Toml.base) : bool :=
  match ty, v with
  | STRING, VString _ | LOCAL_TIME, VLocalTime _ | LOCAL_DATE, VLocalDate _ | LOCAL_DATETIME, VLocalDatetime _ _
  | OFFSET_DATETIME, VOffsetDatetime _ _ _ | INT, VInt _ | FLOAT, VFloat _ | FLOAT, VInt _ | BOOL, VBool _ => true
  | _, _ => false
  end.
Definition as_table (v : Toml.base) : option table := match v with VTable m => Some m | _ => None end.
Definition key_value_part (part : bytes) (c : cursor) : M cursor :=
  cur <- current c ;;
  match find part cur with
  | Some (VTable _) => ret (mkCursor (cursor_table c) (path c ++ [part]) (full_name c) (inserted c))
  | Some _ => throw_parse_exception (str "Key " ++ part ++ str " already exists as a value")
  | None =>
      ret (mkCursor (update_at (path c) (insert part (VTable [])) (cursor_table c)) (path c ++ [part]) (full_name c) (inserted c))
  end.
(** The end of an array of values: any character closes it. *)
Definition close_array (values : list Toml.base) : M Toml.base :=
  l <- here ;; match l with [] => ret (VArray values) | _ :: l' => move l' ;;; ret (VArray values) end.
Definition close_objects (ty : parse_type) (values : list Toml.base) : M Toml.base :=
  l <- here ;;
  match l with
  | [] => throw_parse_exception (str "Unterminated array")
  | c :: l' =>
      if decide (c = Byte.x5d) then
        move l' ;;; ret (if decide (ty = ARRAY) then VArray values else VTableArray true (omap as_table values))
      else throw_parse_exception (str "Unterminated array")
  end.

Fixpoint parse_value (n : nat) : M Toml.base :=
  match n with
  | O => fail OutOfFuel
  | S n =>
      l <- here ;;
      ty <- determine_value_type l ;;
      match ty with
      | STRING => parse_string
      | LOCAL_TIME => parse_time
      | LOCAL_DATE | LOCAL_DATETIME | OFFSET_DATETIME => parse_date
      | INT | FLOAT => parse_number
      | BOOL => parse_bool
      | ARRAY => parse_array n
      | INLINE_TABLE => t <- parse_inline_table n ;; ret (VTable t)
      end
  end
with parse_array (n : nat) : M Toml.base :=
  match n with
  | O => fail OutOfFuel
  | S n =>
      incr ;;;
      skip_whitespace_and_comments ;;;
      c <- deref_it ;;
      if decide (c = Byte.x5d) then incr ;;; ret (VArray [])
      else
        l <- here ;;
        ty <- determine_value_type (take_while (fun c => negb (one_of (str ",]#") c)) l) ;;
        match ty with
        | ARRAY | INLINE_TABLE => parse_object_array n ty []
        | _ => parse_value_array n ty []
        end
  end
with parse_value_array (n : nat) (ty : parse_type) (arr : list Toml.base) : M Toml.base :=
  match n with
  | O => fail OutOfFuel
  | S n =>
      l <- here ;;
      match l with
      | [] => close_array arr
      | c :: _ =>
          if decide (c = Byte.x5d) then close_array arr
          else
            val <- parse_value n ;;
            if as_type ty val then
              skip_whitespace_and_comments ;;;
              c <- deref_it ;;
              if decide (c = Byte.x2c) then
                incr ;;; skip_whitespace_and_comments ;;; parse_value_array n ty (arr ++ [val])
              else close_array (arr ++ [val])
            else throw_parse_exception (str "Arrays must be homogeneous")
      end
  end
with parse_object_array (n : nat) (ty : parse_type) (arr : list Toml.base) : M Toml.base :=
  match n with
  | O => fail OutOfFuel
  | S n =>
      l <- here ;;
      match l with
      | [] => close_objects ty arr
      | c :: _ =>
          if decide (c = Byte.x5d) then close_objects ty arr
          else if negb (bool_decide (c = if decide (ty = ARRAY) then Byte.x5b else Byte.x7b)) then
            throw_parse_exception (str "Unexpected character in array")
          else
            val <- (if decide (ty = ARRAY) then parse_array n else t <- parse_inline_table n ;; ret (VTable t)) ;;
            skip_whitespace_and_comments ;;;
            l <- here ;;
            match l with
            | c :: _ =>
                if decide (c = Byte.x2c) then
                  incr ;;; skip_whitespace_and_comments ;;; parse_object_array n ty (arr ++ [val])
                else close_objects ty (arr ++ [val])
            | [] => close_objects ty (arr ++ [val])
            end
      end
  end
with parse_inline_table (n : nat) : M table :=
  match n with
  | O => fail OutOfFuel
  | S n =>
      tbl <- inline_loop n [] ;;
      l <- here ;;
      match l with
      | [] => throw_parse_exception (str "Unterminated inline table")
      | c :: l' =>
          if decide (c = Byte.x7d) then move l' ;;; consume_whitespace ;;; ret tbl
          else throw_parse_exception (str "Unterminated inline table")
      end
  end
with inline_loop (n : nat) (tbl : table) : M table :=
  match n with
  | O => fail OutOfFuel
  | S n =>
      incr ;;;
      l <- here ;;
      match l with
      | [] => throw_parse_exception (str "Unterminated inline table")
      | _ =>
          consume_whitespace ;;;
          l <- here ;;
          tbl <- match l with
                 | [] => ret tbl
                 | c :: _ =>
                     if decide (c = Byte.x7d) then ret tbl
                     else tbl <- parse_key_value n tbl [] ;; consume_whitespace ;;; ret tbl
                 end ;;
          c <- deref_it ;;
          if decide (c = Byte.x2c) then inline_loop n tbl else ret tbl
      end
  end
with parse_key_value (n : nat) (root : table) (at_path : list bytes) : M table :=
  match n with
  | O => fail OutOfFuel
  | S n =>
      r <- parse_key Byte.x3d key_value_part (mkCursor root at_path [] false) ;;
      let '(key, c) := r in
      cur <- current c ;;
      if contains key cur then throw_parse_exception (str "Key " ++ key ++ str " already present")
      else
        l <- here ;;
        match l with
        | [] => throw_parse_exception (str "Value must follow after a '='")
        | ch :: l' =>
            if negb (bool_decide (ch = Byte.x3d)) then throw_parse_exception (str "Value must follow after a '='")
            else
              move l' ;;;
              consume_whitespace ;;;
              val <- parse_value n ;;
              consume_whitespace ;;;
              ret (update_at (path c) (insert key val) (cursor_table c))
        end
  end.

(** ** [parse]: the loop over the lines, with the path of [curr_table] *)
Definition value_fuel (p : parser) : nat := (4 * (length (rest p) + 2 * length (input_ p)) + 12)%nat.
Fixpoint parse_loop (n : nat) (root : table) (curr_table : list bytes) : M table :=
  match n with
  | O => fail OutOfFuel
  | S n =>
      more <- getline ;;
      if more then
        next_line_number ;;;
        consume_whitespace ;;;
        l <- here ;;
        if at_comment l then parse_loop n root curr_table
        else if decide (head l = Some Byte.x5b) then
          r <- parse_table root ;; parse_loop n r.1 r.2
        else
          root <- (fun p => parse_key_value (value_fuel p) root curr_table p) ;;
          consume_whitespace ;;;
          eol_or_comment ;;;
          parse_loop n root curr_table
      else ret root
  end.
Definition parse (text : bytes) : outcome table :=
  match parse_loop (2 * length text + 3) [] [] (mkParser [] text false false 0) with
  | Done (t, _) => Done t
  | Throw e n => Throw e n
  | Fail e => Fail e
  end.
(** [None] is a file that cannot be opened; the message has no line. *)
Definition parse_file (filename : bytes) (file : option bytes) : outcome table :=
  match file with
  | None => Throw (filename ++ str " could not be opened for parsing") 0
  | Some text => parse text
  end.
End TomlParser.
