(* ===== verification/TomlTables.v ===== *)
(** * The tables the TOML parser builds

    The parser of [TomlParser] follows the path of the table it fills, and an
    array of tables stands for its last one.  Every path it follows leads to a
    table and no array of tables is empty, so the only undefined behaviour it can
    run into is a read behind the end of a line: [parse_defined]. *)

From Stdlib Require Import ZArith Lia.
From stdpp Require Import base list strings.
From S2P Require Import Prelude Endian Buffer Text Json JsonSpec Toml TomlParser.

Module TomlTables.
Import Toml TomlParser.

(** ** Tables without empty arrays of tables *)
Fixpoint wf (b : Toml.base) : bool :=
  match b with
  | VTable m => forallb (fun e => wf e.2) m
  | VTableArray _ arr => negb (bool_decide (arr = [])) && forallb (fun t => forallb (fun e => wf e.2) t) arr
  | _ => true
  end.
Definition wf_table (t : table) : Prop := forallb (fun e => wf e.2) t = true.
Lemma wf_array b arr : wf (VTableArray b arr) = true <-> arr <> [] /\ Forall wf_table arr.
Proof.
  cbn [wf]. rewrite andb_true_iff, negb_true_iff, bool_decide_eq_false, forallb_forall, List.Forall_forall. done.
Qed.

Lemma find_wf k t v : wf_table t -> find k t = Some v -> wf v = true.
Proof.
  unfold wf_table. induction t as [|[k' v'] t IH]; cbn; [done|]. rewrite andb_true_iff. intros [H1 H2].
  case_decide; [by intros [= <-]|auto].
Qed.
Lemma insert_wf k v t : wf_table t -> wf v = true -> wf_table (insert k v t).
Proof.
  unfold wf_table. intros Ht Hv. induction t as [|[k' v'] t IH]; cbn in *; [by rewrite Hv|]. apply andb_true_iff in Ht as [H1 H2].
  case_decide; cbn; [by rewrite Hv|by rewrite H1, IH].
Qed.
Lemma last_some (arr : list table) : arr <> [] -> exists m, last arr = Some m.
Proof. intros H. destruct (last arr) eqn:E; [eauto|]. by apply last_None in E. Qed.
Lemma last_wf (arr : list table) m : Forall wf_table arr -> last arr = Some m -> wf_table m.
Proof. intros H E. apply last_Some_elem_of in E. rewrite Forall_forall in H. auto. Qed.
Lemma removelast_snoc (arr : list table) m : last arr = Some m -> arr = removelast arr ++ [m].
Proof.
  intros (l & ->)%last_Some. by rewrite removelast_last.
Qed.

Lemma table_at_wf path t t' : wf_table t -> table_at path t = Some t' -> wf_table t'.
Proof.
  revert t. induction path as [|k path IH]; intros t Ht E; cbn in E; [by injection E as <-|].
  destruct (find k t) as [v|] eqn:Ef; [|done]. pose proof (find_wf _ _ _ Ht Ef) as Hv. destruct v; try done; [by eapply IH|].
  apply wf_array in Hv as [_ Hv]. destruct (last array_) as [m|] eqn:El; [|done]. eapply IH; [|exact E]. by eapply last_wf.
Qed.
Lemma table_at_app p q t : table_at (p ++ q) t = table_at p t ≫= table_at q.
Proof.
  revert t. induction p as [|k p IH]; intros t; [done|]. cbn. destruct (find k t) as [[]|]; try done. by destruct (last _).
Qed.
Lemma table_at_prefix p q t : is_Some (table_at (p ++ q) t) -> is_Some (table_at p t).
Proof. rewrite table_at_app. intros [x (t' & -> & _)%bind_Some]. by eexists. Qed.
Lemma table_at_update p f t cur : table_at p t = Some cur -> table_at p (update_at p f t) = Some (f cur).
Proof.
  revert t. induction p as [|k p IH]; intros t E; cbn in *; [by injection E as ->|].
  destruct (find k t) as [v|] eqn:Ef; [|done]. destruct v; try done; [by rewrite find_insert, IH|].
  destruct (last array_) as [m|] eqn:El; [|done]. by rewrite find_insert, last_snoc, IH.
Qed.
Lemma update_at_wf p f t cur :
  wf_table t -> table_at p t = Some cur -> wf_table (f cur) -> wf_table (update_at p f t).
Proof.
  revert t. induction p as [|k p IH]; intros t Ht E Hf; cbn in *; [by injection E as <-|].
  destruct (find k t) as [v|] eqn:Ef; [|done]. pose proof (find_wf _ _ _ Ht Ef) as Hv. destruct v; try done.
  - apply insert_wf; [done|]. by apply IH.
  - apply wf_array in Hv as [_ Hv]. destruct (last array_) as [m|] eqn:El; [|done]. apply insert_wf; [done|]. apply wf_array.
    split; [by destruct (removelast array_)|]. rewrite (removelast_snoc _ _ El) in Hv. apply Forall_app in Hv as [H1 H2].
    rewrite Forall_singleton in H2. apply Forall_app. split; [done|]. apply Forall_singleton. by apply IH.
Qed.

(** ** The rule: [m] gives an [R], and its only undefined behaviour is a read
    behind the end of a line *)
Definition sound_at {A} (R : A -> Prop) (m : M A) (p : parser) : Prop :=
  match m p with Done (a, _) => R a | Throw _ _ => True | Fail e => e <> UB end.
Definition sound {A} (R : A -> Prop) (m : M A) : Prop := forall p, sound_at R m p.
Definition any {A} (a : A) : Prop := True.
Lemma sound_bind {A B} (R : A -> Prop) (R' : B -> Prop) (m : M A) (f : A -> M B) p :
  sound_at R m p -> (forall a p', R a -> sound_at R' (f a) p') -> sound_at R' (bind m f) p.
Proof. intros H1 H2. unfold sound_at, bind in *. destruct (m p) as [[a p']| |]; [by apply H2|done..]. Qed.
Lemma sound_weaken {A} (R R' : A -> Prop) (m : M A) p : sound_at R m p -> (forall a, R a -> R' a) -> sound_at R' m p.
Proof. unfold sound_at. intros H1 H2. destruct (m p) as [[a p']| |]; auto. Qed.
Lemma sound_here {B} (R : B -> Prop) (f : bytes -> M B) p : sound_at R (f (rest p)) p -> sound_at R (bind here f) p.
Proof. done. Qed.
Lemma sound_move {B} (R : B -> Prop) l (f : unit -> M B) p : sound_at R (f tt) (with_rest l p) -> sound_at R (bind (move l) f) p.
Proof. done. Qed.

Create HintDb toml_tables.
(** Follow the code. *)
Ltac sound_step :=
  lazymatch goal with
  | |- sound _ _ => intros ?
  | |- sound_at _ (bind here _) _ => apply sound_here
  | |- sound_at _ (bind (move _) _) _ => apply sound_move
  | |- sound_at _ (ret _) _ => red; cbn
  | |- sound_at _ (move _) _ => red; cbn
  | |- sound_at _ (throw_parse_exception _) _ => exact I
  | |- sound_at _ (fail _) _ => discriminate
  | |- sound_at _ (match ?x with _ => _ end) _ => destruct x eqn:?
  | |- sound_at _ (let _ := _ in _) _ => cbv zeta
  | |- sound_at _ (fun p => _ p) _ => red; cbv beta; fold (@sound_at)
  | |- sound_at _ (bind _ _) _ => eapply sound_bind; [solve [eauto with toml_tables nocore]|intros ? ? ?]
  | |- sound_at _ _ _ => eapply sound_weaken; [solve [eauto with toml_tables nocore]|intros ? ?]
  | |- any _ => exact I
  end.
Ltac sound_call := eapply sound_bind; [solve [eauto with toml_tables nocore]|intros ? ? ?].
Ltac sound_tac := repeat sound_step; try done.
Lemma sound_getline p : sound_at any getline p.
Proof. unfold sound_at, getline. destruct (read_line _). repeat case_match; simplify_eq; done. Qed.
Lemma sound_next_line_number p : sound_at any next_line_number p.
Proof. done. Qed.
Lemma sound_consume_whitespace p : sound_at any consume_whitespace p.
Proof. done. Qed.
Lemma sound_incr p : sound_at any incr p.
Proof. unfold incr. sound_tac. Qed.
Lemma sound_deref_it p : sound_at any deref_it p.
Proof. unfold deref_it. sound_tac. Qed.
#[export] Hint Resolve sound_getline sound_next_line_number sound_consume_whitespace sound_incr sound_deref_it : toml_tables.
Lemma sound_eol_or_comment p : sound_at any eol_or_comment p.
Proof. unfold eol_or_comment. sound_tac. Qed.
Lemma sound_skip_loop n p : sound_at any (skip_loop n) p.
Proof. revert p. induction n as [|n IH]; intros p; cbn [skip_loop]; sound_tac. Qed.
Lemma sound_skip p : sound_at any skip_whitespace_and_comments p.
Proof. unfold skip_whitespace_and_comments. sound_step. apply sound_skip_loop. Qed.
Lemma sound_eat c stop err p : sound_at any (eat c stop err) p.
Proof. unfold eat. sound_tac. Qed.
Lemma sound_eat_or a b stop err p : sound_at any (eat_or a b stop err) p.
Proof. unfold eat_or. sound_tac. Qed.
#[export] Hint Resolve sound_eol_or_comment sound_skip sound_eat sound_eat_or : toml_tables.
Lemma sound_eat_string s stop err p : sound_at any (eat_string s stop err) p.
Proof. revert p. induction s as [|c s IH]; intros p; cbn [eat_string]; sound_tac. Qed.
Lemma sound_eat_digits len stop err val p : sound_at any (eat_digits len stop err val) p.
Proof. revert val p. induction len as [|len IH]; intros val p; cbn [eat_digits]; sound_tac. Qed.
Lemma sound_parse_hex n place value p : sound_at any (parse_hex n place value) p.
Proof. revert place value p. induction n as [|n IH]; intros place value p; cbn [parse_hex]; sound_tac. Qed.
#[export] Hint Resolve sound_eat_string sound_eat_digits sound_parse_hex : toml_tables.
Lemma sound_parse_unicode p : sound_at any parse_unicode p.
Proof. unfold parse_unicode. sound_tac. Qed.
#[export] Hint Resolve sound_parse_unicode : toml_tables.
Lemma sound_parse_escape_code p : sound_at any parse_escape_code p.
Proof. unfold parse_escape_code. sound_tac. Qed.
#[export] Hint Resolve sound_parse_escape_code : toml_tables.
Lemma sound_literal_loop n delim val p : sound_at any (literal_loop n delim val) p.
Proof. revert val p. induction n as [|n IH]; intros val p; cbn [literal_loop]; sound_tac. Qed.
Lemma sound_string_literal delim p : sound_at any (string_literal delim) p.
Proof. unfold string_literal. sound_step. apply sound_literal_loop. Qed.
Lemma sound_handle_loop n delim ss p : sound_at any (handle_loop n delim ss) p.
Proof. revert ss p. induction n as [|n IH]; intros ss p; cbn [handle_loop]; sound_tac. Qed.
Lemma sound_handle_line delim ss consuming p : sound_at any (handle_line delim ss consuming) p.
Proof. unfold handle_line. apply sound_here. cbv zeta. apply sound_move. destruct (_ && _); [done|apply sound_handle_loop]. Qed.
#[export] Hint Resolve sound_string_literal sound_handle_line : toml_tables.
Lemma sound_multiline_loop n delim ss consuming p : sound_at (fun v => wf v = true) (multiline_loop n delim ss consuming) p.
Proof. revert ss consuming p. induction n as [|n IH]; intros ss consuming p; cbn [multiline_loop]; sound_tac. Qed.
Lemma sound_parse_multiline_string delim p : sound_at (fun v => wf v = true) (parse_multiline_string delim) p.
Proof.
  unfold parse_multiline_string. sound_step. destruct a as [[ss c] [|]]; [done|]. apply sound_multiline_loop.
Qed.
#[export] Hint Resolve sound_parse_multiline_string : toml_tables.
Lemma sound_parse_string p : sound_at (fun v => wf v = true) parse_string p.
Proof. unfold parse_string. sound_tac. Qed.
(** Numbers, booleans, times and dates. *)
Lemma sound_determine_number_type l p : sound_at any (determine_number_type l) p.
Proof. unfold determine_number_type. cbv zeta. sound_tac. Qed.
#[export] Hint Resolve sound_parse_string sound_determine_number_type : toml_tables.
Lemma sound_determine_value_type l p : sound_at any (determine_value_type l) p.
Proof. unfold determine_value_type. sound_tac. Qed.
Lemma sound_parse_int l stop base prefix p : sound_at (fun v => wf v = true) (parse_int l stop base prefix) p.
Proof. unfold parse_int. sound_tac. Qed.
Lemma sound_parse_float l stop p : sound_at (fun v => wf v = true) (parse_float l stop) p.
Proof. unfold parse_float. sound_tac. Qed.
Lemma sound_check_no_leading_zero n l p : sound_at any (check_no_leading_zero n l) p.
Proof. unfold check_no_leading_zero. sound_tac. Qed.
Lemma sound_eat_number_digits f l p : sound_at any (eat_number_digits f l) p.
Proof. unfold eat_number_digits. sound_tac. Qed.
(** Looking at the next character, and at the kind of value, does not move. *)
Lemma sound_deref {B} (R : B -> Prop) (f : byte -> M B) p :
  (forall c l, rest p = c :: l -> sound_at R (f c) p) -> sound_at R (bind deref_it f) p.
Proof.
  intros H. unfold sound_at, bind, deref_it, here in *. cbn. destruct (rest p) as [|c l] eqn:E; [discriminate|]. exact (H c l eq_refl).
Qed.
Lemma sound_value_type {B} (R : B -> Prop) l (f : parse_type -> M B) p :
  (forall ty, sound_at R (f ty) p) -> sound_at R (bind (determine_value_type l) f) p.
Proof.
  intros H. assert ((exists ty, determine_value_type l p = Done (ty, p)) \/ exists e k, determine_value_type l p = Throw e k) as Hd.
  { unfold determine_value_type, determine_number_type. cbv zeta. repeat case_match; first [left; eexists; reflexivity|right; eexists _, _; reflexivity]. }
  unfold sound_at, bind in *. destruct Hd as [[ty ->]|(e & k & ->)]; [apply H|done].
Qed.
#[export] Hint Resolve sound_determine_value_type sound_parse_int sound_parse_float sound_check_no_leading_zero
  sound_eat_number_digits : toml_tables.
Lemma sound_eat_exp n l p : sound_at any (eat_exp n l) p.
Proof. unfold eat_exp. sound_tac. Qed.
#[export] Hint Resolve sound_eat_exp : toml_tables.
Lemma sound_exponent (e : bool) n f l p : sound_at any (if e then eat_exp n l else eat_number_digits f l) p.
Proof. sound_tac. Qed.
Lemma sound_second_exponent (e : bool) n l p :
  sound_at any (match l with c :: l' => if negb e && one_of (str "eE") c then eat_exp n l' else ret l | [] => ret l end) p.
Proof. sound_tac. Qed.
#[export] Hint Resolve sound_exponent sound_second_exponent : toml_tables.
Lemma sound_parse_number p : sound_at (fun v => wf v = true) parse_number p.
Proof. unfold parse_number. sound_tac. Qed.
Lemma sound_parse_bool p : sound_at (fun v => wf v = true) parse_bool p.
Proof. unfold parse_bool. sound_tac. Qed.
Lemma sound_read_time stop p : sound_at any (read_time stop) p.
Proof.
  unfold read_time. apply sound_here. cbv zeta. do 5 sound_call. apply sound_here.
  eapply (sound_bind any); [sound_tac|]. intros ? ? _. sound_tac.
Qed.
#[export] Hint Resolve sound_parse_number sound_parse_bool sound_read_time : toml_tables.
Lemma sound_parse_time p : sound_at (fun v => wf v = true) parse_time p.
Proof. unfold parse_time. sound_tac. Qed.
Lemma sound_parse_date p : sound_at (fun v => wf v = true) parse_date p.
Proof.
  unfold parse_date. apply sound_here. cbv zeta. do 5 sound_call. apply sound_here. destruct (at_stop _ _); [done|].
  do 2 sound_call. apply sound_here. destruct (at_stop _ _); [done|]. sound_call. eapply (sound_bind any); [sound_tac|].
  intros z q _. sound_tac.
Qed.
Lemma sound_parse_simple_key p : sound_at any parse_simple_key p.
Proof. unfold parse_simple_key, parse_bare_key. sound_tac. Qed.
#[export] Hint Resolve sound_parse_time sound_parse_date sound_parse_simple_key : toml_tables.

(** ** Paths *)

(** A cursor behind the path [base] points to a table of sound ones. *)
Definition cursor_ok (base : list bytes) (c : cursor) : Prop :=
  wf_table (cursor_table c) /\ is_Some (table_at (path c) (cursor_table c)) /\ exists q, path c = base ++ q.
Lemma current_ok {B} (R : B -> Prop) base c (f : table -> M B) p :
  cursor_ok base c -> (forall cur, wf_table cur -> table_at (path c) (cursor_table c) = Some cur -> sound_at R (f cur) p) ->
  sound_at R (bind (current c) f) p.
Proof.
  intros (Hw & [cur Hc] & _) H. unfold sound_at, bind, current in *. rewrite Hc. cbn. apply H; [by eapply table_at_wf|done].
Qed.
(** Going down to a part that is there, and to one that is new. *)
Lemma down_ok base c part name i cur m :
  cursor_ok base c -> table_at (path c) (cursor_table c) = Some cur -> table_at [part] cur = Some m ->
  cursor_ok base (mkCursor (cursor_table c) (path c ++ [part]) name i).
Proof.
  intros (Hw & _ & q & Hq) Hc Hm. split; [done|]. cbn [cursor_table path]. split.
  - rewrite table_at_app, Hc. exists m. exact Hm.
  - exists (q ++ [part]). by rewrite Hq, app_assoc.
Qed.
Lemma new_ok base c part name i cur v m :
  cursor_ok base c -> wf_table cur -> table_at (path c) (cursor_table c) = Some cur -> wf v = true ->
  table_at [part] (insert part v cur) = Some m ->
  cursor_ok base (mkCursor (update_at (path c) (insert part v) (cursor_table c)) (path c ++ [part]) name i).
Proof.
  intros (Hw & _ & q & Hq) Hcur Hc Hv Hm. unfold cursor_ok. cbn [cursor_table path]. split_and!.
  - eapply update_at_wf; [done|exact Hc|by apply insert_wf].
  - rewrite table_at_app, (table_at_update _ _ _ _ Hc). exists m. exact Hm.
  - exists (q ++ [part]). by rewrite Hq, app_assoc.
Qed.
Lemma at_part (part : bytes) (cur : table) v :
  find part cur = Some v ->
  table_at [part] cur = match v with VTable m => Some m | VTableArray _ arr => last arr | _ => None end.
Proof. intros E. cbn. rewrite E. destruct v; try done. by destruct (last _). Qed.

Lemma sound_single_part base part c p : cursor_ok base c -> sound_at (cursor_ok base) (single_part part c) p.
Proof.
  intros Hc. unfold single_part. destruct part as [|b part]; [done|]. cbv zeta. eapply current_ok; [done|]. intros cur Hcur Ec.
  destruct (find (b :: part) cur) as [v|] eqn:Ef.
  - pose proof (find_wf _ _ _ Hcur Ef) as Hv. pose proof (at_part _ _ _ Ef) as Hp. destruct v; try done; [by eapply down_ok|].
    apply wf_array in Hv as [Hne _]. destruct (last_some _ Hne) as [m Hm]. rewrite Hm in Hp. destruct array_; [done|]. by eapply down_ok.
  - eapply new_ok; try done. rewrite (at_part _ _ _ (find_insert _ _ _)). done.
Qed.
Lemma sound_array_part base part c p : cursor_ok base c -> sound_at (cursor_ok base) (array_part part c) p.
Proof.
  intros Hc. unfold array_part. destruct part as [|b part]; [done|]. cbv zeta. eapply current_ok; [done|]. intros cur Hcur Ec.
  apply sound_here. destruct (find (b :: part) cur) as [v|] eqn:Ef.
  - pose proof (find_wf _ _ _ Hcur Ef) as Hv. pose proof (at_part _ _ _ Ef) as Hp. destruct (bool_decide _).
    + destruct v; try done. destruct is_inline_; [done|]. apply wf_array in Hv as [_ Hv].
      eapply new_ok; try done; [|rewrite (at_part _ _ _ (find_insert _ _ _)); apply last_snoc].
      apply wf_array. split; [by destruct array_|]. apply Forall_app. split; [done|]. by apply Forall_singleton.
    + destruct v; try done; [by eapply down_ok|]. apply wf_array in Hv as [Hne _]. destruct (last_some _ Hne) as [m Hm].
      rewrite Hm in Hp. destruct array_; [done|]. by eapply down_ok.
  - destruct (bool_decide _); (eapply new_ok; try done; rewrite (at_part _ _ _ (find_insert _ _ _)); done).
Qed.
Lemma sound_key_value_part base part c p : cursor_ok base c -> sound_at (cursor_ok base) (key_value_part part c) p.
Proof.
  intros Hc. unfold key_value_part. eapply current_ok; [done|]. intros cur Hcur Ec. destruct (find part cur) as [v|] eqn:Ef.
  - pose proof (at_part _ _ _ Ef) as Hp. destruct v; try done. by eapply down_ok.
  - eapply new_ok; try done. rewrite (at_part _ _ _ (find_insert _ _ _)). done.
Qed.

Lemma sound_parse_key {S} (R : S -> Prop) key_end (handler : bytes -> S -> M S) s p :
  (forall part s p, R s -> sound_at R (handler part s) p) -> R s ->
  sound_at (fun r => R r.2) (parse_key key_end handler s) p.
Proof.
  intros Hh Hs. unfold parse_key. change (sound_at (fun r => R r.2) (parse_key_loop (length (rest p) + 1) key_end handler s) p).
  generalize (length (rest p) + 1)%nat. intros n. revert s p Hs. induction n as [|n IH]; intros s p Hs; cbn [parse_key_loop]; [done|].
  apply sound_here. destruct (rest p); [done|]. destruct (decide _); [done|]. sound_step. sound_step. apply sound_here.
  destruct (rest _); [done|]. destruct (decide _); [done|]. destruct (decide _); [|done].
  eapply sound_bind; [by apply Hh|]. intros s' p1 Hs'. sound_step. by apply IH.
Qed.
(** The tables, and the path of the one that is being filled. *)
Definition filling (r : table * list bytes) : Prop := wf_table r.1 /\ is_Some (table_at r.2 r.1).
Lemma cursor_filling base c : cursor_ok base c -> filling (cursor_table c, path c).
Proof. by intros (? & ? & _). Qed.
Lemma root_ok root : wf_table root -> cursor_ok [] (mkCursor root [] [] false).
Proof. intros H. split; [done|]. split; [by eexists|]. by exists []. Qed.
Lemma sound_parse_single_table root p : wf_table root -> sound_at filling (parse_single_table root) p.
Proof.
  intros Hw. unfold parse_single_table. apply sound_here. destruct (rest p); [done|]. destruct (decide _); [done|].
  eapply sound_bind; [apply (sound_parse_key (cursor_ok [])); [apply sound_single_part|by apply root_ok]|]. intros [part c] p1 Hc. cbn in Hc.
  eapply sound_bind; [by apply (sound_single_part [])|]. intros c' p2 Hc'. apply sound_here. destruct (rest p2); [done|].
  destruct (negb _); [done|]. eapply current_ok; [done|]. intros cur _ _. destruct (_ && _); [done|].
  do 3 sound_step. by eapply cursor_filling.
Qed.
Lemma sound_parse_table_array root p : wf_table root -> sound_at filling (parse_table_array root) p.
Proof.
  intros Hw. unfold parse_table_array. sound_step. apply sound_here. destruct (rest _); [done|]. destruct (decide _); [done|].
  eapply sound_bind; [apply (sound_parse_key (cursor_ok [])); [apply sound_array_part|by apply root_ok]|]. intros [part c] p1 Hc. cbn in Hc.
  eapply sound_bind; [by apply (sound_array_part [])|]. intros c' p2 Hc'. do 4 sound_step. by eapply cursor_filling.
Qed.
Lemma sound_parse_table root p : wf_table root -> sound_at filling (parse_table root) p.
Proof.
  intros Hw. unfold parse_table. sound_step. apply sound_here. destruct (rest _); [done|].
  destruct (decide _); [by apply sound_parse_table_array|by apply sound_parse_single_table].
Qed.

(** ** Values *)
Definition is_table (v : Toml.base) : Prop := exists m, v = VTable m /\ wf_table m.
Lemma close_objects_ok ty arr p :
  (ty <> ARRAY -> arr <> [] /\ Forall is_table arr) -> sound_at (fun v => wf v = true) (close_objects ty arr) p.
Proof.
  intros H. unfold close_objects. apply sound_here. destruct (rest p); [done|]. destruct (decide _); [|done]. apply sound_move.
  red. cbn. destruct (decide (ty = ARRAY)) as [|Hty]; [done|]. destruct (H Hty) as [Hne HF]. apply wf_array.
  assert (forall vs, Forall is_table vs -> Forall wf_table (omap as_table vs)) as Hl.
  { induction 1 as [|v vs (m & -> & Hm) _ IH]; [constructor|]. by constructor. }
  split; [|by apply Hl]. destruct HF as [|v vs (m & -> & _) _]; done.
Qed.
Definition tables_ok (n : nat) : Prop :=
  (forall p, sound_at (fun v => wf v = true) (parse_value n) p) /\
  (forall p, sound_at (fun v => wf v = true) (parse_array n) p) /\
  (forall ty arr p, sound_at (fun v => wf v = true) (parse_value_array n ty arr) p) /\
  (forall ty arr p, (ty <> ARRAY -> Forall is_table arr /\ (arr <> [] \/ exists c l, rest p = c :: l /\ c <> Byte.x5d)) ->
     sound_at (fun v => wf v = true) (parse_object_array n ty arr) p) /\
  (forall p, sound_at wf_table (parse_inline_table n) p) /\
  (forall tbl p, wf_table tbl -> sound_at wf_table (inline_loop n tbl) p) /\
  (forall root path p, filling (root, path) -> sound_at (fun root' => filling (root', path)) (parse_key_value n root path) p).
Lemma close_array_ok arr p : sound_at (fun v => wf v = true) (close_array arr) p.
Proof. unfold close_array. sound_tac. Qed.
Lemma tables_ok_all n : tables_ok n.
Proof.
  induction n as [|n (IV & IA & IVA & IOA & IT & IL & IK)]; [by split_and!|]. split_and!.
  - intros p. cbn [parse_value]. apply sound_here. sound_step.
    destruct a; try solve [eauto with toml_tables nocore|apply IA]. eapply sound_bind; [apply IT|]. intros t q Ht. exact Ht.
  - intros p. cbn [parse_array]. do 2 sound_call. apply sound_deref. intros c l E. destruct (decide _) as [|Hc]; [by sound_tac|].
    apply sound_here. apply sound_value_type. intros ty.
    destruct ty; try apply IVA; apply IOA; intros _; (split; [constructor|]; right; by exists c, l).
  - intros ty arr p. cbn [parse_value_array]. apply sound_here. destruct (rest p); [apply close_array_ok|].
    destruct (decide _); [apply close_array_ok|]. eapply sound_bind; [apply IV|]. intros v q _. destruct (as_type _ _); [|done].
    sound_step. sound_step. destruct (decide _); [|apply close_array_ok]. sound_step. sound_step. apply IVA.
  - intros ty arr p H. cbn [parse_object_array]. apply sound_here.
    assert (rest p = [] \/ head (rest p) = Some Byte.x5d -> ty <> ARRAY -> arr <> [] /\ Forall is_table arr) as Hend.
    { intros He Hty. destruct (H Hty) as [HF [Hne|(c & l & E & Hc)]]; [done|]. rewrite E in He. destruct He as [|[=]]; done. }
    destruct (rest p) as [|c l]; [apply close_objects_ok, Hend; by left|].
    destruct (decide _) as [->|_]; [apply close_objects_ok, Hend; by right|]. destruct (negb _); [done|].
    eapply (sound_bind (fun v => ty <> ARRAY -> is_table v)).
    { destruct (decide _); [eapply sound_weaken; [apply IA|done]|]. eapply sound_bind; [apply IT|]. intros t q Ht _. by exists t. }
    intros v q Hv. assert (ty <> ARRAY -> arr ++ [v] <> [] /\ Forall is_table (arr ++ [v])) as Hnext.
    { intros Hty. split; [by destruct arr|]. apply Forall_app. split; [by apply H|]. apply Forall_singleton. auto. }
    sound_call. apply sound_here. destruct (rest _); [by apply close_objects_ok|]. destruct (decide _); [|by apply close_objects_ok].
    do 2 sound_call. apply IOA. intros Hty. destruct (Hnext Hty). auto.
  - intros p. cbn [parse_inline_table]. eapply sound_bind; [by apply IL|]. intros t q Ht. apply sound_here. destruct (rest q); [done|].
    destruct (decide _); [|done]. apply sound_move. sound_step. exact Ht.
  - intros tbl p Ht. cbn [inline_loop]. sound_step. apply sound_here. destruct (rest _); [done|]. sound_step. apply sound_here.
    eapply (sound_bind wf_table).
    + destruct (rest _); [exact Ht|]. destruct (decide _); [exact Ht|].
      eapply sound_bind; [apply IK; split; [exact Ht|by eexists]|]. intros t q [Hq _]. sound_step. exact Hq.
    + intros t q Hq. sound_step. destruct (decide _); [by apply IL|exact Hq].
  - intros root path p Hf. cbn [parse_key_value].
    eapply sound_bind; [apply (sound_parse_key (cursor_ok path)); [apply sound_key_value_part|]|].
    { destruct Hf. split; [done|]. split; [done|]. exists []. cbn. by rewrite app_nil_r. }
    intros [key c] q Hc. cbn in Hc. eapply current_ok; [done|]. intros cur Hcur Ec. destruct (contains _ _); [done|].
    apply sound_here. destruct (rest q); [done|]. destruct (negb _); [done|]. apply sound_move. sound_step.
    eapply sound_bind; [apply IV|]. intros v q2 Hv. sound_step. destruct Hc as (Hw & _ & q' & Hq). split; cbn.
    + eapply update_at_wf; [done|exact Ec|by apply insert_wf].
    + apply (table_at_prefix _ q'). rewrite <- Hq. rewrite (table_at_update _ _ _ _ Ec). by eexists.
Qed.
Lemma sound_parse_loop n root path p : filling (root, path) -> sound_at any (parse_loop n root path) p.
Proof.
  revert root path p. induction n as [|n IH]; intros root path p Hf; cbn [parse_loop]; [done|].
  sound_call. destruct a; [|done]. do 2 sound_call. apply sound_here. destruct (at_comment _); [by apply IH|].
  destruct (decide _).
  - eapply sound_bind; [apply sound_parse_table, Hf|]. intros [root' path'] q Hq. by apply IH.
  - eapply (sound_bind (fun root' => filling (root', path))); [by apply (tables_ok_all _)|].
    intros root' q Hq. do 2 sound_call. by apply IH.
Qed.
Lemma parse_defined text : parse text <> Fail UB.
Proof.
  unfold parse. pose proof (sound_parse_loop (2 * length text + 3) [] [] (mkParser [] text false false 0)) as H.
  unfold sound_at in H. specialize (H ltac:(split; [done|by eexists])). destruct (parse_loop _ _ _ _) as [[t p]| |]; congruence.
Qed.
End TomlTables.
