(* ===== verification/TomlTotal.v ===== *)
(** * The TOML parser returns

    Every step of the parser moves on in its input, so the fuel of its loops is
    enough: [toml_parse_total].  [post Q m p] is the rule the proofs work with:
    run from [p], [m] does not run out of fuel, and ends in a state with [Q]; what
    may happen besides is a [parse_exception], a read behind the end of a line, or
    undefined behaviour in a table, which [TomlTables] excludes. *)

From Stdlib Require Import ZArith Lia.
From stdpp Require Import base list strings.
From S2P Require Import Prelude Endian Buffer Text Json JsonSpec Toml TomlParser TomlTables.

Module TomlTotal.
Import Toml TomlParser.

Definition post {A} (Q : parser -> Prop) (m : M A) (p : parser) : Prop :=
  match m p with Done (_, p') => Q p' | Throw _ _ => True | Fail e => e = ReadPastEnd \/ e = UB end.

Lemma post_bind {A B} (Q Q' : parser -> Prop) (m : M A) (f : A -> M B) p :
  post Q m p -> (forall a p', Q p' -> post Q' (f a) p') -> post Q' (bind m f) p.
Proof. intros H1 H2. unfold post, bind in *. destruct (m p) as [[a p']| |]; [exact (H2 a p' H1)|done|done]. Qed.
Lemma post_weaken {A} (Q Q' : parser -> Prop) (m : M A) p : post Q m p -> (forall p', Q p' -> Q' p') -> post Q' m p.
Proof. unfold post. intros H1 H2. destruct (m p) as [[a p']| |]; auto. Qed.
Lemma post_ret {A} (Q : parser -> Prop) (a : A) p : Q p -> post Q (ret a) p.
Proof. done. Qed.
Lemma post_throw {A} (Q : parser -> Prop) err p : post Q (throw_parse_exception err : M A) p.
Proof. done. Qed.
Lemma post_ub {A} (Q : parser -> Prop) p : post Q (fail UB : M A) p.
Proof. by right. Qed.
Lemma post_past_end {A} (Q : parser -> Prop) p : post Q (fail ReadPastEnd : M A) p.
Proof. by left. Qed.
Lemma post_here {B} (Q : parser -> Prop) (f : bytes -> M B) p : post Q (f (rest p)) p -> post Q (bind here f) p.
Proof. done. Qed.
Lemma post_move {B} (Q : parser -> Prop) l (f : unit -> M B) p : post Q (f tt) (with_rest l p) -> post Q (bind (move l) f) p.
Proof. done. Qed.
Create HintDb toml.
#[export] Hint Resolve post_throw post_ub post_past_end : toml.

(** ** Steps within a line *)
Definition within (k : nat) (p p' : parser) : Prop :=
  length (rest p') + k <= length (rest p) /\ input_ p' = input_ p /\ eofbit p' = eofbit p /\ failbit p' = failbit p.
Lemma within_refl p : within 0 p p.
Proof. unfold within. split_and!; [lia|done..]. Qed.
Lemma within_trans j k i p1 p2 p3 : within j p1 p2 -> within k p2 p3 -> i <= j + k -> within i p1 p3.
Proof. unfold within. intros (? & ? & ? & ?) (? & ? & ? & ?) ?. split_and!; [lia|congruence..]. Qed.
Lemma within_move k l p : length l + k <= length (rest p) -> within k p (with_rest l p).
Proof. intros H. by split_and!. Qed.
Lemma within_le j k p p' : within j p p' -> k <= j -> within k p p'.
Proof. unfold within. intros (? & ? & ? & ?) ?. split_and!; [lia|congruence..]. Qed.
(** Go through a chain of states. *)
Ltac within_solve :=
  unfold within, with_rest in *; repeat match goal with H : _ /\ _ |- _ => destruct H end; subst;
  repeat match goal with E : rest ?p = _ |- _ => apply (f_equal length) in E end;
  cbn [rest input_ eofbit failbit length] in *; split_and?; try congruence; try lia.
Ltac step :=
  lazymatch goal with
  | |- post _ (bind here _) _ => apply post_here
  | |- post _ (bind (move _) _) _ => apply post_move
  | |- post _ (ret _) _ => apply post_ret
  | |- post _ (throw_parse_exception _) _ => apply post_throw
  | |- post _ (fail UB) _ => apply post_ub
  | |- post _ (fail ReadPastEnd) _ => apply post_past_end
  | |- post _ (match ?x with _ => _ end) _ => destruct x eqn:?
  | |- post _ (let _ := _ in _) _ => cbv zeta
  end.

Lemma drop_while_length f l : length (drop_while f l) <= length l.
Proof. induction l as [|c l IH]; cbn; [done|]. destruct (f c); cbn; lia. Qed.
Lemma length_tail_move c l p : rest p = c :: l -> within 1 p (with_rest l p).
Proof. intros E. apply within_move. rewrite E. cbn. lia. Qed.

Lemma post_consume_whitespace p : post (within 0 p) consume_whitespace p.
Proof. apply within_move. pose proof (drop_while_length is_ws (rest p)). lia. Qed.
Lemma post_incr p : post (within 1 p) incr p.
Proof. unfold incr. step. destruct (rest p) eqn:E; [apply post_past_end|]. apply (length_tail_move _ _ _ E). Qed.
Lemma post_deref_it p : post (fun p' => p' = p) deref_it p.
Proof. unfold deref_it. step. destruct (rest p); [apply post_past_end|done]. Qed.
Lemma post_eol_or_comment p : post (within 0 p) eol_or_comment p.
Proof. unfold eol_or_comment. step. repeat step; apply within_refl. Qed.
Lemma post_eat c stop err p : post (within 1 p) (eat c stop err) p.
Proof. unfold eat. step. destruct (rest p) eqn:E; [done|]. destruct (_ && _); [|done]. apply (length_tail_move _ _ _ E). Qed.
Lemma post_eat_or a b stop err p : post (within 1 p) (eat_or a b stop err) p.
Proof. unfold eat_or. step. destruct (rest p) eqn:E; [done|]. destruct (_ && _); [|done]. apply (length_tail_move _ _ _ E). Qed.
Lemma post_eat_string s stop err p : post (within 0 p) (eat_string s stop err) p.
Proof.
  revert p. induction s as [|c s IH]; intros p; [apply within_refl|]. cbn [eat_string].
  eapply post_bind; [apply post_eat|]. intros _ p' H. eapply post_weaken; [apply IH|]. intros p2 H2. eapply within_trans; eauto.
Qed.
Lemma post_eat_digits len stop err val p : post (within 0 p) (eat_digits len stop err val) p.
Proof.
  revert val p. induction len as [|len IH]; intros val p; [apply within_refl|]. cbn [eat_digits]. step.
  destruct (rest p) as [|c l] eqn:E; [apply post_past_end|]. destruct (_ || _); [done|]. step.
  eapply post_weaken; [apply IH|]. intros p2 H2. eapply within_trans; [by eapply length_tail_move|exact H2|lia].
Qed.

#[export] Hint Resolve post_consume_whitespace post_incr post_deref_it post_eol_or_comment post_eat post_eat_or post_eat_string
  post_eat_digits : toml.
(** Follow the code; what is left is about the states at its ends. *)
Ltac follow :=
  repeat first
    [ step
    | lazymatch goal with
      | |- post _ (bind _ _) _ => eapply post_bind; [solve [eauto with toml]|let H := fresh "H" in intros ? ? H; cbv beta in H |- *]
      | |- post _ _ _ => eapply post_weaken; [solve [eauto with toml]|let H := fresh "H" in intros ? H; cbv beta in H |- *]
      end ].
Ltac line := follow; within_solve.

Lemma post_parse_hex n place value p : (place < 16 ^ Z.of_nat n)%Z -> post (within 0 p) (parse_hex (S n) place value) p.
Proof.
  revert place value p. induction n as [|n IH]; intros place value p Hp; cbn [parse_hex];
    (destruct (Z.ltb_spec 0 place); [|apply within_refl]); [cbn in Hp; lia|].
  step. destruct (rest p) as [|c l] eqn:E; [done|]. destruct (negb (is_hex c)); [done|]. step.
  eapply post_weaken; [apply IH|intros ? ?; within_solve].
  apply Z.div_lt_upper_bound; [lia|]. rewrite Nat2Z.inj_succ, Z.pow_succ_r in Hp by lia. lia.
Qed.
Lemma post_parse_unicode p : post (within 0 p) parse_unicode p.
Proof.
  unfold parse_unicode. follow. eapply post_bind; [apply (post_parse_hex 8)|].
  - case_decide; reflexivity.
  - intros cp p2 H2. line.
Qed.
#[export] Hint Resolve post_parse_unicode : toml.
Lemma post_parse_escape_code p : post (within 1 p) parse_escape_code p.
Proof. unfold parse_escape_code. line. Qed.
#[export] Hint Resolve post_parse_escape_code : toml.
Lemma post_literal_loop n delim val p : length (rest p) < n -> post (within 0 p) (literal_loop n delim val) p.
Proof.
  revert val p. induction n as [|n IH]; intros val p Hn; [lia|]. cbn [literal_loop]. step. destruct (rest p) as [|c l] eqn:E; [done|].
  cbn [length] in Hn. destruct (decide _); [|destruct (decide _); [line|]].
  - follow. eapply post_weaken; [apply IH|intros ? ?]; within_solve.
  - step. eapply post_weaken; [apply IH|intros ? ?]; within_solve.
Qed.
Lemma post_string_literal delim p : post (within 1 p) (string_literal delim) p.
Proof. unfold string_literal. follow. eapply post_weaken; [apply post_literal_loop; lia|intros ? ?; within_solve]. Qed.
#[export] Hint Resolve post_string_literal : toml.
Lemma post_handle_loop n delim ss p : length (rest p) < n -> post (within 0 p) (handle_loop n delim ss) p.
Proof.
  revert ss p. induction n as [|n IH]; intros ss p Hn; [lia|]. cbn [handle_loop]. step. destruct (rest p) as [|c l] eqn:E; [line|].
  cbn [length] in Hn. destruct (decide _); [|destruct (decide _)].
  - destruct (drop_while is_ws l); [line|]. follow. eapply post_weaken; [apply IH|intros ? ?]; within_solve.
  - step. step. apply within_move. rewrite E, length_drop. lia.
  - step. eapply post_weaken; [apply IH|intros ? ?]; within_solve.
Qed.
Lemma post_handle_line delim ss consuming p : post (within 0 p) (handle_line delim ss consuming) p.
Proof.
  unfold handle_line. step. cbv zeta. step. set (l := if consuming then _ else _).
  assert (length l <= length (rest p)) as Hl by (unfold l; destruct consuming; [apply drop_while_length|lia]).
  destruct (consuming && _); [apply within_move; lia|]. eapply post_weaken; [apply post_handle_loop; lia|]. intros ? ?. within_solve.
Qed.
#[export] Hint Resolve post_handle_line : toml.

(** Numbers, booleans, times and dates. *)
Lemma post_determine_number_type l p : post (fun p' => p' = p) (determine_number_type l) p.
Proof. unfold determine_number_type. cbv zeta. repeat step; done. Qed.
#[export] Hint Resolve post_determine_number_type : toml.
Lemma post_determine_value_type l p : post (fun p' => p' = p) (determine_value_type l) p.
Proof. unfold determine_value_type. follow; done. Qed.
Lemma post_parse_int l stop base prefix p : length l <= length (rest p) -> post (within 0 p) (parse_int l stop base prefix) p.
Proof.
  intros Hl. unfold parse_int. cbv zeta. step.
  assert (within 0 p (with_rest (drop (length l - stop) l) p)) by (apply within_move; rewrite length_drop; lia).
  repeat step; done.
Qed.
Lemma post_parse_float l stop p : length l <= length (rest p) -> post (within 0 p) (parse_float l stop) p.
Proof.
  intros Hl. unfold parse_float. cbv zeta. step.
  assert (within 0 p (with_rest (drop (length l - stop) l) p)) by (apply within_move; rewrite length_drop; lia).
  repeat step; done.
Qed.
Lemma post_check_no_leading_zero n l p : post (fun p' => p' = p) (check_no_leading_zero n l) p.
Proof. unfold check_no_leading_zero. repeat step; done. Qed.
Lemma post_eat_number_digits f l p : post (fun p' => p' = p) (eat_number_digits f l) p.
Proof. unfold eat_number_digits. repeat step; done. Qed.
#[export] Hint Resolve post_determine_value_type post_check_no_leading_zero post_eat_number_digits : toml.
Lemma post_eat_exp n l p : post (fun p' => p' = p) (eat_exp n l) p.
Proof. unfold eat_exp. cbv zeta. follow; cbv beta in *; congruence. Qed.
#[export] Hint Resolve post_eat_exp : toml.
Lemma eat_sign_length l : length (eat_sign l) <= length l.
Proof. destruct l as [|c l]; [done|]. cbn [eat_sign]. destruct (one_of _ _); cbn; lia. Qed.
Lemma post_parse_number p : post (within 0 p) parse_number p.
Proof.
  unfold parse_number. step. cbv zeta. pose proof (eat_sign_length (rest p)) as Hs.
  assert (forall l' b, (match rest p with z :: b :: l' => if bool_decide (z = Byte.x30) &&
     negb (at_stop (find_end_of_number (rest p)) (b :: l')) && one_of (str "xob") b then Some (b, l') else None | _ => None end)
     = Some (b, l') -> length l' <= length (rest p)) as Hp.
  { intros l' b. destruct (rest p) as [|z [|b' l2]]; [done..|]. destruct (_ && _); [|done]. intros [= <- <-]. cbn. lia. }
  destruct (match rest p with z :: b :: l' => _ | _ => _ end) as [[b l']|] eqn:E.
  - specialize (Hp l' b eq_refl). follow; subst; apply post_parse_int; lia.
  - clear Hp. eapply post_bind; [apply post_check_no_leading_zero|]. intros _ p' ->.
    destruct (starts_with (str "inf") _); [step; step; apply within_move; rewrite length_drop; lia|].
    destruct (starts_with (str "nan") _); [step; step; apply within_move; rewrite length_drop; lia|].
    eapply post_bind; [apply post_eat_number_digits|]. intros check p' ->.
    destruct check as [|c check']; [apply post_parse_int; lia|].
    destruct (one_of (str ".eE") c); [|apply post_parse_int; lia]. destruct check' as [|c' check']; [done|].
    eapply (post_bind (fun p' => p' = p)); [destruct (one_of (str "eE") c); eauto with toml|]. intros check2 p' ->.
    eapply (post_bind (fun p' => p' = p)); [follow; done|]. intros check3 p' ->. apply post_parse_float; lia.
Qed.
Lemma post_parse_bool p : post (within 0 p) parse_bool p.
Proof. unfold parse_bool. cbv zeta. follow; within_solve. Qed.
Lemma post_read_time stop p : post (within 0 p) (read_time stop) p.
Proof.
  unfold read_time. step. cbv zeta.
  do 5 (eapply post_bind; [solve [eauto with toml]|intros ? ? ?]). step.
  match goal with |- post _ _ ?q => eapply (post_bind (within 0 q)) end.
  - destruct (rest _) as [|c l] eqn:E; [apply within_refl|]. destruct (negb _ && _); [|apply within_refl]. cbv zeta. step. step.
    apply within_move. rewrite E, length_drop. cbn. lia.
  - intros ? ? ?. step. step; [step; within_solve|done].
Qed.
#[export] Hint Resolve post_parse_number post_parse_bool post_read_time : toml.
Lemma post_parse_time p : post (within 0 p) parse_time p.
Proof. unfold parse_time. line. Qed.
Lemma post_parse_date p : post (within 0 p) parse_date p.
Proof.
  unfold parse_date. step. cbv zeta. do 5 (eapply post_bind; [solve [eauto with toml]|intros ? ? ?]).
  step. step; [step; within_solve|]. do 2 (eapply post_bind; [solve [eauto with toml]|intros ? ? ?]).
  step. step; [step; within_solve|]. eapply post_bind; [apply post_deref_it|]. intros c q ->.
  match goal with |- post _ _ ?q => eapply (post_bind (within 0 q)) end; [line|].
  intros z q Hq. step. step; [step; within_solve|done].
Qed.
#[export] Hint Resolve post_parse_time post_parse_date : toml.

(** Keys. *)
Lemma post_parse_bare_key name bke p : length bke <= length (rest p) -> post (within 0 p) (parse_bare_key name bke) p.
Proof. intros H. unfold parse_bare_key. cbv zeta. repeat step; try done. apply within_move. lia. Qed.
Lemma post_parse_simple_key p : post (within 0 p) parse_simple_key p.
Proof.
  unfold parse_simple_key. follow; [within_solve|]. eapply post_weaken; [apply post_parse_bare_key|intros ? ?; within_solve].
  rewrite <- Heql. apply drop_while_length.
Qed.
#[export] Hint Resolve post_parse_simple_key : toml.
Lemma post_parse_key_loop {S} n key_end (handler : bytes -> S -> M S) s p :
  (forall part s p, post (fun p' => p' = p) (handler part s) p) -> length (rest p) < n ->
  post (within 0 p) (parse_key_loop n key_end handler s) p.
Proof.
  intros Hh. revert s p. induction n as [|n IH]; intros s p Hn; [lia|]. cbn [parse_key_loop].
  follow; try solve [within_solve].
  eapply post_weaken; [apply IH|intros ? ?]; within_solve.
Qed.
Lemma post_parse_key {S} key_end (handler : bytes -> S -> M S) s p :
  (forall part s p, post (fun p' => p' = p) (handler part s) p) -> post (within 0 p) (parse_key key_end handler s) p.
Proof. intros Hh. apply (post_parse_key_loop (length (rest p) + 1) key_end handler s p Hh). lia. Qed.
Lemma post_current c p : post (fun p' => p' = p) (current c) p.
Proof. unfold current. repeat step; done. Qed.
#[export] Hint Resolve post_current : toml.
Lemma post_single_part part c p : post (fun p' => p' = p) (single_part part c) p.
Proof. unfold single_part. cbv zeta. follow; cbv beta in *; congruence. Qed.
Lemma post_array_part part c p : post (fun p' => p' = p) (array_part part c) p.
Proof. unfold array_part. cbv zeta. follow; cbv beta in *; congruence. Qed.
Lemma post_key_value_part part c p : post (fun p' => p' = p) (key_value_part part c) p.
Proof. unfold key_value_part. follow; cbv beta in *; congruence. Qed.
#[export] Hint Resolve post_single_part post_array_part post_key_value_part post_parse_key : toml.
Lemma post_parse_single_table root p : post (within 0 p) (parse_single_table root) p.
Proof. unfold parse_single_table. line. Qed.
Lemma post_parse_table_array root p : post (within 0 p) (parse_table_array root) p.
Proof. unfold parse_table_array. line. Qed.
#[export] Hint Resolve post_parse_single_table post_parse_table_array : toml.
Lemma post_parse_table root p : post (within 0 p) (parse_table root) p.
Proof. unfold parse_table. line. Qed.
#[export] Hint Resolve post_parse_table : toml.

(** ** Steps over lines

    What is left to read; a line counts once for the input it came from, and the
    end of the input is seen twice. *)
Definition eof_left (p : parser) : nat := if failbit p then 0 else if eofbit p then 1 else 2.
Definition sz (p : parser) : nat := length (rest p) + 2 * length (input_ p) + eof_left p.
Definition smaller (k : nat) (p p' : parser) : Prop := sz p' + k <= sz p /\ length (input_ p') <= length (input_ p).
Lemma within_smaller k p p' : within k p p' -> smaller k p p'.
Proof. intros (H1 & H2 & H3 & H4). unfold smaller, sz, eof_left. rewrite H2, H3, H4. lia. Qed.
Lemma post_within {A} k (m : M A) p : post (within k p) m p -> post (smaller k p) m p.
Proof. intros H. eapply post_weaken; [exact H|]. intros p'. apply within_smaller. Qed.

Lemma read_line_length s : length (read_line s).1 + length (default [] (read_line s).2) <= length s /\
  ((read_line s).2 <> None -> length (read_line s).1 + length (default [] (read_line s).2) < length s).
Proof.
  induction s as [|c s IH]; [cbn; split; [lia|done]|]. cbn [read_line]. case_decide; [cbn; lia|].
  destruct s as [|c' s]; [cbn; split; [lia|done]|]. case_decide; [cbn; lia|].
  destruct (read_line (c' :: s)) as [l r]. cbn [fst snd length] in *. destruct IH as [IH1 IH2]. split; [lia|]. intros Hr. specialize (IH2 Hr). lia.
Qed.
(** A line that was read: less is left, of the input too. *)
Definition lines_left (p : parser) : nat := length (input_ p) + (if eofbit p then 0 else 1).
Lemma getline_more p : match getline p with
  | Done (true, p') => sz p' < sz p /\ length (input_ p') <= length (input_ p) /\ lines_left p' < lines_left p
  | Done (false, p') => True
  | _ => False
  end.
Proof.
  unfold getline. destruct (read_line (input_ p)) as [line r] eqn:E. pose proof (read_line_length (input_ p)) as [H1 H2]. rewrite E in *.
  cbn [fst snd] in *. destruct (failbit p) eqn:Ef; [done|]. destruct (eofbit p) eqn:Ee; [done|]. cbn [orb negb].
  unfold sz, lines_left, eof_left. cbn [rest input_ eofbit failbit]. rewrite Ef, Ee. cbn [orb].
  destruct r as [r|]; cbn [from_option id length] in *; [specialize (H2 ltac:(done)); lia|].
  case_bool_decide as Hl; [subst line; cbn; lia|]. destruct line as [|c line]; [done|]. cbn [length] in *. lia.
Qed.
Lemma post_getline {B} (Q : parser -> Prop) (f : bool -> M B) p :
  (forall p', sz p' < sz p -> length (input_ p') <= length (input_ p) -> lines_left p' < lines_left p -> post Q (f true) p') ->
  (forall p', post Q (f false) p') -> post Q (bind getline f) p.
Proof.
  intros H1 H2. pose proof (getline_more p) as Hg. unfold post, bind in *. destruct (getline p) as [[[] p']| |]; [|apply H2|done..].
  destruct Hg as (? & ? & ?). by apply H1.
Qed.
Lemma post_next_line_number p : post (fun p' => rest p' = rest p /\ sz p' = sz p /\ input_ p' = input_ p /\ lines_left p' = lines_left p) next_line_number p.
Proof. done. Qed.
Lemma within_lines k p p' : within k p p' -> lines_left p' = lines_left p.
Proof. intros (_ & H2 & H3 & _). unfold lines_left. by rewrite H2, H3. Qed.
Ltac small_solve :=
  repeat match goal with
    | H : within _ _ _ |- _ => pose proof (within_smaller _ _ _ H); pose proof (within_lines _ _ _ H); clear H
    end;
  unfold smaller in *; repeat match goal with H : _ /\ _ |- _ => destruct H end; subst;
  repeat match goal with H : input_ _ = input_ _ |- _ => rewrite H in * end;
  split_and?; try lia.

Lemma post_skip_loop n p : lines_left p < n -> post (smaller 0 p) (skip_loop n) p.
Proof.
  revert p. induction n as [|n IH]; intros p Hn; [lia|]. cbn [skip_loop]. step. step; [|step; small_solve].
  apply post_getline; [|done]. intros p1 H1 H2 H3. eapply post_bind; [apply post_next_line_number|]. intros _ p2 (_ & Hs & Hi & Hl).
  eapply post_bind; [apply post_consume_whitespace|]. intros _ p3 H4. pose proof (within_lines _ _ _ H4).
  eapply post_weaken; [apply IH; lia|]. intros p4 H5. small_solve.
Qed.
Lemma post_skip p : post (smaller 0 p) skip_whitespace_and_comments p.
Proof.
  unfold skip_whitespace_and_comments. eapply post_bind; [apply post_consume_whitespace|]. intros _ p1 H1.
  eapply post_weaken; [apply (post_skip_loop (length (input_ p1) + 3)); unfold lines_left; destruct (eofbit p1); lia|].
  intros p2 H2. small_solve.
Qed.
Lemma post_multiline_loop n delim ss consuming p : lines_left p < n -> post (smaller 0 p) (multiline_loop n delim ss consuming) p.
Proof.
  revert ss consuming p. induction n as [|n IH]; intros ss consuming p Hn; [lia|]. cbn [multiline_loop].
  apply post_getline; [|done]. intros p1 H1 H2 H3. eapply post_bind; [apply post_next_line_number|]. intros _ p2 (_ & Hs & Hi & Hl).
  eapply post_bind; [apply post_handle_line|]. intros [[ss' c'] ended] p3 H4. pose proof (within_lines _ _ _ H4).
  destruct ended; [step; small_solve|]. eapply post_weaken; [apply IH; lia|]. intros p4 H5. small_solve.
Qed.
Lemma post_parse_multiline_string delim p : post (smaller 0 p) (parse_multiline_string delim) p.
Proof.
  unfold parse_multiline_string. eapply post_bind; [apply post_handle_line|]. intros [[ss c] ended] p1 H1.
  destruct ended; [step; small_solve|].
  eapply post_weaken; [apply (post_multiline_loop (length (input_ p1) + 3)); unfold lines_left; destruct (eofbit p1); lia|].
  intros p2 H2. small_solve.
Qed.
Lemma post_parse_string p : post (smaller 0 p) parse_string p.
Proof.
  unfold parse_string. eapply post_bind; [apply post_deref_it|]. intros delim p1 ->. step. destruct (decide _).
  - step. eapply post_weaken; [apply post_parse_multiline_string|]. intros p2 H2.
    assert (within 0 p (with_rest (drop 3 (rest p)) p)) by (apply within_move; rewrite length_drop; lia). small_solve.
  - apply post_within. follow. within_solve.
Qed.

(** ** Values: every nested call is smaller, or next in the order of the calls *)
Definition values_ok (n : nat) : Prop :=
  (forall p, 4 * sz p + 3 <= n -> post (smaller 0 p) (parse_value n) p) /\
  (forall p, 4 * sz p + 1 <= n -> post (smaller 0 p) (parse_array n) p) /\
  (forall ty arr p, 4 * sz p + 4 <= n -> post (smaller 0 p) (parse_value_array n ty arr) p) /\
  (forall ty arr p, 4 * sz p + 4 <= n -> post (smaller 0 p) (parse_object_array n ty arr) p) /\
  (forall p, 4 * sz p + 2 <= n -> post (smaller 0 p) (parse_inline_table n) p) /\
  (forall tbl p, 4 * sz p + 1 <= n -> post (smaller 0 p) (inline_loop n tbl) p) /\
  (forall root path p, 4 * sz p + 1 <= n -> post (smaller 0 p) (parse_key_value n root path) p).
Lemma smaller_refl p : smaller 0 p p.
Proof. small_solve. Qed.
Lemma smaller_with_rest c l p : rest p = c :: l -> smaller 1 p (with_rest l p).
Proof. intros E. by eapply within_smaller, length_tail_move. Qed.
Lemma post_close_array values p : post (smaller 0 p) (close_array values) p.
Proof.
  unfold close_array. step. destruct (rest p) as [|c l] eqn:E; [step; apply smaller_refl|]. step. step.
  pose proof (smaller_with_rest _ _ _ E). small_solve.
Qed.
Lemma post_close_objects ty values p : post (smaller 0 p) (close_objects ty values) p.
Proof.
  unfold close_objects. step. destruct (rest p) as [|c l] eqn:E; [done|]. step; [|done]. step. step.
  pose proof (smaller_with_rest _ _ _ E). small_solve.
Qed.
(** The next call, and its result. *)
Ltac call L := eapply post_bind; [apply L|let H := fresh "H" in intros ? ? H; cbv beta in H |- *].
Ltac tail_call L := eapply post_weaken; [apply L|let H := fresh "H" in intros ? H; cbv beta in H; small_solve].

Lemma values_ok_all n : values_ok n.
Proof.
  induction n as [|n (IV & IA & IVA & IOA & IT & IL & IK)]; [repeat split; lia|]. split_and!.
  - intros p Hn. cbn [parse_value]. step. call post_determine_value_type. subst.
    destruct a; [apply post_parse_string|apply post_within; eauto with toml..|apply IA; lia|].
    call IT; [lia|]. step. small_solve.
  - intros p Hn. cbn [parse_array]. call post_incr. call post_skip. call post_deref_it. subst.
    step; [call post_incr; step; small_solve|]. step. call post_determine_value_type. subst.
    step; (tail_call IVA || tail_call IOA); small_solve.
  - intros ty arr p Hn. cbn [parse_value_array]. step. step; [apply post_close_array|]. step; [apply post_close_array|].
    call IV; [lia|]. step; [|done]. call post_skip. call post_deref_it. subst. step; [|tail_call post_close_array].
    call post_incr. call post_skip. tail_call IVA. small_solve.
  - intros ty arr p Hn. cbn [parse_object_array]. step. step; [apply post_close_objects|]. step; [apply post_close_objects|].
    step; [done|]. eapply (post_bind (smaller 0 p)).
    + step; [apply IA; lia|]. call IT; [lia|]. step. small_solve.
    + intros v p1 H1. call post_skip. step. step; [tail_call post_close_objects|]. step; [|tail_call post_close_objects].
      call post_incr. call post_skip. tail_call IOA. small_solve.
  - intros p Hn. cbn [parse_inline_table]. call IL; [lia|]. step. destruct (rest _) as [|c l] eqn:E; [done|]. step; [|done]. step.
    call post_consume_whitespace. step. pose proof (smaller_with_rest _ _ _ E). small_solve.
  - intros tbl p Hn. cbn [inline_loop]. call post_incr. step. step; [done|]. call post_consume_whitespace. step.
    match goal with |- post _ _ ?q => eapply (post_bind (smaller 0 q)) end.
    + step; [step; apply smaller_refl|]. step; [step; apply smaller_refl|]. call IK; [small_solve|]. call post_consume_whitespace.
      step. small_solve.
    + intros tbl' p3 H3. call post_deref_it. subst. step; [|step; small_solve]. tail_call IL. small_solve.
  - intros root path p Hn. cbn [parse_key_value]. call (@post_parse_key); [apply post_key_value_part|]. destruct a as [key c].
    call post_current. subst. step; [done|]. step. destruct (rest _) as [|ch l] eqn:E; [done|]. step; [done|]. step.
    pose proof (smaller_with_rest _ _ _ E). call post_consume_whitespace. call IV; [small_solve|]. call post_consume_whitespace.
    step. small_solve.
Qed.

Lemma post_parse_loop n root path p : sz p < n -> post (fun _ => True) (parse_loop n root path) p.
Proof.
  revert root path p. induction n as [|n IH]; intros root path p Hn; [lia|]. cbn [parse_loop].
  apply post_getline; [|done]. intros p1 H1 H2 _. eapply post_bind; [apply post_next_line_number|]. intros _ p2 (_ & Hs & Hi & _).
  call post_consume_whitespace. step. step; [tail_call IH; small_solve|]. step.
  - call post_parse_table. tail_call IH. small_solve.
  - eapply (post_bind (smaller 0 p')).
    + apply (proj2 (proj2 (proj2 (proj2 (proj2 (proj2 (values_ok_all (value_fuel p')))))))).
      unfold value_fuel, sz, eof_left. destruct (failbit p'), (eofbit p'); lia.
    + intros root' p4 H4. call post_consume_whitespace. call post_eol_or_comment. tail_call IH. small_solve.
Qed.
(** C25: On every text the parser of cpptoml ends, with a table, with a
    parse_exception, or by reading behind the end of a line: no loop runs for
    ever, no other exception gets out, and it never follows a path that leads
    to no table or takes the last table of an empty array. *)
Theorem toml_parse_total text : match parse text with Done _ | Throw _ _ => True | Fail e => e = ReadPastEnd end.
Proof.
  pose proof (TomlTables.parse_defined text) as Hd. revert Hd.
  unfold parse. pose proof (post_parse_loop (2 * length text + 3) [] [] (mkParser [] text false false 0)) as H.
  unfold post in H. specialize (H ltac:(unfold sz, eof_left; cbn; lia)).
  destruct (parse_loop _ _ _ _) as [[t p]| |]; [done..|]. destruct H; congruence.
Qed.
(** An inline table, or a time zone, that is cut off: the character at the end of
    the line is read. *)
Example inline_table_cut_off : parse (str "a = {b = 1") = Fail ReadPastEnd.
Proof. reflexivity. Qed.
Example time_zone_cut_off : parse (str "a = 1979-05-27T07:32:00+") = Fail ReadPastEnd.
Proof. reflexivity. Qed.
(** Any character closes an array of values; digits that the base does not have
    are dropped; the first line break of a multi-line string is lost; and the
    middle byte of a three-byte character loses a bit. *)
Example array_closed_by_anything : parse (str "a = [1;") = Done [(str "a", VArray [VInt 1])].
Proof. reflexivity. Qed.
Example octal_digits_dropped : parse (str "a = 0o19") = Done [(str "a", VInt 1)].
Proof. reflexivity. Qed.
Example first_line_break_lost :
  parse (str "a = '''b" ++ [Byte.x0a] ++ str "c'''") = Done [(str "a", VString (str "bc"))].
Proof. reflexivity. Qed.
Example unicode_escape_loses_bit :
  parse (str "a = " ++ [Byte.x22] ++ str "\u0800" ++ [Byte.x22]) = Done [(str "a", VString [Byte.xe0; Byte.x80; Byte.x80])].
Proof. reflexivity. Qed.
End TomlTotal.
