(* ===== verification/TomlConfig.v ===== *)
(** * Configuration files

    The part of TOML that the files under src/bin/config are written in: tables
    with bare names, entries whose values are strings in quotes, decimal integers
    and booleans, blanks, comments.  [config_text] says which lines a text consists of and
    [apply_line] what a line does; the parser of [TomlParser] is proved to do
    just that, and to throw where a name is used twice. *)

From Stdlib Require Import ZArith Lia.
From stdpp Require Import base list strings.
From S2P Require Import Prelude Endian Buffer Text Json JsonSpec Toml TomlParser.
Local Open Scope Z_scope.

Module TomlConfig.
Import Toml TomlParser.

(** ** The texts *)
Definition bare (c : byte) : bool :=
  is_number c || ((97 <=? byte_to_Z c) && (byte_to_Z c <=? 122)) || ((65 <=? byte_to_Z c) && (byte_to_Z c <=? 90)) ||
  one_of (str "_-") c.
Definition bare_key (k : bytes) : Prop := k <> [] /\ forallb bare k = true.
Definition blanks (l : bytes) : Prop := forallb is_ws l = true.
Definition in_line (c : byte) : bool := negb (bool_decide (c = Byte.x0a)) && negb (bool_decide (c = Byte.x0d)).
(** The end of a line: blanks, and a comment or nothing. *)
Definition line_end (l : bytes) : Prop := exists b c, l = b ++ c /\ blanks b /\ forallb in_line c = true /\ (c = [] \/ head c = Some Byte.x23).

(** The text between quotes and the string it stands for.  Between double quotes
    a backslash escapes; Unicode escapes are not among these texts. *)
Definition escapes : list (byte * byte) :=
  [(Byte.x62, Byte.x08); (Byte.x74, Byte.x09); (Byte.x6e, Byte.x0a); (Byte.x66, Byte.x0c); (Byte.x72, Byte.x0d);
   (Byte.x22, Byte.x22); (Byte.x5c, Byte.x5c)].
Inductive quoted_text (q : byte) : bytes -> bytes -> Prop :=
  | quoted_end : quoted_text q [] []
  | quoted_char c t s :
      in_line c = true -> c <> q -> ~ (q = Byte.x22 /\ c = Byte.x5c) -> quoted_text q t s -> quoted_text q (c :: t) (c :: s)
  | quoted_escape e c t s : q = Byte.x22 -> (e, c) ∈ escapes -> quoted_text q t s -> quoted_text q (Byte.x5c :: e :: t) (c :: s).
(** An integer in decimal, with or without a sign. *)
Definition signed (sign : bytes) (n : Z) : Z := if decide (sign = [Byte.x2d]) then - n else n.
Definition is_sign (sign : bytes) : Prop := sign = [] \/ sign = [Byte.x2b] \/ sign = [Byte.x2d].
Inductive value_text : bytes -> base -> Prop :=
  | text_string q t s : q = Byte.x22 \/ q = Byte.x27 -> quoted_text q t s -> value_text ([q] ++ t ++ [q]) (VString s)
  | text_int sign n :
      is_sign sign -> 0 <= n -> - 2 ^ 63 <= signed sign n < 2 ^ 63 -> value_text (sign ++ to_string n) (VInt (signed sign n))
  | text_true : value_text (str "true") (VBool true)
  | text_false : value_text (str "false") (VBool false).

Inductive line :=
  | Blank
  | Header (name : bytes)
  | Entry (key : bytes) (v : base).
Inductive line_text : bytes -> line -> Prop :=
  | blank_line e : line_end e -> line_text e Blank
  | header_line b1 b2 name b3 e :
      blanks b1 -> blanks b2 -> bare_key name -> blanks b3 -> line_end e ->
      line_text (b1 ++ str "[" ++ b2 ++ name ++ b3 ++ str "]" ++ e) (Header name)
  | entry_line b1 key b2 b3 t v e :
      blanks b1 -> bare_key key -> blanks b2 -> blanks b3 -> value_text t v -> line_end e ->
      line_text (b1 ++ key ++ b2 ++ str "=" ++ b3 ++ t ++ e) (Entry key v).
(** Lines end in a line feed, with or without a carriage return; the last one
    need not. *)
Inductive config_text : bytes -> list line -> Prop :=
  | config_nil : config_text [] []
  | config_last l ln : line_text l ln -> config_text l [ln]
  | config_cons l ln eol text lns :
      line_text l ln -> (eol = [Byte.x0a] \/ eol = [Byte.x0d; Byte.x0a]) -> config_text text lns ->
      config_text (l ++ eol ++ text) (ln :: lns).

(** What a line does to the tables, and to the one that is being filled; [None]
    where a name is used again. *)
Definition apply_line (ln : line) (s : table * list bytes) : option (table * list bytes) :=
  let '(root, path) := s in
  match ln with
  | Blank => Some s
  | Header name => if contains name root then None else Some (insert name (VTable []) root, [name])
  | Entry key v =>
      match table_at path root with
      | Some cur => if contains key cur then None else Some (update_at path (insert key v) root, path)
      | None => None
      end
  end.
Fixpoint apply_lines (lns : list line) (s : table * list bytes) : option (table * list bytes) :=
  match lns with
  | [] => Some s
  | ln :: lns => match apply_line ln s with Some s => apply_lines lns s | None => None end
  end.

(** ** Running the parser on a line that is known *)
(** From a state whose line is [l], [m] gives [a] and leaves [r]. *)
Definition yields {A} (m : M A) (l : bytes) (a : A) (r : bytes) : Prop :=
  forall p, rest p = l -> m p = Done (a, with_rest r p).
Lemma yields_bind {A B} (m : M A) (f : A -> M B) l a l' b r :
  yields m l a l' -> yields (f a) l' b r -> yields (bind m f) l b r.
Proof. intros H1 H2 p Hp. unfold bind. rewrite (H1 p Hp). by rewrite (H2 (with_rest l' p) eq_refl). Qed.
Lemma yields_ret {A} (a : A) l : yields (ret a) l a l.
Proof. intros p Hp. unfold ret, with_rest. rewrite <- Hp. by destruct p. Qed.
Lemma yields_here {B} (f : bytes -> M B) l b r : yields (f l) l b r -> yields (bind here f) l b r.
Proof. intros H p Hp. unfold bind, here. rewrite Hp. by apply H. Qed.
Lemma yields_move {B} l0 (f : unit -> M B) l b r : yields (f tt) l0 b r -> yields (bind (move l0) f) l b r.
Proof. intros H p Hp. exact (H (with_rest l0 p) eq_refl). Qed.
Lemma yields_incr c l : yields incr (c :: l) tt l.
Proof. intros p Hp. unfold incr, bind, here. by rewrite Hp. Qed.
Lemma yields_deref_it c l : yields deref_it (c :: l) c (c :: l).
Proof. intros p Hp. unfold deref_it, bind, here, ret, with_rest. rewrite Hp. rewrite <- Hp. by destruct p. Qed.

(** *** Characters *)
Definition stop_char (c : byte) : bool := is_ws c || bool_decide (c = Byte.x23).
(** At the end of a value. *)
Definition stops (l : bytes) : Prop := match l with [] => True | c :: _ => stop_char c = true end.
Lemma bare_facts c : bare c = true ->
  is_ws c = false /\ in_bare_key c = true /\ one_of (str "#") c = false /\ one_of (str "[]") c = false /\ one_of [Byte.x22; Byte.x27] c = false /\
  in_line c = true /\ c <> Byte.x23 /\ c <> Byte.x5b /\ c <> Byte.x5d /\ c <> Byte.x3d /\ c <> Byte.x2e.
Proof. destruct c; intros H; try discriminate H; split_and!; done. Qed.
Lemma ws_facts c : is_ws c = true -> in_bare_key c = true /\ in_line c = true /\ bare c = false.
Proof. destruct c; intros H; try discriminate H; done. Qed.
Lemma stop_facts c : stop_char c = true ->
  is_number c = false /\ in_number c = false /\ in_date c = false /\ in_time c = false /\ in_datetime c = false /\
  one_of (str ".eE") c = false /\ c <> Byte.x5f /\ c <> Byte.x2e /\ c <> Byte.x22 /\ c <> Byte.x27 /\ c <> Byte.x69 /\ c <> Byte.x6e.
Proof. destruct c; intros H; try discriminate H; split_and!; done. Qed.
Lemma digit_facts c : is_number c = true ->
  in_number c = true /\ in_date c = true /\ in_time c = true /\ one_of [Byte.x22; Byte.x27] c = false /\ one_of (str "-+") c = false /\
  one_of (str "in") c = false /\ c <> Byte.x5f /\ c <> Byte.x2d /\ c <> Byte.x3a /\ c <> Byte.x69 /\ c <> Byte.x6e /\ in_line c = true /\ stop_char c = false /\ one_of (str "xob") c = false.
Proof. destruct c; intros H; try discriminate H; split_and!; done. Qed.

Lemma drop_while_app f a b : forallb f a = true -> drop_while f (a ++ b) = drop_while f b.
Proof. induction a as [|c a IH]; cbn; [done|]. destruct (f c); [exact IH|done]. Qed.
Lemma take_while_app f a b : forallb f a = true -> take_while f (a ++ b) = a ++ take_while f b.
Proof. induction a as [|c a IH]; cbn; [done|]. destruct (f c); [intros H; by rewrite IH|done]. Qed.
Definition head_not (f : byte -> bool) (l : bytes) : Prop := match l with [] => True | c :: _ => f c = false end.
Lemma drop_while_stop f l : head_not f l -> drop_while f l = l.
Proof. destruct l as [|c l]; cbn; [done|]. by intros ->. Qed.
Lemma take_while_stop f l : head_not f l -> take_while f l = [].
Proof. destruct l as [|c l]; cbn; [done|]. by intros ->. Qed.
Lemma stops_head_not f l : (forall c, stop_char c = true -> f c = false) -> stops l -> head_not f l.
Proof. intros H. destruct l as [|c l]; cbn; [done|]. apply H. Qed.
Lemma forallb_weaken {A} (f g : A -> bool) l : (forall x, f x = true -> g x = true) -> forallb f l = true -> forallb g l = true.
Proof. intros H. rewrite !forallb_forall. eauto. Qed.
Lemma line_end_stops e : line_end e -> stops e.
Proof.
  intros (b & c & -> & Hb & _ & Hc). destruct b as [|x b]; cbn in *.
  - destruct Hc as [-> |Hc]; [done|]. destruct c as [|y c]; [done|]. injection Hc as ->. done.
  - unfold stop_char. unfold blanks in Hb. cbn in Hb. by destruct (is_ws x).
Qed.

Lemma yields_whitespace b l : blanks b -> head_not is_ws l -> yields consume_whitespace (b ++ l) tt l.
Proof.
  intros Hb Hl p Hp. unfold consume_whitespace, bind, here, move. by rewrite Hp, drop_while_app, drop_while_stop.
Qed.
Lemma comment_not_ws c : c = [] \/ head c = Some Byte.x23 -> head_not is_ws c.
Proof. intros [-> |Hc]; [done|]. destruct c as [|x c]; [done|]. by injection Hc as ->. Qed.
Lemma yields_whitespace_end e : line_end e -> exists c, yields consume_whitespace e tt c /\ (c = [] \/ head c = Some Byte.x23).
Proof.
  intros (b & c & -> & Hb & _ & Hc). exists c. split; [|done]. apply yields_whitespace; [done|by apply comment_not_ws].
Qed.
Lemma yields_eol c : c = [] \/ head c = Some Byte.x23 -> yields eol_or_comment c tt c.
Proof.
  intros H. unfold eol_or_comment. apply yields_here. destruct c as [|x c]; [apply yields_ret|].
  destruct H as [|H]; [done|]. injection H as ->. rewrite decide_True by done. apply yields_ret.
Qed.
Lemma at_comment_end c : c = [] \/ head c = Some Byte.x23 -> at_comment c = true.
Proof. destruct c as [|x c]; [done|]. intros [|H]; [done|]. by injection H as ->. Qed.

(** *** Keys *)
Lemma trim_back_bare k b : bare_key k -> blanks b -> trim_back (k ++ b) = k.
Proof.
  intros [Hk Hf] Hb. destruct k as [|c k]; [done|]. cbn [app trim_back]. f_equal. cbn in Hf. apply andb_true_iff in Hf as [_ Hf].
  rewrite rev_app_distr, drop_while_app.
  - rewrite drop_while_stop; [apply rev_involutive|]. destruct (rev k) as [|x l] eqn:E; [done|]. cbn.
    assert (In x k) as Hx by (apply in_rev; rewrite E; by left). rewrite forallb_forall in Hf. by apply bare_facts, Hf.
  - rewrite forallb_forall. intros x Hx. apply in_rev in Hx. unfold blanks in Hb. rewrite forallb_forall in Hb. by apply Hb.
Qed.
Lemma bare_existsb (f : byte -> bool) k : (forall c, bare c = true -> f c = false) -> forallb bare k = true -> existsb f k = false.
Proof.
  intros H Hk. apply not_true_is_false. rewrite existsb_exists. intros (x & Hx & Hf). rewrite forallb_forall in Hk. by rewrite H in Hf by auto.
Qed.
Lemma yields_parse_simple_key b k b' c l : blanks b -> bare_key k -> blanks b' -> in_bare_key c = false ->
  yields parse_simple_key (b ++ k ++ b' ++ c :: l) k (c :: l).
Proof.
  intros Hb Hk Hb' Hc. pose proof Hk as [Hne Hf]. unfold parse_simple_key.
  eapply yields_bind; [apply yields_whitespace; [done|]|].
  { destruct k as [|x k]; [done|]. cbn. cbn in Hf. apply andb_true_iff in Hf as [Hx _]. by apply bare_facts. }
  apply yields_here. assert (take_while in_bare_key (k ++ b' ++ c :: l) = k ++ b') as ->.
  { rewrite !take_while_app, take_while_stop; [by rewrite app_nil_r|done|..].
    - eapply forallb_weaken; [|exact Hb']. intros x Hx. by apply ws_facts.
    - eapply forallb_weaken; [|exact Hf]. intros x Hx. by apply bare_facts. }
  assert (drop_while in_bare_key (k ++ b' ++ c :: l) = c :: l) as ->.
  { rewrite !drop_while_app, drop_while_stop; [done|done|..].
    - eapply forallb_weaken; [|exact Hb']. intros x Hx. by apply ws_facts.
    - eapply forallb_weaken; [|exact Hf]. intros x Hx. by apply bare_facts. }
  destruct k as [|x k]; [done|]. cbn [app].
  assert (bare x = true) as Hx by (cbn in Hf; by apply andb_true_iff in Hf as [? _]).
  replace (one_of [Byte.x22; Byte.x27] x) with false by (symmetry; by apply bare_facts).
  unfold parse_bare_key. change (x :: k ++ b') with ((x :: k) ++ b'). rewrite trim_back_bare by done. cbn [app].
  rewrite !(bare_existsb _ (x :: k)) by (done || (intros y Hy; by apply bare_facts)). apply yields_move, yields_ret.
Qed.
Lemma yields_parse_key_loop {S} n key_end (handler : bytes -> S -> M S) s b k b' l : blanks b -> bare_key k -> blanks b' ->
  key_end = Byte.x3d \/ key_end = Byte.x5d ->
  yields (parse_key_loop (Datatypes.S n) key_end handler s) (b ++ k ++ b' ++ key_end :: l) (k, s) (key_end :: l).
Proof.
  intros Hb Hk Hb' He. cbn [parse_key_loop]. assert (in_bare_key key_end = false) as Hc by (by destruct He as [-> | ->]).
  apply yields_here. destruct (b ++ k ++ b' ++ key_end :: l) as [|c r] eqn:E.
  { pose proof (proj1 Hk). destruct b; [destruct k; done|done]. }
  assert (c <> key_end) as Hne.
  { destruct b as [|x b]; cbn in E.
    - pose proof Hk as [Hnk Hf]. destruct k as [|y k]; [done|]. injection E as -> _. cbn in Hf. apply andb_true_iff in Hf as [Hy _].
      intros ->. by destruct He as [-> | ->].
    - injection E as -> _. unfold blanks in Hb. cbn in Hb. apply andb_true_iff in Hb as [Hx _]. intros ->. by destruct He as [-> | ->]. }
  rewrite decide_False by done. rewrite <- E. eapply yields_bind; [by apply yields_parse_simple_key|].
  eapply yields_bind; [apply (yields_whitespace []); [done|by destruct He as [-> | ->]]|].
  apply yields_here. rewrite decide_True by done. apply yields_ret.
Qed.
Lemma yields_parse_key {S} key_end (handler : bytes -> S -> M S) s b k b' l : blanks b -> bare_key k -> blanks b' ->
  key_end = Byte.x3d \/ key_end = Byte.x5d ->
  yields (parse_key key_end handler s) (b ++ k ++ b' ++ key_end :: l) (k, s) (key_end :: l).
Proof.
  intros Hb Hk Hb' He p Hp. unfold parse_key. rewrite Nat.add_1_r.
  exact (yields_parse_key_loop (length (rest p)) key_end handler s b k b' l Hb Hk Hb' He p Hp).
Qed.

(** *** Values *)
Lemma escape_facts e c : (e, c) ∈ escapes -> simple_escape e = Some c /\ in_line e = true.
Proof. rewrite list_elem_of_In. cbn. intros H. repeat destruct H as [[= <- <-]|H]; done. Qed.
Lemma yields_escape e c l : (e, c) ∈ escapes -> yields parse_escape_code (Byte.x5c :: e :: l) [c] l.
Proof.
  intros He. unfold parse_escape_code. eapply yields_bind; [apply yields_incr|]. apply yields_here.
  rewrite (proj1 (escape_facts e c He)).
  apply yields_move, yields_ret.
Qed.
Lemma yields_drop_blanks l : yields consume_whitespace l tt (drop_while is_ws l).
Proof. intros p Hp. unfold consume_whitespace, bind, here, move. by rewrite Hp. Qed.
Lemma literal_loop_string n q t s val e : (length t < n)%nat -> quoted_text q t s ->
  yields (literal_loop n q val) (t ++ q :: e) (val ++ s) (drop_while is_ws e).
Proof.
  intros Hn Hs. revert val n Hn. induction Hs as [|c t s _ Hq Hb Hs IH|x c t s -> Hx Hs IH]; intros val n Hn;
    (destruct n as [|n]; [cbn in Hn; lia|]); cbn [length] in Hn; cbn [app literal_loop]; apply yields_here.
  - rewrite decide_False by (by intros [-> ?]). rewrite decide_True by done. apply yields_move. rewrite app_nil_r.
    eapply yields_bind; [apply yields_drop_blanks|]. apply yields_ret.
  - rewrite !decide_False by done. apply yields_move. specialize (IH (val ++ [c]) n ltac:(lia)). by rewrite <- app_assoc in IH.
  - rewrite decide_True by done. eapply yields_bind; [by apply yields_escape|].
    specialize (IH (val ++ [c]) n ltac:(lia)). by rewrite <- app_assoc in IH.
Qed.
Lemma parse_value_string n q t s e : q = Byte.x22 \/ q = Byte.x27 -> quoted_text q t s -> stops e ->
  yields (parse_value (S n)) (([q] ++ t ++ [q]) ++ e) (VString s) (drop_while is_ws e).
Proof.
  intros Hq Hs He. cbn [app]. rewrite <- app_assoc. cbn [app parse_value]. apply yields_here.
  eapply yields_bind.
  { unfold determine_value_type. replace (one_of [Byte.x22; Byte.x27] q) with true by (by destruct Hq as [-> | ->]). apply yields_ret. }
  unfold parse_string. eapply yields_bind; [apply yields_deref_it|]. apply yields_here. cbn [tail].
  rewrite decide_False.
  2:{ intros E. destruct Hs as [|c t s _ Hc _ _|x c t s -> _ _]; cbn in E; [|by injection E|done].
      destruct e as [|x e]; [done|]. injection E as ->. by destruct Hq as [-> | ->]. }
  eapply yields_bind; [|apply yields_ret]. unfold string_literal. eapply yields_bind; [apply yields_incr|].
  intros p Hp. rewrite Hp. apply (literal_loop_string _ q t s []); [rewrite length_app; lia|done|done].
Qed.
Lemma yields_eat_string s l err : yields (eat_string s 0 err) (s ++ l) tt l.
Proof.
  induction s as [|c s IH]; [apply yields_ret|]. cbn [eat_string app]. eapply yields_bind; [|exact IH].
  unfold eat. apply yields_here. cbn [at_stop length Nat.eqb negb andb]. rewrite bool_decide_eq_true_2 by done.
  intros p Hp. done.
Qed.
Lemma parse_value_bool n (x : bool) e : yields (parse_value (S n)) (str (if x then "true" else "false") ++ e) (VBool x) e.
Proof.
  cbn [parse_value]. apply yields_here.
  assert (determine_value_type (str (if x then "true" else "false") ++ e) = ret BOOL) as -> by (by destruct x).
  eapply yields_bind; [apply yields_ret|]. unfold parse_bool. destruct x.
  - eapply yields_bind; [apply yields_deref_it|]. cbv zeta. rewrite decide_True by done.
    eapply yields_bind; [exact (yields_eat_string (str "true") e _)|apply yields_ret].
  - eapply yields_bind; [apply yields_deref_it|]. cbv zeta. rewrite decide_False, decide_True by done.
    eapply yields_bind; [exact (yields_eat_string (str "false") e _)|apply yields_ret].
Qed.

(** The digits of an integer. *)
Lemma to_string_digits n : 0 <= n <= 2 ^ 63 -> forallb is_number (to_string n) = true /\ to_string n <> [] /\ scan 10 0 (to_string n) = n /\
  (head (to_string n) = Some Byte.x30 -> to_string n = [Byte.x30]).
Proof.
  intros Hn. rewrite to_string_pos by lia. assert (0 <= n < 10 ^ Z.of_nat 20) as Hr by (change (10 ^ Z.of_nat 20) with (10 ^ 20); lia).
  destruct (digits_spec 20 n Hr) as [HF Hs]. destruct (digits_head 20 n Hr) as (d & l & E & Hd & H0); [lia|].
  rewrite E in *. split_and!; [|done|done|].
  - rewrite forallb_forall. intros x Hx. rewrite List.Forall_forall in HF.
    destruct (HF x Hx) as (d' & Hd' & ->). unfold is_number. rewrite digit_val by done. lia.
  - cbn. intros [= Hx]. assert (d = 0) as ->.
    { apply (f_equal byte_to_Z) in Hx. rewrite digit_val in Hx by done. change (byte_to_Z Byte.x30) with 48 in Hx. lia. }
    destruct (H0 eq_refl) as [_ ->]. done.
Qed.

Lemma digits_loop_number ds e : forallb is_number ds = true -> stops e -> digits_loop is_number (ds ++ e) = Some e.
Proof.
  intros Hd He. induction ds as [|c ds IH].
  - destruct e as [|c e]; [done|]. cbn in *. by rewrite (proj1 (stop_facts c He)).
  - cbn [forallb] in Hd. apply andb_true_iff in Hd as [Hc Hd]. specialize (IH Hd). cbn [app digits_loop]. rewrite Hc.
    destruct (ds ++ e) as [|u r] eqn:E; [destruct ds; [cbn in E; subst e; done|done]|]. rewrite decide_False; [exact IH|].
    destruct ds as [|d ds]; cbn in E.
    + subst e. cbn in He. by apply stop_facts.
    + injection E as -> _. cbn in Hd. apply andb_true_iff in Hd as [Hd _]. by apply digit_facts.
Qed.
Lemma span_base_digits ds : forallb is_number ds = true -> span_base 10 ds = ds.
Proof.
  induction ds as [|c ds IH]; [done|]. cbn [forallb span_base]. intros H. apply andb_true_iff in H as [Hc Hd].
  assert (exists v, digit_value 10 c = Some v) as [v ->] by (destruct c; try discriminate Hc; by eexists). by rewrite IH.
Qed.
Lemma stoll_digits sign ds : is_sign sign -> forallb is_number ds = true -> ds <> [] ->
  - 2 ^ 63 <= signed sign (scan 10 0 ds) < 2 ^ 63 -> stoll 10 (sign ++ ds) = Some (Some (signed sign (scan 10 0 ds))).
Proof.
  intros Hsg Hd Hne Hv. unfold stoll. assert (scan_sign (sign ++ ds) = (bool_decide (sign = [Byte.x2d]), ds)) as ->.
  { destruct Hsg as [-> |[-> | ->]]; [|done..].
    destruct ds as [|c ds]; [done|]. cbn in Hd. apply andb_true_iff in Hd as [Hc _]. destruct c; try discriminate Hc; reflexivity. }
  assert (hex_prefix 10 ds = ds) as -> by (destruct ds as [|? [|? [|? ?]]]; done).
  rewrite span_base_digits by done. destruct ds as [|c ds]; [done|]. unfold signed in *.
  case_bool_decide; case_decide; try done; by rewrite (proj2 (Z.leb_le _ _)), (proj2 (Z.ltb_lt _ _)) by lia.
Qed.
Lemma filter_digits ds : forallb is_number ds = true -> filter (fun c => c <> Byte.x5f) ds = ds.
Proof.
  induction ds as [|c ds IH]; [done|]. cbn [forallb]. intros H. apply andb_true_iff in H as [Hc Hd].
  rewrite filter_cons_True by (by apply digit_facts). by rewrite IH.
Qed.
(** A number is not taken for a time or a date. *)
Lemma digits_not_time sign ds e : is_sign sign -> forallb is_number ds = true -> stops e -> is_time (sign ++ ds ++ e) = false.
Proof.
  intros Hsg Hd He. destruct Hsg as [-> |[-> | ->]]; [|done..]. cbn [app]. unfold is_time, time_part. rewrite take_while_app by (eapply forallb_weaken; [|exact Hd]; intros x Hx; by apply digit_facts).
  rewrite take_while_stop, app_nil_r by (eapply stops_head_not; [|exact He]; intros c Hc; by apply stop_facts).
  destruct (Nat.ltb_spec (length ds) 8); [done|]. assert (nth_is (ds ++ e) 2 Byte.x3a = false) as ->; [|done].
  unfold nth_is. apply bool_decide_eq_false. rewrite lookup_app_l by lia. intros E.
  apply list_elem_of_lookup_2, list_elem_of_In in E. rewrite forallb_forall in Hd. by apply Hd in E.
Qed.
Lemma date_part_number sign ds e : is_sign sign -> forallb is_number ds = true -> ds <> [] -> line_end e ->
  date_part (sign ++ ds ++ e) = sign ++ ds.
Proof.
  intros Hsg Hd Hne He. pose proof (line_end_stops e He) as Hs.
  assert (head_not in_date e) as Hh by (eapply stops_head_not; [|exact Hs]; intros c Hc; by apply stop_facts).
  assert (take_while in_datetime e = []) as Ee
    by (apply take_while_stop; eapply stops_head_not; [|exact Hs]; intros c Hc; by apply stop_facts).
  assert (forall l, forallb in_date l = true -> date_part (l ++ e) = l) as Hdate.
  { intros l Hi. unfold date_part. rewrite take_while_app, drop_while_app, take_while_stop, drop_while_stop, app_nil_r by done.
    rewrite Ee, app_nil_r. destruct e as [|c [|c' e]]; [done..|]. assert (bool_decide (c = Byte.x20) && is_number c' = false) as ->; [|done].
    case_bool_decide as Hc; [|done]. subst c. cbn [andb]. destruct He as (b & cm & E & Hb & _ & Hcm). unfold blanks in Hb.
    destruct b as [|x [|y b]]; cbn in E.
    - destruct Hcm as [-> |Hcm]; [done|]. by rewrite <- E in Hcm.
    - injection E as <- E. destruct Hcm as [-> |Hcm]; [done|]. rewrite <- E in Hcm. by injection Hcm as ->.
    - injection E as <- -> E. cbn [forallb] in Hb. rewrite !andb_true_iff in Hb. destruct Hb as (_ & Hy & _). destruct y; try discriminate Hy; reflexivity. }
  assert (forallb in_date ds = true) as Hi by (eapply forallb_weaken; [|exact Hd]; intros x Hx; by apply digit_facts).
  destruct Hsg as [-> |[-> | ->]]; [by apply Hdate| |by apply (Hdate (Byte.x2d :: ds))].
  assert (take_while in_datetime (ds ++ e) = ds) as Ed.
  { rewrite take_while_app, Ee, app_nil_r; [done|]. eapply forallb_weaken; [|exact Hd]. intros x Hx. unfold in_datetime. by rewrite Hx. }
  unfold date_part. cbn [app take_while drop_while]. change (in_date Byte.x2b) with false. cbn iota.
  change (take_while in_datetime (Byte.x2b :: ds ++ e)) with (Byte.x2b :: take_while in_datetime (ds ++ e)). rewrite Ed. by destruct (ds ++ e).
Qed.
Lemma digits_not_date sign ds e : is_sign sign -> forallb is_number ds = true -> ds <> [] -> line_end e -> date_type (sign ++ ds ++ e) = None.
Proof.
  intros Hsg Hd Hne He. unfold date_type. rewrite date_part_number by done.
  destruct (Nat.ltb_spec (length (sign ++ ds)) 10); [done|]. assert (nth_is (sign ++ ds ++ e) 4 Byte.x2d = false) as ->; [|done].
  assert (length sign <= 1)%nat by (destruct Hsg as [-> |[-> | ->]]; cbn; lia). rewrite length_app in *.
  unfold nth_is. apply bool_decide_eq_false. rewrite lookup_app_r, lookup_app_l by lia. intros E.
  apply list_elem_of_lookup_2, list_elem_of_In in E. rewrite forallb_forall in Hd. by apply Hd in E.
Qed.
Lemma stops_not_starts (c : byte) s e : stops e -> stop_char c = false -> starts_with (c :: s) e = false.
Proof.
  intros He Hc. unfold starts_with. apply bool_decide_eq_false. destruct e as [|x e]; [done|]. cbn. intros [= -> _]. cbn in He. congruence.
Qed.
Lemma number_type_digits sign ds e : is_sign sign -> forallb is_number ds = true -> ds <> [] -> stops e ->
  determine_number_type (sign ++ ds ++ e) = ret INT.
Proof.
  intros Hsg Hd Hne Hs. destruct ds as [|c ds]; [done|]. assert (is_number c = true) as Hc by (cbn in Hd; by apply andb_true_iff in Hd as [? _]).
  destruct (digit_facts c Hc) as (_ & _ & _ & _ & E1 & E2 & _).
  assert (match drop_while is_number ((c :: ds) ++ e) with Byte.x2e :: _ => @ret parse_type FLOAT | _ => ret INT end = ret INT) as Hi.
  { rewrite drop_while_app by done. rewrite drop_while_stop by (eapply stops_head_not; [|exact Hs]; intros x Hx; by apply stop_facts).
    destruct e as [|x e]; [done|]. cbn in Hs. destruct x; try reflexivity; discriminate Hs. }
  unfold determine_number_type. destruct Hsg as [-> |[-> | ->]]; cbn [app] in *; cbv zeta;
    [rewrite E1|change (one_of (str "-+") Byte.x2b) with true|change (one_of (str "-+") Byte.x2d) with true]; cbn iota; by rewrite E2.
Qed.
Lemma value_type_digits sign ds e : is_sign sign -> forallb is_number ds = true -> ds <> [] -> line_end e ->
  determine_value_type (sign ++ ds ++ e) = ret INT.
Proof.
  intros Hsg Hd Hne He. pose proof (line_end_stops e He) as Hs. pose proof (digits_not_time sign ds e Hsg Hd Hs) as Et.
  pose proof (digits_not_date sign ds e Hsg Hd Hne He) as Ed. pose proof (number_type_digits sign ds e Hsg Hd Hne Hs) as En.
  destruct ds as [|c ds]; [done|]. assert (is_number c = true) as Hc by (cbn in Hd; by apply andb_true_iff in Hd as [? _]).
  destruct (digit_facts c Hc) as (_ & _ & _ & E1 & _).
  destruct Hsg as [-> |[-> | ->]]; cbn [app] in *; unfold determine_value_type; [by rewrite E1, Et, Ed, Hc, En|..]; by rewrite Et, Ed, En.
Qed.
Lemma yields_parse_int sign ds e : is_sign sign -> forallb is_number ds = true -> ds <> [] ->
  - 2 ^ 63 <= signed sign (scan 10 0 ds) < 2 ^ 63 ->
  yields (parse_int (sign ++ ds ++ e) (length e) 10 []) (sign ++ ds ++ e) (VInt (signed sign (scan 10 0 ds))) e.
Proof.
  intros Hsg Hd Hne Hv. unfold parse_int. cbv zeta. rewrite (app_assoc sign ds e), length_app, Nat.add_sub, take_app_length, drop_app_length.
  assert (filter (fun c => c <> Byte.x5f) (sign ++ ds) = sign ++ ds) as Ef.
  { rewrite filter_app, (filter_digits ds) by done. by destruct Hsg as [-> |[-> | ->]]. }
  cbn [app]. rewrite Ef, stoll_digits by done. apply yields_move, yields_ret.
Qed.
Lemma find_end_number sign ds e : is_sign sign -> forallb is_number ds = true -> stops e -> find_end_of_number (sign ++ ds ++ e) = length e.
Proof.
  intros Hsg Hd Hs. unfold find_end_of_number.
  rewrite drop_while_app by (by destruct Hsg as [-> |[-> | ->]]).
  rewrite drop_while_app by (eapply forallb_weaken; [|exact Hd]; intros x Hx; by apply digit_facts).
  rewrite drop_while_stop by (eapply stops_head_not; [|exact Hs]; intros x Hx; by apply stop_facts).
  change (str "inf") with [Byte.x69; Byte.x6e; Byte.x66]. change (str "nan") with [Byte.x6e; Byte.x61; Byte.x6e].
  by rewrite !stops_not_starts.
Qed.
Lemma yields_parse_number sign ds e : is_sign sign -> forallb is_number ds = true -> ds <> [] ->
  (head ds = Some Byte.x30 -> ds = [Byte.x30]) -> - 2 ^ 63 <= signed sign (scan 10 0 ds) < 2 ^ 63 -> stops e ->
  yields parse_number (sign ++ ds ++ e) (VInt (signed sign (scan 10 0 ds))) e.
Proof.
  intros Hsg Hd Hne H0 Hv Hs. unfold parse_number. apply yields_here. cbv zeta. rewrite find_end_number by done.
  pose proof (yields_parse_int sign ds e Hsg Hd Hne Hv) as Hint. pose proof (digits_loop_number ds e Hd Hs) as Hl.
  destruct ds as [|c ds]; [done|]. cbn [forallb] in Hd. apply andb_true_iff in Hd as [Hc Hd].
  destruct (digit_facts c Hc) as (_ & _ & _ & _ & E1 & _ & _ & _ & _ & Hi & Hn & _).
  assert ((match sign ++ (c :: ds) ++ e with z :: b :: l' => if bool_decide (z = Byte.x30) && negb (at_stop (length e) (b :: l')) && one_of (str "xob") b
    then Some (b, l') else None | _ => None end) = None) as ->.
  { destruct Hsg as [-> |[-> | ->]]; [|done..]. cbn [app]. destruct (ds ++ e) as [|b r] eqn:E; [done|]. case_bool_decide as Hz; [|done]. subst c.
    specialize (H0 eq_refl). injection H0 as ->. cbn in E. subst e. unfold at_stop. by rewrite Nat.eqb_refl. }
  assert (eat_sign (sign ++ (c :: ds) ++ e) = (c :: ds) ++ e) as ->.
  { destruct Hsg as [-> |[-> | ->]]; [|done..]. cbn [app eat_sign]. by rewrite E1. }
  eapply (yields_bind _ _ _ tt).
  { unfold check_no_leading_zero. cbn [app]. case_bool_decide as Hz; [|apply yields_ret]. subst c.
    specialize (H0 eq_refl). injection H0 as ->. cbn [app]. unfold at_stop. rewrite Nat.eqb_refl. apply yields_ret. }
  replace (starts_with (str "inf") ((c :: ds) ++ e)) with false
    by (symmetry; unfold starts_with; apply bool_decide_eq_false; cbn; by intros [= ->]).
  replace (starts_with (str "nan") ((c :: ds) ++ e)) with false
    by (symmetry; unfold starts_with; apply bool_decide_eq_false; cbn; by intros [= ->]).
  eapply yields_bind.
  { unfold eat_number_digits. rewrite Hl. unfold at_stop. rewrite (proj2 (Nat.eqb_neq _ _)); [apply yields_ret|].
    rewrite length_app. cbn [length]. lia. }
  destruct e as [|x e]; [exact Hint|]. cbn in Hs. replace (one_of (str ".eE") x) with false by (symmetry; by apply stop_facts). exact Hint.
Qed.
Lemma signed_range sign n : 0 <= n -> - 2 ^ 63 <= signed sign n < 2 ^ 63 -> 0 <= n <= 2 ^ 63.
Proof. unfold signed. case_decide; lia. Qed.
Lemma parse_value_int n sign k e : is_sign sign -> 0 <= k -> - 2 ^ 63 <= signed sign k < 2 ^ 63 -> line_end e ->
  yields (parse_value (S n)) ((sign ++ to_string k) ++ e) (VInt (signed sign k)) e.
Proof.
  intros Hsg Hk Hr He. pose proof (line_end_stops e He) as Hs.
  destruct (to_string_digits k (signed_range _ _ Hk Hr)) as (Hd & Hne & Hv & H0).
  rewrite <- app_assoc. cbn [parse_value]. apply yields_here. rewrite value_type_digits by done. eapply yields_bind; [apply yields_ret|]. cbn iota.
  rewrite <- Hv at 2. apply yields_parse_number; [done..| |done]. by rewrite Hv.
Qed.

Lemma parse_value_text n t v e : value_text t v -> line_end e ->
  exists r c, yields (parse_value (S n)) (t ++ e) v r /\ yields consume_whitespace r tt c /\ (c = [] \/ head c = Some Byte.x23).
Proof.
  intros Ht He. pose proof (line_end_stops e He) as Hs. destruct (yields_whitespace_end e He) as (c & Hc & Hc').
  assert (yields consume_whitespace c tt c) as Hcc.
  { apply (yields_whitespace []); [done|]. destruct c as [|x c]; [done|]. destruct Hc' as [|E]; [done|]. by injection E as ->. }
  destruct Ht as [q t s Hq Hf|sign k Hsg Hk Hr| |].
  - exists (drop_while is_ws e), c. split; [by apply parse_value_string|]. split; [|done].
    assert (drop_while is_ws e = c) as ->; [|done]. pose (p := mkParser e [] false false 0). specialize (Hc p eq_refl).
    rewrite (yields_drop_blanks e p eq_refl) in Hc. by injection Hc.
  - exists e, c. split; [by apply parse_value_int|done].
  - exists e, c. split; [exact (parse_value_bool n true e)|done].
  - exists e, c. split; [exact (parse_value_bool n false e)|done].
Qed.

(** *** Lines *)
Definition throws {A} (m : M A) (l : bytes) : Prop := forall p, rest p = l -> exists err n, m p = Throw err n.
Lemma throws_bind {A B} (m : M A) (f : A -> M B) l a l' : yields m l a l' -> throws (f a) l' -> throws (bind m f) l.
Proof. intros H1 H2 p Hp. unfold bind. rewrite (H1 p Hp). by apply H2. Qed.
Lemma throws_first {A B} (m : M A) (f : A -> M B) l : throws m l -> throws (bind m f) l.
Proof. intros H p Hp. unfold bind. destruct (H p Hp) as (err & n & ->). eauto. Qed.
Lemma throws_here {B} (f : bytes -> M B) l : throws (f l) l -> throws (bind here f) l.
Proof. intros H p Hp. unfold bind, here. rewrite Hp. by apply H. Qed.
Lemma throws_throw {A} err l : throws (throw_parse_exception err : M A) l.
Proof. intros p _. by eexists _, _. Qed.

(** The tables these files make: values, and tables of values. *)
Definition all_values (t : table) : Prop := forallb (fun e => is_value e.2) t = true.
Definition flat (t : table) : Prop := Forall (fun e => is_value e.2 = true \/ exists m, e.2 = VTable m /\ all_values m) t.
Definition good (s : table * list bytes) : Prop :=
  flat s.1 /\ (s.2 = [] \/ exists name m, s.2 = [name] /\ find name s.1 = Some (VTable m)).
Lemma flat_find name t v : flat t -> find name t = Some v -> is_value v = true \/ exists m, v = VTable m /\ all_values m.
Proof.
  intros H. induction H as [|[k w] t Hw _ IH]; cbn; [done|]. case_decide; [intros [= <-]; exact Hw|exact IH].
Qed.
Lemma flat_insert name v t : flat t -> (is_value v = true \/ exists m, v = VTable m /\ all_values m) -> flat (insert name v t).
Proof.
  intros H Hv. induction H as [|[k w] t Hw Ht IH]; cbn; [apply Forall_cons; by split|]. case_decide; by apply Forall_cons.
Qed.
Lemma all_values_insert key v t : all_values t -> is_value v = true -> all_values (insert key v t).
Proof.
  unfold all_values. intros H Hv. induction t as [|[k w] t IH]; cbn in *; [by rewrite Hv|]. apply andb_true_iff in H as [Hw Ht].
  case_decide; cbn; [by rewrite Hv|by rewrite Hw, IH].
Qed.
Lemma value_text_value t v : value_text t v -> is_value v = true.
Proof. by intros []. Qed.
Lemma apply_line_good ln s s' t : good s -> line_text t ln -> apply_line ln s = Some s' -> good s'.
Proof.
  destruct s as [root path]. intros [Hf Hp] Ht E. cbn [fst snd] in *. destruct Ht as [e He|b1 b2 name b3 e|b1 key b2 b3 t v e Hb1 Hk Hb2 Hb3 Hv He];
    cbn [apply_line] in E.
  - by injection E as <-.
  - destruct (contains name root); [done|]. injection E as <-. split; cbn [fst snd].
    + apply flat_insert; [done|right; by eexists].
    + right. exists name, []. split; [done|apply find_insert].
  - pose proof (value_text_value _ _ Hv) as Hval. destruct Hp as [-> |(name & m & -> & Hm)]; cbn [table_at] in E.
    + destruct (contains key root); [done|]. injection E as <-. split; cbn [fst snd update_at]; [apply flat_insert; auto|by left].
    + rewrite Hm in E. destruct (contains key m); [done|]. injection E as <-. cbn [update_at]. rewrite Hm. split; cbn [fst snd].
      * apply flat_insert; [done|]. right. eexists. split; [done|]. destruct (flat_find _ _ _ Hf Hm) as [|(m' & [= <-] & Hm')]; [done|].
        by apply all_values_insert.
      * right. exists name, (insert key v m). split; [done|apply find_insert].
Qed.

Lemma bare_head k l : bare_key k -> exists c r, k ++ l = c :: r /\ bare c = true.
Proof. intros [Hne Hf]. destruct k as [|c k]; [done|]. exists c, (k ++ l). split; [done|]. cbn in Hf. by apply andb_true_iff in Hf as [? _]. Qed.
Lemma header_head b k l : blanks b -> bare_key k -> exists c r, b ++ k ++ l = c :: r /\ c <> Byte.x5b /\ c <> Byte.x5d.
Proof.
  intros Hb Hk. destruct b as [|x b].
  - destruct (bare_head k l Hk) as (c & r & E & Hc). exists c, r. split; [exact E|]. split; by apply bare_facts.
  - exists x, (b ++ k ++ l). split; [done|]. unfold blanks in Hb. cbn in Hb. apply andb_true_iff in Hb as [Hx _]. by destruct x.
Qed.

Lemma header_step root path b2 name b3 e : flat root -> blanks b2 -> bare_key name -> blanks b3 -> line_end e ->
  match apply_line (Header name) (root, path) with
  | Some s => exists c, yields (parse_table root) (str "[" ++ b2 ++ name ++ b3 ++ str "]" ++ e) s c
  | None => throws (parse_table root) (str "[" ++ b2 ++ name ++ b3 ++ str "]" ++ e)
  end.
Proof.
  intros Hf Hb2 Hn Hb3 He. destruct (header_head b2 name (b3 ++ str "]" ++ e) Hb2 Hn) as (c & r & E & Hc1 & Hc2).
  destruct (yields_whitespace_end e He) as (ce & Hw & Hce). pose proof (yields_eol ce Hce) as Heol.
  pose proof (yields_parse_key Byte.x5d single_part (mkCursor root [] [] false) b2 name b3 e Hb2 Hn Hb3 (or_intror eq_refl)) as Hkey.
  change (str "]" ++ e) with (Byte.x5d :: e) in *. rewrite E in *. change (str "[" ++ c :: r) with (Byte.x5b :: c :: r).
  destruct name as [|n0 name]; [by destruct Hn|]. cbn [apply_line]. unfold contains.
  destruct (find (n0 :: name) root) as [v|] eqn:Ef.
  - unfold parse_table. eapply throws_bind; [apply yields_incr|]. apply throws_here. rewrite decide_False by done.
    unfold parse_single_table. apply throws_here. rewrite decide_False by done. eapply throws_bind; [exact Hkey|]. cbn [fst snd].
    destruct (flat_find _ _ _ Hf Ef) as [Hv|(m & -> & Hm)].
    + apply throws_first. unfold single_part. cbv zeta. eapply throws_bind; [exact (yields_ret root _)|]. cbn beta. rewrite Ef.
      destruct v; try discriminate Hv; apply throws_throw.
    + eapply throws_bind.
      { unfold single_part. cbv zeta. eapply yields_bind; [exact (yields_ret root _)|]. cbn beta. rewrite Ef. apply yields_ret. }
      apply throws_here. cbn [negb bool_decide]. rewrite bool_decide_eq_true_2 by done. cbn [negb TomlParser.path full_name cursor_table inserted app].
      eapply throws_bind; [unfold current; cbn [TomlParser.path cursor_table table_at]; rewrite Ef; apply yields_ret|].
      destruct m as [|[k w] m]; [apply throws_throw|]. unfold all_values in Hm. cbn [forallb existsb] in *. apply andb_true_iff in Hm as [Hw' _].
      rewrite Hw'. apply throws_throw.
  - exists ce. unfold parse_table. eapply yields_bind; [apply yields_incr|]. apply yields_here. rewrite decide_False by done.
    unfold parse_single_table. apply yields_here. rewrite decide_False by done. eapply yields_bind; [exact Hkey|]. cbn [fst snd].
    eapply yields_bind.
    { unfold single_part. cbv zeta. eapply yields_bind; [exact (yields_ret root _)|]. cbn beta. rewrite Ef. apply yields_ret. }
    apply yields_here. rewrite bool_decide_eq_true_2 by done. cbn [negb TomlParser.path full_name cursor_table inserted app update_at].
    eapply yields_bind; [unfold current; cbn [TomlParser.path cursor_table table_at]; rewrite find_insert; apply yields_ret|]. cbn [andb].
    eapply yields_bind; [apply yields_incr|]. eapply yields_bind; [exact Hw|]. eapply yields_bind; [exact Heol|]. apply yields_ret.
Qed.
Lemma value_text_head t v l : value_text t v -> head_not is_ws (t ++ l).
Proof.
  intros [q t' s Hq _|sign k Hsg Hk Hr| |]; [by destruct Hq as [-> | ->]| |done..].
  destruct Hsg as [-> |[-> | ->]]; [|done..]. destruct (to_string_digits k (signed_range _ _ Hk Hr)) as (Hd & Hne & _).
  cbn [app]. destruct (to_string k) as [|c r]; [done|]. cbn in Hd |- *. apply andb_true_iff in Hd as [Hc _]. destruct c; try discriminate Hc; reflexivity.
Qed.
Lemma good_current s : good s -> exists cur, table_at s.2 s.1 = Some cur.
Proof. intros [_ [-> |(name & m & -> & Hm)]]; [by eexists|]. cbn. rewrite Hm. by eexists. Qed.
Lemma entry_step n s key b2 b3 t v e : good s -> bare_key key -> blanks b2 -> blanks b3 -> value_text t v -> line_end e ->
  match apply_line (Entry key v) s with
  | Some s' => s'.2 = s.2 /\ exists c, (c = [] \/ head c = Some Byte.x23) /\
      yields (parse_key_value (S (S n)) s.1 s.2) (key ++ b2 ++ str "=" ++ b3 ++ t ++ e) s'.1 c
  | None => throws (parse_key_value (S (S n)) s.1 s.2) (key ++ b2 ++ str "=" ++ b3 ++ t ++ e)
  end.
Proof.
  destruct s as [root path]. intros Hg Hk Hb2 Hb3 Hv He. destruct (good_current _ Hg) as [cur Hcur]. cbn [fst snd] in *. cbn [apply_line]. rewrite Hcur.
  pose proof (yields_parse_key Byte.x3d key_value_part (mkCursor root path [] false) [] key b2 (b3 ++ t ++ e) eq_refl Hk Hb2 (or_introl eq_refl)) as Hkey.
  assert (forall l, yields (current (mkCursor root path [] false)) l cur l) as Hc
    by (intros l; unfold current; cbn [TomlParser.path cursor_table]; rewrite Hcur; apply yields_ret).
  destruct (contains key cur) eqn:Ek.
  - change (S (S n)) with (Datatypes.S (S n)). cbn [parse_key_value]. eapply throws_bind; [exact Hkey|]. cbn iota.
    eapply throws_bind; [apply Hc|]. rewrite Ek. apply throws_throw.
  - split; [done|]. destruct (parse_value_text n t v e Hv He) as (r & c & H1 & H2 & H3). exists c. split; [done|].
    cbn [fst]. remember (S n) as m eqn:Em. cbn [parse_key_value]. eapply yields_bind; [exact Hkey|]. cbn iota.
    eapply yields_bind; [apply Hc|]. rewrite Ek. apply yields_here. rewrite bool_decide_eq_true_2 by done. cbn [negb].
    apply yields_move. eapply yields_bind; [apply yields_whitespace; [done|by eapply value_text_head]|].
    eapply yields_bind; [exact H1|]. eapply yields_bind; [exact H2|]. apply yields_ret.
Qed.

(** *** The loop over the lines *)
Definition line_body (n : nat) (s : table * list bytes) : M table :=
  bind consume_whitespace (fun _ => bind here (fun l =>
  if at_comment l then parse_loop n s.1 s.2
  else if decide (head l = Some Byte.x5b) then bind (parse_table s.1) (fun r => parse_loop n r.1 r.2)
  else bind (fun p => parse_key_value (value_fuel p) s.1 s.2 p) (fun root =>
       bind consume_whitespace (fun _ => bind eol_or_comment (fun _ => parse_loop n root s.2))))).
Lemma parse_loop_unfold n s : parse_loop (S n) s.1 s.2 =
  bind getline (fun more => if more then bind next_line_number (fun _ => line_body n s) else ret s.1).
Proof. reflexivity. Qed.
Lemma line_body_skip n s b l p : blanks b -> head_not is_ws l -> rest p = b ++ l ->
  line_body n s p =
  (if at_comment l then parse_loop n s.1 s.2
   else if decide (head l = Some Byte.x5b) then bind (parse_table s.1) (fun r => parse_loop n r.1 r.2)
   else bind (fun p => parse_key_value (value_fuel p) s.1 s.2 p) (fun root =>
        bind consume_whitespace (fun _ => bind eol_or_comment (fun _ => parse_loop n root s.2)))) (with_rest l p).
Proof. intros Hb Hl Hp. unfold line_body. unfold bind at 1. by rewrite (yields_whitespace b l Hb Hl p Hp). Qed.
Lemma line_step n s l ln p : good s -> line_text l ln -> rest p = l ->
  match apply_line ln s with
  | Some s' => exists r, line_body n s p = parse_loop n s'.1 s'.2 (with_rest r p)
  | None => exists err line, line_body n s p = Throw err line
  end.
Proof.
  intros Hg Ht Hp. destruct Ht as [e He|b1 b2 name b3 e Hb1 Hb2 Hn Hb3 He|b1 key b2 b3 t v e Hb1 Hk Hb2 Hb3 Hv He].
  - destruct s as [root path]. cbn [apply_line]. destruct He as (b & c & -> & Hb & _ & Hc). exists c. rewrite (line_body_skip n _ b c p Hb); [|by apply comment_not_ws|done].
    by rewrite at_comment_end.
  - destruct s as [root path]. pose proof (header_step root path b2 name b3 e (proj1 Hg) Hb2 Hn Hb3 He) as Hs.
    rewrite (line_body_skip n _ b1 (str "[" ++ b2 ++ name ++ b3 ++ str "]" ++ e) p Hb1 eq_refl Hp).
    set (l := str "[" ++ b2 ++ name ++ b3 ++ str "]" ++ e) in *. change (at_comment l) with false. cbn iota. rewrite decide_True by done.
    destruct (apply_line (Header name) (root, path)) as [s'|].
    + destruct Hs as [r Hs]. exists r. unfold bind. cbn [fst]. by rewrite (Hs (with_rest l p) eq_refl).
    + exact (throws_first _ (fun r => parse_loop n r.1 r.2) _ Hs (with_rest l p) eq_refl).
  - destruct (bare_head key (b2 ++ str "=" ++ b3 ++ t ++ e) Hk) as (c & r & E & Hc).
    assert (exists m, value_fuel (with_rest (c :: r) p) = S (S m)) as [m Hm] by (unfold value_fuel; eexists; rewrite Nat.add_comm; reflexivity).
    pose proof (entry_step m s key b2 b3 t v e Hg Hk Hb2 Hb3 Hv He) as Hs. rewrite E in Hs, Hp. destruct (bare_facts c Hc) as (Hw & _ & _ & _ & _ & _ & H1 & H2 & _).
    rewrite (line_body_skip n s b1 (c :: r) p Hb1 Hw Hp). cbn [at_comment head]. rewrite bool_decide_eq_false_2 by done. rewrite decide_False by congruence.
    destruct (apply_line (Entry key v) s) as [s'|].
    + destruct Hs as (Hpath & c' & Hc' & Hs). exists c'. unfold bind at 1. rewrite Hm, (Hs (with_rest (c :: r) p) eq_refl), Hpath.
      unfold bind at 1. rewrite (yields_whitespace [] c' eq_refl (comment_not_ws c' Hc') (with_rest c' (with_rest (c :: r) p)) eq_refl).
      unfold bind. by rewrite (yields_eol c' Hc' (with_rest c' (with_rest c' (with_rest (c :: r) p))) eq_refl).
    + destruct (Hs (with_rest (c :: r) p) eq_refl) as (err & k & Ex). unfold bind at 1. rewrite Hm, Ex. eauto.
Qed.

Lemma in_line_app a b : forallb in_line a = true -> forallb in_line b = true -> forallb in_line (a ++ b) = true.
Proof. intros H1 H2. by rewrite forallb_app, H1, H2. Qed.
Lemma blanks_in_line b : blanks b -> forallb in_line b = true.
Proof. apply forallb_weaken. intros x Hx. by apply ws_facts. Qed.
Lemma bare_in_line k : bare_key k -> forallb in_line k = true.
Proof. intros [_ Hk]. eapply forallb_weaken; [|exact Hk]. intros x Hx. by apply bare_facts. Qed.
Lemma end_in_line e : line_end e -> forallb in_line e = true.
Proof. intros (b & c & -> & Hb & Hc & _). apply in_line_app; [by apply blanks_in_line|done]. Qed.
Lemma quoted_in_line q t s : quoted_text q t s -> forallb in_line t = true.
Proof.
  induction 1 as [|c t s Hc _ _ _ IH|x c t s _ Hx _ IH]; [done|cbn; by rewrite Hc|].
  cbn. by rewrite (proj2 (escape_facts x c Hx)).
Qed.
Lemma value_in_line t v : value_text t v -> forallb in_line t = true.
Proof.
  intros [q t' s Hq Hs|sign k Hsg Hk Hr| |]; [| |done..].
  - repeat apply in_line_app; [by destruct Hq as [-> | ->]|by eapply quoted_in_line|by destruct Hq as [-> | ->]].
  - apply in_line_app; [by destruct Hsg as [-> |[-> | ->]]|].
    eapply forallb_weaken; [|apply (to_string_digits k (signed_range _ _ Hk Hr))]. intros x Hx. by apply digit_facts.
Qed.
Lemma line_text_in_line l ln : line_text l ln -> forallb in_line l = true.
Proof.
  intros []; rewrite ?forallb_app, ?andb_true_iff; split_and?; first [done|by apply blanks_in_line|by apply bare_in_line|by apply end_in_line|by eapply value_in_line].
Qed.
Lemma read_line_last l : forallb in_line l = true -> read_line l = (l, None).
Proof.
  induction l as [|c l IH]; [done|]. cbn [forallb]. unfold in_line at 1. rewrite !andb_true_iff, !negb_true_iff, !bool_decide_eq_false.
  intros [[H1 H2] H]. cbn [read_line]. rewrite decide_False by done. rewrite IH by done. destruct l; [done|]. by rewrite decide_False by (by intros [? _]).
Qed.
Lemma read_line_more l eol text : forallb in_line l = true -> eol = [Byte.x0a] \/ eol = [Byte.x0d; Byte.x0a] ->
  read_line (l ++ eol ++ text) = (l, Some text).
Proof.
  intros Hl He. induction l as [|c l IH].
  - by destruct He as [-> | ->].
  - cbn [forallb] in Hl. unfold in_line at 1 in Hl. rewrite !andb_true_iff, !negb_true_iff, !bool_decide_eq_false in Hl. destruct Hl as [[H1 H2] Hl].
    cbn [app read_line]. rewrite decide_False by done. specialize (IH Hl). rewrite IH. destruct (l ++ eol ++ text) eqn:E.
    + destruct l; [by destruct He as [-> | ->]|done].
    + by rewrite decide_False by (by intros [? _]).
Qed.

(** What is left when the last line has been read: the end is seen once more. *)
Lemma parse_loop_end n s p : (2 <= n)%nat -> input_ p = [] -> failbit p = false -> exists q, parse_loop n s.1 s.2 p = Done (s.1, q).
Proof.
  intros Hn Hi Hf. destruct n as [|[|n]]; [lia..|]. destruct p as [l i eof fb k]. cbn in Hi, Hf. subst i fb. destruct s as [root path].
  destruct eof; by eexists.
Qed.
Lemma config_loop text lns : config_text text lns -> forall n s p, (length text + 3 <= n)%nat -> good s ->
  input_ p = text -> eofbit p = false -> failbit p = false ->
  match apply_lines lns s with
  | Some (t, _) => exists q, parse_loop n s.1 s.2 p = Done (t, q)
  | None => exists err line, parse_loop n s.1 s.2 p = Throw err line
  end.
Proof.
  assert (forall l ln eof input n s p, line_text l ln -> good s ->
    getline p = Done (true, mkParser l input eof false (line_number_ p)) ->
    match apply_line ln s with
    | Some s' => good s' /\ exists r, parse_loop (S n) s.1 s.2 p = parse_loop n s'.1 s'.2 (mkParser r input eof false (line_number_ p + 1))
    | None => exists err line, parse_loop (S n) s.1 s.2 p = Throw err line
    end) as step.
  { intros l ln eof input n s p Hl Hg Eg.
    assert (parse_loop (S n) s.1 s.2 p = line_body n s (mkParser l input eof false (line_number_ p + 1))) as ->
      by (rewrite parse_loop_unfold; unfold bind at 1; by rewrite Eg).
    pose proof (line_step n s l ln (mkParser l input eof false (line_number_ p + 1)) Hg Hl eq_refl) as H.
    pose proof (apply_line_good ln s) as Hgood. destruct (apply_line ln s) as [s'|]; [|exact H]. split; [by eapply Hgood|exact H]. }
  intros Hc. induction Hc as [|l ln Hl|l ln eol text lns Hl He Hc IH]; intros n s p Hn Hg Hi Hb Hf.
  - destruct s as [root path]. apply (parse_loop_end n (root, path)); [lia|done|done].
  - destruct n as [|n]; [lia|]. cbn [apply_lines]. specialize (step l ln (bool_decide (l = [])) [] n s p Hl Hg). destruct (apply_line ln s) as [s'|].
    + destruct step as (_ & r & ->). { unfold getline. by rewrite Hi, read_line_last, Hb, Hf by (by eapply line_text_in_line). }
      destruct s' as [root path]. apply (parse_loop_end n (root, path)); [lia|done|done].
    + apply step. unfold getline. by rewrite Hi, read_line_last, Hb, Hf by (by eapply line_text_in_line).
  - destruct n as [|n]; [lia|]. cbn [apply_lines]. specialize (step l ln false text n s p Hl Hg).
    assert (getline p = Done (true, mkParser l text false false (line_number_ p))) as Eg.
    { unfold getline. by rewrite Hi, read_line_more, Hb, Hf by (done || by eapply line_text_in_line). }
    specialize (step Eg). destruct (apply_line ln s) as [s'|]; [|exact step]. destruct step as (Hg' & r & ->).
    apply IH; [|done..]. rewrite !length_app in Hn. destruct He as [-> | ->]; cbn [length] in Hn; lia.
Qed.

Lemma config_parses text lns : config_text text lns ->
  match apply_lines lns ([], []) with
  | Some (t, _) => parse text = Done t
  | None => exists err line, parse text = Throw err line
  end.
Proof.
  intros Hc. pose proof (config_loop text lns Hc (2 * length text + 3) ([], []) (mkParser [] text false false 0)) as H. cbn [fst snd] in H. unfold parse.
  destruct (apply_lines lns ([], [])) as [[t path]|].
  - destruct H as [q ->]; [lia|split; [constructor|by left]|done..].
  - destruct H as (err & line & ->); [lia|split; [constructor|by left]|done..|]. eauto.
Qed.
(** C23: On a configuration of tables with bare names and entries with bare
    names, whose values are strings on one line in single quotes or in double
    quotes with the escapes of one character (Unicode escapes apart), decimal
    integers of 64 bits with or without a sign and without separators, and
    booleans, with any blanks, comments and line ends, the parser of cpptoml
    gives exactly the tables its lines describe, and throws a parse_exception
    where a name is used twice. *)
Theorem toml_config_parses text lns : config_text text lns ->
  match apply_lines lns ([], []) with
  | Some (t, _) => parse text = Done t
  | None => exists err line, parse text = Throw err line
  end.
Proof. apply config_parses. Qed.

(** ** A layout of the lines, as in the files of the repository *)
Definition print_value (v : base) : bytes :=
  match v with VString s => [Byte.x22] ++ s ++ [Byte.x22] | VInt n => to_string n | VBool true => str "true" | _ => str "false" end.
Definition print_line (ln : line) : bytes :=
  match ln with
  | Blank => []
  | Header name => str "[" ++ name ++ str "]"
  | Entry key v => str "    " ++ key ++ str " = " ++ print_value v
  end.
Fixpoint print_config (lns : list line) : bytes :=
  match lns with [] => [] | [ln] => print_line ln | ln :: lns => print_line ln ++ [Byte.x0a] ++ print_config lns end.
Definition plain (s : bytes) : bool :=
  forallb (fun c => in_line c && negb (bool_decide (c = Byte.x22)) && negb (bool_decide (c = Byte.x5c))) s.
Definition bare_ok (k : bytes) : bool := negb (bool_decide (k = [])) && forallb bare k.
Definition printable (ln : line) : bool :=
  match ln with
  | Blank => true
  | Header name => bare_ok name
  | Entry key (VString s) => bare_ok key && plain s
  | Entry key (VInt n) => bare_ok key && (0 <=? n) && (n <? 2 ^ 63)
  | Entry key (VBool _) => bare_ok key
  | Entry _ _ => false
  end.
Lemma bare_ok_key k : bare_ok k = true -> bare_key k.
Proof. unfold bare_ok. rewrite andb_true_iff, negb_true_iff, bool_decide_eq_false. by intros [? ?]. Qed.
Lemma end_nil : line_end [].
Proof. exists [], []. split_and!; done || by left. Qed.
Lemma entry_printed key t v : bare_ok key = true -> value_text t v -> line_text (str "    " ++ key ++ str " = " ++ t) (Entry key v).
Proof.
  intros Hk Hv. pose proof (entry_line (str "    ") key (str " ") (str " ") t v [] eq_refl (bare_ok_key _ Hk) eq_refl eq_refl Hv end_nil) as H.
  by rewrite app_nil_r in H.
Qed.
Lemma plain_quoted s : plain s = true -> quoted_text Byte.x22 s s.
Proof.
  unfold plain. induction s as [|c s IH]; cbn [forallb]; [constructor|].
  rewrite !andb_true_iff, !negb_true_iff, !bool_decide_eq_false. intros [[[H1 H2] H3] Hs]. constructor; auto. by intros [_ ->].
Qed.
Lemma print_line_text ln : printable ln = true -> line_text (print_line ln) ln.
Proof.
  destruct ln as [|name|key v]; cbn [printable print_line]; intros H.
  - constructor. apply end_nil.
  - exact (header_line [] [] name [] [] eq_refl eq_refl (bare_ok_key _ H) eq_refl end_nil).
  - destruct v as [s| | | | |n| |b| | |]; try done; rewrite ?andb_true_iff in H.
    + destruct H as [Hk Hs]. apply entry_printed; [done|]. apply text_string; [by left|]. by apply plain_quoted.
    + destruct H as [[Hk H1] H2]. apply entry_printed; [done|]. apply (text_int []); [by left|lia|change (signed [] n) with n; lia].
    + apply entry_printed; [done|]. destruct b; constructor.
Qed.
Lemma print_config_text lns : forallb printable lns = true -> config_text (print_config lns) lns.
Proof.
  induction lns as [|ln lns IH]; [constructor|]. cbn [forallb]. rewrite andb_true_iff. intros [Hl H]. pose proof (print_line_text ln Hl) as Ht.
  destruct lns as [|ln' lns]; [by apply config_last|]. apply (config_cons _ ln [Byte.x0a]); [done|by left|auto].
Qed.

(** A file of two tables is read; with the second of the first's name it is refused. *)
Definition demo (name : bytes) : list line :=
  [Header (str "log"); Entry (str "name") (VString (str "gateserver")); Entry (str "stdout") (VBool true); Blank;
   Header name; Entry (str "port") (VInt 8080)].
Lemma signed_line : line_text (str "low = -12 # a comment") (Entry (str "low") (VInt (- 12))).
Proof.
  apply (entry_line [] (str "low") (str " ") (str " ") (str "-12") _ (str " # a comment")); [done| |done..| |].
  - by apply bare_ok_key.
  - apply (text_int (str "-") 12); [by right; right|done|by split].
  - exists (str " "), (str "# a comment"). split_and!; try done. by right.
Qed.
Lemma escaped_line :
  line_text (str "path = " ++ [Byte.x22] ++ str "a\tb" ++ [Byte.x22]) (Entry (str "path") (VString [Byte.x61; Byte.x09; Byte.x62])).
Proof.
  apply (entry_line [] (str "path") (str " ") (str " ") ([Byte.x22] ++ str "a\tb" ++ [Byte.x22]) _ []); [done| |done..| |apply end_nil].
  - by apply bare_ok_key.
  - apply text_string; [by left|]. apply quoted_char; [done..|by intros [_ ?]|]. apply quoted_escape; [done|apply list_elem_of_In; cbn; auto|].
    apply quoted_char; [done..|by intros [_ ?]|]. constructor.
Qed.
Lemma toml_config_parses_witness :
  parse (print_config (demo (str "tcpserver"))) =
    Done [(str "log", VTable [(str "name", VString (str "gateserver")); (str "stdout", VBool true)]);
          (str "tcpserver", VTable [(str "port", VInt 8080)])] /\
  (exists err line, parse (print_config (demo (str "log"))) = Throw err line) /\
  parse (str "low = -12 # a comment") = Done [(str "low", VInt (- 12))] /\
  parse (str "path = " ++ [Byte.x22] ++ str "a\tb" ++ [Byte.x22]) = Done [(str "path", VString [Byte.x61; Byte.x09; Byte.x62])].
Proof.
  split_and!.
  - exact (toml_config_parses _ (demo (str "tcpserver")) (print_config_text (demo (str "tcpserver")) eq_refl)).
  - exact (toml_config_parses _ (demo (str "log")) (print_config_text (demo (str "log")) eq_refl)).
  - exact (toml_config_parses _ _ (config_last _ _ signed_line)).
  - exact (toml_config_parses _ _ (config_last _ _ escaped_line)).
Defined.
End TomlConfig.
