(* ===== verification/Startup.v ===== *)
(** * The start of the three programs: src/{gateserver,logicserver,jobserver}/main.cc

    Each [main] reads its configuration file, starts the log and hands the
    settings to its server.  The files are those of src/bin/config. *)

From Stdlib Require Import ZArith Lia.
From stdpp Require Import base list gmap strings.
From S2P Require Import Prelude Endian Buffer Text Json JsonSpec LogTime LogFormat LogFile LogQueue Toml TomlParser TomlConfig.
Local Open Scope Z_scope.
Local Open Scope cpp_scope.

Module Startup.
Import Calendar FileHelper Toml TomlParser TomlConfig HourlySink.Demo.

(** The arguments of [Log::Init] and of the constructors of the servers. *)
Record LogArgs := mkLogArgs {
  log_name : bytes; log_path : bytes; log_level_name : bytes; flush_level_name : bytes; stdout_switch : bool; thread_num : Z;
}.
Inductive program := GateServer | LogicServer | JobServer.
Inductive arguments :=
  | GateArgs (thrnum : Z) (tcpip : bytes) (tcpport : Z) (rpcip : bytes) (rpcport : Z) (clientip : bytes) (clientport : Z) (serverid : bytes)
  | LogicArgs (thrnum : Z) (httpip : bytes) (httpport : Z) (rpcip : bytes) (rpcport : Z) (redisip : bytes) (redisport : Z)
      (brokers topic : bytes) (serverid : Z)
  | JobArgs (brokers topic clientip : bytes) (clientport : Z).

(** [*t->get_as<T>(key)], where [t] may be null. *)
Definition arg_string (t : option table) (key : String.string) : res bytes :=
  let* m := deref t in Ok (deref_string (get_as_string (str key) m)).
Definition arg_int (t : option table) (key : String.string) : res Z :=
  let* m := deref t in let* o := get_as_int (str key) m in deref o.
Definition arg_bool (t : option table) (key : String.string) : res bool :=
  let* m := deref t in deref (get_as_bool (str key) m).

Definition log_args (config : table) : res LogArgs :=
  let logconfig := get_table (str "log") config in
  let* name := arg_string logconfig "name" in
  let* path := arg_string logconfig "path" in
  let* level := arg_string logconfig "level" in
  let* flushlevel := arg_string logconfig "flushlevel" in
  let* stdout := arg_bool logconfig "stdout" in
  let* thread := arg_int logconfig "thread" in
  Ok (mkLogArgs name path level flushlevel stdout thread).
Definition gate_args (config : table) : res arguments :=
  let tcpconfig := get_table (str "tcpserver") config in
  let rpcconfig := get_table (str "rpcserver") config in
  let gateconfig := get_table (str "gateserver") config in
  let clientconfig := get_table (str "rpcclient") config in
  let* netthr := arg_int gateconfig "netthr" in
  let* tcpip := arg_string tcpconfig "addr" in
  let* tcpport := arg_int tcpconfig "port" in
  let* rpcip := arg_string rpcconfig "addr" in
  let* rpcport := arg_int rpcconfig "port" in
  let* clientip := arg_string clientconfig "addr" in
  let* clientport := arg_int clientconfig "port" in
  let* serverid := arg_string gateconfig "serverid" in
  Ok (GateArgs netthr tcpip tcpport rpcip rpcport clientip clientport serverid).
Definition logic_args (config : table) : res arguments :=
  let httpconfig := get_table (str "httpserver") config in
  let rpcconfig := get_table (str "rpcserver") config in
  let redisconfig := get_table (str "redis") config in
  let logicconfig := get_table (str "logicserver") config in
  let kafkaconfig := get_table (str "kafka") config in
  let* netthr := arg_int logicconfig "netthr" in
  let* httpip := arg_string httpconfig "addr" in
  let* httpport := arg_int httpconfig "port" in
  let* rpcip := arg_string rpcconfig "addr" in
  let* rpcport := arg_int rpcconfig "port" in
  let* redisip := arg_string redisconfig "addr" in
  let* redisport := arg_int redisconfig "port" in
  let* brokers := arg_string kafkaconfig "brokers" in
  let* topic := arg_string kafkaconfig "topic" in
  let* serverid := arg_int logicconfig "serverid" in
  Ok (LogicArgs netthr httpip httpport rpcip rpcport redisip redisport brokers topic serverid).
Definition job_args (config : table) : res arguments :=
  let kafkaconfig := get_table (str "kafka") config in
  let clientconfig := get_table (str "rpcclient") config in
  let* brokers := arg_string kafkaconfig "brokers" in
  let* topic := arg_string kafkaconfig "topic" in
  let* clientip := arg_string clientconfig "addr" in
  let* clientport := arg_int clientconfig "port" in
  Ok (JobArgs brokers topic clientip clientport).

Definition config_file (p : program) : bytes :=
  match p with
  | GateServer => str "config/gateserver.toml"
  | LogicServer => str "config/logicserver.toml"
  | JobServer => str "config/jobserver.toml"
  end.
Definition read_args (p : program) : table -> res arguments :=
  match p with GateServer => gate_args | LogicServer => logic_args | JobServer => job_args end.

(** What [main] does before the server starts.  The clock is read twice by the
    sink of the log; [None] where [Init] throws, which nothing catches.  The
    order in which C++ evaluates the arguments of a call is not fixed; it only
    chooses between failures. *)
Definition init_log (l : LogArgs) (offset : Z) (now now' : Z) (d : disk) : option Async.state * disk :=
  Async.Init_names offset (log_name l) (log_path l) (log_level_name l) (flush_level_name l) (stdout_switch l) (thread_num l) now now' d.
Definition main (p : program) (file : option bytes) (offset : Z) (now now' : Z) (d : disk)
    : outcome (option (Async.state * arguments) * disk) :=
  match parse_file (config_file p) file with
  | Throw e n => Throw e n
  | Fail e => Fail e
  | Done config =>
      match log_args config with
      | Err e => Fail e
      | Ok l =>
          let '(log, d) := init_log l offset now now' d in
          match log with
          | None => Done (None, d)
          | Some s => match read_args p config with Ok a => Done (Some (s, a), d) | Err e => Fail e end
          end
      end
  end.

(** ** The settings as lines of a file *)
Definition S_ (key : String.string) (s : bytes) : line := Entry (str key) (VString s).
Definition I_ (key : String.string) (n : Z) : line := Entry (str key) (VInt n).
Definition section (name : String.string) (entries : list line) : list line := Header (str name) :: entries.
Definition log_lines (l : LogArgs) : list line :=
  section "log" [S_ "name" (log_name l); S_ "path" (log_path l); S_ "level" (log_level_name l); S_ "flushlevel" (flush_level_name l);
    Entry (str "stdout") (VBool (stdout_switch l)); I_ "thread" (thread_num l)].
Definition args_lines (a : arguments) : list line :=
  match a with
  | GateArgs thrnum tcpip tcpport rpcip rpcport clientip clientport serverid =>
      section "gateserver" [I_ "netthr" thrnum; S_ "serverid" serverid] ++
      section "tcpserver" [S_ "addr" tcpip; I_ "port" tcpport] ++
      section "rpcserver" [S_ "addr" rpcip; I_ "port" rpcport] ++
      section "rpcclient" [S_ "addr" clientip; I_ "port" clientport]
  | LogicArgs thrnum httpip httpport rpcip rpcport redisip redisport brokers topic serverid =>
      section "logicserver" [I_ "netthr" thrnum; I_ "serverid" serverid] ++
      section "httpserver" [S_ "addr" httpip; I_ "port" httpport] ++
      section "rpcserver" [S_ "addr" rpcip; I_ "port" rpcport] ++
      section "redis" [S_ "addr" redisip; I_ "port" redisport] ++
      section "kafka" [S_ "topic" topic; S_ "brokers" brokers]
  | JobArgs brokers topic clientip clientport =>
      section "kafka" [S_ "topic" topic; S_ "brokers" brokers; S_ "group" []] ++
      section "rpcclient" [S_ "addr" clientip; I_ "port" clientport]
  end.
Definition program_of (a : arguments) : program :=
  match a with GateArgs _ _ _ _ _ _ _ _ => GateServer | LogicArgs _ _ _ _ _ _ _ _ _ _ => LogicServer | JobArgs _ _ _ _ => JobServer end.
(** ** Settings, wherever they stand in a file

    A setting is an entry [key = v] under the header of its section. *)
Definition setting : Type := bytes * bytes * Toml.base.
Definition str_ (sec key : String.string) (s : bytes) : setting := (str sec, str key, VString s).
Definition int_ (sec key : String.string) (n : Z) : setting := (str sec, str key, VInt n).
Definition log_settings (l : LogArgs) : list setting :=
  [str_ "log" "name" (log_name l); str_ "log" "path" (log_path l); str_ "log" "level" (log_level_name l);
   str_ "log" "flushlevel" (flush_level_name l); (str "log", str "stdout", VBool (stdout_switch l)); int_ "log" "thread" (thread_num l)].
Definition args_settings (a : arguments) : list setting :=
  match a with
  | GateArgs thrnum tcpip tcpport rpcip rpcport clientip clientport serverid =>
      [int_ "gateserver" "netthr" thrnum; str_ "gateserver" "serverid" serverid; str_ "tcpserver" "addr" tcpip;
       int_ "tcpserver" "port" tcpport; str_ "rpcserver" "addr" rpcip; int_ "rpcserver" "port" rpcport;
       str_ "rpcclient" "addr" clientip; int_ "rpcclient" "port" clientport]
  | LogicArgs thrnum httpip httpport rpcip rpcport redisip redisport brokers topic serverid =>
      [int_ "logicserver" "netthr" thrnum; int_ "logicserver" "serverid" serverid; str_ "httpserver" "addr" httpip;
       int_ "httpserver" "port" httpport; str_ "rpcserver" "addr" rpcip; int_ "rpcserver" "port" rpcport;
       str_ "redis" "addr" redisip; int_ "redis" "port" redisport; str_ "kafka" "topic" topic; str_ "kafka" "brokers" brokers]
  | JobArgs brokers topic clientip clientport =>
      [str_ "kafka" "topic" topic; str_ "kafka" "brokers" brokers; str_ "rpcclient" "addr" clientip; int_ "rpcclient" "port" clientport]
  end.
(** The entries of the lines, each with the header it stands under. *)
Fixpoint entries (sec : option bytes) (lns : list line) : list (option bytes * bytes * Toml.base) :=
  match lns with
  | [] => []
  | Blank :: lns => entries sec lns
  | Header name :: lns => entries (Some name) lns
  | Entry key v :: lns => (sec, key, v) :: entries sec lns
  end.
Definition has_setting (lns : list line) (x : setting) : Prop := In (Some x.1.1, x.1.2, x.2) (entries None lns).
(** A number that an [int] holds, and that is not negative. *)
Definition int_setting (x : setting) : bool := match x.2 with VInt n => (0 <=? n) && (n <? 2 ^ 31) | _ => true end.

Lemma int_fits n : (0 <=? n) && (n <? 2 ^ 31) = true -> (n <? - 2 ^ 31) || (2 ^ 31 - 1 <? n) = false.
Proof. intros H. apply orb_false_iff. lia. Qed.

(** The section that is being filled is there. *)
Definition filling (sec : option bytes) (s : table * list bytes) : Prop :=
  match sec with
  | None => s.2 = []
  | Some name => s.2 = [name] /\ exists m, find name s.1 = Some (VTable m)
  end.
Definition found (x : setting) (root : table) : Prop :=
  exists m, find x.1.1 root = Some (VTable m) /\ find x.1.2 m = Some x.2.
Lemma contains_false key t : contains key t = false -> find key t = None.
Proof. unfold contains. by destruct (find key t). Qed.

(** A line keeps what was found, and an entry is found from then on. *)
Lemma apply_line_found ln sec s s' :
  filling sec s -> apply_line ln s = Some s' ->
  filling (match ln with Header name => Some name | _ => sec end) s' /\
  (forall x, found x s.1 -> found x s'.1) /\
  (forall key v name, ln = Entry key v -> sec = Some name -> found (name, key, v) s'.1).
Proof.
  destruct s as [root path]. intros Hf E. destruct ln as [|h|key v]; cbn [apply_line] in E.
  - injection E as <-. by split_and!.
  - destruct (contains h root) eqn:Ec; [done|]. injection E as <-. apply contains_false in Ec. split_and!; [|
      intros [[n k] v] (m & H1 & H2); exists m; cbn in *; split; [rewrite find_insert_ne by congruence; done|done]|done].
    split; [done|]. exists []. apply find_insert.
  - destruct sec as [name|]; cbn in Hf.
    + destruct Hf as [-> [m Hm]]. cbn [table_at update_at] in E. rewrite Hm in E. destruct (contains key m) eqn:Ec; [done|].
      injection E as <-. apply contains_false in Ec. split_and!.
      * split; [done|]. eexists. apply find_insert.
      * intros [[n k] w] (m' & H1 & H2). cbn in *. destruct (decide (n = name)) as [->|Hn].
        -- exists (insert key v m). split; [apply find_insert|]. rewrite Hm in H1. injection H1 as <-.
           cbn. rewrite find_insert_ne by congruence. done.
        -- exists m'. cbn. split; [by rewrite find_insert_ne by congruence|done].
      * intros ? ? ? [= <- <-] [= <-]. exists (insert key v m). cbn. split; apply find_insert.
    + subst path. cbn [table_at update_at] in E. destruct (contains key root) eqn:Ec; [done|]. injection E as <-.
      apply contains_false in Ec. split_and!; [done| |done].
      intros [[n k] w] (m & H1 & H2). exists m. cbn in *. split; [by rewrite find_insert_ne by congruence|done].
Qed.
Lemma apply_lines_found lns sec s s' x :
  filling sec s -> apply_lines lns s = Some s' ->
  found x s.1 \/ In (Some x.1.1, x.1.2, x.2) (entries sec lns) -> found x s'.1.
Proof.
  revert sec s. induction lns as [|ln lns IH]; intros sec s Hf E Hx; cbn [apply_lines] in E.
  { injection E as <-. by destruct Hx as [|[]]. }
  destruct (apply_line ln s) as [s1|] eqn:E1; [|done].
  destruct (apply_line_found ln sec s s1 Hf E1) as (Hf1 & Hk & Hn). apply (IH _ _ Hf1 E).
  destruct Hx as [Hx|Hx]; [by left; apply Hk|]. destruct ln as [|name|key v]; cbn [entries] in Hx; [by right..|].
  destruct Hx as [Hx|Hx]; [|by right]. left. destruct x as [[n k] w]. cbn in *. injection Hx as -> -> ->. by eapply Hn.
Qed.

(** What the accessors give for a setting that was found. *)
Lemma arg_string_found sec key v t :
  found (str_ sec key v) t -> arg_string (get_table (str sec) t) key = Ok v.
Proof.
  intros (m & H1 & H2). cbn [fst snd str_] in *. unfold arg_string, get_table, get_as_string. rewrite H1. cbn [deref Prelude.bind].
  by rewrite H2.
Qed.
Lemma arg_bool_found sec key v t :
  found (str sec, str key, VBool v) t -> arg_bool (get_table (str sec) t) key = Ok v.
Proof.
  intros (m & H1 & H2). cbn [fst snd] in *. unfold arg_bool, get_table, get_as_bool. rewrite H1. cbn [deref Prelude.bind].
  by rewrite H2.
Qed.
Lemma arg_int_found sec key n t :
  found (int_ sec key n) t -> (n <? - 2 ^ 31) || (2 ^ 31 - 1 <? n) = false -> arg_int (get_table (str sec) t) key = Ok n.
Proof.
  intros (m & H1 & H2) Hn. cbn [fst snd int_] in *. unfold arg_int, get_table, get_as_int. rewrite H1. cbn [deref Prelude.bind].
  by rewrite H2, Hn.
Qed.

(** C24: Each of the three main programs, given a configuration of the form of
    C23 in which no name is used twice and which holds its settings in their
    sections, in any order and among any other tables and entries, starts the
    log with the settings of the log and passes its server exactly the
    settings of the file, for numbers of 0 to 2^31 - 1. *)
Theorem servers_get_their_settings text lns l a offset now now' d :
  config_text text lns -> is_Some (apply_lines lns ([], [])) ->
  Forall (has_setting lns) (log_settings l ++ args_settings a) ->
  forallb int_setting (log_settings l ++ args_settings a) = true ->
  main (program_of a) (Some text) offset now now' d =
  Done (let '(log, d) := init_log l offset now now' d in (option_map (fun s => (s, a)) log, d)).
Proof.
  intros Hc [[t path] E] Hin Hi. pose proof (config_parses text lns Hc) as Hp. rewrite E in Hp.
  assert (forall x, In x (log_settings l ++ args_settings a) -> found x t) as Hfound.
  { intros x Hx. apply (apply_lines_found lns None ([], []) (t, path) x eq_refl E). right.
    rewrite List.Forall_forall in Hin. exact (Hin x Hx). }
  assert (forall sec key n, In (int_ sec key n) (log_settings l ++ args_settings a) ->
    (n <? - 2 ^ 31) || (2 ^ 31 - 1 <? n) = false) as Hn.
  { intros sec key n Hx. apply int_fits. rewrite forallb_forall in Hi. exact (Hi _ Hx). }
  assert (log_args t = Ok l /\ read_args (program_of a) t = Ok a) as [H1 H2].
  { clear Hp Hi Hin. split; [destruct l; unfold log_args|destruct a; cbn [read_args program_of]; unfold gate_args, logic_args, job_args];
      repeat first [erewrite arg_string_found by (apply Hfound; apply in_or_app; cbn [log_settings args_settings In]; tauto)
                   |erewrite arg_bool_found by (apply Hfound; apply in_or_app; cbn [log_settings args_settings In]; tauto)
                   |erewrite arg_int_found by first [apply Hfound; apply in_or_app; cbn [log_settings args_settings In]; tauto
                                                    |eapply Hn; apply in_or_app; cbn [log_settings args_settings In]; tauto]]; reflexivity. }
  unfold main, parse_file. rewrite Hp, H1. destruct (init_log l offset now now' d) as [[s|] d']; [|done].
  by rewrite H2.
Qed.
(** ** The files of src/bin/config *)
Definition localhost : bytes := str "127.0.0.1".
Definition shipped_log (name : bytes) : LogArgs :=
  mkLogArgs name (str "log/" ++ name ++ str ".log") (str "trace") (str "debug") true 1.
Definition gate_shipped : arguments := GateArgs 3 localhost 8080 localhost 8081 localhost 8083 (str "1").
Definition logic_shipped : arguments :=
  LogicArgs 3 localhost 8082 localhost 8083 localhost 6379 (str "localhost:9092") (str "cppim") 1.
Definition job_shipped : arguments := JobArgs (str "localhost:9092") (str "cppim") localhost 8081.
Definition gate_toml : bytes := print_config (log_lines (shipped_log (str "gateserver")) ++ args_lines gate_shipped).
(** This one ends in a line of blanks. *)
Definition logic_toml : bytes :=
  print_config (log_lines (shipped_log (str "logicserver")) ++ args_lines logic_shipped) ++ [Byte.x0a] ++ str "    ".
(** Here three lines are indented by three blanks, and one ends in a blank. *)
Definition quoted (s : bytes) : bytes := [Byte.x22] ++ s ++ [Byte.x22].
Definition job_toml : bytes :=
  print_config (log_lines (shipped_log (str "jobserver")) ++ [Header (str "kafka")]) ++ [Byte.x0a] ++
  str "   topic = " ++ quoted (str "cppim") ++ str " " ++ [Byte.x0a] ++
  str "   brokers = " ++ quoted (str "localhost:9092") ++ [Byte.x0a] ++
  str "   group = " ++ quoted [] ++ [Byte.x0a] ++
  print_config [Header (str "rpcclient"); S_ "addr" localhost; I_ "port" 8081].
Definition settings (p : program) (text : bytes) : outcome (res (LogArgs * arguments)) :=
  match parse text with
  | Done t => Done (let* l := log_args t in let* a := read_args p t in Ok (l, a))
  | Throw e n => Throw e n
  | Fail e => Fail e
  end.
(** The gate's client calls the RPC server of the logic server, the job server's
    that of the gate, and both ends of the queue name the same topic. *)
Example shipped_files :
  settings GateServer gate_toml = Done (Ok (shipped_log (str "gateserver"), gate_shipped)) /\
  settings LogicServer logic_toml = Done (Ok (shipped_log (str "logicserver"), logic_shipped)) /\
  settings JobServer job_toml = Done (Ok (shipped_log (str "jobserver"), job_shipped)).
Proof. split_and!; vm_compute; reflexivity. Qed.
(** A table that is missing is a null pointer that is followed; a number under
    quotes is one that was never written; a string that is missing is empty. *)
Example settings_left_out :
  settings JobServer (print_config (args_lines job_shipped)) = Done (Err UB) /\
  settings JobServer (print_config (log_lines (shipped_log []) ++
    section "kafka" [] ++ section "rpcclient" [S_ "addr" localhost; S_ "port" (str "8081")])) = Done (Err UB) /\
  settings JobServer (print_config (log_lines (shipped_log []) ++ section "kafka" [] ++ section "rpcclient" [I_ "port" 8081])) =
    Done (Ok (shipped_log [], JobArgs [] [] [] 8081)) /\
  settings JobServer (print_config (log_lines (shipped_log []) ++ section "kafka" [] ++ section "rpcclient" [I_ "port" 4294975377])) =
    Done (Err OutOfRange).
Proof. split_and!; vm_compute; reflexivity. Qed.

(** The settings of the gate in another order, with a section and a key that
    nobody reads. *)
Definition shuffled : list line :=
  I_ "version" 2 :: args_lines gate_shipped ++ [Blank] ++ section "extra" [I_ "port" 1] ++
  log_lines (shipped_log (str "gateserver")) ++ [S_ "comment" (str "log")].
Lemma servers_get_their_settings_witness :
  exists log d, main GateServer (Some (print_config shuffled)) zone8 (at_time 10 0) (at_time 10 1) disk0 = Done (Some (log, gate_shipped), d).
Proof.
  assert (is_Some (apply_lines shuffled ([], []))) as Hs by (eexists; vm_compute; reflexivity).
  assert (Forall (has_setting shuffled) (log_settings (shipped_log (str "gateserver")) ++ args_settings gate_shipped)) as Hin
    by (repeat (apply List.Forall_cons; [repeat first [left; reflexivity|right]|]); constructor).
  pose proof (servers_get_their_settings (print_config shuffled) shuffled (shipped_log (str "gateserver")) gate_shipped
    zone8 (at_time 10 0) (at_time 10 1) disk0 (print_config_text shuffled eq_refl) Hs Hin eq_refl) as H.
  assert (match (init_log (shipped_log (str "gateserver")) zone8 (at_time 10 0) (at_time 10 1) disk0).1 with Some _ => true | None => false end = true)
    as Hl by (vm_compute; reflexivity).
  destruct (init_log (shipped_log (str "gateserver")) zone8 (at_time 10 0) (at_time 10 1) disk0) as [[log|] d]; [|discriminate Hl].
  exists log, d. exact H.
Defined.
End Startup.
