(* ===== verification/Lifecycle.v ===== *)
(** * Starting and stopping: src/net/Loop.cc, [start] and [stop] of
      src/net/LoopMgr.cc, src/net/TcpServer.cc, src/net/Acceptor.cc,
      src/rpc/RpcServer.cc and src/http/HttpServer.cc, and [Start], [Stop] and
      the end of the three servers

    A [Loop] is an asio io_service and the thread that runs it.  asio itself is
    not part of the repository; of it the model has what it documents: [post]
    adds a handler, [run] calls the handlers one at a time, in any order, and
    does not return before [stop], since there is always work, and [stop] lets
    it return after the handler it is in.  The main thread is the list of what it has
    still to do, made from the functions that it calls. *)

From Stdlib Require Import ZArith Lia.
From stdpp Require Import base list gmap strings.
From S2P Require Import Prelude Net Toml TomlParser TomlConfig LogQueue Startup.
Local Open Scope Z_scope.
Local Open Scope cpp_scope.

Module Loop.

(** What is posted to a loop: [Acceptor::listen], [KafkaProducer::Poll], and the
    completions of operations on sockets with what they post themselves. *)
Inductive handler :=
  | Listen
  | Poll
  | Completion (n : nat).
#[export] Instance handler_eq_dec : EqDecision handler.
Proof. solve_decision. Defined.

(** The thread of a loop: in [run] it waits or is in a handler. *)
Inductive thread :=
  | NotStarted
  | Idle
  | Busy (h : handler)
  | Returned
  | Joined.
Definition joinable (t : thread) : bool := match t with NotStarted | Joined => false | _ => true end.

(** The handlers that wait, in no particular order, and the thread. *)
Record Loop := mkLoop { ios_ : list handler; stopped : bool; thread_ : thread }.
Definition Loop_new : Loop := mkLoop [] false NotStarted.
Definition runInLoop (cb : handler) (l : Loop) : Loop := mkLoop (ios_ l ++ [cb]) (stopped l) (thread_ l).
(** A thread that is still there is assigned to: [std::terminate]. *)
Definition start (l : Loop) : res Loop :=
  if joinable (thread_ l) then Err Terminate else Ok (mkLoop (ios_ l) (stopped l) Idle).
(** [stop] in two steps; [None] while [join] waits. *)
Definition ios_stop (l : Loop) : Loop := mkLoop (ios_ l) true (thread_ l).
Definition join (l : Loop) : option Loop :=
  if joinable (thread_ l) then
    match thread_ l with Returned => Some (mkLoop (ios_ l) (stopped l) Joined) | _ => None end
  else Some l.
(** The destructor of [thread_]. *)
Definition Loop_delete (l : Loop) : res Loop := if joinable (thread_ l) then Err Terminate else Ok l.

(** ** [run] *)
(** A handler returns, throws out of [run], or does not return.  [Poll] is
    [while (true)]. *)
Inductive effect := Returns | Throws | Diverges.
Section run.
Context (listens : effect) (completion : nat -> effect).
Definition effect_of (h : handler) : effect :=
  match h with Listen => listens | Poll => Diverges | Completion n => completion n end.
(** [run] calls one of the handlers that wait, here number [j]. *)
Definition take_handler (j : nat) (l : Loop) : option Loop :=
  match thread_ l, stopped l, ios_ l !! j with
  | Idle, false, Some h => Some (mkLoop (delete j (ios_ l)) false (Busy h))
  | _, _, _ => None
  end.
Definition finish_handler (l : Loop) : option (res Loop) :=
  match thread_ l with
  | Busy h =>
      match effect_of h with
      | Returns => Some (Ok (mkLoop (ios_ l) (stopped l) Idle))
      | Throws => Some (Err Terminate)
      | Diverges => None
      end
  | _ => None
  end.
Definition leave_run (l : Loop) : option Loop :=
  match thread_ l, stopped l with
  | Idle, true => Some (mkLoop (ios_ l) true Returned)
  | _, _ => None
  end.
End run.
End Loop.

Module Lifecycle.
Import Loop Startup.

(** ** What the main thread does *)
Inductive action :=
  | RunInLoop (i : nat) (cb : handler)
  | StartThread (i : nat)
  | StopIos (i : nat)
  | Join (i : nat)
  | CloseAcceptor
  | WaitForSignal
  | CloseConsumer
  | DeleteLoop (i : nat).

Definition Loop_start (i : nat) : list action := [StartThread i].
Definition Loop_stop (i : nat) : list action := [StopIos i; Join i].

(** The loops of a server have the numbers from [b] on. *)
Definition LoopMgr_start (b : nat) (m : LoopMgr.LoopMgr) : list action := flat_map (fun i => Loop_start (b + i)) (LoopMgr.loops_ m).
Definition LoopMgr_stop (b : nat) (m : LoopMgr.LoopMgr) : list action := flat_map (fun i => Loop_stop (b + i)) (LoopMgr.loops_ m).
Definition LoopMgr_delete (b : nat) (m : LoopMgr.LoopMgr) : list action := map (fun i => DeleteLoop (b + i)) (LoopMgr.loops_ m).
Definition Acceptor_start (loop : nat) : list action := [RunInLoop loop Listen].
Definition Acceptor_close : list action := [CloseAcceptor].

(** A server that listens: its loop manager and the loop of its acceptor. *)
Record server := mkServer { base_ : nat; acceptor_ : nat; loopmgr_ : LoopMgr.LoopMgr }.
Definition server_new (b : nat) (thrnum : Z) : res server :=
  let* (loop, t) := TcpServer.TcpServer_new (S := unit) (Z.to_nat (u64 thrnum)) in
  Ok (mkServer b loop (TcpServer.loopmgr_ t)).
Definition TcpServer_start (t : server) : list action := Acceptor_start (base_ t + acceptor_ t) ++ LoopMgr_start (base_ t) (loopmgr_ t).
Definition TcpServer_stop (t : server) : list action := Acceptor_close ++ LoopMgr_stop (base_ t) (loopmgr_ t).
Definition TcpServer_delete (t : server) : list action := LoopMgr_delete (base_ t) (loopmgr_ t).
Definition RpcServer_start := TcpServer_start.
Definition RpcServer_stop := TcpServer_stop.
Definition HttpServer_start := TcpServer_start.
Definition HttpServer_stop := TcpServer_stop.

(** *** The three servers, with the number of their own loop *)
Definition Gate_Start (tcpserver_ rpcserver_ : server) (loop_ : nat) : list action :=
  TcpServer_start tcpserver_ ++ RpcServer_start rpcserver_ ++ Loop_start loop_.
Definition Gate_Stop (tcpserver_ rpcserver_ : server) (loop_ : nat) : list action :=
  TcpServer_stop tcpserver_ ++ RpcServer_stop rpcserver_ ++ Loop_stop loop_.
Definition Gate_delete (tcpserver_ rpcserver_ : server) (loop_ : nat) : list action :=
  [DeleteLoop loop_] ++ TcpServer_delete rpcserver_ ++ TcpServer_delete tcpserver_.
Definition Logic_new (loop_ : nat) : list action := [RunInLoop loop_ Poll].
Definition Logic_Start (httpserver_ rpcserver_ : server) (loop_ : nat) : list action :=
  HttpServer_start httpserver_ ++ RpcServer_start rpcserver_ ++ Loop_start loop_.
Definition Logic_Stop (httpserver_ rpcserver_ : server) : list action := HttpServer_stop httpserver_ ++ RpcServer_stop rpcserver_.
Definition Logic_delete (httpserver_ rpcserver_ : server) (loop_ : nat) : list action :=
  [DeleteLoop loop_] ++ TcpServer_delete rpcserver_ ++ TcpServer_delete httpserver_.
Definition Job_Start (loop_ : nat) : list action := Loop_start loop_.
Definition Job_Stop (loop_ : nat) : list action := [CloseConsumer] ++ Loop_stop loop_.
Definition Job_delete (loop_ : nat) : list action := [CloseConsumer] ++ [DeleteLoop loop_].

(** [main] from the constructor of the server on, and the number of loops. *)
Definition server_main (a : arguments) : res (nat * list action) :=
  match a with
  | GateArgs thrnum _ _ _ _ _ _ _ =>
      let n := Z.to_nat (u64 thrnum) in
      let* tcp := server_new 0 thrnum in
      let* rpc := server_new n thrnum in
      let loop := (n + n)%nat in
      Ok ((loop + 1)%nat, Gate_Start tcp rpc loop ++ [WaitForSignal] ++ Gate_Stop tcp rpc loop ++ Gate_delete tcp rpc loop)
  | LogicArgs thrnum _ _ _ _ _ _ _ _ _ =>
      let n := Z.to_nat (u64 thrnum) in
      let* http := server_new 0 thrnum in
      let* rpc := server_new n thrnum in
      let loop := (n + n)%nat in
      Ok ((loop + 1)%nat, Logic_new loop ++ Logic_Start http rpc loop ++ [WaitForSignal] ++ Logic_Stop http rpc ++ Logic_delete http rpc loop)
  | JobArgs _ _ _ _ => Ok (1%nat, Job_Start 0 ++ [WaitForSignal] ++ Job_Stop 0 ++ Job_delete 0)
  end.

(** ** The process: the main thread and the threads of the loops *)
Record state := mkState { loops : list Loop; todo : list action }.
Definition start_state (n : nat) (p : list action) : state := mkState (replicate n Loop_new) p.

Definition on_loop (i : nat) (f : Loop -> option (res Loop)) (ls : list Loop) : option (res (list Loop)) :=
  match ls !! i with
  | Some l =>
      match f l with
      | Some (Ok l') => Some (Ok (<[i := l']> ls))
      | Some (Err e) => Some (Err e)
      | None => None
      end
  | None => None
  end.
Definition act (a : action) (ls : list Loop) : option (res (list Loop)) :=
  match a with
  | RunInLoop i cb => on_loop i (fun l => Some (Ok (runInLoop cb l))) ls
  | StartThread i => on_loop i (fun l => Some (start l)) ls
  | StopIos i => on_loop i (fun l => Some (Ok (ios_stop l))) ls
  | Join i => on_loop i (fun l => Ok <$> join l) ls
  | DeleteLoop i => on_loop i (fun l => Some (Loop_delete l)) ls
  | CloseAcceptor | WaitForSignal | CloseConsumer => Some (Ok ls)
  end.

(** [Ready]: an operation on a socket of loop [i] completes, or a handler of
    another thread posts to it. *)
Inductive event :=
  | Main
  | Take (i j : nat)
  | Finish (i : nat)
  | Leave (i : nat)
  | Ready (i : nat) (n : nat).
#[export] Instance event_eq_dec : EqDecision event.
Proof. solve_decision. Defined.

Section process.
Context (listens : effect) (completion : nat -> effect).
Definition exec (e : event) (s : state) : option (res state) :=
  let with_loops := fmap (fun r : res (list Loop) => let* ls := r in Ok (mkState ls (todo s))) in
  match e with
  | Main =>
      match todo s with
      | [] => None
      | a :: rest => (fun r : res (list Loop) => let* ls := r in Ok (mkState ls rest)) <$> act a (loops s)
      end
  | Take i j => with_loops (on_loop i (fun l => Ok <$> take_handler j l) (loops s))
  | Finish i => with_loops (on_loop i (finish_handler listens completion) (loops s))
  | Leave i => with_loops (on_loop i (fun l => Ok <$> leave_run l) (loops s))
  | Ready i n => with_loops (on_loop i (fun l => Some (Ok (runInLoop (Completion n) l))) (loops s))
  end.

Inductive run (s0 : state) : state -> Prop :=
  | run_nil : run s0 s0
  | run_step s e s' : run s0 s -> exec e s = Some (Ok s') -> run s0 s'.

(** How far the main thread is from its end: what it has still to do, and what
    the threads that it has told to stop have. *)
Definition weight (l : Loop) : nat :=
  if stopped l then match thread_ l with Busy _ => 2 | Idle => 1 | _ => 0 end else 0.
Definition measure (s : state) : nat := (3 * length (todo s) + sum_list_with weight (loops s))%nat.

(** ** Lemmas on the events *)
Lemma on_loop_inv i f ls r : on_loop i f ls = Some r ->
  exists l x, ls !! i = Some l /\ f l = Some x /\ r = (let* l' := x in Ok (<[i := l']> ls)).
Proof.
  unfold on_loop. destruct (ls !! i) as [l|] eqn:El; [|done]. destruct (f l) as [x|] eqn:Ef; [|done].
  exists l, x. split_and!; [done..|]. destruct x; by simplify_eq.
Qed.
Lemma on_loop_Ok i f ls l l' : ls !! i = Some l -> f l = Some (Ok l') -> on_loop i f ls = Some (Ok (<[i := l']> ls)).
Proof. unfold on_loop. by intros -> ->. Qed.
Lemma sum_insert (ls : list Loop) i l l' : ls !! i = Some l ->
  (sum_list_with weight (<[i := l']> ls) + weight l = sum_list_with weight ls + weight l')%nat.
Proof.
  revert i. induction ls as [|x ls IH]; intros [|i] E; simpl in *; try done; [simplify_eq; lia|]. specialize (IH _ E). lia.
Qed.

Lemma measure_insert ls td i l l' : ls !! i = Some l -> (weight l' <= weight l)%nat ->
  (measure (mkState (<[i := l']> ls) td) <= measure (mkState ls td))%nat.
Proof. intros El Hw. unfold measure. cbn. pose proof (sum_insert ls i l l' El). lia. Qed.

(** Which threads are joinable and which loops stopped: only the main thread
    changes that. *)
Definition status (l : Loop) : bool * bool := (joinable (thread_ l), stopped l).
Definition wf_loop (l : Loop) : Prop := thread_ l = Returned -> stopped l = true.
Definition wf_state (s : state) : Prop := Forall wf_loop (loops s).
(** What the main thread does to these; [None] where it would fail, or wait for
    a thread that nobody has told to stop. *)
Definition walk_action (a : action) (st : list (bool * bool)) : option (list (bool * bool)) :=
  match a with
  | RunInLoop i _ => _ ← st !! i; Some st
  | StartThread i => '(j, p) ← st !! i; if j : bool then None else Some (<[i := (true, p)]> st)
  | StopIos i => '(j, p) ← st !! i; Some (<[i := (j, true)]> st)
  | Join i =>
      '(j, p) ← st !! i;
      if j : bool then if p : bool then Some (<[i := (false, true)]> st) else None else Some st
  | DeleteLoop i => '(j, p) ← st !! i; if j : bool then None else Some st
  | CloseAcceptor | WaitForSignal | CloseConsumer => Some st
  end.
Fixpoint walk (p : list action) (st : list (bool * bool)) : option (list (bool * bool)) :=
  match p with [] => Some st | a :: p => walk_action a st ≫= walk p end.
Lemma walk_app p q st : walk (p ++ q) st = walk p st ≫= walk q.
Proof. revert st. induction p as [|a p IH]; intros st; [done|]. cbn. destruct (walk_action a st); [apply IH|done]. Qed.

Lemma status_insert (ls : list Loop) i l l' : ls !! i = Some l -> status l' = status l -> status <$> <[i := l']> ls = status <$> ls.
Proof.
  intros El E. rewrite list_fmap_insert, E. apply list_insert_id. by rewrite list_lookup_fmap, El.
Qed.
Lemma status_lookup (ls : list Loop) i l : ls !! i = Some l -> (status <$> ls) !! i = Some (joinable (thread_ l), stopped l).
Proof. intros E. by rewrite list_lookup_fmap, E. Qed.
Lemma wf_insert (ls : list Loop) i l' : Forall wf_loop ls -> wf_loop l' -> Forall wf_loop (<[i := l']> ls).
Proof. intros. by apply Forall_insert. Qed.

(** An event of the thread of a loop that was possible. *)
Ltac loop_event E i l l' :=
  let x := fresh "x" in let y := fresh "y" in let Hx := fresh "Hx" in
  apply fmap_Some in E as (x & E & Hx); apply on_loop_inv in E as (l & y & El & Ey & ->);
  right; exists i, l; (destruct y as [l'|]; [|done]); injection Hx as ->; exists l'.
(** *** What an event changes: at most one loop, in one of these ways *)
Inductive changed : list handler -> Loop -> Loop -> Prop :=
  | by_post h l : changed [h] l (runInLoop h l)
  | by_start l : joinable (thread_ l) = false -> changed [] l (mkLoop (ios_ l) (stopped l) Idle)
  | by_stop l : changed [] l (ios_stop l)
  | by_join l : thread_ l = Returned -> changed [] l (mkLoop (ios_ l) (stopped l) Joined)
  | by_take j h l : ios_ l !! j = Some h -> thread_ l = Idle -> stopped l = false ->
      changed [] l (mkLoop (delete j (ios_ l)) false (Busy h))
  | by_finish h l : thread_ l = Busy h -> changed [] l (mkLoop (ios_ l) (stopped l) Idle)
  | by_leave l : thread_ l = Idle -> stopped l = true -> changed [] l (mkLoop (ios_ l) true Returned)
  | by_nothing l : changed [] l l.
(** What an event posts, and to which loop. *)
Definition posts (e : event) (s : state) : list handler :=
  match e, todo s with
  | Main, RunInLoop _ cb :: _ => [cb]
  | Ready _ n, _ => [Completion n]
  | _, _ => []
  end.
Definition target (e : event) (s : state) : option nat :=
  match e, todo s with
  | Main, RunInLoop i _ :: _ => Some i
  | Ready i _, _ => Some i
  | _, _ => None
  end.
Definition changes_loop (e : event) (s s' : state) : Prop :=
  exists i l l', loops s !! i = Some l /\ loops s' = <[i := l']> (loops s) /\ changed (posts e s) l l' /\
    (posts e s <> [] -> target e s = Some i).
Lemma exec_changes e s s' : exec e s = Some (Ok s') -> loops s' = loops s \/ changes_loop e s s'.
Proof.
  destruct s as [ls td]. destruct e as [|i j|i|i|i n]; cbn [exec loops todo]; intros E.
  - destruct td as [|a td]; [done|]. apply fmap_Some in E as (r & Ea & E). destruct r as [ls'|]; [|done]. injection E as ->.
    destruct a as [i cb|i|i|i| | | |i]; cbn [act] in Ea; [| | | |left; by injection Ea as ->..|];
      apply on_loop_inv in Ea as (l & x & El & Ex & Er); right; exists i, l; (destruct x as [l'|]; [|done]); injection Er as ->; exists l';
      split_and!; try done; cbn [posts todo].
    + injection Ex as <-. constructor.
    + injection Ex as Ex. unfold start in Ex. destruct (joinable (thread_ l)) eqn:Ej; [done|]. injection Ex as <-. by constructor.
    + injection Ex as <-. constructor.
    + apply fmap_Some in Ex as (l1 & Ej & [= <-]). unfold join in Ej.
      destruct (joinable (thread_ l)) eqn:Ejo; [|injection Ej as <-; by constructor]. destruct (thread_ l) eqn:Et; try done. injection Ej as <-. by constructor.
    + injection Ex as Ex. unfold Loop_delete in Ex. destruct (joinable (thread_ l)) eqn:Ej; [done|]. injection Ex as <-. by constructor.
  - loop_event E i l l'. apply fmap_Some in Ey as (l1 & Et & [= <-]). split_and!; try done. cbn [posts].
    unfold take_handler in Et. destruct (thread_ l) eqn:Eth, (stopped l) eqn:Est, (ios_ l !! j) as [hd|] eqn:Eio; try done. injection Et as <-. by constructor.
  - loop_event E i l l'. split_and!; try done. unfold finish_handler in Ey. destruct (thread_ l) as [| |h| |] eqn:Eth; try done.
    destruct (effect_of listens completion h); try done. injection Ey as <-. by econstructor.
  - loop_event E i l l'. split_and!; try done. apply fmap_Some in Ey as (l1 & Et & [= <-]). unfold leave_run in Et.
    destruct (thread_ l) eqn:Eth, (stopped l) eqn:Est; try done. injection Et as <-. by constructor.
  - loop_event E i l l'. split_and!; try done. injection Ey as <-. constructor.
Qed.
Lemma exec_todo e s s' : exec e s = Some (Ok s') -> todo s' = match e with Main => tail (todo s) | _ => todo s end.
Proof.
  destruct s as [ls td]. destruct e as [|i j|i|i|i n]; cbn [exec loops todo]; intros E.
  - destruct td as [|a td]; [done|]. apply fmap_Some in E as (r & Ea & E). destruct r; [|done]. by injection E as ->.
  - apply fmap_Some in E as ([x|] & _ & [= ->]). done.
  - apply fmap_Some in E as ([x|] & _ & [= ->]). done.
  - apply fmap_Some in E as ([x|] & _ & [= ->]). done.
  - apply fmap_Some in E as ([x|] & _ & [= ->]). done.
Qed.

(** *** The steps of the threads *)
Definition thread_event (e : event) : Prop := e <> Main.
Lemma thread_step e s r : thread_event e -> wf_state s -> exec e s = Some r ->
  (exists h, effect_of listens completion h = Throws) \/
  exists s', r = Ok s' /\ todo s' = todo s /\ status <$> loops s' = status <$> loops s /\ wf_state s' /\
    (measure s' <= measure s)%nat.
Proof.
  intros He Hw E. destruct s as [ls td], e as [|i j|i|i|i n]; [done| | | |]; cbn [exec loops todo] in E;
    apply fmap_Some in E as (x & E & ->); apply on_loop_inv in E as (l & y & El & Ey & ->);
    pose proof (Forall_lookup_1 _ _ _ _ Hw El) as Hl.
  - apply fmap_Some in Ey as (l' & Et & ->). right. eexists. split; [done|]. unfold take_handler in Et.
    destruct (thread_ l) eqn:Eth, (stopped l) eqn:Est, (ios_ l !! j) as [hd|]; try done. injection Et as <-. cbn.
    split_and!; [done|eapply status_insert; [done|unfold status; cbn; by rewrite Eth, Est]|by apply wf_insert|].
    eapply measure_insert; [done|]. unfold weight; cbn; rewrite ?Eth, ?Est; by destruct (stopped l); lia.
  - unfold finish_handler in Ey. destruct (thread_ l) eqn:Eth; try done. destruct (effect_of listens completion h) eqn:Eh; [|left; by eexists|done].
    injection Ey as <-. right. eexists. split; [done|]. cbn.
    split_and!; [done|eapply status_insert; [done|unfold status; cbn; by rewrite Eth]|by apply wf_insert|].
    eapply measure_insert; [done|]. unfold weight; cbn; rewrite ?Eth, ?Est; by destruct (stopped l); lia.
  - apply fmap_Some in Ey as (l' & Et & ->). unfold leave_run in Et. destruct (thread_ l) eqn:Eth, (stopped l) eqn:Est; try done. injection Et as <-.
    right. eexists. split; [done|]. cbn.
    split_and!; [done|eapply status_insert; [done|unfold status; cbn; by rewrite Eth, Est]|by apply wf_insert|].
    eapply measure_insert; [done|]. unfold weight; cbn; rewrite ?Eth, ?Est; by destruct (stopped l); lia.
  - injection Ey as <-. right. eexists. split; [done|]. cbn. split_and!; [done|by eapply status_insert|by apply wf_insert|].
    eapply measure_insert; [done|]. unfold weight; cbn; rewrite ?Eth, ?Est; by destruct (stopped l); lia.
Qed.

(** *** The steps of the main thread *)
Lemma main_step s s' : wf_state s -> exec Main s = Some (Ok s') ->
  wf_state s' /\ (measure s' < measure s)%nat /\
  exists a, todo s = a :: todo s' /\ walk_action a (status <$> loops s) = Some (status <$> loops s').
Proof.
  destruct s as [ls [|a td]]; intros Hw E; [done|]. cbn [exec todo loops] in E. apply fmap_Some in E as (r & Ea & E).
  destruct r as [ls'|]; [|done]. injection E as ->. cbn [todo loops].
  assert (forall i l l', ls !! i = Some l -> (weight l' <= weight l + 2)%nat ->
    (measure (mkState (<[i := l']> ls) td) < measure (mkState ls (a :: td)))%nat) as Hm.
  { intros i l l' El Hl. unfold measure. cbn. pose proof (sum_insert ls i l l' El). lia. }
  destruct a as [i cb|i|i|i| | | |i]; cbn [act] in Ea;
    try (apply on_loop_inv in Ea as (l & x & El & Ex & Er); pose proof (Forall_lookup_1 _ _ _ _ Hw El) as Hl;
         pose proof (status_lookup ls i l El) as Hst).
  - injection Ex as <-. injection Er as ->. split_and!; [by apply wf_insert|eapply Hm; [done|cbn; unfold weight; cbn; lia]|].
    eexists. split; [done|]. cbn. rewrite Hst. cbn. f_equal. symmetry. by eapply status_insert.
  - injection Ex as <-. unfold start in Er. destruct (joinable (thread_ l)) eqn:Ej; [done|]. injection Er as ->.
    split_and!; [by apply wf_insert|eapply Hm; [done|unfold weight; cbn; destruct (stopped l); lia]|].
    eexists. split; [done|]. cbn. rewrite Hst. cbn. by rewrite list_fmap_insert.
  - injection Ex as <-. injection Er as ->. split_and!; [by apply wf_insert|eapply Hm; [done|unfold weight; cbn; destruct (thread_ l); lia]|].
    eexists. split; [done|]. cbn. rewrite Hst. cbn. by rewrite list_fmap_insert.
  - apply fmap_Some in Ex as (l' & Ej & ->). injection Er as ->. unfold join in Ej. cbn [walk_action]. destruct (joinable (thread_ l)) eqn:Ejo.
    + destruct (thread_ l) eqn:Eth; try done. injection Ej as <-. assert (stopped l = true) as Hs by (by apply Hl).
      split_and!; [by apply wf_insert|eapply Hm; [done|unfold weight; cbn; destruct (stopped l); lia]|].
      eexists. split; [done|]. cbn. rewrite Hst. cbn. rewrite Hs. by rewrite list_fmap_insert.
    + injection Ej as <-. split_and!; [by apply wf_insert|eapply Hm; [done|lia]|]. eexists. split; [done|]. cbn. rewrite Hst. cbn.
      f_equal. symmetry. by eapply status_insert.
  - injection Ea as ->. split_and!; [done|unfold measure; cbn; lia|]. by eexists.
  - injection Ea as ->. split_and!; [done|unfold measure; cbn; lia|]. by eexists.
  - injection Ea as ->. split_and!; [done|unfold measure; cbn; lia|]. by eexists.
  - injection Ex as <-. unfold Loop_delete in Er. destruct (joinable (thread_ l)) eqn:Ejo; [done|]. injection Er as ->.
    split_and!; [by apply wf_insert|eapply Hm; [done|lia]|]. eexists. split; [done|]. cbn. rewrite Hst. cbn.
    f_equal. symmetry. by eapply status_insert.
Qed.

Lemma main_waits s a td st' : wf_state s -> todo s = a :: td -> walk_action a (status <$> loops s) = Some st' ->
  (exists s', exec Main s = Some (Ok s')) \/
  exec Main s = None /\ exists i l, a = Join i /\ loops s !! i = Some l /\ stopped l = true /\ (thread_ l = Idle \/ exists h, thread_ l = Busy h).
Proof.
  destruct s as [ls td']; cbn [todo loops]; intros Hw -> E. cbn [exec todo loops].
  destruct a as [i cb|i|i|i| | | |i]; cbn [walk_action act] in *; [| | | |by left; eexists..|];
    apply bind_Some in E as ([j p] & Ei & E); apply list_lookup_fmap_Some in Ei as (l & [= -> ->] & El).
  - left. eexists. by rewrite (on_loop_Ok i _ ls l _ El eq_refl).
  - left. destruct (joinable (thread_ l)) eqn:Ej; [done|]. eexists. erewrite (on_loop_Ok i _ ls l _ El) by (unfold start; by rewrite Ej). done.
  - left. eexists. by rewrite (on_loop_Ok i _ ls l _ El eq_refl).
  - unfold on_loop. rewrite El. unfold join. destruct (joinable (thread_ l)) eqn:Ej; [|left; by eexists].
    destruct (stopped l) eqn:Es; [|done]. destruct (thread_ l) as [| |h| |] eqn:Et; try done.
    + right. split; [done|]. exists i, l. split_and!; [done..|by left].
    + right. split; [done|]. exists i, l. split_and!; [done..|right; by eexists].
    + left. by eexists.
  - left. destruct (joinable (thread_ l)) eqn:Ej; [done|]. eexists. erewrite (on_loop_Ok i _ ls l _ El) by (unfold Loop_delete; by rewrite Ej). done.
Qed.

(** Only loop [k] is given [Poll]. *)
Definition polls_only (k : nat) (s : state) : Prop :=
  (forall i l, loops s !! i = Some l -> i <> k -> (Poll ∉ ios_ l) /\ thread_ l <> Busy Poll) /\
  (forall i, RunInLoop i Poll ∈ todo s -> i = k).
Definition all_return : Prop := listens = Returns /\ (forall n, completion n = Returns).
Lemma return_effect h : all_return -> h <> Poll -> effect_of listens completion h = Returns.
Proof. intros [H1 H2] Hh. destruct h; cbn; rewrite ?H2; done. Qed.
Lemma never_throws h : all_return -> effect_of listens completion h <> Throws.
Proof. intros [H1 H2]. destruct h; cbn; rewrite ?H1, ?H2; done. Qed.

Lemma awaited_progress s k a td st' : all_return -> wf_state s -> polls_only k s -> todo s = a :: td ->
  walk_action a (status <$> loops s) = Some st' -> (forall i, a = Join i -> i <> k) ->
  exists e s', exec e s = Some (Ok s') /\ (measure s' < measure s)%nat.
Proof.
  intros Hr Hw [Hp _] Et Ea Hk. destruct (main_waits s a td st' Hw Et Ea) as [[s' E]|(_ & i & l & Ei & El & Es & Hl)].
  { exists Main, s'. split; [done|]. by apply main_step in E as (_ & ? & _). }
  destruct (Hp i l El (Hk i Ei)) as [_ Hb]. destruct s as [ls td']. cbn [loops todo] in *. destruct Hl as [Hl|[h Hl]].
  - exists (Leave i). eexists. cbn [exec loops todo]. erewrite (on_loop_Ok i _ ls l _ El) by (unfold leave_run; by rewrite Hl, Es).
    split; [done|]. unfold measure. cbn. pose proof (sum_insert ls i l (mkLoop (ios_ l) true Returned) El) as H.
    assert (weight l = 1%nat) as Hwl by (unfold weight; by rewrite Es, Hl). rewrite Hwl in H. cbn in H. lia.
  - assert (effect_of listens completion h = Returns) as Hh by (apply return_effect; [done|congruence]).
    exists (Finish i). eexists. cbn [exec loops todo]. erewrite (on_loop_Ok i _ ls l _ El) by (unfold finish_handler; by rewrite Hl, Hh).
    split; [done|]. unfold measure. cbn. pose proof (sum_insert ls i l (mkLoop (ios_ l) (stopped l) Idle) El) as H.
    assert (weight l = 2%nat) as Hwl by (unfold weight; by rewrite Es, Hl). rewrite Hwl, Es in H. cbn in H. rewrite Es. lia.
Qed.

(** *** Every run *)
Lemma polls_insert k ls td i l' : polls_only k (mkState ls td) -> (i <> k -> (Poll ∉ ios_ l') /\ thread_ l' <> Busy Poll) ->
  polls_only k (mkState (<[i := l']> ls) td).
Proof.
  intros [H1 H2] Hl. split; [|exact H2]. cbn. intros j l El Hj. destruct (decide (j = i)) as [->|Hne].
  - apply list_lookup_insert_Some in El as [(_ & <- & _)|[? _]]; [by apply Hl|done].
  - rewrite list_lookup_insert_ne in El by done. by eapply H1.
Qed.
Lemma polls_step k e s s' : polls_only k s -> exec e s = Some (Ok s') -> polls_only k s'.
Proof.
  intros H E. pose proof (exec_todo e s s' E) as Et.
  assert (polls_only k (mkState (loops s) (todo s'))) as H'.
  { destruct H as [H1 H2]. split; [exact H1|]. cbn. intros i Hi. apply H2. rewrite Et in Hi. destruct e; try done. destruct (todo s); [done|by right]. }
  destruct s' as [ls' td']. cbn [todo loops] in *. destruct (exec_changes e s _ E) as [Els|(i & l & l' & El & Els & Hc & Hg)];
    cbn [loops] in Els; subst ls'; [done|]. apply polls_insert; [done|]. intros Hi. destruct (proj1 H i l El Hi) as [H1 H2].
  inversion Hc as [hp l0 Eh|?|?|?|j ht l0 Ej|? ?|?|?]; subst; cbn; try (split; done); try done.
  - split; [|done]. rewrite not_elem_of_app, list_elem_of_singleton. split; [done|]. intros <-. destruct e; cbn in Eh, Hg; try done.
    destruct (todo s) as [|[] td] eqn:Etd; try done. injection Eh as <-. injection (Hg ltac:(discriminate)) as ->. apply Hi.
    apply (proj2 H). rewrite Etd. by left.
  - split.
    + intros Hin. apply H1. rewrite (delete_Permutation _ _ _ Ej). by right.
    + intros [= ->]. apply H1. by eapply list_elem_of_lookup_2.
Qed.
Lemma lifecycle_inv k n p s : all_return -> (forall i, RunInLoop i Poll ∈ p -> i = k) -> run (start_state n p) s ->
  wf_state s /\ polls_only k s /\ exists done, p = done ++ todo s /\ walk done (replicate n (false, false)) = Some (status <$> loops s).
Proof.
  intros Hret Hk Hr. induction Hr as [|s e s' _ (Hw & Hp & pre & Ep & Ew) E].
  - split_and!.
    + apply Forall_replicate. by intros [=].
    + split; [|exact Hk]. intros i l El _. apply lookup_replicate in El as [-> _]. split; [apply not_elem_of_nil|done].
    + exists []. split; [done|]. cbn. by rewrite fmap_replicate.
  - pose proof (polls_step k e s s' Hp E) as Hp'. destruct (decide (e = Main)) as [->|He].
    + apply main_step in E as (Hw' & _ & a & Et & Ea); [|done]. split_and!; [done..|]. exists (pre ++ [a]).
      rewrite <- app_assoc, walk_app, Ew. cbn. rewrite Ea. split; [by rewrite Ep, Et|done].
    + destruct (thread_step e s _ He Hw E) as [[h Hh]|(s'' & [= <-] & Et & Es & Hw' & _)]; [by apply never_throws in Hh|].
      split_and!; [done..|]. exists pre. by rewrite Et, Es.
Qed.
End process.

(** ** What the programs do *)
Lemma walk_each (f : nat -> list action) (x y : bool * bool) b :
  (forall pre post, walk (f (length pre)) (pre ++ x :: post) = Some (pre ++ y :: post)) ->
  forall n k pre post, length pre = (b + k)%nat ->
  walk (flat_map (fun i => f (b + i)%nat) (seq k n)) (pre ++ replicate n x ++ post) = Some (pre ++ replicate n y ++ post).
Proof.
  intros Hf n. induction n as [|n IH]; intros k pre post Hb; [done|]. cbn [seq flat_map]. rewrite walk_app, <- Hb. cbn [replicate app].
  rewrite Hf. cbn [mbind option_bind]. change (pre ++ y :: replicate n x ++ post) with (pre ++ [y] ++ replicate n x ++ post).
  rewrite (app_assoc pre). rewrite IH by (rewrite length_app; cbn; lia). by rewrite <- app_assoc.
Qed.
Lemma map_flat_map {A} (f : nat -> A) l : map f l = flat_map (fun i => [f i]) l.
Proof. induction l as [|x l IH]; cbn; by f_equal. Qed.

Lemma list_insert_middle {A} (l r : list A) x y : <[length l := y]> (l ++ x :: r) = l ++ y :: r.
Proof. by induction l as [|z l IH]; cbn; [|f_equal/=]. Qed.

(** A server whose [n] loops have the states [x], between other loops. *)
Definition server_ok (n : nat) (t : server) : Prop := LoopMgr.loops_ (loopmgr_ t) = seq 0 n /\ (acceptor_ t < n)%nat.
Lemma server_new_ok b thrnum : 0 < thrnum < 2 ^ 31 ->
  exists t, server_new b thrnum = Ok t /\ base_ t = b /\ server_ok (Z.to_nat thrnum) t.
Proof.
  intros Ht. assert (u64 thrnum = thrnum) as Hu by (apply uwrap_small; lia). unfold server_new, TcpServer.TcpServer_new. rewrite Hu.
  assert (LoopMgr.wf (Z.to_nat thrnum) (LoopMgr.LoopMgr_new (Z.to_nat thrnum))) as Hw by (apply LoopMgr.wf_new; lia).
  destruct (LoopMgr.findNextLoop_turn _ _ Hw) as [E Hw']. rewrite E. mstep. eexists. split; [done|]. split; [done|]. split; [done|].
  cbn [acceptor_]. cbn [LoopMgr.next_ LoopMgr.LoopMgr_new]. pose proof (Z.mod_pos_bound (0 + 1) (Z.of_nat (Z.to_nat thrnum)) ltac:(lia)). lia.
Qed.
Section server.
Context (n : nat) (t : server) (Ht : server_ok n t) (pre post : list (bool * bool)) (Hb : length pre = base_ t).
Lemma walk_server_start p :
  walk (TcpServer_start t) (pre ++ replicate n (false, p) ++ post) = Some (pre ++ replicate n (true, p) ++ post).
Proof.
  unfold TcpServer_start. cbn [app Acceptor_start walk walk_action]. destruct Ht as [Hl Ha]. rewrite lookup_app_r by lia.
  rewrite lookup_app_l by (rewrite length_replicate; lia). rewrite lookup_replicate_2 by lia. cbn [mbind option_bind].
  unfold LoopMgr_start. rewrite Hl. apply (walk_each Loop_start); [|by rewrite Nat.add_0_r]. intros l r. cbn.
  rewrite list_lookup_middle by done. cbn. by rewrite list_insert_middle.
Qed.
Lemma walk_server_stop p :
  walk (TcpServer_stop t) (pre ++ replicate n (true, p) ++ post) = Some (pre ++ replicate n (false, true) ++ post).
Proof.
  unfold TcpServer_stop. cbn [app Acceptor_close walk walk_action mbind option_bind]. destruct Ht as [Hl _].
  unfold LoopMgr_stop. rewrite Hl. apply (walk_each Loop_stop); [|by rewrite Nat.add_0_r]. intros l r. cbn.
  rewrite list_lookup_middle by done. cbn. rewrite list_insert_middle, list_lookup_middle by done. cbn. by rewrite list_insert_middle.
Qed.
Lemma walk_server_delete p :
  walk (TcpServer_delete t) (pre ++ replicate n (false, p) ++ post) = Some (pre ++ replicate n (false, p) ++ post).
Proof.
  unfold TcpServer_delete, LoopMgr_delete. destruct Ht as [Hl _]. rewrite Hl, map_flat_map.
  apply (walk_each (fun i => [DeleteLoop i])); [|by rewrite Nat.add_0_r]. intros l r. cbn. by rewrite list_lookup_middle.
Qed.
End server.

Section programs.
Context (n : nat) (t1 t2 : server) (H1 : server_ok n t1) (H2 : server_ok n t2) (B1 : base_ t1 = 0%nat) (B2 : base_ t2 = n).
(** The loops of two servers and one more. *)
Abbreviation three x y z := (replicate n x ++ replicate n y ++ [z]).
Lemma walk_pair (f : server -> list action) (x y : bool * bool) :
  (forall t pre post, server_ok n t -> length pre = base_ t -> walk (f t) (pre ++ replicate n x ++ post) = Some (pre ++ replicate n y ++ post)) ->
  forall z, walk (f t1 ++ f t2) (three x x z) = Some (three y y z) /\ walk (f t2 ++ f t1) (three x x z) = Some (three y y z).
Proof.
  intros Hf z. assert (forall w, walk (f t1) (three x w z) = Some (three y w z)) as E1 by (intros w; by apply (Hf t1 [])).
  assert (forall w, walk (f t2) (three w x z) = Some (three w y z)) as E2 by (intros w; apply Hf; [done|by rewrite length_replicate]).
  split; by rewrite walk_app, ?E1, ?E2; cbn [mbind option_bind]; rewrite ?E1, ?E2.
Qed.
Lemma walk_start_stop p q z :
  walk (TcpServer_start t1 ++ TcpServer_start t2) (three (false, p) (false, p) z) = Some (three (true, p) (true, p) z) /\
  walk (TcpServer_stop t1 ++ TcpServer_stop t2) (three (true, q) (true, q) z) = Some (three (false, true) (false, true) z) /\
  walk (TcpServer_delete t2 ++ TcpServer_delete t1) (three (false, p) (false, p) z) = Some (three (false, p) (false, p) z).
Proof.
  split_and!.
  - apply (walk_pair TcpServer_start). intros. by apply walk_server_start.
  - apply (walk_pair TcpServer_stop). intros. by apply walk_server_stop.
  - apply (walk_pair TcpServer_delete). intros. by apply walk_server_delete.
Qed.
(** The steps that concern the loop after those of the servers. *)
Lemma own_loop (x y z : bool * bool) : three x y z !! (n + n)%nat = Some z.
Proof. rewrite app_assoc. apply list_lookup_middle. by rewrite length_app, !length_replicate. Qed.
Lemma set_own_loop (x y z z' : bool * bool) : <[(n + n)%nat := z']> (three x y z) = three x y z'.
Proof. rewrite !app_assoc. replace (n + n)%nat with (length (replicate n x ++ replicate n y)) by (rewrite length_app, !length_replicate; lia). apply list_insert_middle. Qed.
Lemma gate_walks :
  walk (Gate_Start t1 t2 (n + n) ++ [WaitForSignal] ++ Gate_Stop t1 t2 (n + n) ++ Gate_delete t1 t2 (n + n)) (replicate (n + n + 1) (false, false)) =
  Some (replicate (n + n + 1) (false, true)).
Proof.
  rewrite !replicate_add, <- !app_assoc. cbn [replicate].
  pose proof (fun z => walk_start_stop false false z) as Hw. unfold Gate_Start, Gate_Stop, Gate_delete, RpcServer_start, RpcServer_stop.
  rewrite !(app_assoc (TcpServer_start t1)), !(app_assoc (TcpServer_stop t1)), !walk_app.
  rewrite <- walk_app, (proj1 (Hw _)). cbn [mbind option_bind]. cbn [walk Loop_start app walk_action]. rewrite own_loop. cbn [mbind option_bind]. rewrite set_own_loop.
  rewrite !walk_app, <- walk_app, (proj1 (proj2 (Hw _))). cbn [mbind option_bind]. cbn [walk Loop_stop app walk_action].
  rewrite own_loop. cbn [mbind option_bind]. rewrite set_own_loop, own_loop. cbn [mbind option_bind]. rewrite set_own_loop, own_loop. cbn [mbind option_bind].
  exact (proj2 (proj2 (walk_start_stop true false _))).
Qed.
(** The logic server gets as far as the deletion of its own loop. *)
Lemma logic_walks :
  walk (Logic_new (n + n) ++ Logic_Start t1 t2 (n + n) ++ [WaitForSignal] ++ Logic_Stop t1 t2) (replicate (n + n + 1) (false, false)) =
  Some (three (false, true) (false, true) (true, false)).
Proof.
  rewrite !replicate_add, <- !app_assoc. cbn [replicate Logic_new app walk walk_action]. rewrite own_loop. cbn [mbind option_bind].
  pose proof (fun z => walk_start_stop false false z) as Hw. unfold Logic_Start, Logic_Stop, RpcServer_start, RpcServer_stop, HttpServer_start, HttpServer_stop.
  rewrite !(app_assoc (TcpServer_start t1)), !walk_app.
  rewrite <- walk_app, (proj1 (Hw _)). cbn [mbind option_bind]. cbn [walk Loop_start app walk_action]. rewrite own_loop. cbn [mbind option_bind]. rewrite set_own_loop.
  exact (proj1 (proj2 (Hw _))).
Qed.
End programs.

(** ** The end of a process *)
Definition threads (a : arguments) : Z :=
  match a with GateArgs thrnum _ _ _ _ _ _ _ | LogicArgs thrnum _ _ _ _ _ _ _ _ _ => thrnum | JobArgs _ _ _ _ => 1 end.
Lemma walk_length p st st' : walk p st = Some st' -> length st' = length st.
Proof.
  revert st. induction p as [|a p IH]; intros st E; cbn in E; [by injection E as ->|]. apply bind_Some in E as (st1 & Ea & E).
  rewrite (IH _ E). destruct a; cbn in Ea; try (by injection Ea as ->); apply bind_Some in Ea as ([j q] & _ & Ea);
    repeat case_match; simplify_eq; rewrite ?length_insert; done.
Qed.
(** Which loops an action posts [Poll] to, or waits for. *)
Definition tame (k : nat) (a : action) : Prop :=
  match a with RunInLoop i Poll => i = k | Join i => i <> k | _ => True end.
Lemma tame_server k t n : server_ok n t -> ((base_ t + n <= k)%nat) ->
  Forall (tame k) (TcpServer_start t) /\ Forall (tame k) (TcpServer_stop t) /\ Forall (tame k) (TcpServer_delete t).
Proof.
  intros [Hl Ha] Hk. unfold TcpServer_start, TcpServer_stop, TcpServer_delete, LoopMgr_start, LoopMgr_stop, LoopMgr_delete. rewrite Hl.
  split_and!; [apply Forall_app; split; [by repeat constructor|]|apply Forall_app; split; [by repeat constructor|]|]; apply List.Forall_forall.
  - intros x (i & Hi & Hx)%in_flat_map. by destruct Hx as [<-|[]].
  - intros x (i & Hi & Hx)%in_flat_map. apply in_seq in Hi. destruct Hx as [<-|[<-|[]]]; cbn; [done|lia].
  - intros x (i & <- & Hx)%in_map_iff. done.
Qed.
Lemma tame_In k p : Forall (tame k) p -> (forall i, RunInLoop i Poll ∈ p -> i = k) /\ (forall i, Join i ∈ p -> i <> k).
Proof. rewrite Forall_forall. intros H. split; intros i Hi; exact (H _ Hi). Qed.

Lemma Ok_pair {A B} (a c : A) (b d : B) : Ok (a, b) = Ok (c, d) -> a = c /\ b = d.
Proof. by intros [= -> ->]. Qed.
(** The three programs: the gate and the job server are through with all their
    threads, the logic server is not. *)
Lemma clean_exit a n p : program_of a <> LogicServer -> 0 < threads a < 2 ^ 31 -> server_main a = Ok (n, p) ->
  walk p (replicate n (false, false)) = Some (replicate n (false, true)) /\ Forall (tame n) p.
Proof.
  destruct a as [thrnum ? ? ? ? ? ? ?|thrnum ? ? ? ? ? ? ? ? ?|]; cbn [program_of threads server_main]; intros Hp Ht E; [|done|].
  - rewrite (uwrap_small 64) in E by lia. destruct (server_new_ok 0 thrnum Ht) as (t1 & E1 & B1 & S1).
    destruct (server_new_ok (Z.to_nat thrnum) thrnum Ht) as (t2 & E2 & B2 & S2). rewrite E1, E2 in E. cbn [bind] in E. apply Ok_pair in E as [<- <-].
    split; [by apply gate_walks|]. destruct (tame_server (Z.to_nat thrnum + Z.to_nat thrnum + 1) t1 _ S1 ltac:(lia)) as (? & ? & ?).
    destruct (tame_server (Z.to_nat thrnum + Z.to_nat thrnum + 1) t2 _ S2 ltac:(lia)) as (? & ? & ?).
    unfold Gate_Start, Gate_Stop, Gate_delete, RpcServer_start, RpcServer_stop. rewrite !Forall_app. split_and!; try done; repeat constructor; cbn; lia.
  - injection E as <- <-. split; [done|]. repeat constructor; cbn; lia.
Qed.
Lemma logic_exit a n p : program_of a = LogicServer -> 0 < threads a < 2 ^ 31 -> server_main a = Ok (n, p) ->
  exists k pre post st, p = pre ++ DeleteLoop k :: post /\ walk pre (replicate n (false, false)) = Some st /\ st !! k = Some (true, false) /\
    Forall (tame k) p.
Proof.
  destruct a as [|thrnum ? ? ? ? ? ? ? ? ?|]; cbn [program_of threads server_main]; intros Hp Ht E; [done| |done].
  rewrite (uwrap_small 64) in E by lia. destruct (server_new_ok 0 thrnum Ht) as (t1 & E1 & B1 & S1).
  destruct (server_new_ok (Z.to_nat thrnum) thrnum Ht) as (t2 & E2 & B2 & S2). rewrite E1, E2 in E. cbn [bind] in E. apply Ok_pair in E as [<- <-].
  set (m := Z.to_nat thrnum) in *. eexists (m + m)%nat, _, _, _. split; [|split; [by apply (logic_walks m t1 t2)|split; [apply own_loop|]]].
  { unfold Logic_delete. rewrite <- !app_assoc. reflexivity. }
  destruct (tame_server (m + m) t1 _ S1 ltac:(lia)) as (? & ? & ?). destruct (tame_server (m + m) t2 _ S2 ltac:(lia)) as (? & ? & ?).
  unfold Logic_new, Logic_Start, Logic_Stop, Logic_delete, RpcServer_start, RpcServer_stop, HttpServer_start, HttpServer_stop.
  rewrite !Forall_app. split_and!; try done; repeat constructor.
Qed.

Section ends.
Context (listens : effect) (completion : nat -> effect).


(** C27: The logic server never ends cleanly: Stop leaves its own loop alone,
    whose thread is in Poll, and under every interleaving main can only go on
    until the destructor of that loop calls std::terminate. *)
Theorem logic_server_terminates a n p s :
  all_return listens completion -> program_of a = LogicServer -> 0 < threads a < 2 ^ 31 -> server_main a = Ok (n, p) ->
  run listens completion (start_state n p) s ->
  todo s <> [] /\
  (exec listens completion Main s = Some (Err Terminate) \/
   exists e s', exec listens completion e s = Some (Ok s') /\ (measure s' < measure s)%nat).
Proof.
  intros Hret Hp Ht E Hr. destruct (logic_exit a n p Hp Ht E) as (k & pre & post & st & Epp & Hw & Hk & Htame). destruct (tame_In k p Htame) as [Hpoll Hjoin].
  destruct (lifecycle_inv listens completion k n p s Hret Hpoll Hr) as (Hwf & Hpolls & don & Ep & Epre).
  assert (exists rest, todo s = rest ++ DeleteLoop k :: post /\ pre = don ++ rest) as (rest & Etd & ->).
  { rewrite Epp in Ep. apply app_eq_app in Ep as (l & [[-> E2]|[-> E2]]); [by exists l|]. destruct l as [|b l]; [exists []; by rewrite !app_nil_r|].
    injection E2 as <- _. rewrite walk_app, Hw in Epre. cbn in Epre. rewrite Hk in Epre. done. }
  split; [rewrite Etd; by destruct rest|]. rewrite walk_app, Epre in Hw. cbn [mbind option_bind] in Hw. destruct rest as [|b rest].
  - left. injection Hw as Hw. rewrite <- Hw in Hk. apply list_lookup_fmap_Some in Hk as (l & Hl & El). injection Hl as Hj _.
    unfold exec. rewrite Etd. cbn. unfold on_loop. rewrite El. unfold Loop_delete. by rewrite <- Hj.
  - right. cbn [walk] in Hw. apply bind_Some in Hw as (st1 & Ea & _).
    eapply awaited_progress; [done|done|done|exact Etd|exact Ea|]. intros i ->. apply Hjoin. rewrite Ep, Etd. apply elem_of_app. right. by left.
Qed.
End ends.

(** ** Examples *)
(** A server with no thread looks for a loop where there is none. *)
Example no_threads : server_main (GateArgs 0 [] 0 [] 0 [] 0 []) = Err UB.
Proof. reflexivity. Qed.

(** Running a list of events. *)
Fixpoint run_events (listens : effect) (completion : nat -> effect) (es : list event) (s : state) : option state :=
  match es with
  | [] => Some s
  | e :: es =>
      match exec listens completion e s with
      | Some (Ok s') => run_events listens completion es s'
      | _ => None
      end
  end.
Lemma run_events_run li co es s0 s s' : run li co s0 s -> run_events li co es s = Some s' -> run li co s0 s'.
Proof.
  revert s. induction es as [|e es IH]; intros s Hr E; cbn in E; [by injection E as <-|].
  destruct (exec li co e s) as [[s1|]|] eqn:Ee; try done. eapply IH; [|exact E]. by econstructor.
Qed.
Definition returns (n : nat) : effect := Returns.
Lemma returns_all : all_return Returns returns.
Proof. by split. Qed.
Definition job_process : state := start_state 1 (Job_Start 0 ++ [WaitForSignal] ++ Job_Stop 0 ++ Job_delete 0).
(** The job server is told to stop while its loop is in a handler, the one that
    was posted last. *)
Definition job_events : list event := [Main; Ready 0 5; Ready 0 6; Take 0 1; Main; Main; Main].
Definition job_reached := default job_process (run_events Returns returns job_events job_process).
Lemma job_run : run Returns returns job_process job_reached.
Proof. apply (run_events_run _ _ job_events _ job_process); [constructor|reflexivity]. Qed.
(** Two loops of a gate are in handlers at the same time. *)
Definition gate_one : arguments := GateArgs 1 [] 8080 [] 8081 [] 8083 [].
Definition gate_program : nat * list action := match server_main gate_one with Ok x => x | Err _ => (0%nat, []) end.
Definition gate_process : state := start_state 3 gate_program.2.
Definition gate_events : list event := replicate 5 Main ++ [Take 0 0; Finish 0; Ready 0 1; Ready 2 2; Take 0 0; Take 2 0].
Example gate_handlers_overlap :
  (fun s => thread_ <$> loops s) <$> run_events Returns returns gate_events gate_process =
  Some [Busy (Completion 1); Idle; Busy (Completion 2)].
Proof. reflexivity. Qed.

(** With one thread per server the logic server comes to the deletion of its
    loop, whose thread is in [Poll]. *)
Definition logic_one : arguments := LogicArgs 1 [] 8082 [] 8083 [] 6379 [] [] 1.
Definition logic_program : nat * list action := match server_main logic_one with Ok x => x | Err _ => (0%nat, []) end.
Definition logic_events : list event :=
  replicate 6 Main ++ [Take 2 0] ++ [Main; Main; Main; Leave 0; Main; Main; Main; Leave 1; Main].
Definition logic_process : state := start_state 3 logic_program.2.
Definition logic_reached := default logic_process (run_events Returns returns logic_events logic_process).
Lemma logic_run : run Returns returns logic_process logic_reached.
Proof. apply (run_events_run _ _ logic_events _ logic_process); [constructor|reflexivity]. Qed.
Lemma logic_server_terminates_witness :
  todo logic_reached <> [] /\ exec Returns returns Main logic_reached = Some (Err Terminate).
Proof.
  destruct (logic_server_terminates Returns returns logic_one 3 _ _ returns_all eq_refl ltac:(split; reflexivity) eq_refl logic_run) as [H _].
  split; [exact H|vm_compute; reflexivity].
Defined.
End Lifecycle.
