(* ===== verification/Fmt.v ===== *)
(** * The formatting library: src/opt/spdlog/include/spdlog/fmt/bundled/format.h

    What the LOG macros call: [format_to] with a format string and its
    arguments.  The format string comes from a string literal, so there is a null
    character behind its end.  Arguments of floating-point types and of
    user-defined types are not modelled. *)

From Stdlib Require Import ZArith Lia.
From stdpp Require Import base list strings.
From S2P Require Import Prelude Endian Buffer Text.
Local Open Scope Z_scope.

Module Fmt.

(** ** Outcomes: a [format_error] carries its message *)
Inductive fres (A : Type) :=
  | Formatted (a : A)
  | FormatError (message : bytes)
  | Undefined.
Arguments Formatted {A} a.
Arguments FormatError {A} message.
Arguments Undefined {A}.
Definition fbind {A B} (m : fres A) (k : A -> fres B) : fres B :=
  match m with Formatted a => k a | FormatError e => FormatError e | Undefined => Undefined end.
Declare Scope fmt_scope.
Notation "'do' p '<-' m 'in' k" := (fbind m (fun p => k))
  (at level 10, p pattern, m at level 100, k at level 200, only parsing) : fmt_scope.
Local Open Scope fmt_scope.
Definition on_error {A} (message : String.string) : fres A := FormatError (str message).

(** ** Arguments *)
Inductive arg :=
  | int_arg (n : Z)
  | uint_arg (n : Z)
  | long_long_arg (n : Z)
  | ulong_long_arg (n : Z)
  | bool_arg (b : bool)
  | char_arg (c : byte)
  | cstring_arg (p : Z) (s : option bytes)
  | string_arg (s : bytes)
  | pointer_arg (p : Z).
Definition is_integral (a : arg) : bool :=
  match a with
  | int_arg _ | uint_arg _ | long_long_arg _ | ulong_long_arg _ | bool_arg _ | char_arg _ => true
  | _ => false
  end.
(** The floating-point types are left out. *)
Definition is_arithmetic (a : arg) : bool := is_integral a.
(** The values that the types hold; a [char] is signed. *)
Definition arg_ok (a : arg) : Prop :=
  match a with
  | int_arg n => - 2 ^ 31 <= n < 2 ^ 31
  | uint_arg n => 0 <= n < 2 ^ 32
  | long_long_arg n => - 2 ^ 63 <= n < 2 ^ 63
  | ulong_long_arg n | pointer_arg n | cstring_arg n _ => 0 <= n < 2 ^ 64
  | _ => True
  end.

(** ** Format specifiers *)
Inductive alignment := ALIGN_DEFAULT | ALIGN_LEFT | ALIGN_RIGHT | ALIGN_CENTER | ALIGN_NUMERIC.
#[export] Instance alignment_eq_dec : EqDecision alignment.
Proof. solve_decision. Defined.
Definition SIGN_FLAG := 1.
Definition PLUS_FLAG := 2.
Definition MINUS_FLAG := 4.
Definition HASH_FLAG := 8.
(** No type is the null character. *)
Record format_specs := mkSpecs {
  width_ : Z;
  fill_ : byte;
  align_ : alignment;
  flags_ : Z;
  precision_ : Z;
  type_ : byte;
}.
Definition format_specs_new : format_specs := mkSpecs 0 Byte.x20 ALIGN_DEFAULT 0 (-1) Byte.x00.
Definition flag (s : format_specs) (f : Z) : bool := negb (Z.land (flags_ s) f =? 0).
Definition with_align (a : alignment) (s : format_specs) := mkSpecs (width_ s) (fill_ s) a (flags_ s) (precision_ s) (type_ s).
Definition with_fill (c : byte) (s : format_specs) := mkSpecs (width_ s) c (align_ s) (flags_ s) (precision_ s) (type_ s).
Definition with_flags (f : Z) (s : format_specs) := mkSpecs (width_ s) (fill_ s) (align_ s) f (precision_ s) (type_ s).
Definition with_width (w : Z) (s : format_specs) := mkSpecs w (fill_ s) (align_ s) (flags_ s) (precision_ s) (type_ s).
Definition with_precision (p : Z) (s : format_specs) := mkSpecs (width_ s) (fill_ s) (align_ s) (flags_ s) p (type_ s).
Definition with_type (c : byte) (s : format_specs) := mkSpecs (width_ s) (fill_ s) (align_ s) (flags_ s) (precision_ s) c.

(** *** [specs_setter], under [specs_checker] for an argument *)
Definition require_numeric_argument (a : arg) : fres unit :=
  if is_arithmetic a then Formatted tt else on_error "format specifier requires numeric argument".
Definition check_sign (a : arg) : fres unit :=
  do _ <- require_numeric_argument a in
  match a with
  | uint_arg _ | ulong_long_arg _ | bool_arg _ => on_error "format specifier requires signed argument"
  | _ => Formatted tt
  end.
Definition on_align (align : alignment) (a : arg) (s : format_specs) : fres format_specs :=
  do _ <- (if decide (align = ALIGN_NUMERIC) then require_numeric_argument a else Formatted tt) in
  Formatted (with_align align s).
Definition on_plus (a : arg) (s : format_specs) : fres format_specs :=
  do _ <- check_sign a in Formatted (with_flags (Z.lor (flags_ s) (Z.lor SIGN_FLAG PLUS_FLAG)) s).
Definition on_minus (a : arg) (s : format_specs) : fres format_specs :=
  do _ <- check_sign a in Formatted (with_flags (Z.lor (flags_ s) MINUS_FLAG) s).
Definition on_space (a : arg) (s : format_specs) : fres format_specs :=
  do _ <- check_sign a in Formatted (with_flags (Z.lor (flags_ s) SIGN_FLAG) s).
Definition on_hash (a : arg) (s : format_specs) : fres format_specs :=
  do _ <- require_numeric_argument a in Formatted (with_flags (Z.lor (flags_ s) HASH_FLAG) s).
Definition on_zero (a : arg) (s : format_specs) : fres format_specs :=
  do _ <- require_numeric_argument a in Formatted (with_fill Byte.x30 (with_align ALIGN_NUMERIC s)).
Definition end_precision (a : arg) : fres unit :=
  if is_integral a || match a with pointer_arg _ => true | _ => false end then
    on_error "precision not allowed for this argument type"
  else Formatted tt.

(** ** The parse context: [next_arg_id_] is -1 once indices are given *)
Definition next_arg_id (id : Z) : fres (Z * Z) :=
  if 0 <=? id then Formatted (id, id + 1) else on_error "cannot switch from manual to automatic argument indexing".
Definition check_arg_id (id : Z) : fres Z :=
  if 0 <? id then on_error "cannot switch from automatic to manual argument indexing" else Formatted (-1).
Definition do_get_arg (args : list arg) (arg_id : Z) : fres arg :=
  match args !! Z.to_nat arg_id with Some a => Formatted a | None => on_error "argument index out of range" end.

(** ** Parsing *)
Definition is_digit (c : byte) : bool := (48 <=? byte_to_Z c) && (byte_to_Z c <=? 57).
Definition is_name_start (c : byte) : bool :=
  ((97 <=? byte_to_Z c) && (byte_to_Z c <=? 122)) || ((65 <=? byte_to_Z c) && (byte_to_Z c <=? 90)) || bool_decide (c = Byte.x5f).
Definition max_int := 2 ^ 31 - 1.
(** The digits from a first one on, and what is behind them. *)
Fixpoint int_loop (value : Z) (l : bytes) : Z * bytes :=
  match l with
  | c :: l' =>
      if is_digit c then
        if max_int / 10 <? value then (max_int + 1, l) else int_loop (u32 (value * 10 + (byte_to_Z c - 48))) l'
      else (value, l)
  | [] => (value, [])
  end.
Definition parse_nonnegative_int (l : bytes) : fres (Z * bytes) :=
  let '(value, l) := int_loop 0 l in
  if max_int <? value then on_error "number is too big" else Formatted (value, l).

(** [*it] of an iterator that shows a null character at the end. *)
Definition peek (l : bytes) : byte := default Byte.x00 (head l).
Inductive arg_ref := AUTO | INDEX (index : Z) | NAME (name : bytes).
Fixpoint name_end (l : bytes) : bytes :=
  match l with c :: l' => if is_name_start c || is_digit c then name_end l' else l | [] => [] end.
Definition parse_arg_id (l : bytes) : fres (arg_ref * bytes) :=
  let c := peek l in
  if bool_decide (c = Byte.x7d) || bool_decide (c = Byte.x3a) then Formatted (AUTO, l)
  else if is_digit c then
    do (index, l) <- parse_nonnegative_int l in
    if negb (bool_decide (peek l = Byte.x7d)) && negb (bool_decide (peek l = Byte.x3a)) then on_error "invalid format string"
    else Formatted (INDEX index, l)
  else if negb (is_name_start c) then on_error "invalid format string"
  else let rest := name_end (tail l) in Formatted (NAME (take (length l - length rest) l), rest).
(** The argument, and the new [next_arg_id_]; no argument has a name. *)
Definition get_arg (args : list arg) (ref : arg_ref) (id : Z) : fres (arg * Z) :=
  match ref with
  | AUTO => do (i, id) <- next_arg_id id in do a <- do_get_arg args i in Formatted (a, id)
  | INDEX i => do id <- check_arg_id id in do a <- do_get_arg args i in Formatted (a, id)
  | NAME _ => on_error "argument not found"
  end.
(** [width_checker] and [precision_checker], which only differ in a word. *)
Definition width_checker (what : String.string) (a : arg) : fres Z :=
  match a with
  | int_arg n | uint_arg n | long_long_arg n | ulong_long_arg n =>
      if n <? 0 then FormatError (str "negative " ++ str what) else Formatted n
  | _ => FormatError (str what ++ str " is not integer")
  end.
Definition set_dynamic_spec (what : String.string) (a : arg) : fres Z :=
  do big_value <- width_checker what a in
  if max_int <? big_value then on_error "number is too big" else Formatted big_value.

Definition align_of (c : byte) : alignment :=
  match c with
  | Byte.x3c => ALIGN_LEFT
  | Byte.x3e => ALIGN_RIGHT
  | Byte.x3d => ALIGN_NUMERIC
  | Byte.x5e => ALIGN_CENTER
  | _ => ALIGN_DEFAULT
  end.
Definition parse_align (a : arg) (l : bytes) (s : format_specs) : fres (bytes * format_specs) :=
  let c := peek l in
  let second := align_of (peek (tail l)) in
  if decide (second <> ALIGN_DEFAULT) then
    if decide (c = Byte.x7b) then on_error "invalid fill character '{'"
    else do s <- on_align second a (with_fill c s) in Formatted (drop 2 l, s)
  else if decide (align_of c <> ALIGN_DEFAULT) then do s <- on_align (align_of c) a s in Formatted (tail l, s)
  else Formatted (l, s).
Definition parse_sign (a : arg) (l : bytes) (s : format_specs) : fres (bytes * format_specs) :=
  match peek l with
  | Byte.x2b => do s <- on_plus a s in Formatted (tail l, s)
  | Byte.x2d => do s <- on_minus a s in Formatted (tail l, s)
  | Byte.x20 => do s <- on_space a s in Formatted (tail l, s)
  | _ => Formatted (l, s)
  end.
(** A number, or an argument that gives one. *)
Definition parse_dynamic (what : String.string) (args : list arg) (l : bytes) (id : Z) : fres (Z * bytes * Z) :=
  do (ref, l) <- parse_arg_id (tail l) in
  do (w, id) <- get_arg args ref id in
  do n <- set_dynamic_spec what w in
  if decide (peek l = Byte.x7d) then Formatted (n, tail l, id) else on_error "invalid format string".
Definition parse_width (args : list arg) (l : bytes) (s : format_specs) (id : Z) : fres (bytes * format_specs * Z) :=
  if is_digit (peek l) then do (n, l) <- parse_nonnegative_int l in Formatted (l, with_width n s, id)
  else if decide (peek l = Byte.x7b) then
    do (n, l, id) <- parse_dynamic "width" args l id in Formatted (l, with_width n s, id)
  else Formatted (l, s, id).
Definition parse_precision (args : list arg) (a : arg) (l : bytes) (s : format_specs) (id : Z) : fres (bytes * format_specs * Z) :=
  if decide (peek l = Byte.x2e) then
    let l := tail l in
    do (l, s, id) <-
      (if is_digit (peek l) then do (n, l) <- parse_nonnegative_int l in Formatted (l, with_precision n s, id)
       else if decide (peek l = Byte.x7b) then
         do (n, l, id) <- parse_dynamic "precision" args l id in Formatted (l, with_precision n s, id)
       else on_error "missing precision specifier") in
    do _ <- end_precision a in Formatted (l, s, id)
  else Formatted (l, s, id).
Definition parse_format_specs (args : list arg) (a : arg) (l : bytes) (id : Z) : fres (bytes * format_specs * Z) :=
  let s := format_specs_new in
  if bool_decide (peek l = Byte.x7d) || bool_decide (peek l = Byte.x00) then Formatted (l, s, id)
  else
    do (l, s) <- parse_align a l s in
    do (l, s) <- parse_sign a l s in
    do (l, s) <- (if decide (peek l = Byte.x23) then do s <- on_hash a s in Formatted (tail l, s) else Formatted (l, s)) in
    do (l, s) <- (if decide (peek l = Byte.x30) then do s <- on_zero a s in Formatted (tail l, s) else Formatted (l, s)) in
    do (l, s, id) <- parse_width args l s id in
    do (l, s, id) <- parse_precision args a l s id in
    if negb (bool_decide (peek l = Byte.x7d)) && negb (bool_decide (peek l = Byte.x00)) then Formatted (tail l, with_type (peek l) s, id)
    else Formatted (l, s, id).

(** ** Writing integers

    [main_type] is [uint32_t] for the types of 32 bits and fewer. *)
Definition powers_of_10 : list Z :=
  [0; 10 ^ 1; 10 ^ 2; 10 ^ 3; 10 ^ 4; 10 ^ 5; 10 ^ 6; 10 ^ 7; 10 ^ 8; 10 ^ 9; 10 ^ 10; 10 ^ 11; 10 ^ 12; 10 ^ 13; 10 ^ 14;
   10 ^ 15; 10 ^ 16; 10 ^ 17; 10 ^ 18; 10 ^ 19].
(** [w - __builtin_clz(n | 1)] is the number of bits. *)
Definition bits (n : Z) : Z := Z.log2 (Z.lor n 1) + 1.
Definition count_digits (n : Z) : Z :=
  let t := Z.shiftr (bits n * 1233) 12 in
  t - (if n <? nth (Z.to_nat t) powers_of_10 0 then 1 else 0) + 1.
Definition DIGITS (index : Z) : byte :=
  nth (Z.to_nat index)
    (str "0001020304050607080910111213141516171819" ++ str "2021222324252627282930313233343536373839" ++
     str "4041424344454647484950515253545556575859" ++ str "6061626364656667686970717273747576777879" ++
     str "8081828384858687888990919293949596979899") Byte.x00.
(** The loop writes two digits at a time, from the end of a number; after each
    one a separator may follow. *)
Fixpoint decimal_loop (n : nat) (sep : nat -> bytes) (k : nat) (value : Z) (acc : bytes) : bytes :=
  match n with
  | O => acc
  | S n =>
      if 100 <=? value then
        let index := value mod 100 * 2 in
        let acc := sep (k + 1)%nat ++ DIGITS (index + 1) :: acc in
        let acc := sep (k + 2)%nat ++ DIGITS index :: acc in
        decimal_loop n sep (k + 2) (value / 100) acc
      else if value <? 10 then digit value :: acc
      else let index := value * 2 in DIGITS index :: sep (k + 1)%nat ++ DIGITS (index + 1) :: acc
  end.
Definition no_thousands_sep (k : nat) : bytes := [].
Definition add_thousands_sep (sep : byte) (k : nat) : bytes := if (k mod 3 =? 0)%nat then [sep] else [].
(** The overload for pointers, since the output is a buffer: the characters go
    backwards from [num_digits] behind where the number begins, and all of these
    have to be written. *)
Definition format_decimal (value num_digits : Z) (sep : nat -> bytes) : fres bytes :=
  let text := decimal_loop 10 sep 0 value [] in
  if zlen text =? num_digits then Formatted text else Undefined.
Fixpoint uint_loop (n : nat) (BITS : Z) (upper : bool) (value : Z) (acc : bytes) : bytes :=
  match n with
  | O => acc
  | S n =>
      let d := Z.land value (Z.shiftl 1 BITS - 1) in
      let c := if d <? 10 then digit d else byte_of_Z ((if upper then 65 else 97) + (d - 10)) in
      let value := Z.shiftr value BITS in
      if negb (value =? 0) then uint_loop n BITS upper value (c :: acc) else c :: acc
  end.
Fixpoint count_bits (n : nat) (BITS value : Z) : Z :=
  match n with
  | O => 0
  | S n => let value := Z.shiftr value BITS in 1 + (if negb (value =? 0) then count_bits n BITS value else 0)
  end.
Definition format_uint (BITS value num_digits : Z) (upper : bool) : fres bytes :=
  let text := uint_loop 64 BITS upper value [] in
  if zlen text =? num_digits then Formatted text else Undefined.

Definition write_padded (text : bytes) (s : format_specs) : bytes :=
  if width_ s <=? zlen text then text
  else
    let padding := Z.to_nat (width_ s - zlen text) in
    match align_ s with
    | ALIGN_RIGHT => replicate padding (fill_ s) ++ text
    | ALIGN_CENTER => let left := (padding / 2)%nat in replicate left (fill_ s) ++ text ++ replicate (padding - left) (fill_ s)
    | _ => text ++ replicate padding (fill_ s)
    end.
(** [write_int] with a prefix and the digits. *)
Definition write_digits (digits prefix : bytes) (s : format_specs) : bytes :=
  let size := zlen prefix + zlen digits in
  let '(fill, padding) :=
    if decide (align_ s = ALIGN_NUMERIC) then (fill_ s, if size <? width_ s then width_ s - size else 0)
    else if zlen digits <? precision_ s then (Byte.x30, precision_ s - zlen digits)
    else (fill_ s, 0) in
  let s := if decide (align_ s = ALIGN_DEFAULT) then with_align ALIGN_RIGHT s else s in
  write_padded (prefix ++ replicate (Z.to_nat padding) fill ++ digits) s.

Definition abs_value (w value : Z) : Z := uwrap w (if value <? 0 then 0 - uwrap w value else value).
Definition sign_prefix (value : Z) (s : format_specs) : bytes :=
  if value <? 0 then str "-" else if flag s SIGN_FLAG then [if flag s PLUS_FLAG then Byte.x2b else Byte.x20] else [].
Definition write_decimal (w value : Z) : fres bytes :=
  let abs := abs_value w value in
  do text <- format_decimal abs (count_digits abs) no_thousands_sep in
  Formatted ((if value <? 0 then str "-" else []) ++ text).

(** *** The class [format_int]: the digits, with a sign, at the end of a buffer of
    22 characters, the last of which is for a null character *)
Definition format_int_decimal (value : Z) : bytes := decimal_loop 10 no_thousands_sep 0 value [].
Definition in_buffer (text : bytes) : fres bytes := if zlen text <=? 21 then Formatted text else Undefined.
Definition format_signed (value : Z) : fres bytes :=
  in_buffer ((if value <? 0 then str "-" else []) ++ format_int_decimal (abs_value 64 value)).
Definition format_unsigned (value : Z) : fres bytes := in_buffer (format_int_decimal value).

Section writer.
(** The separator of thousands of the locale. *)
Context (thousands_sep : byte).
Definition hash_prefix (s : format_specs) : bytes := if flag s HASH_FLAG then [Byte.x30; type_ s] else [].
Definition on_dec (w value : Z) (s : format_specs) : fres bytes :=
  let abs := abs_value w value in
  do text <- format_decimal abs (count_digits abs) no_thousands_sep in
  Formatted (write_digits text (sign_prefix value s) s).
Definition on_hex (w value : Z) (s : format_specs) : fres bytes :=
  let abs := abs_value w value in
  do text <- format_uint 4 abs (count_bits 64 4 abs) (negb (bool_decide (type_ s = Byte.x78))) in
  Formatted (write_digits text (sign_prefix value s ++ hash_prefix s) s).
Definition on_bin (w value : Z) (s : format_specs) : fres bytes :=
  let abs := abs_value w value in
  do text <- format_uint 1 abs (count_bits 64 1 abs) false in
  Formatted (write_digits text (sign_prefix value s ++ hash_prefix s) s).
Definition on_oct (w value : Z) (s : format_specs) : fres bytes :=
  let abs := abs_value w value in
  let num_digits := count_bits 64 3 abs in
  do text <- format_uint 3 abs num_digits false in
  Formatted (write_digits text (sign_prefix value s ++ (if flag s HASH_FLAG && (precision_ s <=? num_digits) then str "0" else [])) s).
Definition on_num (w value : Z) (s : format_specs) : fres bytes :=
  let abs := abs_value w value in
  let num_digits := count_digits abs in
  let size := num_digits + (num_digits - 1) / 3 in
  do text <- format_decimal abs size (add_thousands_sep thousands_sep) in
  Formatted (write_digits text (sign_prefix value s) s).
(** [handle_int_type_spec]. *)
Definition write_int (w value : Z) (s : format_specs) : fres bytes :=
  match type_ s with
  | Byte.x00 | Byte.x64 => on_dec w value s
  | Byte.x78 | Byte.x58 => on_hex w value s
  | Byte.x62 | Byte.x42 => on_bin w value s
  | Byte.x6f => on_oct w value s
  | Byte.x6e => on_num w value s
  | _ => on_error "invalid type specifier"
  end.

(** ** Writing an argument, with specifiers or without *)
Definition write_str (text : bytes) (s : format_specs) : bytes :=
  write_padded (if (0 <=? precision_ s) && (precision_ s <? zlen text) then ztake (precision_ s) text else text) s.
Definition write_integer (w value : Z) (specs : option format_specs) : fres bytes :=
  match specs with Some s => write_int w value s | None => write_decimal w value end.
Definition write_string (text : bytes) (specs : option format_specs) : fres bytes :=
  Formatted (match specs with Some s => write_str text s | None => text end).
Definition write_pointer (p : Z) (specs : option format_specs) : fres bytes :=
  write_int 64 p (with_type Byte.x78 (with_flags HASH_FLAG (default format_specs_new specs))).
Definition has_type (specs : option format_specs) : bool :=
  match specs with Some s => negb (bool_decide (type_ s = Byte.x00)) | None => false end.
Definition format_char (c : byte) (specs : option format_specs) : fres bytes :=
  match specs with
  | None => Formatted [c]
  | Some s =>
      if negb (bool_decide (type_ s = Byte.x00)) && negb (bool_decide (type_ s = Byte.x63)) then write_int 32 (s8 (byte_to_Z c)) s
      else if bool_decide (align_ s = ALIGN_NUMERIC) || negb (flags_ s =? 0) then on_error "invalid format specifier for char"
      else Formatted (write_padded [c] s)
  end.
Definition format_cstring (text : option bytes) (specs : option format_specs) (address : Z) : fres bytes :=
  let write := match text with None => on_error "string pointer is null" | Some t => write_string t specs end in
  match specs with
  | None => write
  | Some s =>
      match type_ s with
      | Byte.x00 | Byte.x73 => write
      | Byte.x70 => write_pointer address specs
      | _ => on_error "invalid type specifier"
      end
  end.
Definition format_arg (a : arg) (specs : option format_specs) : fres bytes :=
  match a with
  | int_arg n | uint_arg n => write_integer 32 n specs
  | long_long_arg n | ulong_long_arg n => write_integer 64 n specs
  | bool_arg b =>
      if has_type specs then write_integer 32 (if b then 1 else 0) specs
      else write_string (if b then str "true" else str "false") specs
  | char_arg c => format_char c specs
  | cstring_arg p s => format_cstring s specs p
  | string_arg s =>
      if has_type specs && negb (bool_decide (type_ (default format_specs_new specs) = Byte.x73)) then on_error "invalid type specifier"
      else write_string s specs
  | pointer_arg p =>
      if has_type specs && negb (bool_decide (type_ (default format_specs_new specs) = Byte.x70)) then on_error "invalid type specifier"
      else write_pointer p specs
  end.

(** ** [parse_format_string] with [format_handler] *)
(** Text without an opening brace; closing ones come in pairs. *)
Fixpoint write_text (l : bytes) : fres bytes :=
  match l with
  | [] => Formatted []
  | c :: l' =>
      if decide (c = Byte.x7d) then
        match l' with
        | c' :: l'' => if decide (c' = Byte.x7d) then do t <- write_text l'' in Formatted (c :: t) else on_error "unmatched '}' in format string"
        | [] => on_error "unmatched '}' in format string"
        end
      else do t <- write_text l' in Formatted (c :: t)
  end.
Fixpoint before_brace (l : bytes) : bytes :=
  match l with c :: l' => if decide (c = Byte.x7b) then [] else c :: before_brace l' | [] => [] end.
Fixpoint from_brace (l : bytes) : bytes :=
  match l with c :: l' => if decide (c = Byte.x7b) then l else from_brace l' | [] => [] end.
(** A replacement field, from behind its brace: what it writes, what is behind it,
    and [next_arg_id_]. *)
Definition on_field (args : list arg) (l : bytes) (id : Z) : fres (bytes * bytes * Z) :=
  do (ref, l) <- parse_arg_id l in
  do (a, id) <- get_arg args ref id in
  match l with
  | Byte.x7d :: l => do t <- format_arg a None in Formatted (t, l, id)
  | Byte.x3a :: l =>
      do (l, s, id) <- parse_format_specs args a l id in
      if decide (peek l = Byte.x7d) then do t <- format_arg a (Some s) in Formatted (t, tail l, id)
      else on_error "missing '}' in format string"
  | _ => on_error "missing '}' in format string"
  end.
Fixpoint parse_loop (n : nat) (args : list arg) (l : bytes) (id : Z) (out : bytes) : fres bytes :=
  match n with
  | O => Undefined
  | S n =>
      do t <- write_text (before_brace l) in
      match from_brace l with
      | [] => Formatted (out ++ t)
      | [_] => on_error "invalid format string"
      | _ :: c :: l' =>
          if decide (c = Byte.x7b) then parse_loop n args l' id (out ++ t ++ [c])
          else do (f, l', id) <- on_field args (c :: l') id in parse_loop n args l' id (out ++ t ++ f)
      end
  end.
Definition vformat (format_str : bytes) (args : list arg) : fres bytes := parse_loop (length format_str + 1) args format_str 0 [].
End writer.

(** ** The number of digits *)
Definition has_digits (c n : Z) : Prop := 1 <= c /\ 0 <= n < 10 ^ c /\ (c = 1 \/ 10 ^ (c - 1) <= n).

(** Numbers of [k + 1] bits: the estimate is the number of digits or one less. *)
Definition estimate_ok (k : Z) : bool :=
  let t := Z.shiftr ((k + 1) * 1233) 12 in
  (0 <=? t) && (nth (Z.to_nat t) powers_of_10 0 =? if t =? 0 then 0 else 10 ^ t) &&
  ((t =? 0) || (10 ^ (t - 1) <=? 2 ^ k)) && (2 ^ (k + 1) <=? 10 ^ (t + 1)).
Lemma estimates_ok k : 0 <= k < 64 -> estimate_ok k = true.
Proof.
  intros Hk. assert (forallb (fun i => estimate_ok (Z.of_nat i)) (seq 0 64) = true) as H by (by vm_compute).
  rewrite forallb_forall in H. specialize (H (Z.to_nat k)). rewrite Z2Nat.id in H by lia. apply H, in_seq. lia.
Qed.
Lemma bits_log n : 0 <= n -> bits n = Z.log2 (Z.max n 1) + 1.
Proof.
  intros Hn. unfold bits. f_equal. rewrite Z.log2_lor by lia. change (Z.log2 1) with 0.
  pose proof (Z.log2_nonneg n). destruct (Z.max_spec n 1) as [[? ->]|[? ->]]; [|lia].
  assert (n = 0) as -> by lia. done.
Qed.
Lemma count_digits_has n : 0 <= n < 2 ^ 64 -> has_digits (count_digits n) n.
Proof.
  intros Hn. unfold count_digits. rewrite bits_log by lia. set (m := Z.max n 1).
  assert (0 < m < 2 ^ 64) as Hm by (split; [lia|apply Z.max_lub_lt; lia]).
  destruct (Z.log2_spec m) as [Hlo Hhi]; [lia|]. pose proof (Z.log2_nonneg m) as H0.
  assert (Z.log2 m < 64) as H64 by (apply Z.log2_lt_pow2; lia).
  pose proof (estimates_ok (Z.log2 m) ltac:(lia)) as E. unfold estimate_ok in E.
  revert Hlo Hhi E. generalize (Z.log2 m) as k. intros k Hlo Hhi.
  cbv zeta. set (t := Z.shiftr ((k + 1) * 1233) 12). unfold Z.succ in Hhi. rewrite !andb_true_iff, orb_true_iff, !Z.leb_le, !Z.eqb_eq.
  intros [[[Ht En] Hl] Hu]. rewrite En. unfold has_digits.
  destruct (Z.eqb_spec t 0) as [->|].
  - destruct (Z.ltb_spec n 0); [lia|]. cbn. change (10 ^ (0 + 1)) with 10 in Hu. change (Z.pow_pos 10 1) with 10. lia.
  - destruct (Z.ltb_spec n (10 ^ t)).
    + replace (t - 1 + 1) with t by lia. repeat split; [lia..|].
      destruct (Z.eq_dec t 1); [by left|right]. assert (10 ^ 1 <= 10 ^ (t - 1)) by (apply Z.pow_le_mono_r; lia). lia.
    + replace (t - 0 + 1) with (t + 1) by lia. replace (t + 1 - 1) with t by lia. repeat split; [lia..|right; lia].
Qed.
Lemma pow10_step c : 1 < c -> 10 ^ c = 10 * 10 ^ (c - 1).
Proof. intros. rewrite <- Z.pow_succ_r by lia. f_equal. lia. Qed.
Lemma has_digits_tail c n : has_digits c n -> 10 <= n -> 1 < c /\ has_digits (c - 1) (n / 10).
Proof.
  intros (H1 & Hn & Hc) H10.
  assert (1 < c) as Hc1. { destruct (Z.eq_dec c 1) as [->|]; [change (10 ^ 1) with 10 in Hn; lia|lia]. }
  split; [done|]. rewrite (pow10_step c) in Hn by done. repeat split; [lia|apply Z.div_pos; lia|apply Z.div_lt_upper_bound; lia|].
  destruct (Z.eq_dec c 2) as [->|]; [left; lia|right]. apply Z.div_le_lower_bound; [lia|].
  rewrite <- (pow10_step (c - 1)) by lia. lia.
Qed.
Lemma has_digits_small c n : has_digits c n -> n < 10 -> c = 1.
Proof.
  intros (H1 & Hn & [Hc|Hc]) H10; [done|]. destruct (Z.eq_dec c 1); [done|].
  assert (10 ^ 1 <= 10 ^ (c - 1)) by (apply Z.pow_le_mono_r; lia). lia.
Qed.
Lemma digits_count k c n : has_digits c n -> c <= Z.of_nat k -> zlen (digits k n) = c.
Proof.
  revert c n. induction k as [|k IH]; intros c n Hc Hk; [destruct Hc; lia|]. cbn [digits].
  destruct (Z.ltb_spec n 10) as [Hn|Hn]; [by rewrite (has_digits_small c n)|].
  destruct (has_digits_tail _ _ Hc Hn) as [? H]. rewrite zlen_app, (IH _ _ H) by lia. unfold zlen. cbn. lia.
Qed.

(** ** The digits *)
Lemma DIGITS_pair i : 0 <= i < 100 -> DIGITS (i * 2) = digit (i / 10) /\ DIGITS (i * 2 + 1) = digit (i mod 10).
Proof.
  intros Hi.
  assert (forallb (fun j => let i := Z.of_nat j in
    bool_decide (DIGITS (i * 2) = digit (i / 10)) && bool_decide (DIGITS (i * 2 + 1) = digit (i mod 10))) (seq 0 100) = true) as H by (by vm_compute).
  rewrite forallb_forall in H. specialize (H (Z.to_nat i)). rewrite Z2Nat.id, andb_true_iff, !bool_decide_eq_true in H by lia.
  apply H, in_seq. lia.
Qed.
Lemma mod100 v : (v mod 100) / 10 = v / 10 mod 10 /\ v mod 100 mod 10 = v mod 10 /\ v / 100 = v / 10 / 10.
Proof. Z.to_euclidean_division_equations. lia. Qed.
Lemma decimal_loop_digits n k v acc :
  0 <= v < 100 ^ Z.of_nat n -> decimal_loop n no_thousands_sep k v acc = digits (n + n) v ++ acc.
Proof.
  revert k v acc. induction n as [|n IH]; intros k v acc Hv; [done|].
  replace (S n + S n)%nat with (S (S (n + n))) by lia. cbn [decimal_loop digits].
  destruct (mod100 v) as (E1 & E2 & E3). cbv zeta.
  destruct (Z.leb_spec 100 v).
  - destruct (DIGITS_pair (v mod 100)) as [-> ->]; [by apply Z.mod_pos_bound|].
    rewrite IH.
    + assert (10 <= v / 10) by (apply Z.div_le_lower_bound; lia).
      destruct (Z.ltb_spec v 10); [lia|]. destruct (Z.ltb_spec (v / 10) 10); [lia|].
      rewrite E1, E2, E3. unfold no_thousands_sep. by rewrite <- !(assoc_L (++)).
    + rewrite Nat2Z.inj_succ, Z.pow_succ_r in Hv by lia. split; [apply Z.div_pos; lia|apply Z.div_lt_upper_bound; lia].
  - destruct (Z.ltb_spec v 10); [done|].
    destruct (DIGITS_pair v) as [-> ->]; [lia|]. assert (v / 10 < 10) by (apply Z.div_lt_upper_bound; lia).
    by destruct (Z.ltb_spec (v / 10) 10); [|lia].
Qed.
(** Between two digits there is a separator where the number of digits behind it
    is a multiple of three. *)
Lemma add_thousands_sep_len c k : zlen (add_thousands_sep c (k + 1)) = (Z.of_nat k + 1) / 3 - Z.of_nat k / 3.
Proof.
  unfold add_thousands_sep. destruct (Nat.eqb_spec ((k + 1) mod 3) 0) as [E|E]; unfold zlen; cbn [length];
    pose proof (Nat.div_mod_eq (k + 1) 3); pose proof (Nat.mod_upper_bound (k + 1) 3);
    Z.to_euclidean_division_equations; lia.
Qed.
Lemma decimal_loop_len sep n k v acc c :
  has_digits c v -> c <= 2 * Z.of_nat n ->
  zlen (decimal_loop n (add_thousands_sep sep) k v acc) = zlen acc + c + ((Z.of_nat k + c - 1) / 3 - Z.of_nat k / 3).
Proof.
  revert k v acc c. induction n as [|n IH]; intros k v acc c Hc Hn; [destruct Hc; lia|]. cbn [decimal_loop].
  pose proof (add_thousands_sep_len sep k) as L1. pose proof (add_thousands_sep_len sep (k + 1)) as L2.
  replace (k + 1 + 1)%nat with (k + 2)%nat in L2 by lia. rewrite Nat2Z.inj_add in L2. change (Z.of_nat 1) with 1 in L2.
  destruct (mod100 v) as (_ & _ & E3). destruct (Z.leb_spec 100 v).
  - destruct (has_digits_tail _ _ Hc) as [? H1]; [lia|].
    destruct (has_digits_tail _ _ H1) as [? H2]; [apply Z.div_le_lower_bound; lia|].
    rewrite E3, (IH _ _ _ _ H2) by lia. rewrite zlen_app, zlen_cons, zlen_app, zlen_cons, L1, L2, Nat2Z.inj_add.
    change (Z.of_nat 2) with 2. replace (Z.of_nat k + 1 + 1) with (Z.of_nat k + 2) by lia.
    replace (Z.of_nat k + 2 + (c - 1 - 1) - 1) with (Z.of_nat k + c - 1) by lia. lia.
  - destruct (Z.ltb_spec v 10).
    + rewrite (has_digits_small _ _ Hc) by done. rewrite zlen_cons. replace (Z.of_nat k + 1 - 1) with (Z.of_nat k) by lia. lia.
    + destruct (has_digits_tail _ _ Hc) as [? H1]; [lia|]. apply has_digits_small in H1; [|apply Z.div_lt_upper_bound; lia].
      rewrite zlen_cons, zlen_app, zlen_cons, L1. replace c with 2 by lia. replace (Z.of_nat k + 2 - 1) with (Z.of_nat k + 1) by lia. lia.
Qed.
Lemma count_digits_max n : 0 <= n < 2 ^ 64 -> count_digits n <= 20.
Proof.
  intros Hn. destruct (count_digits_has n Hn) as (_ & _ & H). destruct (Z.le_gt_cases (count_digits n) 20); [done|].
  assert (10 ^ 20 <= 10 ^ (count_digits n - 1)) by (apply Z.pow_le_mono_r; lia). lia.
Qed.
Lemma format_decimal_digits n : 0 <= n < 2 ^ 64 -> format_decimal n (count_digits n) no_thousands_sep = Formatted (digits 20 n).
Proof.
  intros Hn. unfold format_decimal. cbv zeta. rewrite decimal_loop_digits by (split; [lia|]; change (100 ^ Z.of_nat 10) with (10 ^ 20); lia).
  rewrite app_nil_r, (digits_count _ (count_digits n)), Z.eqb_refl; [done|by apply count_digits_has|by apply count_digits_max].
Qed.
Lemma format_decimal_sep sep n :
  0 <= n < 2 ^ 64 -> let c := count_digits n in
  format_decimal n (c + (c - 1) / 3) (add_thousands_sep sep) = Formatted (decimal_loop 10 (add_thousands_sep sep) 0 n []).
Proof.
  intros Hn c. unfold format_decimal. cbv zeta. pose proof (count_digits_max n Hn).
  rewrite (decimal_loop_len _ _ _ _ _ c) by (first [by apply count_digits_has|subst c; lia]).
  change (Z.of_nat 0) with 0. change (0 / 3) with 0. rewrite Z.sub_0_r. by rewrite Z.eqb_refl.
Qed.

Lemma uint_loop_len n BITS upper v acc : zlen (uint_loop n BITS upper v acc) = zlen acc + count_bits n BITS v.
Proof.
  revert v acc. induction n as [|n IH]; intros v acc; cbn [uint_loop count_bits]; [lia|].
  destruct (negb _); [rewrite IH|]; rewrite zlen_cons; lia.
Qed.
Lemma format_uint_defined BITS v upper : format_uint BITS v (count_bits 64 BITS v) upper = Formatted (uint_loop 64 BITS upper v []).
Proof. unfold format_uint. rewrite uint_loop_len. by rewrite Z.eqb_refl. Qed.
Definition digit_char (upper : bool) (d : Z) : byte := if d <? 10 then digit d else byte_of_Z ((if upper then 65 else 97) + (d - 10)).
Lemma digit_char_value base upper d : 0 <= d < base -> base <= 16 -> digit_value base (digit_char upper d) = Some d.
Proof.
  intros Hd Hb. assert (forallb (fun j => let z := byte_to_Z (digit_char upper (Z.of_nat j)) in
    bool_decide ((if (48 <=? z) && (z <=? 57) then z - 48
           else if (97 <=? z) && (z <=? 102) then z - 87
           else if (65 <=? z) && (z <=? 70) then z - 55 else 99) = Z.of_nat j)) (seq 0 16) = true) as H by (by destruct upper; vm_compute).
  rewrite forallb_forall in H. specialize (H (Z.to_nat d)). rewrite Z2Nat.id, bool_decide_eq_true in H by lia.
  unfold digit_value. rewrite H by (apply in_seq; lia). by destruct (Z.ltb_spec d base); [|lia].
Qed.
Lemma low_bits v BITS : 0 <= BITS -> Z.land v (Z.shiftl 1 BITS - 1) = v mod 2 ^ BITS.
Proof. intros. change (Z.shiftl 1 BITS - 1) with (Z.ones BITS). by apply Z.land_ones. Qed.
(** The digits read back as the number. *)
Lemma uint_loop_scan n BITS upper v acc :
  0 < BITS <= 4 -> 0 <= v < 2 ^ (BITS * Z.of_nat n) ->
  exists t, uint_loop n BITS upper v acc = t ++ acc /\
    Forall (fun b => is_Some (digit_value (2 ^ BITS) b)) t /\ scan (2 ^ BITS) 0 t = v.
Proof.
  intros HB. assert (2 ^ BITS <= 2 ^ 4) as H16 by (apply Z.pow_le_mono_r; lia).
  assert (0 < 2 ^ BITS) as Hp by (apply Z.pow_pos_nonneg; lia).
  revert v acc. induction n as [|n IH]; intros v acc Hv.
  { exists []. repeat split; [by apply Forall_nil|]. cbn. change (BITS * Z.of_nat 0) with (BITS * 0) in Hv. rewrite Z.mul_0_r in Hv. cbn in Hv. lia. }
  cbn [uint_loop]. cbv zeta. rewrite low_bits, Z.shiftr_div_pow2 by lia. fold (digit_char upper (v mod 2 ^ BITS)).
  pose proof (Z.mod_pos_bound v (2 ^ BITS) Hp) as Hm.
  pose proof (digit_char_value _ upper _ Hm H16) as Ed. pose proof (Z.div_mod v (2 ^ BITS) ltac:(lia)) as Ev.
  destruct (Z.eqb_spec (v / 2 ^ BITS) 0) as [E0|E0]; cbn [negb].
  - exists [digit_char upper (v mod 2 ^ BITS)]. repeat split; [apply Forall_singleton; by rewrite Ed|]. cbn [scan]. rewrite Ed. lia.
  - destruct (IH (v / 2 ^ BITS) (digit_char upper (v mod 2 ^ BITS) :: acc)) as (t & -> & Ht & Hs).
    { split; [apply Z.div_pos; lia|]. apply Z.div_lt_upper_bound; [lia|]. rewrite <- Z.pow_add_r by lia.
      replace (BITS + BITS * Z.of_nat n) with (BITS * Z.of_nat (S n)) by lia. lia. }
    exists (t ++ [digit_char upper (v mod 2 ^ BITS)]). repeat split.
    + by rewrite <- (assoc_L (++)).
    + apply Forall_app. split; [done|]. apply Forall_singleton. by rewrite Ed.
    + rewrite scan_app by done. rewrite Hs. cbn [scan]. rewrite Ed. lia.
Qed.

(** ** Integers without specifiers *)
Lemma abs_value_abs w v : w = 32 \/ w = 64 -> - 2 ^ (w - 1) <= v < 2 ^ w -> abs_value w v = Z.abs v /\ 0 <= Z.abs v < 2 ^ 64.
Proof.
  intros Hw Hv. unfold abs_value, uwrap. destruct Hw; subst w; destruct (Z.ltb_spec v 0);
    change (2 ^ 32) with 4294967296 in *; change (2 ^ 64) with 18446744073709551616 in *;
    change (2 ^ (32 - 1)) with 2147483648 in *; change (2 ^ (64 - 1)) with 9223372036854775808 in *;
    Z.to_euclidean_division_equations; lia.
Qed.
Lemma write_decimal_to_string w v : w = 32 \/ w = 64 -> - 2 ^ (w - 1) <= v < 2 ^ w -> write_decimal w v = Formatted (to_string v).
Proof.
  intros Hw Hv. destruct (abs_value_abs w v Hw Hv) as [E Ha]. unfold write_decimal. cbv zeta.
  rewrite E, format_decimal_digits by done. cbn [fbind]. unfold to_string.
  destruct (Z.ltb_spec v 0); [by rewrite Z.abs_neq by lia|by rewrite Z.abs_eq by lia].
Qed.

Lemma format_int_decimal_digits v : 0 <= v < 2 ^ 64 -> format_int_decimal v = digits 20 v /\ zlen (digits 20 v) <= 20.
Proof.
  intros Hv. split.
  - unfold format_int_decimal. rewrite decimal_loop_digits, app_nil_r; [done|]. change (100 ^ Z.of_nat 10) with (10 ^ 20). lia.
  - apply digits_len; lia.
Qed.
Lemma format_signed_to_string v : - 2 ^ 63 <= v < 2 ^ 63 -> format_signed v = Formatted (to_string v).
Proof.
  intros Hv. destruct (abs_value_abs 64 v) as [Ea Ha]; [by right|cbn; lia|]. unfold format_signed, in_buffer, to_string. rewrite Ea.
  destruct (format_int_decimal_digits _ Ha) as [-> L].
  destruct (Z.ltb_spec v 0); rewrite zlen_app; [rewrite Z.abs_neq in * by lia|rewrite Z.abs_eq in * by lia];
    match goal with |- context [?a + _ <=? 21] => change a with 1 || change a with 0 end;
    by match goal with |- context [?a <=? 21] => destruct (Z.leb_spec a 21); [|lia] end.
Qed.
Lemma format_unsigned_to_string v : 0 <= v < 2 ^ 64 -> format_unsigned v = Formatted (to_string v).
Proof.
  intros Hv. unfold format_unsigned, in_buffer. destruct (format_int_decimal_digits _ Hv) as [-> L]. rewrite to_string_pos by lia.
  by destruct (Z.leb_spec (zlen (digits 20 v)) 21); [|lia].
Qed.

(** ** Integers with specifiers *)
Definition int_value (a : arg) : option Z :=
  match a with int_arg n | uint_arg n | long_long_arg n | ulong_long_arg n => Some n | _ => None end.
Definition int_width (a : arg) : Z := match a with int_arg _ | uint_arg _ => 32 | _ => 64 end.
Definition base_of_type (c : byte) : option Z :=
  match c with
  | Byte.x00 | Byte.x64 => Some 10
  | Byte.x78 | Byte.x58 => Some 16
  | Byte.x62 | Byte.x42 => Some 2
  | Byte.x6f => Some 8
  | _ => None
  end.
Lemma int_range a v :
  int_value a = Some v -> arg_ok a ->
  (int_width a = 32 \/ int_width a = 64) /\ - 2 ^ (int_width a - 1) <= v < 2 ^ int_width a.
Proof. destruct a; cbn; intros [= ->] H; (split; [auto|]); lia. Qed.
Lemma format_arg_int sep a v specs : int_value a = Some v -> format_arg sep a specs = write_integer sep (int_width a) v specs.
Proof. by destruct a; cbn; intros [= ->]. Qed.

(** Padding goes around a text, in front of it or behind it, up to the width. *)
Lemma write_padded_spec t s :
  exists l r, write_padded t s = replicate l (fill_ s) ++ t ++ replicate r (fill_ s) /\ zlen (write_padded t s) = Z.max (width_ s) (zlen t).
Proof.
  unfold write_padded. destruct (Z.leb_spec (width_ s) (zlen t)).
  { exists 0%nat, 0%nat. cbn. rewrite app_nil_r. split; [done|lia]. }
  set (p := Z.to_nat (width_ s - zlen t)).
  pose proof (Nat.Div0.div_le_upper_bound p 2 p ltac:(lia)) as Hd.
  destruct (align_ s); [exists 0%nat, p|exists 0%nat, p|exists p, 0%nat|exists (p / 2)%nat, (p - p / 2)%nat|exists 0%nat, p];
    cbn [replicate app]; rewrite ?app_nil_r; (split; [done|]); rewrite ?zlen_app; unfold zlen; rewrite ?length_replicate; subst p; unfold zlen in *; lia.
Qed.
Lemma write_digits_spec t prefix s :
  precision_ s = -1 ->
  exists l m r, write_digits t prefix s = replicate l (fill_ s) ++ prefix ++ replicate m (fill_ s) ++ t ++ replicate r (fill_ s) /\
    zlen (write_digits t prefix s) = Z.max (width_ s) (zlen prefix + zlen t).
Proof.
  intros Hp. unfold write_digits. rewrite Hp. pose proof (zlen_nonneg t). pose proof (zlen_nonneg prefix).
  destruct (Z.ltb_spec (zlen t) (-1)); [lia|].
  set (s' := if decide (align_ s = ALIGN_DEFAULT) then _ else s).
  assert (fill_ s' = fill_ s /\ width_ s' = width_ s) as [Ef Ew] by (by subst s'; case_decide).
  destruct (decide (align_ s = ALIGN_NUMERIC)); cbv zeta;
    match goal with |- context [write_padded (prefix ++ replicate (Z.to_nat ?k) _ ++ t) s'] =>
      destruct (write_padded_spec (prefix ++ replicate (Z.to_nat k) (fill_ s) ++ t) s') as (l & r & E & L); rewrite Ef in E; rewrite Ew in L;
      exists l, (Z.to_nat k), r; rewrite L, E; split; [by rewrite <- !(assoc_L (++))|] end;
    rewrite !zlen_app; unfold zlen at 2; rewrite length_replicate; [destruct (Z.ltb_spec (zlen prefix + zlen t) (width_ s))|]; lia.
Qed.
(** What stands in front of the digits. *)
Definition int_prefix (v : Z) (s : format_specs) : bytes :=
  sign_prefix v s ++
  match base_of_type (type_ s) with
  | Some 10 | None => []
  | Some 8 => if flag s HASH_FLAG then str "0" else []
  | Some _ => hash_prefix s
  end.
Lemma count_bits_nonneg n BITS v : 0 <= count_bits n BITS v.
Proof. revert v. induction n as [|n IH]; intros v; cbn [count_bits]; cbv zeta; [lia|]. pose proof (IH (Z.shiftr v BITS)). destruct (negb _); lia. Qed.
Lemma write_int_digits sep w v s base :
  (w = 32 \/ w = 64) -> - 2 ^ (w - 1) <= v < 2 ^ w -> base_of_type (type_ s) = Some base -> precision_ s = -1 ->
  exists t, write_int sep w v s = Formatted (write_digits t (int_prefix v s) s) /\
    Forall (fun b => is_Some (digit_value base b)) t /\ scan base 0 t = Z.abs v.
Proof.
  intros Hw Hv Hb Hp. destruct (abs_value_abs w v Hw Hv) as [Ea Ha]. unfold int_prefix. rewrite Hb.
  assert (forall BITS up, 0 < BITS <= 4 -> exists t, uint_loop 64 BITS up (Z.abs v) [] = t /\
    Forall (fun b => is_Some (digit_value (2 ^ BITS) b)) t /\ scan (2 ^ BITS) 0 t = Z.abs v) as Hu.
  { intros BITS up HB. assert (2 ^ 64 <= 2 ^ (BITS * Z.of_nat 64)) by (apply Z.pow_le_mono_r; lia).
    destruct (uint_loop_scan 64 BITS up (Z.abs v) [] HB ltac:(lia)) as (t & -> & Ht). rewrite app_nil_r. eauto. }
  assert (exists t, digits 20 (Z.abs v) = t /\ Forall (fun b => is_Some (digit_value 10 b)) t /\ scan 10 0 t = Z.abs v) as Hd.
  { destruct (digits_spec 20 (Z.abs v)) as [HF Hs]; [change (10 ^ Z.of_nat 20) with (10 ^ 20); lia|].
    exists (digits 20 (Z.abs v)). repeat split; [|done]. eapply Forall_impl; [exact HF|]. intros b (d & H & ->).
    by rewrite digit_value_digit. }
  unfold write_int, base_of_type in *.
  destruct (type_ s) eqn:Et; try discriminate; injection Hb as <-;
    unfold on_dec, on_hex, on_bin, on_oct; cbv zeta; rewrite Ea, ?format_decimal_digits, ?format_uint_defined by done; cbn [fbind];
    [destruct Hd as (t & -> & Ht)|destruct (Hu 1 false ltac:(lia)) as (t & -> & Ht)|
     match goal with |- context [uint_loop 64 4 ?u] => destruct (Hu 4 u ltac:(lia)) as (t & -> & Ht) end|
     destruct (Hu 1 false ltac:(lia)) as (t & -> & Ht)|destruct Hd as (t & -> & Ht)|
     destruct (Hu 3 false ltac:(lia)) as (t & -> & Ht)|
     match goal with |- context [uint_loop 64 4 ?u] => destruct (Hu 4 u ltac:(lia)) as (t & -> & Ht) end];
    exists t; split; try exact Ht; rewrite ?app_nil_r; try done.
  pose proof (count_bits_nonneg 64 3 (Z.abs v)). rewrite Hp. destruct (Z.leb_spec (-1) (count_bits 64 3 (Z.abs v))); [|lia].
  by rewrite andb_true_r.
Qed.

(** C30: An integer of 32 or 64 bits without specifiers is formatted as
    std::to_string does it, although the number of its digits comes from a
    multiplication of its number of bits and two digits are written at a time;
    with a type of base 2, 8, 10 or 16 its digits read back as its absolute
    value, behind its sign and prefix, and the padding fills the text up to
    the width. *)
Theorem integers_written sep a v s base :
  int_value a = Some v -> arg_ok a -> base_of_type (type_ s) = Some base -> precision_ s = -1 ->
  format_arg sep a None = Formatted (to_string v) /\
  exists text l m t r,
    format_arg sep a (Some s) = Formatted text /\
    text = replicate l (fill_ s) ++ int_prefix v s ++ replicate m (fill_ s) ++ t ++ replicate r (fill_ s) /\
    zlen text = Z.max (width_ s) (zlen (int_prefix v s) + zlen t) /\
    Forall (fun b => is_Some (digit_value base b)) t /\ scan base 0 t = Z.abs v.
Proof.
  intros Ha Hok Hb Hp. destruct (int_range _ _ Ha Hok) as [Hw Hv]. rewrite !(format_arg_int _ _ _ _ Ha).
  split; [by apply write_decimal_to_string|]. cbn [write_integer].
  destruct (write_int_digits sep _ _ _ _ Hw Hv Hb Hp) as (t & -> & Ht & Hs).
  destruct (write_digits_spec t (int_prefix v s) s Hp) as (l & m & r & E & L). eauto 12.
Qed.
Lemma integers_written_witness :
  let s := mkSpecs 8 Byte.x30 ALIGN_NUMERIC HASH_FLAG (-1) Byte.x78 in
  format_arg Byte.x2c (int_arg (-255)) (Some s) = Formatted (str "-0x000ff") /\
  exists text l m t r,
    format_arg Byte.x2c (int_arg (-255)) (Some s) = Formatted text /\
    text = replicate l Byte.x30 ++ int_prefix (-255) s ++ replicate m Byte.x30 ++ t ++ replicate r Byte.x30 /\
    zlen text = Z.max 8 (zlen (int_prefix (-255) s) + zlen t) /\
    Forall (fun b => is_Some (digit_value 16 b)) t /\ scan 16 0 t = 255.
Proof.
  split; [reflexivity|].
  refine (proj2 (integers_written Byte.x2c (int_arg (-255)) (-255) (mkSpecs 8 Byte.x30 ALIGN_NUMERIC HASH_FLAG (-1) Byte.x78) 16 eq_refl _ eq_refl eq_refl)).
  cbn. lia.
Defined.

(** ** Formatting is defined

    [wp m Q]: [m] is an error, or a value with [Q]. *)
Definition wp {A} (m : fres A) (Q : A -> Prop) : Prop :=
  match m with Formatted a => Q a | FormatError _ => True | Undefined => False end.
Lemma wp_bind {A B} (m : fres A) (k : A -> fres B) Q : wp m (fun a => wp (k a) Q) -> wp (fbind m k) Q.
Proof. by destruct m. Qed.
Lemma wp_mono {A} (m : fres A) (P Q : A -> Prop) : wp m P -> (forall a, P a -> Q a) -> wp m Q.
Proof. destruct m; cbn; auto. Qed.
Ltac wp_done := cbn [wp fst snd]; solve [done | lia].
Lemma tail_len {A} (l : list A) : (length (tail l) <= length l)%nat.
Proof. destruct l; cbn; lia. Qed.

(** What is parsed is behind what was there. *)
Lemma int_loop_len v l : (length (int_loop v l).2 <= length l)%nat.
Proof. revert v. induction l as [|c l IH]; intros v; cbn [int_loop]; [done|]. repeat case_match; cbn [length snd]; try lia. etrans; [apply IH|lia]. Qed.
Lemma parse_nonnegative_int_wp l : wp (parse_nonnegative_int l) (fun r => (length r.2 <= length l)%nat).
Proof. unfold parse_nonnegative_int. pose proof (int_loop_len 0 l). destruct (int_loop 0 l). case_match; wp_done. Qed.
Lemma name_end_len l : (length (name_end l) <= length l)%nat.
Proof. induction l as [|c l IH]; cbn [name_end]; [done|]. case_match; cbn [length]; lia. Qed.
Lemma parse_arg_id_wp l : wp (parse_arg_id l) (fun r => (length r.2 <= length l)%nat).
Proof.
  unfold parse_arg_id. cbv zeta. case_match; [wp_done|]. case_match.
  - apply wp_bind. eapply wp_mono; [apply parse_nonnegative_int_wp|]. intros [i l'] Hl. case_match; wp_done.
  - case_match; [wp_done|]. cbn. etrans; [apply name_end_len|apply tail_len].
Qed.
Lemma get_arg_wp args ref id : Forall arg_ok args -> wp (get_arg args ref id) (fun r => arg_ok r.1).
Proof.
  intros HF. assert (forall i, wp (do_get_arg args i) arg_ok) as H.
  { intros i. unfold do_get_arg. destruct (args !! Z.to_nat i) eqn:E; [|done]. cbn. eapply Forall_lookup_1; eauto. }
  destruct ref as [|i|]; cbn [get_arg]; [| |done]; apply wp_bind; [unfold next_arg_id|unfold check_arg_id]; case_match; try wp_done;
    cbn [wp]; apply wp_bind; (eapply wp_mono; [apply H|]); wp_done.
Qed.
Lemma set_dynamic_spec_wp what a : wp (set_dynamic_spec what a) (fun _ => True).
Proof. unfold set_dynamic_spec. apply wp_bind. destruct a; cbn [wp width_checker]; try done; case_match; cbn [wp]; try done; case_match; wp_done. Qed.
Lemma parse_dynamic_wp what args l id : Forall arg_ok args -> wp (parse_dynamic what args l id) (fun r => (length r.1.2 <= length l)%nat).
Proof.
  intros HF. unfold parse_dynamic. apply wp_bind. eapply wp_mono; [apply parse_arg_id_wp|]. intros [ref l'] Hl. cbn [snd] in Hl.
  apply wp_bind. eapply wp_mono; [by apply get_arg_wp|]. intros [w id'] _. apply wp_bind. eapply wp_mono; [apply set_dynamic_spec_wp|]. intros n _.
  case_decide; [|wp_done]. cbn. pose proof (tail_len l). pose proof (tail_len l'). lia.
Qed.
(** A step of [parse_format_specs] leaves a part of the string. *)
Ltac wp_specs :=
  repeat match goal with
  | |- wp (fbind _ _) _ => apply wp_bind
  | |- wp (if decide _ then _ else _) _ => case_decide
  | |- wp (if _ then _ else _) _ => case_match
  | |- wp (on_error _) _ => exact I
  end.
Lemma checks_wp a : wp (require_numeric_argument a) (fun _ => True) /\ wp (check_sign a) (fun _ => True) /\ wp (end_precision a) (fun _ => True).
Proof. by destruct a. Qed.
Lemma setters_wp a s al :
  wp (on_align al a s) (fun _ => True) /\ wp (on_plus a s) (fun _ => True) /\ wp (on_minus a s) (fun _ => True) /\
  wp (on_space a s) (fun _ => True) /\ wp (on_hash a s) (fun _ => True) /\ wp (on_zero a s) (fun _ => True).
Proof. unfold on_align. repeat split; [case_decide|..]; by destruct a. Qed.
Lemma parse_align_wp a l s : wp (parse_align a l s) (fun r => (length r.1 <= length l)%nat).
Proof.
  unfold parse_align. cbv zeta. pose proof (tail_len l). wp_specs; [|(eapply wp_mono; [apply setters_wp|])..|wp_done];
    [eapply wp_mono; [apply setters_wp|]|]; intros s' _; cbn [wp fst]; rewrite ?length_drop; lia.
Qed.
Lemma parse_sign_wp a l s : wp (parse_sign a l s) (fun r => (length r.1 <= length l)%nat).
Proof. pose proof (tail_len l). unfold parse_sign. case_match; try wp_done; apply wp_bind; (eapply wp_mono; [apply setters_wp; exact ALIGN_LEFT|]); intros; wp_done. Qed.

Abbreviation behind l := (fun r => length r.1.1 <= length l)%nat.
Lemma parse_number_wp what args l id (k : Z -> bytes -> Z -> bytes * format_specs * Z) (l0 : bytes) :
  Forall arg_ok args -> (forall n l' id', (k n l' id').1.1 = l') -> (length l <= length l0)%nat ->
  wp (do (n, l') <- parse_nonnegative_int l in Formatted (k n l' id)) (behind l0) /\
  wp (do (n, l', id') <- parse_dynamic what args l id in Formatted (k n l' id')) (behind l0).
Proof.
  intros HF Hk Hl. split; apply wp_bind.
  - eapply wp_mono; [apply parse_nonnegative_int_wp|]. intros [n l'] H. cbn [wp snd] in *. rewrite Hk. lia.
  - eapply wp_mono; [by apply parse_dynamic_wp|]. intros [[n l'] id'] H. cbn [wp fst snd] in *. rewrite Hk. lia.
Qed.
Lemma parse_width_wp args l s id : Forall arg_ok args -> wp (parse_width args l s id) (behind l).
Proof.
  intros HF. destruct (parse_number_wp "width" args l id (fun n l id => (l, with_width n s, id)) l) as [H1 H2]; [done..|].
  unfold parse_width. case_match; [exact H1|]. case_decide; [exact H2|wp_done].
Qed.
Lemma parse_precision_wp args a l s id : Forall arg_ok args -> wp (parse_precision args a l s id) (behind l).
Proof.
  intros HF. unfold parse_precision. case_decide; [|wp_done]. cbv zeta. apply wp_bind.
  destruct (parse_number_wp "precision" args (tail l) id (fun n l id => (l, with_precision n s, id)) l) as [H1 H2]; [done|done|apply tail_len|].
  apply wp_mono with (P := behind l).
  - case_match; [exact H1|]. case_decide; [exact H2|wp_done].
  - intros [[l' s'] id'] Hl. apply wp_bind. eapply wp_mono; [apply checks_wp|]. intros _ _. wp_done.
Qed.
Lemma parse_flag_wp (c : byte) (f : fres format_specs) (l : bytes) (s : format_specs) :
  wp f (fun _ => True) ->
  wp (if decide (peek l = c) then do s <- f in Formatted (tail l, s) else Formatted (l, s)) (fun r => (length r.1 <= length l)%nat).
Proof. intros H. pose proof (tail_len l). case_decide; [apply wp_bind; eapply wp_mono; [exact H|]; intros|]; wp_done. Qed.
Lemma parse_format_specs_wp args a l id : Forall arg_ok args -> wp (parse_format_specs args a l id) (behind l).
Proof.
  intros HF. unfold parse_format_specs. cbv zeta. case_match; [wp_done|].
  apply wp_bind. eapply wp_mono; [apply parse_align_wp|]. intros [l1 s1] H1.
  apply wp_bind. eapply wp_mono; [apply parse_sign_wp|]. intros [l2 s2] H2.
  apply wp_bind. eapply wp_mono; [apply (parse_flag_wp Byte.x23 (on_hash a s2)); apply (setters_wp a s2 ALIGN_LEFT)|]. intros [l3 s3] H3.
  apply wp_bind. eapply wp_mono; [apply (parse_flag_wp Byte.x30 (on_zero a s3)); apply (setters_wp a s3 ALIGN_LEFT)|]. intros [l4 s4] H4.
  apply wp_bind. eapply wp_mono; [by apply parse_width_wp|]. intros [[l5 s5] id5] H5.
  apply wp_bind. eapply wp_mono; [by apply parse_precision_wp|]. intros [[l6 s6] id6] H6.
  cbn [fst snd] in *. pose proof (tail_len l6). case_match; wp_done.
Qed.

(** Every number is written. *)
Lemma write_int_wp sep w v s : w = 32 \/ w = 64 -> - 2 ^ (w - 1) <= v < 2 ^ w -> wp (write_int sep w v s) (fun _ => True).
Proof.
  intros Hw Hv. destruct (abs_value_abs w v Hw Hv) as [Ea Ha]. unfold write_int.
  case_match; try done; unfold on_dec, on_hex, on_bin, on_oct, on_num; cbv zeta;
    by rewrite Ea, ?format_decimal_digits, ?format_uint_defined, ?format_decimal_sep by done.
Qed.
Lemma write_integer_wp sep w v specs : w = 32 \/ w = 64 -> - 2 ^ (w - 1) <= v < 2 ^ w -> wp (write_integer sep w v specs) (fun _ => True).
Proof. intros Hw Hv. destruct specs; cbn [write_integer]; [by apply write_int_wp|by rewrite write_decimal_to_string]. Qed.
Lemma format_char_wp sep c specs : wp (format_char sep c specs) (fun _ => True).
Proof.
  unfold format_char. destruct specs as [s|]; [|done]. case_match; [|by case_match].
  apply write_int_wp; [by left|]. pose proof (swrap_range 8 (byte_to_Z c)). cbn. lia.
Qed.
Lemma format_arg_wp sep a specs : arg_ok a -> wp (format_arg sep a specs) (fun _ => True).
Proof.
  intros Ha. assert (forall p, 0 <= p < 2 ^ 64 -> wp (write_pointer sep p specs) (fun _ => True)) as Hp.
  { intros p Hp. apply write_int_wp; [by right|]. cbn. lia. }
  destruct a; cbn [format_arg arg_ok] in *; try (apply write_integer_wp; cbn; lia).
  - case_match; [|done]. apply write_integer_wp; [by left|]. destruct b; cbn; lia.
  - apply format_char_wp.
  - unfold format_cstring. destruct specs as [sp|], s as [t|]; try done; case_match; try done; by apply Hp.
  - by case_match.
  - case_match; [done|by apply Hp].
Qed.
Lemma on_field_wp sep args l id : Forall arg_ok args -> wp (on_field sep args l id) (fun r => (length r.1.2 <= length l)%nat).
Proof.
  intros HF. unfold on_field. apply wp_bind. eapply wp_mono; [apply parse_arg_id_wp|]. intros [ref l1] H1. cbn [snd] in H1.
  apply wp_bind. eapply wp_mono; [by apply get_arg_wp|]. intros [a id1] Ha. cbn [fst] in Ha.
  destruct l1 as [|c l1]; [done|]. cbn [length] in H1. case_match; try done.
  - apply wp_bind. eapply wp_mono; [by apply parse_format_specs_wp|]. intros [[l2 s] id2] H2. cbn [fst] in H2. pose proof (tail_len l2).
    case_decide; [|done]. apply wp_bind. eapply wp_mono; [by apply format_arg_wp|]. intros. wp_done.
  - apply wp_bind. eapply wp_mono; [by apply format_arg_wp|]. intros. wp_done.
Qed.
Lemma write_text_wp l : wp (write_text l) (fun _ => True).
Proof.
  remember (length l) as n eqn:E. revert l E. induction n as [n IH] using lt_wf_ind. intros [|c l] ->; [done|]. cbn [write_text].
  case_decide; [destruct l as [|c' l]; [done|]; case_decide; [|done]|]; apply wp_bind;
    (eapply wp_mono; [eapply IH; [|reflexivity]; cbn; lia|]); done.
Qed.
Lemma from_brace_len l : (length (from_brace l) <= length l)%nat.
Proof. induction l as [|c l IH]; cbn [from_brace]; [done|]. case_decide; cbn [length]; lia. Qed.
Lemma parse_loop_wp sep n args l id out : Forall arg_ok args -> (length l < n)%nat -> wp (parse_loop sep n args l id out) (fun _ => True).
Proof.
  intros HF. revert l id out. induction n as [|n IH]; intros l id out Hn; [lia|]. cbn [parse_loop].
  apply wp_bind. eapply wp_mono; [apply write_text_wp|]. intros t _. pose proof (from_brace_len l) as Hb.
  destruct (from_brace l) as [|b [|c l']]; [done..|]. cbn [length] in Hb. case_decide; [apply IH; lia|].
  apply wp_bind. eapply wp_mono; [by apply on_field_wp|]. intros [[f l2] id2] H2. cbn [fst snd length] in H2. apply IH. lia.
Qed.

(** C31: Every format string with every list of arguments, specifiers and
    thousands separators included, ends in a text or in a format_error: the
    digits of a number fill exactly the room that was counted for them, and
    the parser always ends. *)
Theorem format_is_defined sep format_str args :
  Forall arg_ok args ->
  (exists text, vformat sep format_str args = Formatted text) \/ (exists message, vformat sep format_str args = FormatError message).
Proof.
  intros HF. pose proof (parse_loop_wp sep (length format_str + 1) args format_str 0 [] HF ltac:(lia)) as H.
  unfold vformat. destruct (parse_loop _ _ _ _ _ _); cbn in H; [left|right|done]; eauto.
Qed.
Lemma format_is_defined_witness :
  (exists text, vformat Byte.x2c (str "{:n} {:{}}") [int_arg (-1234567890); string_arg (str "a"); int_arg 5] = Formatted text) \/
  (exists message, vformat Byte.x2c (str "{:n} {:{}}") [int_arg (-1234567890); string_arg (str "a"); int_arg 5] = FormatError message).
Proof. apply (format_is_defined Byte.x2c (str "{:n} {:{}}") [int_arg (-1234567890); string_arg (str "a"); int_arg 5]). repeat constructor; cbn; lia. Defined.

(** ** Format strings of text and of fields without specifiers *)
Inductive token := Ch (c : byte) | Hole.
Definition render_token (t : token) : bytes :=
  match t with
  | Hole => str "{}"
  | Ch c => if decide (c = Byte.x7b \/ c = Byte.x7d) then [c; c] else [c]
  end.
Definition render (ts : list token) : bytes := ts ≫= render_token.
(** What an argument looks like. *)
Definition shown (a : arg) : bytes :=
  match a with
  | int_arg n | uint_arg n | long_long_arg n | ulong_long_arg n => to_string n
  | bool_arg b => if b then str "true" else str "false"
  | char_arg c => [c]
  | cstring_arg _ s => default [] s
  | string_arg s => s
  | pointer_arg p => str "0x" ++ uint_loop 64 4 false p []
  end.
Definition is_null (a : arg) : bool := match a with cstring_arg _ None => true | _ => false end.
(** The arguments take the places of the fields, in their order; the first
    field without an argument, or with a null pointer to a string, is an error. *)
Fixpoint fill (ts : list token) (args : list arg) : fres bytes :=
  match ts with
  | [] => Formatted []
  | Ch c :: ts => fbind (fill ts args) (fun t => Formatted (c :: t))
  | Hole :: ts =>
      match args with
      | a :: args =>
          if is_null a then on_error "string pointer is null"
          else fbind (fill ts args) (fun t => Formatted (shown a ++ t))
      | [] => on_error "argument index out of range"
      end
  end.
Lemma fill_defined ts args : (exists t, fill ts args = Formatted t) \/ (exists message, fill ts args = FormatError message).
Proof.
  revert args. induction ts as [|[c|] ts IH]; intros args; cbn; [eauto| |].
  - destruct (IH args) as [[t ->]|[m ->]]; cbn; eauto.
  - destruct args as [|a args]; [eauto|]. destruct (is_null a); [eauto|]. destruct (IH args) as [[t ->]|[m ->]]; cbn; eauto.
Qed.
Lemma write_digits_plain t prefix s : align_ s = ALIGN_DEFAULT -> precision_ s = -1 -> width_ s = 0 -> write_digits t prefix s = prefix ++ t.
Proof.
  intros Ha Hp Hw. unfold write_digits. rewrite Ha, Hp. pose proof (zlen_nonneg t). pose proof (zlen_nonneg (prefix ++ t)).
  rewrite decide_False, decide_True by done. destruct (Z.ltb_spec (zlen t) (-1)); [lia|].
  change (replicate (Z.to_nat 0) (fill_ s) ++ t) with t. unfold write_padded. cbn [width_ with_align].
  rewrite Hw. by destruct (Z.leb_spec 0 (zlen (prefix ++ t))); [|lia].
Qed.
Lemma format_arg_shown sep a : arg_ok a -> format_arg sep a None = if is_null a then on_error "string pointer is null" else Formatted (shown a).
Proof.
  intros Ha. destruct (int_value a) as [v|] eqn:Ei.
  { destruct (int_range _ _ Ei Ha) as [Hw Hv]. rewrite (format_arg_int _ _ _ _ Ei). cbn [write_integer].
    rewrite write_decimal_to_string by done. destruct a; cbn in *; by simplify_eq. }
  destruct a as [| | | |b| |p [t|]| |p]; try done. cbn [format_arg has_type andb].
  unfold write_pointer, write_int, on_hex. cbn [default type_ with_type]. cbv zeta. cbn in Ha.
  destruct (abs_value_abs 64 p) as [-> _]; [by right|cbn; lia|]. rewrite format_uint_defined, Z.abs_eq by lia. cbn [fbind].
  unfold sign_prefix. destruct (Z.ltb_spec p 0); [lia|]. rewrite write_digits_plain by done. done.
Qed.
(** A character of the text, and a pair of closing braces. *)
Ltac loop_text l :=
  destruct (from_brace l) as [|? [|c' l']]; cbn; [by rewrite <- (assoc_L (++))|done|];
  case_decide; [by rewrite <- (assoc_L (++))|];
  match goal with |- fbind ?m _ = _ => destruct m as [[[f l''] id'']| |] end; cbn; [by rewrite <- (assoc_L (++))|done..].
Lemma parse_loop_char sep n args c l id out :
  c <> Byte.x7b -> c <> Byte.x7d -> parse_loop sep (S n) args (c :: l) id out = parse_loop sep (S n) args l id (out ++ [c]).
Proof.
  intros H1 H2. cbn [parse_loop before_brace from_brace]. rewrite !(decide_False _ _ H1). cbn [write_text]. rewrite (decide_False _ _ H2).
  destruct (write_text (before_brace l)) as [t| |]; cbn [fbind]; [|done..].
  loop_text l.
Qed.
Lemma parse_loop_close sep n args l id out :
  parse_loop sep (S n) args (Byte.x7d :: Byte.x7d :: l) id out = parse_loop sep (S n) args l id (out ++ [Byte.x7d]).
Proof.
  cbn [parse_loop before_brace from_brace]. rewrite !decide_False by done. cbn [write_text]. rewrite !decide_True by done.
  destruct (write_text (before_brace l)) as [t| |]; cbn [fbind]; [|done..].
  loop_text l.
Qed.
Lemma parse_loop_render sep n args ts id out :
  Forall arg_ok args -> (length (render ts) < n)%nat ->
  parse_loop sep n args (render ts) (Z.of_nat id) out =
    fbind (fill ts (drop id args)) (fun t => Formatted (out ++ t)).
Proof.
  intros HF. revert n id out. induction ts as [|[c|] ts IH]; intros n id out Hn; destruct n as [|n]; try (cbn in Hn; lia).
  - cbn. by rewrite app_nil_r.
  - change (render (Ch c :: ts)) with (render_token (Ch c) ++ render ts) in *. rewrite length_app in Hn.
    cbn [fill]. cbn [render_token] in *. case_decide as Hc; cbn [app length] in *.
    + destruct Hc as [-> | ->].
      * cbn [parse_loop before_brace from_brace write_text fbind app]. rewrite !decide_True by done. cbn [app fbind write_text].
        rewrite IH by lia. destruct (fill ts (drop id args)); cbn; [by rewrite <- (assoc_L (++))|done..].
      * rewrite parse_loop_close, IH by lia. destruct (fill ts (drop id args)); cbn; [by rewrite <- (assoc_L (++))|done..].
    + rewrite parse_loop_char, IH by (first [naive_solver|lia]). destruct (fill ts (drop id args)); cbn; [by rewrite <- (assoc_L (++))|done..].
  - change (render (Hole :: ts)) with (Byte.x7b :: Byte.x7d :: render ts) in *. cbn [length] in Hn.
    cbn [parse_loop before_brace from_brace write_text fbind app]. rewrite !decide_True by done. cbn [app fbind write_text].
    rewrite decide_False by done. unfold on_field, parse_arg_id. cbn [peek head default]. cbv zeta. cbn [fbind].
    change (bool_decide (_ = _) || _) with true. cbn [fbind get_arg]. unfold next_arg_id.
    destruct (Z.leb_spec 0 (Z.of_nat id)); [|lia]. cbn [fbind]. unfold do_get_arg. rewrite Nat2Z.id.
    destruct (args !! id) as [a|] eqn:E.
    + rewrite (drop_S _ _ _ E). cbn [fbind fill]. rewrite format_arg_shown by (by eapply Forall_lookup_1). destruct (is_null a); [done|]. cbn [fbind].
      replace (Z.of_nat id + 1) with (Z.of_nat (S id)) by lia. rewrite IH by lia.
      destruct (fill ts (drop (S id) args)); cbn; [by rewrite <- (assoc_L (++))|done..].
    + by rewrite drop_ge by (by apply lookup_ge_None).
Qed.
Lemma vformat_render sep args ts :
  Forall arg_ok args -> vformat sep (render ts) args = fill ts args.
Proof.
  intros HF. unfold vformat. rewrite (parse_loop_render sep _ args ts 0 []) by (first [done|lia]). rewrite drop_0. by destruct (fill ts args).
Qed.

(** ** Examples *)
Abbreviation fmt f args := (vformat Byte.x2c (str f) args).
Example fmt_plain : fmt "[{}:{}] a {{}} {}" [string_arg (str "x.cc"); int_arg (-12); bool_arg true] = Formatted (str "[x.cc:-12] a {} true").
Proof. reflexivity. Qed.
Example fmt_specs : fmt "{:>5}|{:*^7}|{:08.3}|{:#x}|{:+d}" [int_arg 42; string_arg (str "ab"); string_arg (str "abcdef"); int_arg 255; int_arg 7] =
  FormatError (str "format specifier requires numeric argument").
Proof. reflexivity. Qed.
Example fmt_specs2 : fmt "{:>5}|{:*^7}|{:8.3}|{:#x}|{:+d}|{:<#010b}|{:o}" [int_arg 42; string_arg (str "ab"); string_arg (str "abcdef"); int_arg 255; int_arg 7; uint_arg 5; int_arg 8] =
  Formatted (str "   42|**ab***|abc     |0xff|+7|0b00000101|10").
Proof. vm_compute. reflexivity. Qed.
Example fmt_dyn : fmt "{:{}.{}}|{:n}" [string_arg (str "abcdef"); int_arg 6; int_arg 2; long_long_arg 1234567] = Formatted (str "ab    |1,234,567").
Proof. reflexivity. Qed.
Example fmt_num : fmt "{:n}" [int_arg 1234567890] = Formatted (str "1,234,567,890").
Proof. reflexivity. Qed.
Example fmt_minint : fmt "{}|{}" [int_arg (-2147483648); ulong_long_arg 18446744073709551615] = Formatted (str "-2147483648|18446744073709551615").
Proof. reflexivity. Qed.
End Fmt.
