(* ===== verification/LogCall.v ===== *)
(** * The calls of the logger: the LOG macros of src/common/log.h

    A macro puts the place of the call in front of the format string.  The logger
    (src/opt/spdlog/include/spdlog/details/logger_impl.h) formats the message with
    [Fmt] and hands it to [Async]; where fmt throws, the message is lost and the
    error handler prints a line, at most once a minute.  The helpers that the log
    formatter writes numbers with are what fmt computes. *)

From Stdlib Require Import ZArith Lia.
From stdpp Require Import base list gmap strings.
From S2P Require Import Prelude Endian Buffer Text LogTime LogFormat LogFile LogQueue Fmt.
Local Open Scope Z_scope.

Module LogCall.
Import Calendar Pattern Async Fmt.

(** The logger with what its error handler keeps, and the lines on [stderr]. *)
Record logger := mkLog {
  async : Async.state;
  last_err_time_ : Z;
  stderr : list bytes;
}.

Section calls.
(** The separator of thousands of the locale, and the time zone. *)
Context (sep : byte) (offset : Z).

(** [strftime] with ["%Y-%m-%d %H:%M:%S"]. *)
Definition date_buf (t : tm) : bytes :=
  append_int (tm_year t + 1900) ++ str "-" ++ pad2 (tm_mon t + 1) ++ str "-" ++ pad2 (tm_mday t) ++ str " " ++
  pad2 (tm_hour t) ++ str ":" ++ pad2 (tm_min t) ++ str ":" ++ pad2 (tm_sec t).
(** [now] is in seconds.  The call is one step. *)
Definition default_err_handler_ (now : Z) (msg : bytes) (l : logger) : fres logger :=
  if now - last_err_time_ l <? 60 then Formatted l
  else
    fbind (vformat sep (str "[*** LOG ERROR ***] [{}] [{}] {}" ++ [Byte.x0a])
             [cstring_arg 1 (Some (date_buf (localtime offset now))); string_arg (name_ (logger_ (async l))); string_arg msg])
      (fun line => Formatted (mkLog (async l) now (stderr l ++ [line]))).
(** [logger::log], up to [post_log]; [None] where the thread is inside another
    call.  The message takes the time [now]; [err_now] is the clock of the
    handler. *)
Definition log (tid now err_now : Z) (lvl : level_enum) (fmt : bytes) (args : list arg) (l : logger) : fres (option logger) :=
  match posting (async l) !! tid with
  | Some _ => Formatted None
  | None =>
      if negb (should_log lvl (logger_ (async l))) then Formatted (Some l)
      else
        match vformat sep fmt args with
        | Formatted raw =>
            Formatted ((fun s => mkLog s (last_err_time_ l) (stderr l)) <$> Async.log tid now lvl raw (async l))
        | FormatError message => fbind (default_err_handler_ err_now message l) (fun l => Formatted (Some l))
        | Undefined => Undefined
        end
  end.
(** The names of the file and of the function are literals: their addresses show
    only in fields of type 'p', which a format string without indices cannot
    have for them. *)
Definition LOG (lvl : level_enum) (file function : bytes) (line : Z) (fmt : bytes) (args : list arg) (tid now err_now : Z) (l : logger) :
    fres (option logger) :=
  log tid now err_now lvl (str "[{}:{}:{}] " ++ fmt) (cstring_arg 1 (Some file) :: cstring_arg 1 (Some function) :: int_arg line :: args) l.

(** ** The text of a message *)
Definition place : list token := [Ch Byte.x5b; Hole; Ch Byte.x3a; Hole; Ch Byte.x3a; Hole; Ch Byte.x5d; Ch Byte.x20].
Definition place_text (file function : bytes) (line : Z) : bytes :=
  str "[" ++ file ++ str ":" ++ function ++ str ":" ++ to_string line ++ str "] ".
Lemma fill_place file function line ts args :
  fill (place ++ ts) (cstring_arg 1 (Some file) :: cstring_arg 1 (Some function) :: int_arg line :: args) =
    fbind (fill ts args) (fun text => Formatted (place_text file function line ++ text)).
Proof.
  unfold place_text. cbn [place app fill shown default is_null]. destruct (fill ts args) as [text| |]; [|done..].
  cbn. by repeat (rewrite <- (assoc_L (++)); cbn).
Qed.
(** A line of the error handler. *)
Definition error_line (now : Z) (name message : bytes) : bytes :=
  str "[*** LOG ERROR ***] [" ++ date_buf (localtime offset now) ++ str "] [" ++ name ++ str "] " ++ message ++ [Byte.x0a].
Lemma err_handler_line now msg l :
  default_err_handler_ now msg l =
    Formatted (if now - last_err_time_ l <? 60 then l else mkLog (async l) now (stderr l ++ [error_line now (name_ (logger_ (async l))) msg])).
Proof.
  unfold default_err_handler_. case_match; [done|].
  change (str "[*** LOG ERROR ***] [{}] [{}] {}" ++ [Byte.x0a]) with
    (render (map Ch (str "[*** LOG ERROR ***] [") ++ [Hole] ++ map Ch (str "] [") ++ [Hole] ++ map Ch (str "] ") ++ [Hole; Ch Byte.x0a])).
  by rewrite vformat_render by (by repeat constructor; cbn; lia).
Qed.

End calls.

(** ** The helpers of the log formatter *)

(** [append_int] is the class [format_int]; the zeros in front of a negative
    number, which [pad2] and [pad3] leave to fmt, are those of [fmt_zero]. *)
Lemma append_int_format_int n : - 2 ^ 63 <= n < 2 ^ 63 -> format_signed n = Formatted (append_int n).
Proof. exact (format_signed_to_string n). Qed.
Lemma vformat_zero_dec sep w n c :
  w = 2 /\ c = Byte.x32 \/ w = 3 /\ c = Byte.x33 ->
  vformat sep [Byte.x7b; Byte.x3a; Byte.x30; c; Byte.x7d] [int_arg n] =
    on_dec 32 n (mkSpecs w Byte.x30 ALIGN_NUMERIC 0 (-1) Byte.x00).
Proof.
  intros Hw. assert (on_field sep [int_arg n] [Byte.x3a; Byte.x30; c; Byte.x7d] 0 =
    fbind (on_dec 32 n (mkSpecs w Byte.x30 ALIGN_NUMERIC 0 (-1) Byte.x00)) (fun t => Formatted (t, [], 1))) as E
    by (by destruct Hw as [[-> ->]|[-> ->]]).
  change (vformat sep [Byte.x7b; Byte.x3a; Byte.x30; c; Byte.x7d] [int_arg n]) with
    (fbind (on_field sep [int_arg n] [Byte.x3a; Byte.x30; c; Byte.x7d] 0) (fun '(f, l', id) => parse_loop sep 5 [int_arg n] l' id ([] ++ [] ++ f))).
  rewrite E. destruct (on_dec _ _ _); cbn; by rewrite ?app_nil_r.
Qed.
Lemma vformat_zero sep w n c :
  w = 2 /\ c = Byte.x32 \/ w = 3 /\ c = Byte.x33 -> - 2 ^ 31 <= n < 2 ^ 31 ->
  vformat sep [Byte.x7b; Byte.x3a; Byte.x30; c; Byte.x7d] [int_arg n] = Formatted (fmt_zero (Z.to_nat w) n).
Proof.
  intros Hw Hn. rewrite (vformat_zero_dec _ w) by done.
  unfold on_dec. cbv zeta. destruct (abs_value_abs 32 n) as [-> Ha]; [by left|cbn; lia|].
  rewrite format_decimal_digits by done. cbn [fbind]. f_equal. unfold write_digits, fmt_zero, pad. cbn [align_ width_ fill_ precision_].
  rewrite decide_True, decide_False by done. change (sign_prefix n _) with (if n <? 0 then str "-" else []).
  set (prefix := if n <? 0 then str "-" else []).
  assert (forall t : bytes, replicate (Z.to_nat (if zlen prefix + zlen t <? w then w - (zlen prefix + zlen t) else 0)) Byte.x30 =
    replicate (Z.to_nat w - length prefix - length t) Byte.x30) as Er.
  { intros t. unfold zlen. f_equal. destruct (Z.ltb_spec (Z.of_nat (length prefix) + Z.of_nat (length t)) w); lia. }
  rewrite Er. unfold write_padded. cbn [width_].
  match goal with |- context [w <=? zlen ?l] => assert (w <= zlen l) as Hz by (unfold zlen; rewrite !length_app, length_replicate; lia) end.
  apply Z.leb_le in Hz. rewrite Hz. subst prefix. destruct (Z.ltb_spec n 0).
  - by rewrite Z.abs_neq, to_string_pos by lia.
  - by rewrite Z.abs_eq, to_string_pos, Nat.sub_0_r by lia.
Qed.

(** ** The calls of RedisClient::HGetAll and of the loop *)
Definition demo : logger := mkLog Async.Demo.start 0 [].
Abbreviation redis_call := (LOG Byte.x2c HourlySink.Demo.zone8 err (str "RedisClient.cc") (str "HGetAll") 122 (str "redis connect error:{}") [] 1 5000000000 100).
Abbreviation loop_call := (LOG Byte.x2c HourlySink.Demo.zone8 info (str "Loop.cc") (str "~Loop") 9 (str "loop destory:{}") [int_arg (-3)] 1 5000000000 100).
Abbreviation reply_call := (LOG Byte.x2c HourlySink.Demo.zone8 err (str "RedisClient.cc") (str "PipeLine") 58 (str "redis pipeline execute error:{}")
  [cstring_arg 0 None] 1 5000000000 100).
End LogCall.
